(* ===== verification/_CoqProject ===== *)
-Q . S2P
Prelude.v
Text.v
Vocabulary.v
Trace.v
Identity.v
Topics.v
Registry.v
Outbox.v
OutboxOrder.v
Lifecycle.v
Relay.v
Retry.v
Received.v
Cache.v
Dispatch.v
Worker.v
Wire.v
Ingest.v
Decimal.v
Schema.v
Changelog.v
Migrations.v
ReplayChangeset.v
Roles.v
Config.v
Resync.v
Operability.v
QueueMetrics.v
Admin.v
TopicBoot.v
Supervisor.v
Runtime.v
Serving.v
Contracts.v
WriteTx.v
OrderService.v
Faults.v
ProductService.v
ServiceBoot.v
Provision.v
Metrics.v
Otel.v
Propagation.v
Spans.v
IngestSpans.v
CanonicalJson.v
Pipeline.v
EndToEnd.v
Observers.v
Harness.v
