(* ===== verification/Prelude.v ===== *)
(** * kafkaman: a verification library

    kafkaman moves the state of entities between services. A service changes
    its business tables and, in the same transaction, puts the entity's new
    state into an outbox table; a relay publishes outbox rows to Kafka; a
    consumer stores each record in a received table; a dispatcher takes stored
    rows one by one, brings a local cache of the entity up to date and runs the
    application's handlers, all in one transaction. The sources are the crates
    under [src/crates], with two services built on them under [src/examples]. A
    host declares the message types it publishes and
    consumes; a builder turns the declarations and a configuration file into
    topics, tables and supervised loops, and HTTP routes let an operator inspect
    the queues and redrive what is parked. This library models those parts and
    the values they exchange, and proves what makes them correct.

    ** Parts, files and sources

    - [Prelude] (this file): results, database operations as state passing,
      machine integers, the SQL fragments the statements use, and the lemmas and
      tactics the other files share.
    - [Text]: strings as bytes, and [kafkaman-core/src/text.rs].
    - [Vocabulary]: statuses, failure classes, problem types and error types
      ([enum_macros.rs], [status.rs], [failure_kind.rs], [problem.rs] and
      [error.rs] of kafkaman-core, [error.rs] of kafkaman-sqlx). The class
      [NamedEnum] is what the enum macros promise.
    - [Trace]: W3C trace context ([kafkaman-core/src/trace.rs]).
    - [Identity]: idempotency keys, reserved headers, envelopes, advisory lock
      keys ([idempotency.rs], [message.rs], [envelope.rs] of kafkaman-core,
      [lock_keys.rs] of kafkaman-sqlx).
    - [Topics]: topic specifications and the boot decision
      ([kafkaman-core/src/topics.rs]).
    - [Registry]: SQL identifiers, message types, the registry and table names
      ([identifier.rs], [message.rs] of kafkaman-core, [resolved_config.rs],
      [tables.rs] of kafkaman-sqlx). The class [KafkaMessage] is the trait of
      that name; each of its methods may panic.
    - [Outbox]: the outbox statements of kafkaman-sqlx ([outbox_enqueue.rs],
      [outbox_claim.rs], [outbox_mark.rs], [outbox_purge.rs]).
    - [OutboxOrder]: the invariant of that table, the step relation of everything
      that touches it, and the theorems about it.
    - [Lifecycle]: the success-event sampler ([kafkaman-core/src/lifecycle.rs]).
    - [Relay]: one relay cycle ([kafkaman-worker/src/relay.rs]).
    - [Retry]: retry policies and schedules ([kafkaman-config/src/retry.rs],
      [kafkaman-sqlx/src/retry_backoff.rs]).
    - [Received]: the received table ([received_storage.rs], [received_rows.rs],
      [queries.rs], [replay.rs] and [ingest_failure.rs] of kafkaman-sqlx).
    - [Cache]: the guarded cache apply ([kafkaman-sqlx/src/dispatch_cache.rs]).
    - [Dispatch]: the dispatch transaction ([dispatch.rs], [dispatch_failure.rs],
      [router.rs], [catch_panic.rs] of kafkaman-sqlx).
    - [Worker]: the run loops and the panic breaker ([dispatcher.rs],
      [relay.rs], [purger.rs], [run_loop.rs] of kafkaman-worker).
    - [Wire]: the Kafka record a row becomes and the envelope a record becomes
      ([publisher.rs], [ingest_record.rs] of kafkaman-rdkafka). The class
      [Formats] is the interface to third-party text forms, [FormatLaws] what
      they promise.
    - [Ingest]: the consumer's cycle and loop ([consumer.rs] of
      kafkaman-rdkafka). [ClientLaws] states the documented behaviour of a
      consumer group.
    - [Decimal]: lemmas on decimal numerals.
    - [Schema]: the generated DDL ([kafkaman-sqlx/src/schema_sql.rs]) as text,
      and a reader of the literals PostgreSQL would see in it.
    - [Changelog]: changesets, version bands, checksums and the derived changelog
      ([changeset.rs], [changesets.rs], [changelog.rs], [generated_changelog.rs]
      of kafkaman-sqlx). The class [Sha256] is the digest.
    - [Migrations]: the migration runner ([kafkaman-sqlx/src/migration_runner.rs]).
    - [ReplayChangeset]: a redrive as a changeset ([kafkaman-sqlx/src/replay.rs],
      [queries.rs]). [ReplayStatements] is what PostgreSQL does with its two
      statements.
    - [Roles]: declared roles and what they imply ([kafkaman-sqlx/src/roles.rs]).
    - [Config]: configuration files ([kafkaman-config/src], and the reading in
      [kafkaman-sqlx/src/resolved_config.rs]). The class [Decoders] is the TOML
      parser with serde's derived section readers, [Texts] the texts of errors.
    - [Resync]: re-enqueueing from application state ([kafkaman-sqlx/src/resync.rs]).
    - [Operability]: what the reporting queries answer
      ([kafkaman-sqlx/src/operability.rs]).
    - [QueueMetrics]: the queue sampler and its gauges
      ([kafkaman-worker/src/queue_metrics.rs]).
    - [Admin]: the HTTP routes and correlation ids ([kafkaman-axum/src]).
    - [TopicBoot]: topic administration ([kafkaman-rdkafka/src/topics.rs]). The
      class [AdminClient] is the admin client, [FaithfulAdmin] what a broker
      promises.
    - [Supervisor]: subsystems, task supervision and serving
      ([tasks.rs], [subsystems.rs], [error.rs] under [kafkaman/src/runtime],
      [kafkaman/src/axum.rs]).
    - [Runtime]: the builder, the staged boot and the loops it starts
      ([builder.rs], [context.rs] under [kafkaman/src/runtime]).
    - [Serving]: the handles by which a host runs a service
      (the rest of [kafkaman/src/axum.rs]).
    - [Contracts]: the snapshots the example services exchange
      ([examples/contracts/src/lib.rs]). [SnapshotFormats] is their JSON encoding,
      [SnapshotLaws] what it promises.
    - [WriteTx]: the shape of a request that writes and announces in one
      transaction, shared by both services. The class [Announcing] is the outbox
      inside an application's tables.
    - [OrderService]: the order service ([lib.rs], [http.rs] of [examples/order/src]).
    - [Faults]: the fault switch ([examples/product/src/faults.rs]).
    - [ProductService]: the product service ([lib.rs], [http.rs] of
      [examples/product/src]) with the handler that derives availability.
    - [ServiceBoot]: how the services start ([service.rs], [service_manual.rs],
      [boot.rs], [bin/worker.rs]), by the builder and by hand.
    - [Provision]: the environment they boot into ([examples/provision/src]). The
      class [PgServer] is a database server, [FaithfulServer] what it promises.
    - [Metrics]: the instruments of the loops ([metrics.rs] of kafkaman-worker and
      kafkaman-rdkafka), and the loops with what they record.
    - [Otel]: the telemetry pipeline of a host ([kafkaman-otel/src/lib.rs]).
    - [Propagation]: trace context between OpenTelemetry and the stored columns
      (the rest of [kafkaman-core/src/trace.rs]). The class [Otel] of that file is
      the API, [OtelLaws] what its ids promise.
    - [Spans]: span helpers ([kafkaman-core/src/span.rs]) and the dispatch cycle
      with everything it reports on its spans.
    - [IngestSpans]: the span, the refusal and the event of a consumed record
      ([consumer.rs] of kafkaman-rdkafka).
    - [CanonicalJson]: the canonical JSON an idempotency key is the digest of
      ([kafkaman-core/src/idempotency.rs]). The class [JsonText] is how strings
      and numbers are written, [JsonTextLaws] what that promises.
    - [Pipeline]: the whole way of a message as one transition system: enqueue,
      collapse, claim, publish, mark, sweep, ingest, dispatch and redrive, each
      the operation its own file defines, with the invariants between them. The
      class [MessageContract] is what a message type promises.
    - [EndToEnd]: what the pipeline is to somebody outside it, as an abstract
      system, and the simulation.
    - [Observers]: the seams of the [internal-hooks] feature ([hooks.rs] of
      kafkaman-sqlx and kafkaman-rdkafka) and the cycles that call them.
    - [Harness]: the deployment tests run ([kafkaman-test/src]).

    ** How the code is represented

    A table is a list of row records (the cache and the quarantine, read by key
    only, are finite maps); columns no statement updates are a record of their
    own ([OutboxMsg], [RMsg]). A statement is a function from the table it reads
    to the table it leaves ([eff]), and is atomic. What a statement depends on
    beyond the table is an argument: [now], the database clock; [locked], the
    rows other transactions hold ([SKIP LOCKED]); [visible], the rows of a
    snapshot; [meanwhile], what others wrote between two statements. Errors are
    values of [result]; a Rust panic is a value of [unwinding]. Transactions are
    explicit: [Dispatch] carries a working state, a savepoint and a status, and
    [Ingest] keeps what a transaction wrote until its commit; the connection may
    break at any statement, and a commit whose answer is lost may have taken
    effect. Application handlers are arbitrary functions on the database.
    Timestamps and durations are integers, in nanoseconds; 32 and 64 bit counters
    keep their bounds; [f64] is IEEE double precision from [SpecFloat].

    PostgreSQL beyond the row statements is a parameter: [Migrations] runs
    against an arbitrary meaning of SQL statements on a catalog, with a record
    ([Weather]) of which calls fail and how. Supervised tasks end in the order
    they are given to end.

    Every definition is a total, executable function. Loops run over lists: the
    rows of a batch, the declared types, or the list of what the iterations of a
    run loop meet, so a run of any length is covered and a theorem that a cycle
    returns says so. Three functions take fuel. [trim_start] and the literal
    reader of [Schema] are given the length of their text, which each turn
    shortens; the pages of [resync] are bounded by an argument, and one page more
    than there are keys is proved to be enough.

    ** What the theorems show

    - End to end ([Pipeline], [EndToEnd]): the composed system refines one in
      which a producer appends states to a history and each entity's view moves
      forward along it, so in every interleaving a cache shows a state that was
      enqueued and never an older one after a newer; and once everything is
      published, stored and dispatched, the view of each entity is the last state
      enqueued for it. Assumed are the contract of the message type, distinct
      idempotency keys, fresh claim ids, publishing under a claim that is held,
      dispatch cycles one at a time, and handlers that leave the received and
      cache tables alone.
    - Ordering ([OutboxOrder], [Relay]): one entity's states reach the broker in
      the order they were enqueued, in every interleaving of enqueues, relays,
      lease expiries and sweeps; at most one row of an entity is in flight; a
      claim is bounded, ordered, fair and fenced by its generation; terminal rows
      stay as they are; sweeps delete only what they may; a relay cycle accounts
      for every row it claimed.
    - Durability ([Wire], [Ingest], [Received]): an envelope survives the hop over
      the broker; an offset is acknowledged only behind a durable record; no
      record is lost in runs that restart after a failed cycle, and one is lost
      in a run that does not; redeliveries are recognised; refused records are
      quarantined and a streak of them stops the loop.
    - Convergence ([Cache]): whatever the order and repetition of deliveries, the
      cache ends at the newest declared state, also under interference.
    - Atomicity and failure handling ([Dispatch], [Received], [Retry], [Worker]):
      a dispatch commits everything or leaves cache and application as they
      were; failures are recorded with their class, stage and schedule; retries
      end; redrives are bounded and targeted; poison rows never stop the service
      and a broken deploy does.
    - Schema ([Schema], [Changelog], [Roles], [Migrations]): check constraints and
      types agree; versions of generated changesets are in range and apart; the
      changelog depends on what is published and consumed and nothing else; the
      runner implements a ledger whose replay is the schema, under any faults, and
      interrupted deployments converge; a redrive in the changelog happens once.
    - Boot and supervision ([Config], [TopicBoot], [Runtime], [Supervisor]): a
      configuration is refused with all its issues or resolved soundly; topics are
      created but never altered; boot is staged so that a local mistake touches
      nothing; the loops are exactly those the roles call for; a run reports its
      first failure, and an HTTP server ([Serving]) shares the fate of the loops.
    - Operation ([Resync], [Operability], [QueueMetrics], [Admin]): a resync ends
      and covers its keys; depth, age and overdue listings are exact; one sampler
      runs at a time and its snapshot is never mixed; the routes leave no queue
      out in silence, and a redrive does what was asked or nothing; one accepted
      threshold makes a listing panic.
    - Services ([Contracts], [OrderService], [ProductService], [Faults],
      [ServiceBoot], [Provision]): a write and its announcement are one; the
      messages of an order are its life; availability is derived and counts
      nothing twice while dispatch is serial, and is stale when it is not; an
      injected fault is a clean failure; the two boots of the product service
      differ when a topic prefix is set; provisioning converges and is repeatable.
    - Telemetry ([Metrics], [Otel]): recording changes nothing that is recorded;
      the series are the loops' own statistics and partition the records; a
      pipeline is installed whole, bound to by what starts later, and flushed
      whole.
    - Tracing ([Propagation], [Spans], [IngestSpans]): a trace crosses the outbox,
      the broker and the received table; one failure is one error, reported on
      the span that owns it and in agreement with the row; tracing changes
      nothing that is traced.
    - Tests ([Observers], [Harness]): an observer watches a cycle or stops it and
      changes nothing else; a harness registers and migrates what a test uses
      without a checksum mismatch, up to its five thousand types.
    - Values ([Text], [Vocabulary], [Trace], [Identity], [CanonicalJson],
      [Topics], [Registry], [Lifecycle]): grammars, round trips, injectivity of
      derived names and of the bytes behind an idempotency key, the boot decision,
      the exact rate of the sampler.

    ** What is not modelled

    The spans of single statements, of the relay and of the internal tier record
    nothing the theorems speak of and are left out; of the binaries of the examples only the provisioner's [main] is
    modelled, the others read the environment and wait for signals. The tests of
    the repository are not modelled. The SDK behind
    the telemetry API, axum's routing and JSON, the TOML parser, SHA-256, serde,
    librdkafka, the random generator and [f64::powi] are parameters. Texts with NUL
    bytes (which PostgreSQL refuses), timestamps outside the database's range
    except where the code computes one, the rounding of stored timestamps to
    microseconds and the [Display] texts of most errors are not represented. *)

From stdpp Require Export prelude gmap strings sorting list.
From Stdlib Require Export ZArith Lia.

From Stdlib Require Export Ascii.

#[global] Open Scope Z_scope.

(** ** Vocabulary shared by the components *)

Abbreviation ascii := Ascii.ascii (only parsing).

(** A [uuid::Uuid] is a 128-bit number that the program only compares. *)
Abbreviation uuid := N (only parsing).

(** A [serde_json::Value] stored in a JSONB column. The program stores, copies
    and hands on such values without looking inside them, so a value is named
    by its canonical text. *)
Abbreviation json := string (only parsing).

(** An instant ([time::OffsetDateTime], [TIMESTAMPTZ]) and a span of time, both
    counted in nanoseconds. *)
Abbreviation instant := Z (only parsing).
Abbreviation interval := Z (only parsing).

(** An instant counts from 1970. A [TIMESTAMPTZ] holds microseconds since 2000,
    and the driver drops the rest of a bound value, towards that epoch. *)
Definition PG_EPOCH : instant := 946684800 * 1000000000.
Definition timestamptz (t : instant) : instant := PG_EPOCH + Z.quot (t - PG_EPOCH) 1000 * 1000.

(** What is lost is less than a microsecond, and nothing of whole ones. *)
Lemma timestamptz_close t : Z.abs (timestamptz t - t) < 1000.
Proof.
  unfold timestamptz. generalize PG_EPOCH as e. intros e.
  pose proof (Z.quot_rem' (t - e) 1000). pose proof (Z.rem_bound_abs (t - e) 1000 ltac:(lia)). lia.
Qed.

Lemma timestamptz_whole t : t mod 1000 = 0 -> timestamptz t = t.
Proof.
  intros Ht. unfold timestamptz. apply Z.mod_divide in Ht as [k ->]; [|lia].
  replace (k * 1000 - PG_EPOCH) with ((k - PG_EPOCH / 1000) * 1000) by (change PG_EPOCH with (PG_EPOCH / 1000 * 1000) at 2; lia).
  rewrite Z.quot_mul by lia. change PG_EPOCH with (PG_EPOCH / 1000 * 1000) at 1. lia.
Qed.

(** ** Fallible code *)

(** Rust's [Result<A, E>]. *)
Inductive result (E A : Type) : Type :=
| Ok (a : A)
| Err (e : E).
Arguments Ok {E A} a.
Arguments Err {E A} e.

#[global] Instance result_ret E : MRet (result E) := fun A a => Ok a.
#[global] Instance result_bind E : MBind (result E) := fun A B f m =>
  match m with Ok a => f a | Err e => Err e end.
#[global] Instance result_fmap E : FMap (result E) := fun A B f m =>
  match m with Ok a => Ok (f a) | Err e => Err e end.

#[global] Instance result_eq_dec `{EqDecision E, EqDecision A} : EqDecision (result E A).
Proof. solve_decision. Defined.

Definition is_ok {E A} (r : result E A) : bool :=
  match r with Ok _ => true | Err _ => false end.

(** [Option::ok_or]. *)
Definition ok_or {E A} (e : E) (o : option A) : result E A :=
  match o with Some a => Ok a | None => Err e end.

Lemma bind_Ok {E A B} (m : result E A) (f : A -> result E B) b :
  m ≫= f = Ok b <-> exists a, m = Ok a /\ f a = Ok b.
Proof. destruct m; simpl; naive_solver. Qed.

(** ** Statements on a database *)

(** A database operation: the state it starts from, what it answers and the
    state it leaves. An error does not undo what was written before it; the
    places where the program rolls back do so with [undoing]. *)
Definition eff (E S A : Type) : Type := S -> result E A * S.

#[global] Instance eff_ret E S : MRet (eff E S) := fun A a s => (Ok a, s).
#[global] Instance eff_bind E S : MBind (eff E S) := fun A B f m s =>
  match m s with
  | (Ok a, s') => f a s'
  | (Err e, s') => (Err e, s')
  end.

(** The [?] operator on a pure result, an error, a read and a statement. *)
Definition lift {E S A} (r : result E A) : eff E S A := fun s => (r, s).
Definition raise {E S A} (e : E) : eff E S A := fun s => (Err e, s).
Definition gets {E S A} (f : S -> A) : eff E S A := fun s => (Ok (f s), s).
Definition stmt {E S A} (f : S -> result E A * S) : eff E S A := f.

(** Run [m] inside a nested transaction: when it fails, [rollback before after]
    is the state the database is left in. *)
Definition undoing {E S A} (rollback : S -> S -> S) (m : eff E S A) : eff E S A := fun s =>
  match m s with
  | (Ok a, s') => (Ok a, s')
  | (Err e, s') => (Err e, rollback s s')
  end.

Lemma eff_bind_Ok {E S A B} (m : eff E S A) (f : A -> eff E S B) s b s'' :
  (m ≫= f) s = (Ok b, s'') -> exists a s', m s = (Ok a, s') /\ f a s' = (Ok b, s'').
Proof. unfold mbind, eff_bind. destruct (m s) as [[a|e] s']; [|done]. eauto. Qed.

(** ** Machine integers *)

Definition u32_max : Z := 2 ^ 32 - 1.
Definition u64_max : Z := 2 ^ 64 - 1.
Definition i32_max : Z := 2 ^ 31 - 1.
Definition i64_max : Z := 2 ^ 63 - 1.

(** [wrapping] reduction to [w] bits, and the [as i64] reinterpretation. *)
Definition wrap (w z : Z) : Z := z mod 2 ^ w.
Definition as_signed (w z : Z) : Z :=
  if decide (wrap w z < 2 ^ (w - 1)) then wrap w z else wrap w z - 2 ^ w.

Definition u64_sat (z : Z) : Z := Z.max 0 (Z.min z u64_max).
Definition u64_saturating_add (a b : Z) : Z := Z.min (a + b) u64_max.
Definition u64_saturating_sub (a b : Z) : Z := Z.max (a - b) 0.
Definition u32_saturating_add (a b : Z) : Z := Z.min (a + b) u32_max.

Lemma wrap_range w z : 0 <= w -> 0 <= wrap w z < 2 ^ w.
Proof. intros Hw. apply Z.mod_pos_bound. lia. Qed.

(** ** SQL values *)

(** SQL equality between a nullable column and a nullable value: [NULL] equals
    nothing, itself included. *)
Definition sql_eq {A} `{EqDecision A} (x y : option A) : bool :=
  match x, y with
  | Some a, Some b => bool_decide (a = b)
  | _, _ => false
  end.

(** [column <= bound] on a nullable timestamp. *)
Definition sql_le_opt (x : option Z) (bound : Z) : bool :=
  match x with Some a => a <=? bound | None => false end.

Lemma sql_eq_true {A} `{EqDecision A} (x y : option A) :
  sql_eq x y = true <-> exists a, x = Some a /\ y = Some a.
Proof.
  destruct x as [a|], y as [b|]; simpl; split; intros H;
    try (destruct H as (?&?&?); congruence); try discriminate.
  - apply bool_decide_eq_true in H as ->. eauto.
  - destruct H as (?&[=]&[=]). subst. by apply bool_decide_eq_true.
Qed.

(** [UPDATE t SET .. WHERE p]: every row that satisfies the predicate is
    rewritten, the others stay. *)
Definition sql_update {R} (p : R -> bool) (f : R -> R) (t : list R) : list R :=
  map (fun r => if p r then f r else r) t.

(** The number of rows an [UPDATE] or [DELETE] reports. *)
Definition sql_count {R} (p : R -> bool) (t : list R) : nat :=
  length (List.filter p t).

(** [SELECT .. WHERE p ORDER BY key]. The sort is stable, so rows with equal
    keys keep the scan order. *)
Definition key_le {R} (key : R -> Z) (a b : R) : Prop := key a <= key b.
#[global] Instance key_le_dec {R} (key : R -> Z) a b : Decision (key_le key a b).
Proof. unfold key_le. apply _. Defined.
#[global] Instance key_le_total {R} (key : R -> Z) : Total (key_le key).
Proof. intros a b. unfold key_le. lia. Qed.
#[global] Instance key_le_trans {R} (key : R -> Z) : Transitive (key_le key).
Proof. intros a b c. unfold key_le. lia. Qed.

Definition sql_order_by {R} (key : R -> Z) (t : list R) : list R :=
  merge_sort (key_le key) t.

(** [ORDER BY] several columns, compared left to right. *)
Fixpoint lex_leb (a b : list Z) : bool :=
  match a, b with
  | [], _ => true
  | _ :: _, [] => false
  | x :: a, y :: b => (x <? y) || ((x =? y) && lex_leb a b)
  end.

Definition lex_le {R} (key : R -> list Z) (a b : R) : Prop := lex_leb (key a) (key b) = true.
#[global] Instance lex_le_dec {R} (key : R -> list Z) a b : Decision (lex_le key a b).
Proof. unfold lex_le. apply _. Defined.
#[global] Instance lex_le_total {R} (key : R -> list Z) : Total (lex_le key).
Proof.
  intros a b. unfold lex_le. generalize (key a), (key b). clear.
  induction l as [|x l IH]; intros [|y l']; simpl; auto.
  destruct (Z.ltb_spec x y), (Z.ltb_spec y x); simpl; auto.
  assert (x = y) as -> by lia. rewrite Z.eqb_refl. apply IH.
Qed.
#[global] Instance lex_le_trans {R} (key : R -> list Z) : Transitive (lex_le key).
Proof.
  intros a b c. unfold lex_le. generalize (key a), (key b), (key c). clear.
  induction l as [|x l IH]; intros [|y l'] [|z l'']; simpl; try done.
  rewrite !orb_true_iff, !andb_true_iff, !Z.ltb_lt, !Z.eqb_eq.
  intros [?|[-> ?]] [?|[-> ?]]; try (left; lia); right; eauto.
Qed.

Definition sql_order_by_lex {R} (key : R -> list Z) (t : list R) : list R :=
  merge_sort (lex_le key) t.

(** A nullable ascending column: [NULL] sorts last. *)
Definition nulls_last (x : option Z) : list Z :=
  match x with Some a => [0; a] | None => [1; 0] end.

Lemma elem_of_order_by_lex {R} (key : R -> list Z) (t : list R) r :
  r ∈ sql_order_by_lex key t <-> r ∈ t.
Proof. unfold sql_order_by_lex. by rewrite merge_sort_Permutation. Qed.

Lemma order_by_lex_sorted {R} (key : R -> list Z) (t : list R) :
  StronglySorted (lex_le key) (sql_order_by_lex key t).
Proof. apply StronglySorted_merge_sort; apply _. Qed.

(** [LIMIT n]: PostgreSQL rejects a negative limit, so a limit is a [nat] once
    it has been accepted. *)
Definition sql_limit {R} (n : Z) (t : list R) : list R := take (Z.to_nat n) t.

Lemma elem_of_order_by {R} (key : R -> Z) (t : list R) r :
  r ∈ sql_order_by key t <-> r ∈ t.
Proof. unfold sql_order_by. by rewrite merge_sort_Permutation. Qed.

Lemma order_by_sorted {R} (key : R -> Z) (t : list R) :
  StronglySorted (key_le key) (sql_order_by key t).
Proof. apply StronglySorted_merge_sort; apply _. Qed.

Lemma elem_of_limit {R} n (t : list R) r : r ∈ sql_limit n t -> r ∈ t.
Proof. unfold sql_limit. intros H. by eapply elem_of_take in H as (?&?%list_elem_of_lookup_2&?). Qed.

Lemma elem_of_sfilter {R} (p : R -> bool) (t : list R) r :
  r ∈ List.filter p t <-> r ∈ t /\ p r = true.
Proof. rewrite !list_elem_of_In. apply filter_In. Qed.

Lemma elem_of_update {R} (p : R -> bool) (f : R -> R) (t : list R) r' :
  r' ∈ sql_update p f t <->
  exists r, r ∈ t /\ r' = (if p r then f r else r).
Proof.
  unfold sql_update. rewrite list_elem_of_In, in_map_iff.
  split; intros (r & H1 & H2); exists r; rewrite ?list_elem_of_In in *; naive_solver.
Qed.

Lemma length_update {R} (p : R -> bool) (f : R -> R) (t : list R) :
  length (sql_update p f t) = length t.
Proof. apply length_map. Qed.

(** An update that leaves a column alone leaves the list of that column alone. *)
Lemma update_column {R C} (col : R -> C) (p : R -> bool) (f : R -> R) (t : list R) :
  (forall r, r ∈ t -> p r = true -> col (f r) = col r) ->
  map col (sql_update p f t) = map col t.
Proof.
  induction t as [|r t IH]; intros H; [done|]. simpl. f_equal.
  - destruct (p r) eqn:E; [|done]. apply H; [left|done].
  - apply IH. intros r' Hr'. apply H. by right.
Qed.

Lemma update_id {R} (p : R -> bool) (f : R -> R) (t : list R) :
  (forall r, r ∈ t -> p r = false) -> sql_update p f t = t.
Proof.
  induction t as [|r t IH]; intros H; [done|]. simpl.
  rewrite (H r) by left. f_equal. apply IH. intros r' ?. apply H. by right.
Qed.

Lemma update_compose {R} (p q : R -> bool) (f g : R -> R) (t : list R) :
  (forall r, r ∈ t -> p r = true -> q (f r) = false) ->
  sql_update q g (sql_update p f t) =
  map (fun r => if p r then f r else if q r then g r else r) t.
Proof.
  intros H. unfold sql_update. rewrite map_map.
  apply map_ext_in. intros r Hr%list_elem_of_In.
  destruct (p r) eqn:E; [by rewrite (H r)|done].
Qed.

(** ** Lists with a key *)

Section keyed.
Context {R K : Type} (key : R -> K).

Lemma NoDup_key_inj (t : list R) r1 r2 :
  NoDup (map key t) -> r1 ∈ t -> r2 ∈ t -> key r1 = key r2 -> r1 = r2.
Proof.
  induction t as [|r t IH]; intros Hnd H1 H2 Heq; [by inversion H1|].
  simpl in Hnd. apply NoDup_cons in Hnd as [Hn Hnd].
  assert (Hin : forall r', r' ∈ t -> key r' ∈ map key t).
  { intros r' ?. rewrite list_elem_of_In, in_map_iff. exists r'. by rewrite <- list_elem_of_In. }
  apply elem_of_cons in H1 as [->|H1]; apply elem_of_cons in H2 as [->|H2]; auto.
  - exfalso. apply Hn. rewrite Heq. auto.
  - exfalso. apply Hn. rewrite <- Heq. auto.
Qed.

Lemma NoDup_key_filter (p : R -> bool) (t : list R) :
  NoDup (map key t) -> NoDup (map key (List.filter p t)).
Proof.
  induction t as [|r t IH]; intros Hnd; [done|]. simpl in *.
  apply NoDup_cons in Hnd as [Hn Hnd]. destruct (p r); [|auto].
  simpl. apply NoDup_cons. split; [|auto].
  intros (r' & Heq & Hin)%list_elem_of_In%in_map_iff. apply Hn.
  apply filter_In in Hin as [Hin _]. apply list_elem_of_In, in_map_iff. eauto.
Qed.

(** [WHERE key IN (SELECT key FROM cs)]. *)
Context `{EqDecision K}.
Definition key_in (cs : list R) (r : R) : bool :=
  existsb (fun c => bool_decide (key c = key r)) cs.

Lemma key_in_spec (t cs : list R) r :
  NoDup (map key t) -> r ∈ t -> (forall c, c ∈ cs -> c ∈ t) -> key_in cs r = true <-> r ∈ cs.
Proof.
  intros Hn Hr Hsub. unfold key_in. rewrite existsb_exists. setoid_rewrite <- list_elem_of_In.
  setoid_rewrite bool_decide_eq_true. split; [|eauto].
  intros (c & Hc & E). by rewrite <- (NoDup_key_inj t c r Hn (Hsub c Hc) Hr E).
Qed.

Lemma key_in_filter (t cs : list R) :
  NoDup (map key t) -> NoDup cs -> (forall c, c ∈ cs -> c ∈ t) ->
  List.filter (key_in cs) t ≡ₚ cs.
Proof.
  intros Hn Hcs Hsub. apply NoDup_Permutation; [|done|].
  - apply (NoDup_fmap_1 key). by apply NoDup_key_filter.
  - intros r. rewrite elem_of_sfilter. split.
    + intros [Hr E]. by apply (key_in_spec t).
    + intros Hr. split; [auto|]. apply (key_in_spec t); auto.
Qed.
End keyed.

Lemma sorted_take_prefix {A} (R : relation A) (l : list A) n x y :
  StronglySorted R l -> x ∈ take n l -> y ∈ drop n l -> R x y.
Proof.
  revert n. induction l as [|a l IH]; intros n Hs Hx Hy.
  - rewrite take_nil in Hx. by inversion Hx.
  - destruct n as [|n]; [by inversion Hx|]. simpl in *.
    inversion Hs as [|? ? Hs' Hall]; subst.
    apply elem_of_cons in Hx as [->|Hx]; [|eauto].
    rewrite Forall_forall in Hall. apply Hall.
    rewrite <- (take_drop n l). apply elem_of_app. by right.
Qed.

Lemma StronglySorted_sfilter {A} (R : relation A) (p : A -> bool) (l : list A) :
  StronglySorted R l -> StronglySorted R (List.filter p l).
Proof.
  induction 1 as [|a l Hs IH Hall]; simpl; [constructor|].
  destruct (p a); [|done]. constructor; [done|].
  rewrite Forall_forall in *. intros x [Hx _]%elem_of_sfilter. auto.
Qed.

Lemma StronglySorted_take {A} (R : relation A) n (l : list A) :
  StronglySorted R l -> StronglySorted R (take n l).
Proof.
  intros H. revert n. induction H as [|a l Hs IH Hall]; intros [|n]; simpl; try constructor; auto.
  rewrite Forall_forall in *. intros x Hx. apply Hall.
  by eapply elem_of_take in Hx as (?&?%list_elem_of_lookup_2&?).
Qed.

Lemma StronglySorted_sublist {A} (R : relation A) (l l' : list A) :
  l' `sublist_of` l -> StronglySorted R l -> StronglySorted R l'.
Proof.
  induction 1 as [|x l1 l2 Hs IH|x l1 l2 Hs IH]; intros H; [done| |];
    apply StronglySorted_inv in H as [H Hall]; [constructor|]; auto.
  rewrite Forall_forall in *. intros y Hy. apply Hall.
  clear -Hs Hy. induction Hs; set_solver.
Qed.

Lemma sublist_map {A B} (f : A -> B) (l l' : list A) :
  l' `sublist_of` l -> map f l' `sublist_of` map f l.
Proof. induction 1; simpl; by constructor. Qed.

Lemma sublist_sfilter {A} (p : A -> bool) (l : list A) : List.filter p l `sublist_of` l.
Proof. induction l as [|a l IH]; simpl; [done|]. destruct (p a); by constructor. Qed.

Lemma StronglySorted_Zlt_NoDup (l : list Z) : StronglySorted Z.lt l -> NoDup l.
Proof.
  induction 1 as [|x l Hs IH Hall]; constructor; [|done].
  rewrite Forall_forall in Hall. intros Hx. specialize (Hall x Hx). lia.
Qed.

Lemma StronglySorted_map {A B} (R : relation A) (R' : relation B) (f : A -> B) (l : list A) :
  (forall x y, R x y -> R' (f x) (f y)) -> StronglySorted R l -> StronglySorted R' (map f l).
Proof.
  intros HR. induction 1 as [|x l Hs IH Hall]; simpl; [constructor|]. constructor; [done|].
  rewrite Forall_forall in Hall. apply Forall_forall. intros y (z & <- & Hz%list_elem_of_In)%list_elem_of_In%in_map_iff.
  by apply HR, Hall.
Qed.

Lemma StronglySorted_strict (l : list Z) :
  StronglySorted Z.le l -> NoDup l -> StronglySorted Z.lt l.
Proof.
  induction 1 as [|x l Hs IH Hall]; intros Hn; [constructor|].
  apply NoDup_cons in Hn as [Hx Hn]. constructor; [auto|].
  rewrite Forall_forall in Hall. apply Forall_forall. intros y Hy.
  specialize (Hall y Hy). destruct (decide (x = y)) as [->|]; [done|lia].
Qed.

Lemma NoDup_take_drop_disjoint {A} (l : list A) n x :
  NoDup l -> x ∈ take n l -> x ∈ drop n l -> False.
Proof. rewrite <- (take_drop n l) at 1. intros (_ & H & _)%NoDup_app ? ?. by eapply H. Qed.

(** A key that determines another distinct key is distinct too. *)
Lemma NoDup_map_key {A K L} (k : A -> K) (k' : A -> L) (l : list A) :
  (forall x y, x ∈ l -> y ∈ l -> k x = k y -> k' x = k' y) -> NoDup (map k' l) -> NoDup (map k l).
Proof.
  induction l as [|a l IH]; intros Hk Hn; simpl in *; [constructor|].
  apply NoDup_cons in Hn as [Ha Hn]. apply NoDup_cons. split.
  - intros (b & Hb & Hin%list_elem_of_In)%list_elem_of_In%in_map_iff. apply Ha.
    apply list_elem_of_In, in_map_iff. exists b. rewrite <- list_elem_of_In. split; [|done].
    apply Hk; [by right|by left|done].
  - apply IH; [|done]. intros x y ? ?. apply Hk; by right.
Qed.

Lemma NoDup_take {A} n (l : list A) : NoDup l -> NoDup (take n l).
Proof. rewrite <- (take_drop n l) at 1. by intros [? _]%NoDup_app. Qed.

Lemma StronglySorted_snoc {A} (R : relation A) (l : list A) a :
  StronglySorted R l -> (forall x, x ∈ l -> R x a) -> StronglySorted R (l ++ [a]).
Proof.
  induction 1 as [|b l Hs IH Hall]; intros Hx; simpl; [repeat constructor|].
  constructor.
  - apply IH. intros x ?. apply Hx. by right.
  - rewrite Forall_app. split; [done|]. constructor; [|done]. apply Hx. by left.
Qed.

Lemma NoDup_selected {R} (le' : relation R) `{forall x y, Decision (le' x y)} (p : R -> bool) n (t : list R) :
  NoDup t -> NoDup (sql_limit n (merge_sort le' (List.filter p t))).
Proof.
  intros Hn. apply NoDup_take. rewrite merge_sort_Permutation.
  eapply sublist_NoDup, sublist_sfilter. done.
Qed.

(** Under [ORDER BY key LIMIT n] a row is either selected, or the result is
    full of other rows that come no later. *)
Lemma limit_or_full {R} (key : R -> Z) (t : list R) n c :
  NoDup t -> c ∈ t ->
  c ∈ sql_limit n (sql_order_by key t)
  \/ (length (sql_limit n (sql_order_by key t)) = Z.to_nat n
      /\ forall x, x ∈ sql_limit n (sql_order_by key t) -> x <> c /\ key x <= key c).
Proof.
  intros Hn Hin%(elem_of_order_by key). unfold sql_limit. set (all := sql_order_by key t) in *.
  rewrite <- (take_drop (Z.to_nat n) all) in Hin. apply elem_of_app in Hin as [Hin|Hin]; [by left|].
  right. split.
  - rewrite length_take. destruct (decide (Z.to_nat n <= length all)%nat); [lia|].
    rewrite drop_ge in Hin by lia. by apply elem_of_nil in Hin.
  - intros x Hx. split.
    + intros ->. eapply (NoDup_take_drop_disjoint all (Z.to_nat n)); [|exact Hx|exact Hin].
      unfold all, sql_order_by. by rewrite merge_sort_Permutation.
    + exact (sorted_take_prefix _ _ _ _ _ (order_by_sorted key _) Hx Hin).
Qed.

Lemma sfilter_none {A} (p : A -> bool) (t : list A) :
  (forall x, x ∈ t -> p x = false) -> List.filter p t = [].
Proof.
  induction t as [|x t IH]; intros Hp; [done|]. simpl. rewrite (Hp x) by left.
  apply IH. intros y Hy. apply Hp. by right.
Qed.

Lemma sfilter_all {A} (p : A -> bool) (t : list A) :
  (forall x, x ∈ t -> p x = true) -> List.filter p t = t.
Proof.
  induction t as [|x t IH]; intros Hp; [done|]. simpl. rewrite (Hp x) by left. f_equal.
  apply IH. intros y Hy. apply Hp. by right.
Qed.

Lemma sorted_lookup {A} (R : A -> A -> Prop) l i j x y :
  StronglySorted R l -> l !! i = Some x -> l !! j = Some y -> (i < j)%nat -> R x y.
Proof.
  intros Hs. revert i j. induction Hs as [|a l Hs IH Hf]; intros i j Hx Hy Hij; [done|].
  destruct j as [|j]; [lia|]. destruct i as [|i]; simpl in *.
  - simplify_eq. rewrite Forall_forall in Hf. eapply Hf, list_elem_of_lookup_2, Hy.
  - eapply IH; eauto; lia.
Qed.

(** ** Ordered maps *)

(** A [BTreeMap] with string keys is a finite map; iterating it runs in the
    byte order of the keys. *)
Definition btree_le {V} (a b : string * V) : Prop := String.leb a.1 b.1 = true.
#[global] Instance btree_le_dec {V} (a b : string * V) : Decision (btree_le a b).
Proof. unfold btree_le. apply _. Defined.

Definition btree_items {V} (m : gmap string V) : list (string * V) := merge_sort btree_le (map_to_list m).

Lemma elem_of_btree_items {V} (m : gmap string V) k v : (k, v) ∈ btree_items m <-> m !! k = Some v.
Proof. unfold btree_items. rewrite merge_sort_Permutation. apply elem_of_map_to_list. Qed.

(** ** Automation *)

Create HintDb kafkaman.

(** Case analysis on the boolean tests a definition makes, with the resulting
    facts turned into propositions. *)
Ltac reflect_bools :=
  repeat match goal with
  | H : _ && _ = true |- _ => apply andb_true_iff in H; destruct H
  | H : _ || _ = false |- _ => apply orb_false_iff in H; destruct H
  | H : _ || _ = true |- _ => apply orb_true_iff in H
  | H : negb _ = true |- _ => apply negb_true_iff in H
  | H : negb _ = false |- _ => apply negb_false_iff in H
  | H : (_ <=? _) = true |- _ => apply Z.leb_le in H
  | H : (_ <=? _) = false |- _ => apply Z.leb_gt in H
  | H : (_ <? _) = true |- _ => apply Z.ltb_lt in H
  | H : (_ <? _) = false |- _ => apply Z.ltb_ge in H
  | H : (_ =? _) = true |- _ => apply Z.eqb_eq in H
  | H : (_ =? _) = false |- _ => apply Z.eqb_neq in H
  | H : bool_decide _ = true |- _ => apply bool_decide_eq_true in H
  | H : bool_decide _ = false |- _ => apply bool_decide_eq_false in H
  | H : is_true _ |- _ => unfold is_true in H
  end.


#[export] Hint Resolve order_by_sorted StronglySorted_sfilter StronglySorted_take : kafkaman.
#[export] Hint Resolve NoDup_key_filter : kafkaman.
