(* ===== verification/Text.v ===== *)
(** * Text: the string primitives the program uses

    A Rust [str] is its UTF-8 bytes, a [string] whose characters are bytes. The
    first part models the standard library's operations the sources call
    ([split], [join], [trim], [split_once], [to_ascii_lowercase],
    [is_char_boundary]); the second models
    [src/crates/kafkaman-core/src/text.rs]: the bounded prefix of a text and the
    message recovered from a panic. *)

From S2P Require Import Prelude.

#[local] Arguments String.append !_ _ : simpl nomatch.

Definition byte_val (c : ascii) : Z := Z.of_N (Ascii.N_of_ascii c).

(** [b'lo'..=b'hi']. *)
Definition byte_in (lo hi : Z) (c : ascii) : bool :=
  (lo <=? byte_val c) && (byte_val c <=? hi).

Fixpoint all_bytes (p : ascii -> bool) (s : string) : bool :=
  match s with
  | EmptyString => true
  | String c s' => p c && all_bytes p s'
  end.

Fixpoint any_byte (p : ascii -> bool) (s : string) : bool :=
  match s with
  | EmptyString => false
  | String c s' => p c || any_byte p s'
  end.

(** [str::len]. *)
Definition slen (s : string) : Z := Z.of_nat (String.length s).

Definition is_empty (s : string) : bool :=
  match s with EmptyString => true | _ => false end.

(** [str::split(c)]: always at least one piece, and an empty piece between two
    adjacent separators. *)
Fixpoint split_on (c : ascii) (s : string) : list string :=
  match s with
  | EmptyString => [EmptyString]
  | String a s' =>
      if Ascii.eqb a c then EmptyString :: split_on c s'
      else match split_on c s' with
           | [] => [String a EmptyString]
           | w :: ws => String a w :: ws
           end
  end.

(** [[&str]::join(sep)]. *)
Fixpoint str_join (sep : string) (ws : list string) : string :=
  match ws with
  | [] => EmptyString
  | [w] => w
  | w :: ws' => w +:+ sep +:+ str_join sep ws'
  end.

(** [str::split_once(c)]: around the first occurrence. *)
Fixpoint split_once (c : ascii) (s : string) : option (string * string) :=
  match s with
  | EmptyString => None
  | String a s' =>
      if Ascii.eqb a c then Some (EmptyString, s')
      else match split_once c s' with
           | Some (l, r) => Some (String a l, r)
           | None => None
           end
  end.

(** [str::trim_matches] for a set of one-byte characters. *)
Fixpoint trim_start_matches (p : ascii -> bool) (s : string) : string :=
  match s with
  | EmptyString => EmptyString
  | String c s' => if p c then trim_start_matches p s' else s
  end.

Fixpoint trim_end_matches (p : ascii -> bool) (s : string) : string :=
  match s with
  | EmptyString => EmptyString
  | String c s' =>
      match trim_end_matches p s' with
      | EmptyString => if p c then EmptyString else String c EmptyString
      | t => String c t
      end
  end.

Definition trim_matches (p : ascii -> bool) (s : string) : string :=
  trim_end_matches p (trim_start_matches p s).

(** The UTF-8 encodings of the Unicode [White_Space] characters, which is the
    set [str::trim] removes. *)
Definition byte_str (bs : list Z) : string :=
  foldr (fun b s => String (Ascii.ascii_of_N (Z.to_N b)) s) EmptyString bs.

Definition white_space : list string :=
  map byte_str
    ([[9]; [10]; [11]; [12]; [13]; [32]; [194; 133]; [194; 160]; [225; 154; 128]]
     ++ map (fun b => [226; 128; b])
          [128; 129; 130; 131; 132; 133; 134; 135; 136; 137; 138; 168; 169; 175]
     ++ [[226; 129; 159]; [227; 128; 128]]).

Fixpoint strip_prefix (p s : string) : option string :=
  match p, s with
  | EmptyString, _ => Some s
  | String a p', String b s' => if Ascii.eqb a b then strip_prefix p' s' else None
  | _, _ => None
  end.

(** Remove one leading white-space character, if there is one. *)
Definition strip_ws (s : string) : option string :=
  foldr (fun w acc => match strip_prefix w s with Some s' => Some s' | None => acc end)
        None white_space.

(** [str::trim_start]. Every white-space character is at least one byte, so the
    string's length bounds the number of rounds. *)
Fixpoint trim_start_fuel (fuel : nat) (s : string) : string :=
  match fuel with
  | O => s
  | S n => match strip_ws s with Some s' => trim_start_fuel n s' | None => s end
  end.
Definition trim_start (s : string) : string := trim_start_fuel (String.length s) s.

(** [str::trim_end]: the suffix is white space when all of it strips away. *)
Fixpoint trim_end (s : string) : string :=
  if is_empty (trim_start s) then EmptyString
  else match s with
       | EmptyString => EmptyString
       | String c s' => String c (trim_end s')
       end.

Definition trim (s : string) : string := trim_end (trim_start s).

Definition ascii_to_lower (c : ascii) : ascii :=
  if byte_in 65 90 c then Ascii.ascii_of_N (Ascii.N_of_ascii c + 32) else c.

Fixpoint to_ascii_lowercase (s : string) : string :=
  match s with
  | EmptyString => EmptyString
  | String c s' => String (ascii_to_lower c) (to_ascii_lowercase s')
  end.

(** [&s[..n]], for an [n] on a character boundary. *)
Definition str_take (n : nat) (s : string) : string := String.substring 0 n s.

(** [str::is_char_boundary]. *)
Definition is_char_boundary (s : string) (i : nat) : bool :=
  match i with
  | O => true
  | _ =>
      match String.get i s with
      | Some c => negb (byte_in 128 191 c)
      | None => Nat.eqb i (String.length s)
      end
  end.

(** [str::get(..n)]. *)
Definition str_get_to (n : nat) (s : string) : option string :=
  if (Nat.leb n (String.length s)) && is_char_boundary s n then Some (str_take n s) else None.

(** ** [src/crates/kafkaman-core/src/text.rs] *)

Definition MAX_PANIC_MESSAGE : nat := 512.

(** The [while] loop of [truncate_on_char_boundary]: walk [end] down. *)
Fixpoint boundary_down (s : string) (e : nat) : nat :=
  match e with
  | O => O
  | S e' => if is_char_boundary s e then e else boundary_down s e'
  end.

Definition truncate_on_char_boundary (text : string) (max : nat) : string :=
  if Nat.leb (String.length text) max then text
  else str_take (boundary_down text max) text.

(** What a panic carries: a literal, a formatted string, or anything else. *)
Inductive panic_payload :=
| PanicStr (message : string)
| PanicString (message : string)
| PanicOther.

Definition panic_message (payload : panic_payload) : string :=
  let message :=
    match payload with
    | PanicStr m => m
    | PanicString m => m
    | PanicOther => "panicked with a non-string payload"%string
    end in
  let truncated := truncate_on_char_boundary message MAX_PANIC_MESSAGE in
  if Nat.eqb (String.length truncated) (String.length message) then message
  else truncated +:+ "...".

(** ** Lemmas on the primitives *)

Lemma length_append s t : String.length (s +:+ t) = (String.length s + String.length t)%nat.
Proof. induction s as [|c s IH]; [done|]. cbn. by rewrite IH. Qed.

Lemma append_nil_r s : s +:+ "" = s.
Proof. induction s as [|c s IH]; [done|]. cbn. by rewrite IH. Qed.

Lemma append_assoc s t u : (s +:+ t) +:+ u = s +:+ (t +:+ u).
Proof. induction s as [|c s IH]; [done|]. cbn. by rewrite IH. Qed.

Lemma all_bytes_append p s t : all_bytes p (s +:+ t) = all_bytes p s && all_bytes p t.
Proof. induction s; simpl; [done|]. by rewrite IHs, andb_assoc. Qed.

Lemma split_on_nonempty c s : split_on c s <> [].
Proof. destruct s; simpl; [done|]. case_match; [done|]. by destruct (split_on c s). Qed.

Lemma join_split c s : str_join (String c EmptyString) (split_on c s) = s.
Proof.
  induction s as [|a s IH]; [done|]. simpl.
  pose proof (split_on_nonempty c s) as Hne.
  destruct (Ascii.eqb_spec a c) as [->|].
  - destruct (split_on c s) as [|w ws]; [done|]. simpl in *. by rewrite IH.
  - destruct (split_on c s) as [|w ws]; [done|]. destruct ws; simpl in *; by rewrite <- IH.
Qed.

(** A piece of a split never contains the separator. *)
Definition avoids (c : ascii) (s : string) : bool := all_bytes (fun a => negb (Ascii.eqb a c)) s.

Lemma split_on_avoids c s w : w ∈ split_on c s -> avoids c w = true.
Proof.
  revert w. induction s as [|a s IH]; intros w Hw; simpl in Hw.
  - apply list_elem_of_singleton in Hw as ->. done.
  - destruct (Ascii.eqb a c) eqn:E.
    + apply elem_of_cons in Hw as [->|Hw]; [done|auto].
    + destruct (split_on c s) as [|v vs].
      * apply list_elem_of_singleton in Hw as ->. unfold avoids. simpl. by rewrite E.
      * apply elem_of_cons in Hw as [->|Hw].
        -- unfold avoids in *. simpl. rewrite E. apply IH. left.
        -- apply IH. by right.
Qed.

Lemma split_on_single c s : avoids c s = true -> split_on c s = [s].
Proof.
  unfold avoids. induction s as [|a s IH]; simpl; [done|].
  intros [Ha Hs]%andb_true_iff. apply negb_true_iff in Ha. rewrite Ha. by rewrite IH.
Qed.

Lemma split_on_cons c s t :
  avoids c s = true -> split_on c (s +:+ String c t) = s :: split_on c t.
Proof.
  unfold avoids. induction s as [|a s IH]; simpl.
  - by rewrite Ascii.eqb_refl.
  - intros [Ha Hs]%andb_true_iff. apply negb_true_iff in Ha. rewrite Ha. by rewrite IH.
Qed.

Lemma split_join c ws :
  ws <> [] -> (forall w, w ∈ ws -> avoids c w = true) ->
  split_on c (str_join (String c EmptyString) ws) = ws.
Proof.
  induction ws as [|w ws IH]; intros Hne Hav; [done|].
  destruct ws as [|v vs].
  - simpl. apply split_on_single. apply Hav. left.
  - change (str_join (String c "") (w :: v :: vs)) with (w +:+ String c (str_join (String c "") (v :: vs))).
    rewrite split_on_cons by (apply Hav; left). f_equal. apply IH; [done|].
    intros u Hu. apply Hav. by right.
Qed.

Lemma split_once_append c s l r :
  split_once c s = Some (l, r) -> s = l +:+ String c r /\ avoids c l = true.
Proof.
  revert l. induction s as [|a s IH]; intros l H; [done|]. simpl in H.
  destruct (Ascii.eqb_spec a c) as [->|Hne].
  - by simplify_eq.
  - destruct (split_once c s) as [[l' r']|]; [|done]. simplify_eq.
    destruct (IH l' eq_refl) as [-> Hav]. split; [done|].
    unfold avoids. simpl. fold (avoids c l'). rewrite Hav.
    apply Ascii.eqb_neq in Hne. by rewrite Hne.
Qed.

Lemma split_once_intro c l r :
  avoids c l = true -> split_once c (l +:+ String c r) = Some (l, r).
Proof.
  unfold avoids. induction l as [|a l IH]; simpl.
  - by rewrite Ascii.eqb_refl.
  - intros [Ha Hl]%andb_true_iff. apply negb_true_iff in Ha. rewrite Ha. by rewrite IH.
Qed.

Lemma length_trim_start_matches p s :
  (String.length (trim_start_matches p s) <= String.length s)%nat.
Proof. induction s; simpl; [done|]. destruct (p a); simpl; lia. Qed.

Lemma length_trim_end_matches p s :
  (String.length (trim_end_matches p s) <= String.length s)%nat.
Proof.
  induction s; simpl; [done|]. destruct (trim_end_matches p s); simpl in *; [|lia].
  destruct (p a); simpl; lia.
Qed.

Lemma length_trim_matches p s :
  (String.length (trim_matches p s) <= String.length s)%nat.
Proof.
  unfold trim_matches. etrans; [apply length_trim_end_matches|apply length_trim_start_matches].
Qed.

Lemma trim_end_matches_idemp p s :
  trim_end_matches p (trim_end_matches p s) = trim_end_matches p s.
Proof.
  induction s as [|c s IH]; simpl; [done|].
  destruct (trim_end_matches p s) as [|d t] eqn:E.
  - destruct (p c) eqn:Hc; simpl; [done|by rewrite Hc].
  - cbn [trim_end_matches] in IH |- *. by rewrite IH.
Qed.

Lemma trim_end_matches_head p s c t :
  trim_end_matches p s = String c t -> exists t', s = String c t'.
Proof.
  destruct s as [|d s]; simpl; [done|]. intros H. exists s.
  destruct (trim_end_matches p s); [destruct (p d)|]; congruence.
Qed.

Lemma trim_start_matches_stop p s :
  match trim_start_matches p s with EmptyString => True | String c _ => p c = false end.
Proof. induction s as [|c s IH]; simpl; [done|]. by destruct (p c) eqn:E. Qed.

Lemma trim_start_matches_id p s :
  match s with EmptyString => True | String c _ => p c = false end ->
  trim_start_matches p s = s.
Proof. destruct s as [|c s]; simpl; [done|]. by intros ->. Qed.

(** [trim_matches] is idempotent. *)
Lemma trim_matches_idemp p s : trim_matches p (trim_matches p s) = trim_matches p s.
Proof.
  unfold trim_matches.
  rewrite (trim_start_matches_id p (trim_end_matches p (trim_start_matches p s))).
  - apply trim_end_matches_idemp.
  - destruct (trim_end_matches p (trim_start_matches p s)) as [|c t] eqn:E; [done|].
    apply trim_end_matches_head in E as [t' E].
    pose proof (trim_start_matches_stop p s) as H. by rewrite E in H.
Qed.

Lemma all_bytes_trim_start_matches q p s :
  all_bytes q s = true -> all_bytes q (trim_start_matches p s) = true.
Proof.
  induction s as [|c s IH]; simpl; [done|]. intros [Hc Hs]%andb_true_iff.
  destruct (p c); simpl; [auto|by rewrite Hc, Hs].
Qed.

Lemma all_bytes_trim_end_matches q p s :
  all_bytes q s = true -> all_bytes q (trim_end_matches p s) = true.
Proof.
  induction s as [|c s IH]; simpl; [done|]. intros [Hc Hs]%andb_true_iff. specialize (IH Hs).
  destruct (trim_end_matches p s); simpl in *; [destruct (p c); simpl; by rewrite ?Hc|].
  by rewrite Hc.
Qed.

Lemma avoids_trim_matches c p s : avoids c s = true -> avoids c (trim_matches p s) = true.
Proof. intros H. by apply all_bytes_trim_end_matches, all_bytes_trim_start_matches. Qed.

Lemma length_join_cons c (w : string) ws :
  String.length (str_join (String c "") (w :: ws)) =
  (String.length w + match ws with [] => O | _ => S (String.length (str_join (String c "") ws)) end)%nat.
Proof.
  destruct ws as [|v vs]; [simpl; lia|].
  change (str_join (String c "") (w :: v :: vs)) with (w +:+ String c (str_join (String c "") (v :: vs))).
  rewrite length_append. simpl. lia.
Qed.

Lemma str_take_length n s : (n <= String.length s)%nat -> String.length (str_take n s) = n.
Proof.
  unfold str_take. revert s. induction n as [|n IH]; intros s Hle.
  - by destruct s.
  - destruct s as [|c s]; simpl in *; [lia|]. rewrite IH; lia.
Qed.

Lemma str_take_prefix n s : exists t, s = str_take n s +:+ t.
Proof.
  unfold str_take. revert s. induction n as [|n IH]; intros s.
  - exists s. by destruct s.
  - destruct s as [|c s]; [by exists ""|]. destruct (IH s) as [t Ht].
    exists t. simpl. by rewrite <- Ht.
Qed.

Lemma boundary_down_le s e : (boundary_down s e <= e)%nat.
Proof. induction e; simpl; [done|]. case_match; lia. Qed.

Lemma boundary_down_is_boundary s e : is_char_boundary s (boundary_down s e) = true.
Proof. induction e as [|e IH]; [done|]. cbn [boundary_down]. by case_match. Qed.

Lemma boundary_down_max s e i :
  (i <= e)%nat -> is_char_boundary s i = true -> (i <= boundary_down s e)%nat.
Proof.
  induction e as [|e IH]; intros Hle Hb; [lia|]. cbn [boundary_down].
  destruct (decide (i = S e)) as [->|]; [by rewrite Hb|].
  case_match; [lia|]. apply IH; [lia|done].
Qed.

(** ** Properties of the bounded prefix *)

(** [truncate_on_char_boundary] returns the longest prefix of the text
    that fits in [max] bytes and ends on a character boundary: the result is a
    prefix, fits, ends on a boundary, and no boundary within [max] lies beyond
    its end. *)
Theorem truncate_longest_prefix (text : string) (max : nat) :
  let r := truncate_on_char_boundary text max in
  (exists rest, text = r +:+ rest) /\
  (String.length r <= max)%nat /\
  is_char_boundary text (String.length r) = true /\
  (forall i, (i <= max)%nat -> (i <= String.length text)%nat ->
             is_char_boundary text i = true -> (i <= String.length r)%nat).
Proof.
  unfold truncate_on_char_boundary. simpl.
  destruct (Nat.leb_spec (String.length text) max) as [Hle|Hgt].
  - split; [exists ""; by rewrite append_nil_r|]. repeat split; try lia.
    unfold is_char_boundary. destruct (String.length text) eqn:E; [done|].
    assert (Hn : String.get (String.length text) text = None).
    { clear. induction text; [done|]. simpl. auto. }
    rewrite E in Hn. rewrite Hn. apply Nat.eqb_refl.
  - pose proof (boundary_down_le text max) as Hb.
    rewrite str_take_length by lia.
    split; [apply str_take_prefix|]. repeat split; try lia.
    + apply boundary_down_is_boundary.
    + intros i Hi _ Hbi. by apply boundary_down_max.
Qed.
