(* ===== verification/Vocabulary.v ===== *)
(** * Vocabulary: statuses, failure classes and errors

    Models [src/crates/kafkaman-core/src/{enum_macros,status,failure_kind,
    problem,error}.rs] and [src/crates/kafkaman-sqlx/src/error.rs].

    The [sql_enum!] and [discriminant_enum!] macros generate, from one variant
    list, the array [ALL], the persisted spelling and its inverse. The class
    [NamedEnum] states what a generated enum promises (the array is complete,
    the spellings are distinct), the generic operations are written once
    against it, and each enum discharges it by computation. *)

From S2P Require Import Prelude Text.
From stdpp Require Import pretty.
Open Scope string_scope.
Open Scope list_scope.
#[global] Open Scope Z_scope.

(** ** Enums with a persisted spelling *)

Class NamedEnum (A : Type) `{EqDecision A} := {
  enum_ALL : list A;
  enum_str : A -> string;
  enum_complete : forall a, a ∈ enum_ALL;
  enum_nodup : NoDup enum_ALL;
  enum_str_inj : forall a b, enum_str a = enum_str b -> a = b;
}.

Section named_enum.
Context {A : Type} `{NamedEnum A}.

(** [ALL.into_iter().find(|c| c.as_str() == value)]: the generated
    [FromStr::from_str], up to the error it wraps a miss in. *)
Definition enum_find (value : string) : option A :=
  List.find (fun c => bool_decide (enum_str c = value)) enum_ALL.

(** The generated [sql_literal] and [sql_literal_list]. *)
Definition sql_literal (a : A) : string := "'" +:+ enum_str a +:+ "'".
Definition sql_literal_list : string := str_join ", " (map sql_literal enum_ALL).

Lemma enum_find_str (a : A) : enum_find (enum_str a) = Some a.
Proof.
  unfold enum_find. destruct (List.find _ _) as [b|] eqn:E.
  - apply find_some in E as [_ E]. apply bool_decide_eq_true in E. f_equal. by apply enum_str_inj.
  - eapply find_none in E; [|apply list_elem_of_In, enum_complete].
    by apply bool_decide_eq_false in E.
Qed.

Lemma enum_find_Some (v : string) (a : A) : enum_find v = Some a <-> enum_str a = v.
Proof.
  split; [|intros <-; apply enum_find_str].
  intros [_ E]%find_some. by apply bool_decide_eq_true in E.
Qed.
End named_enum.

#[export] Hint Resolve enum_find_str : kafkaman.

(** Discharges a [NamedEnum] instance of a plain enumeration. *)
Ltac solve_named_enum :=
  first [ by intros []; vm_compute; set_solver
        | by apply (bool_decide_unpack _); vm_compute
        | by intros [] [] ].

(** ** Row statuses *)

Inductive OutboxStatus := Pending | Publishing | Published | Superseded | OFailed.
#[global] Instance OutboxStatus_eq_dec : EqDecision OutboxStatus.
Proof. solve_decision. Defined.

#[global] Program Instance OutboxStatus_enum : NamedEnum OutboxStatus := {|
  enum_ALL := [Pending; Publishing; Published; Superseded; OFailed];
  enum_str s := match s with
    | Pending => "Pending" | Publishing => "Publishing" | Published => "Published"
    | Superseded => "Superseded" | OFailed => "Failed" end
|}.
Solve All Obligations with solve_named_enum.

Definition outbox_is_terminal (s : OutboxStatus) : bool :=
  match s with Published | Superseded | OFailed => true | _ => false end.

Inductive ReceiveStatus := RPending | Processed | Retryable | Failed.
#[global] Instance ReceiveStatus_eq_dec : EqDecision ReceiveStatus.
Proof. solve_decision. Defined.

#[global] Program Instance ReceiveStatus_enum : NamedEnum ReceiveStatus := {|
  enum_ALL := [RPending; Processed; Retryable; Failed];
  enum_str s := match s with
    | RPending => "Pending" | Processed => "Processed"
    | Retryable => "Retryable" | Failed => "Failed" end
|}.
Solve All Obligations with solve_named_enum.

Definition receive_is_terminal (s : ReceiveStatus) : bool :=
  match s with Processed | Failed => true | _ => false end.

(** ** Problem types *)

Definition MISSING_HANDLER := "urn:kafkaman:problem:missing-handler".
Definition INVALID_PAYLOAD := "urn:kafkaman:problem:invalid-payload".
Definition INFRASTRUCTURE := "urn:kafkaman:problem:infrastructure".
Definition HANDLER := "urn:kafkaman:problem:handler".
Definition HANDLER_PANICKED := "urn:kafkaman:problem:handler-panicked".
Definition APPLICATION_PANICKED := "urn:kafkaman:problem:application-panicked".
Definition CONFIGURATION := "urn:kafkaman:problem:configuration".
Definition SCHEMA := "urn:kafkaman:problem:schema".
Definition MESSAGE_ROUTING := "urn:kafkaman:problem:message-routing".
Definition CACHE_INVARIANT := "urn:kafkaman:problem:cache-invariant".
Definition IDEMPOTENCY := "urn:kafkaman:problem:idempotency".
Definition TOPIC := "urn:kafkaman:problem:topic".
Definition UNSAFE_REPLAY := "urn:kafkaman:problem:unsafe-replay".
Definition PUBLISH := "urn:kafkaman:problem:publish".
Definition BREAKER_TRIPPED := "urn:kafkaman:problem:breaker-tripped".
Definition CONSTRAINT := "urn:kafkaman:problem:constraint".
Definition CONTENTION := "urn:kafkaman:problem:contention".
Definition STATEMENT := "urn:kafkaman:problem:statement".

Definition ALL_PROBLEM_TYPES : list string :=
  [MISSING_HANDLER; INVALID_PAYLOAD; INFRASTRUCTURE; HANDLER; HANDLER_PANICKED;
   APPLICATION_PANICKED; CONFIGURATION; SCHEMA; MESSAGE_ROUTING; CACHE_INVARIANT;
   IDEMPOTENCY; TOPIC; UNSAFE_REPLAY; PUBLISH; BREAKER_TRIPPED; CONSTRAINT;
   CONTENTION; STATEMENT].

(** ** Failure classes *)

Inductive ReceivedFailureKind := KMissingHandler | KInvalidPayload | KInfrastructure | KHandler.
#[global] Instance ReceivedFailureKind_eq_dec : EqDecision ReceivedFailureKind.
Proof. solve_decision. Defined.

#[global] Program Instance ReceivedFailureKind_enum : NamedEnum ReceivedFailureKind := {|
  enum_ALL := [KMissingHandler; KInvalidPayload; KInfrastructure; KHandler];
  enum_str s := match s with
    | KMissingHandler => "MissingHandler" | KInvalidPayload => "InvalidPayload"
    | KInfrastructure => "Infrastructure" | KHandler => "Handler" end
|}.
Solve All Obligations with solve_named_enum.

(** [ReceivedFailureKind::problem_type] and [title]. *)
Definition kind_problem_type (k : ReceivedFailureKind) : string :=
  match k with
  | KMissingHandler => MISSING_HANDLER
  | KInvalidPayload => INVALID_PAYLOAD
  | KInfrastructure => INFRASTRUCTURE
  | KHandler => HANDLER
  end.

Definition kind_title (k : ReceivedFailureKind) : string :=
  match k with
  | KMissingHandler => "No handler registered for message type"
  | KInvalidPayload => "Message payload could not be decoded"
  | KInfrastructure => "Infrastructure failure during dispatch"
  | KHandler => "Handler returned an error"
  end.

(** [ReceivedFailureKind::coarsening]. *)
Definition coarsening (problem_type : string) : ReceivedFailureKind :=
  if bool_decide (problem_type = MISSING_HANDLER) then KMissingHandler
  else if bool_decide (problem_type = INVALID_PAYLOAD) then KInvalidPayload
  else if bool_decide (problem_type = HANDLER) || bool_decide (problem_type = HANDLER_PANICKED)
  then KHandler
  else KInfrastructure.

(** [ReceivedFailureKind::from_problem_type]. *)
Definition from_problem_type (value : string) : option ReceivedFailureKind :=
  List.find (fun kind => bool_decide (kind_problem_type kind = value)
                         || bool_decide (enum_str kind = value)) enum_ALL.

(** The serde adapter [problem_type::deserialize]: an unknown [type] degrades to
    the default kind. *)
Definition problem_type_deserialize (raw : string) : ReceivedFailureKind :=
  default KHandler (from_problem_type raw).

Inductive ReceivedIngestFailureKind :=
| MissingPayload | MissingIdempotencyKeyKind | IInvalidPayload | InvalidHeader
| UnexpectedTopic | MessageIdConflictKind.
#[global] Instance ReceivedIngestFailureKind_eq_dec : EqDecision ReceivedIngestFailureKind.
Proof. solve_decision. Defined.

#[global] Program Instance ReceivedIngestFailureKind_enum :
  NamedEnum ReceivedIngestFailureKind := {|
  enum_ALL := [MissingPayload; MissingIdempotencyKeyKind; IInvalidPayload; InvalidHeader;
               UnexpectedTopic; MessageIdConflictKind];
  enum_str s := match s with
    | MissingPayload => "MissingPayload"
    | MissingIdempotencyKeyKind => "MissingIdempotencyKey"
    | IInvalidPayload => "InvalidPayload" | InvalidHeader => "InvalidHeader"
    | UnexpectedTopic => "UnexpectedTopic"
    | MessageIdConflictKind => "MessageIdConflict" end
|}.
Solve All Obligations with solve_named_enum.

Definition ingest_kind_problem_type (k : ReceivedIngestFailureKind) : string :=
  match k with
  | MissingPayload | IInvalidPayload | InvalidHeader => INVALID_PAYLOAD
  | MissingIdempotencyKeyKind | MessageIdConflictKind => IDEMPOTENCY
  | UnexpectedTopic => MESSAGE_ROUTING
  end.

Inductive FailureStage := SRouting | SHandler | SBookkeeping.
#[global] Instance FailureStage_eq_dec : EqDecision FailureStage.
Proof. solve_decision. Defined.

#[global] Program Instance FailureStage_enum : NamedEnum FailureStage := {|
  enum_ALL := [SRouting; SHandler; SBookkeeping];
  enum_str s := match s with
    | SRouting => "routing" | SHandler => "handler" | SBookkeeping => "bookkeeping" end
|}.
Solve All Obligations with solve_named_enum.

(** ** Errors *)

(** [kafkaman_core::Error]. *)
Inductive CoreError :=
| InvalidIdentifier (value reason : string)
| InvalidOutboxStatus (value : string)
| InvalidReceiveStatus (value : string)
| InvalidMessageDescriptor (message : string)
| InvalidIdempotencyNamespace (value reason : string)
| InvalidIdempotencyKey (value reason : string)
| InvalidIdempotencySource (message : string)
| InvalidRelayConfig (field reason : string)
| InvalidDispatcherConfig (field reason : string)
| InvalidPurgeConfig (field reason : string)
| InvalidTopicSpec (field reason : string)
| TopicPolicyMismatch (topic expected found : string)
| TopicMissing (topic : string)
| TopicPartitionsUndeclared (topic : string).

(** The generated [FromStr] of the two row statuses. *)
Definition outbox_status_from_str (value : string) : result CoreError OutboxStatus :=
  ok_or (InvalidOutboxStatus value) (enum_find value).
Definition receive_status_from_str (value : string) : result CoreError ReceiveStatus :=
  ok_or (InvalidReceiveStatus value) (enum_find value).

Definition core_problem_type (e : CoreError) : string :=
  match e with
  | InvalidIdentifier _ _ | InvalidRelayConfig _ _ | InvalidDispatcherConfig _ _
  | InvalidPurgeConfig _ _ | InvalidTopicSpec _ _ => CONFIGURATION
  | InvalidOutboxStatus _ | InvalidReceiveStatus _ => SCHEMA
  | InvalidMessageDescriptor _ => MESSAGE_ROUTING
  | InvalidIdempotencyNamespace _ _ | InvalidIdempotencyKey _ _
  | InvalidIdempotencySource _ => IDEMPOTENCY
  | TopicPolicyMismatch _ _ _ | TopicMissing _ | TopicPartitionsUndeclared _ => TOPIC
  end.

(** What the program reads off a [sqlx::Error]: for a database error its kind
    and SQLSTATE, and for every error its text. *)
Inductive DbErrorKind :=
| UniqueViolation | ForeignKeyViolation | NotNullViolation | CheckViolation | OtherKind.

Inductive SqlxError :=
| SqlxDatabase (kind : DbErrorKind) (code : option string) (text : string)
| SqlxOther (text : string).

(** [kafkaman_sqlx::Error]. The errors of other crates are named by their text. *)
Inductive Error :=
| ECore (e : CoreError)
| ESqlx (e : SqlxError)
| ESerde (text : string)
| EConfig (text : string)
| EConfigErrors (text : string)
| EDuplicateChangesetVersion (version : Z)
| EDisorderedChangesetVersion (previous next : Z)
| EChecksumMismatch (version : Z) (stored current : string)
| EInvalidReplay (version : Z) (message : string)
| EUnsafeOutboxReplay (message_type : string)
| EInvalidResync (message : string)
| EInvalidIngestFailureKind (value : string)
| EInvalidReceivedFilter (message : string)
| EMigrationLockBusy
| EMigrationPoolTooSmall (max_connections : Z)
| EUnknownMessageType (message_type : string)
| EConflictingMessageType (message_type registered conflicting : string)
| EReservedHeader (header : string)
| EMissingIdempotencyKey
| EApplicationPanicked (message_type operation message : string)
| EInvalidEntityKey (message_type : string)
| EMissingEntityKey (message_id : uuid) (message_type : string)
| ECacheOriginMismatch (entity_key applied_topic : string) (applied_partition : Z)
    (incoming_topic : string) (incoming_partition : Z)
| EMissingHandler (message_type : string)
| EHandler (message : string)
| EHandlerPanicked (message : string)
| EConflictingRole (message_type existing added : string)
| EChangesetBandCollision (band : Z) (first second : string).

(** [sqlx_problem_type]. *)
Definition sqlx_problem_type (e : SqlxError) : string :=
  match e with
  | SqlxOther _ => INFRASTRUCTURE
  | SqlxDatabase OtherKind code _ =>
      match code ≫= str_get_to 2 with
      | Some cls =>
          if bool_decide (cls = "23") then CONSTRAINT
          else if bool_decide (cls = "40") then CONTENTION
          else if bool_decide (cls = "22") || bool_decide (cls = "42") then STATEMENT
          else INFRASTRUCTURE
      | None => INFRASTRUCTURE
      end
  | SqlxDatabase _ _ _ => CONSTRAINT
  end.

(** [impl ProblemType for Error]. *)
Definition problem_type (e : Error) : string :=
  match e with
  | ECore e => core_problem_type e
  | ESqlx e => sqlx_problem_type e
  | ESerde _ => INVALID_PAYLOAD
  | EConfig _ | EConfigErrors _ | EInvalidReceivedFilter _ | EInvalidResync _
  | EMigrationPoolTooSmall _ => CONFIGURATION
  | EDuplicateChangesetVersion _ | EDisorderedChangesetVersion _ _ | EChecksumMismatch _ _ _
  | EInvalidReplay _ _ | EInvalidIngestFailureKind _ | EMigrationLockBusy
  | EChangesetBandCollision _ _ _ => SCHEMA
  | EUnsafeOutboxReplay _ => UNSAFE_REPLAY
  | EUnknownMessageType _ | EConflictingMessageType _ _ _ | EReservedHeader _
  | EConflictingRole _ _ _ => MESSAGE_ROUTING
  | EMissingIdempotencyKey => IDEMPOTENCY
  | EApplicationPanicked _ _ _ => APPLICATION_PANICKED
  | EInvalidEntityKey _ | EMissingEntityKey _ _ | ECacheOriginMismatch _ _ _ _ _ => CACHE_INVARIANT
  | EMissingHandler _ => MISSING_HANDLER
  | EHandler _ => HANDLER
  | EHandlerPanicked _ => HANDLER_PANICKED
  end.

(** [ProblemType::failure_kind]: the class a row stores. *)
Definition failure_kind (e : Error) : ReceivedFailureKind := coarsening (problem_type e).

(** ** Properties of the vocabulary *)

(** Membership of a concrete URI in the published list, by computation. *)
Ltac published := by apply (bool_decide_unpack _); vm_compute.

(** Every error of the storage crate names one of the published problem
    types: no variant carries a URI outside the list. *)
Theorem problem_type_published (e : Error) : problem_type e ∈ ALL_PROBLEM_TYPES.
Proof.
  assert (Hc : forall c, core_problem_type c ∈ ALL_PROBLEM_TYPES) by (intros []; published).
  assert (Hs : forall s, sqlx_problem_type s ∈ ALL_PROBLEM_TYPES).
  { intros [k code t|t]; [|published].
    destruct k; cbn [sqlx_problem_type]; [published..|].
    destruct (code ≫= str_get_to 2) as [cls|]; [|published].
    destruct (bool_decide (cls = "23")), (bool_decide (cls = "40")),
      (bool_decide (cls = "22")), (bool_decide (cls = "42")); published. }
  destruct e; cbn [problem_type]; auto; published.
Qed.

(** The exact inverse that reads stored rows back and the lossy map that
    writes them agree wherever both apply, for the URI and for the legacy bare
    spelling: a stored class is read back as the class it was written as, and
    coarsening a class's own URI is the identity. *)
Theorem stored_kind_roundtrip (k : ReceivedFailureKind) :
  from_problem_type (kind_problem_type k) = Some k /\
  from_problem_type (enum_str k) = Some k /\
  problem_type_deserialize (kind_problem_type k) = k /\
  coarsening (kind_problem_type k) = k.
Proof. by destruct k. Qed.

(** Fourteen of the eighteen published problem types coarsen to
    [Infrastructure]; the documentation of [coarsening] counts eleven of
    fifteen. *)
Theorem coarsening_counts :
  length ALL_PROBLEM_TYPES = 18%nat /\
  length (List.filter (fun u => bool_decide (coarsening u = KInfrastructure)) ALL_PROBLEM_TYPES)
  = 14%nat.
Proof. vm_compute. done. Qed.

(** Row decoding inverts the persisted spelling of both statuses and
    refuses every other text, naming it. *)
Theorem status_roundtrip (value : string) :
  (forall s, outbox_status_from_str value = Ok s <-> enum_str s = value) /\
  (forall s, receive_status_from_str value = Ok s <-> enum_str s = value) /\
  (forall e, outbox_status_from_str value = Err e -> e = InvalidOutboxStatus value) /\
  (forall e, receive_status_from_str value = Err e -> e = InvalidReceiveStatus value).
Proof.
  assert (Hall : forall A `{NamedEnum A} (e : CoreError) (a : A),
            ok_or e (enum_find value) = Ok a <-> enum_str a = value).
  { intros A ? ? e a. rewrite <- enum_find_Some. destruct (enum_find value); simpl; naive_solver. }
  split; [apply Hall|]. split; [apply Hall|].
  unfold outbox_status_from_str, receive_status_from_str, ok_or.
  split; intros e; case_match; congruence.
Qed.
