(* ===== verification/Trace.v ===== *)
(** * Trace: W3C trace context

    Models [src/crates/kafkaman-core/src/trace.rs]: the [TraceContext] value,
    its one validating constructor [from_parts], the [traceparent] grammar and
    the normalisation of [tracestate]. The functions that talk to OpenTelemetry
    ([capture], [set_parent], [add_link], [attach]) are in [Propagation]. *)

From S2P Require Import Prelude Text.
Open Scope string_scope.
Open Scope list_scope.
Open Scope Z_scope.

#[local] Arguments String.append !_ _ : simpl nomatch.

Definition MAX_APPENDED_FIELDS : nat := 12.
Definition MAX_TRACESTATE_MEMBERS : nat := 32.
Definition MAX_TRACESTATE_VALUE : nat := 256.
Definition MAX_TRACESTATE_LEN : nat := 2048.

(** [(lo..=hi).contains(&s.len())]. *)
Definition len_within (lo hi : nat) (s : string) : bool :=
  Nat.leb lo (String.length s) && Nat.leb (String.length s) hi.

Definition digit : ascii -> bool := byte_in 48 57.
Definition lower : ascii -> bool := byte_in 97 122.

Definition is_hex (value : string) (len : nat) : bool :=
  Nat.eqb (String.length value) len
  && all_bytes (fun b => digit b || byte_in 97 102 b) value.

Definition nonzero (value : string) : bool := any_byte (fun b => negb (Ascii.eqb b "0"%char)) value.

(** The loop over the fields appended after the flags, with its counter. *)
Fixpoint appended_ok (version : string) (appended : nat) (fields : list string) : bool :=
  match fields with
  | [] => true
  | field :: rest =>
      let appended := S appended in
      if bool_decide (version = "00") || is_empty field
         || Nat.ltb MAX_APPENDED_FIELDS appended
      then false else appended_ok version appended rest
  end.

Definition is_well_formed_traceparent (value : string) : bool :=
  match split_on "-"%char value with
  | version :: trace_id :: parent_id :: flags :: fields =>
      if negb (is_hex version 2) || bool_decide (version = "ff") then false
      else if negb (appended_ok version 0 fields) then false
      else is_hex trace_id 32 && nonzero trace_id
           && is_hex parent_id 16 && nonzero parent_id
           && is_hex flags 2
  | _ => false
  end.

Definition is_key_byte (b : ascii) : bool :=
  lower b || digit b || Ascii.eqb b "_"%char || Ascii.eqb b "-"%char
  || Ascii.eqb b "*"%char || Ascii.eqb b "/"%char.

(** [matches!(s.bytes().next(), Some(pattern))]. *)
Definition first_byte_is (p : ascii -> bool) (s : string) : bool :=
  match s with EmptyString => false | String c _ => p c end.

Definition is_tracestate_key (key : string) : bool :=
  match split_once "@"%char key with
  | Some (tenant, vendor) =>
      len_within 1 241 tenant && first_byte_is (fun b => lower b || digit b) tenant
      && all_bytes is_key_byte tenant
      && len_within 1 14 vendor && first_byte_is lower vendor
      && all_bytes is_key_byte vendor
  | None =>
      len_within 1 256 key && first_byte_is lower key && all_bytes is_key_byte key
  end.

Definition is_tracestate_value (value : string) : bool :=
  len_within 1 MAX_TRACESTATE_VALUE value
  && all_bytes (fun b => byte_in 32 43 b || byte_in 45 60 b || byte_in 62 126 b) value.

Definition ows (b : ascii) : bool := Ascii.eqb b " "%char || Ascii.eqb b "009"%char.

(** The loop of [sanitized_tracestate]: [members] and [keys] are the two vectors
    it pushes to. *)
Fixpoint tracestate_members (pieces members keys : list string) : option (list string) :=
  match pieces with
  | [] => Some members
  | piece :: rest =>
      let member := trim_matches ows piece in
      if is_empty member then tracestate_members rest members keys
      else match split_once "="%char member with
           | None => None
           | Some (key, entry) =>
               if negb (is_tracestate_key key) || negb (is_tracestate_value entry) then None
               else if bool_decide (key ∈ keys) then None
               else tracestate_members rest
                      (if Nat.ltb (length members) MAX_TRACESTATE_MEMBERS
                       then members ++ [member] else members)
                      (keys ++ [key])
           end
  end.

Definition sanitized_tracestate (value : string) : option string :=
  if Nat.ltb MAX_TRACESTATE_LEN (String.length value) then None
  else match tracestate_members (split_on ","%char value) [] [] with
       | None => None
       | Some [] => None
       | Some members => Some (str_join "," members)
       end.

Record TraceContext := { traceparent : string; tracestate : option string }.
#[global] Instance TraceContext_eq_dec : EqDecision TraceContext.
Proof. solve_decision. Defined.

Definition from_parts (tp ts : option string) : option TraceContext :=
  match tp with
  | None => None
  | Some tp =>
      if is_well_formed_traceparent tp
      then Some {| traceparent := tp; tracestate := ts ≫= sanitized_tracestate |}
      else None
  end.

(** [Deserialize for TraceContext] after the raw struct has been read. *)
Definition deserialize_trace (tp : string) (ts : option string) : result string TraceContext :=
  ok_or "traceparent is not a W3C trace context kafkaman can forward"
        (from_parts (Some tp) ts).

(** ** The [tracestate] loop, as a filter *)

(** The list members a value carries: trimmed and non-empty. *)
Definition carried (pieces : list string) : list string :=
  List.filter (fun m => negb (is_empty m)) (map (trim_matches ows) pieces).

Definition member_key (m : string) : string :=
  match split_once "="%char m with Some (k, _) => k | None => "" end.

Definition member_ok (m : string) : bool :=
  match split_once "="%char m with
  | Some (k, e) => is_tracestate_key k && is_tracestate_value e
  | None => false
  end.

Lemma member_ok_split m :
  member_ok m = true ->
  exists e, split_once "="%char m = Some (member_key m, e)
            /\ is_tracestate_key (member_key m) = true /\ is_tracestate_value e = true.
Proof.
  unfold member_ok, member_key. destruct (split_once "="%char m) as [[k e]|]; [|done].
  intros [? ?]%andb_true_iff. eauto.
Qed.

Definition kept (ms M : list string) : list string :=
  ms ++ take (MAX_TRACESTATE_MEMBERS - length ms) M.

Lemma kept_nil M : kept [] M = take MAX_TRACESTATE_MEMBERS M.
Proof. done. Qed.

Lemma kept_cons ms m M :
  kept ms (m :: M) =
  kept (if Nat.ltb (length ms) MAX_TRACESTATE_MEMBERS then ms ++ [m] else ms) M.
Proof.
  unfold kept. destruct (Nat.ltb_spec (length ms) MAX_TRACESTATE_MEMBERS) as [Hlt|Hge].
  - rewrite length_app. simpl.
    replace (MAX_TRACESTATE_MEMBERS - length ms)%nat
      with (S (MAX_TRACESTATE_MEMBERS - (length ms + 1)))%nat by lia.
    simpl. by rewrite <- app_assoc.
  - by replace (MAX_TRACESTATE_MEMBERS - length ms)%nat with O by lia.
Qed.

Lemma tracestate_members_sound pieces ms ks out :
  NoDup ks ->
  tracestate_members pieces ms ks = Some out ->
  Forall (fun m => member_ok m = true) (carried pieces)
  /\ NoDup (ks ++ map member_key (carried pieces))
  /\ out = kept ms (carried pieces).
Proof.
  revert ms ks. induction pieces as [|p ps IH]; intros ms ks Hks H.
  - simpl in H. simplify_eq. unfold carried, kept. simpl. rewrite take_nil, !app_nil_r. done.
  - simpl in H. unfold carried. simpl. fold (carried ps).
    destruct (is_empty (trim_matches ows p)) eqn:Ee; simpl; [by apply IH|].
    set (m := trim_matches ows p) in *.
    destruct (split_once "="%char m) as [[k e]|] eqn:Es; [|done].
    destruct (is_tracestate_key k) eqn:Hk; [|done].
    destruct (is_tracestate_value e) eqn:He; [|done]. simpl in H.
    case_bool_decide as Hin; [done|].
    assert (Hmk : member_key m = k) by (unfold member_key; by rewrite Es).
    apply IH in H as (Hv & Hnd & ->).
    2: { apply NoDup_app. split_and!; [done|set_solver|apply NoDup_singleton]. }
    split_and!.
    + constructor; [|done]. unfold member_ok. by rewrite Es, Hk, He.
    + rewrite Hmk. by rewrite <- app_assoc in Hnd.
    + by rewrite kept_cons.
Qed.

Lemma tracestate_members_complete pieces ms ks :
  Forall (fun m => member_ok m = true) (carried pieces) ->
  NoDup (ks ++ map member_key (carried pieces)) ->
  tracestate_members pieces ms ks = Some (kept ms (carried pieces)).
Proof.
  revert ms ks. induction pieces as [|p ps IH]; intros ms ks Hv Hnd.
  - simpl. unfold kept, carried. simpl. by rewrite take_nil, app_nil_r.
  - unfold carried in *. simpl in *. fold (carried ps) in *.
    destruct (is_empty (trim_matches ows p)) eqn:Ee; simpl in *; [by apply IH|].
    set (m := trim_matches ows p) in *.
    inversion Hv as [|? ? Hm Hv']; subst.
    apply member_ok_split in Hm as (e & -> & -> & ->). simpl.
    case_bool_decide as Hin.
    { apply NoDup_app in Hnd as (_ & Hd & _). exfalso. apply (Hd _ Hin). left. }
    rewrite IH; [by rewrite kept_cons|done|]. by rewrite <- app_assoc.
Qed.

(** ** Lengths *)

Definition total (ws : list string) : nat := foldr (fun w n => S (String.length w) + n)%nat O ws.

Lemma length_join_total c ws :
  ws <> [] -> S (String.length (str_join (String c "") ws)) = total ws.
Proof.
  induction ws as [|w ws IH]; intros Hne; [done|].
  rewrite length_join_cons. destruct ws as [|v vs]; [simpl; lia|].
  specialize (IH ltac:(done)). cbn [total foldr] in *. lia.
Qed.

Lemma total_take n ws : (total (take n ws) <= total ws)%nat.
Proof.
  revert n. induction ws as [|w ws IH]; intros [|n]; simpl; try lia.
  specialize (IH n). lia.
Qed.

Lemma total_carried ps : (total (carried ps) <= total ps)%nat.
Proof.
  induction ps as [|p ps IH]; [done|]. unfold carried. simpl. fold (carried ps).
  pose proof (length_trim_matches ows p). destruct (is_empty _); simpl; lia.
Qed.

Lemma carried_idemp ps n : carried (take n (carried ps)) = take n (carried ps).
Proof.
  assert (H : Forall (fun m => is_empty m = false /\ trim_matches ows m = m) (carried ps)).
  { apply Forall_forall. intros m [Hm Hne]%elem_of_sfilter.
    apply list_elem_of_In, in_map_iff in Hm as (p & <- & _).
    split; [by apply negb_true_iff|apply trim_matches_idemp]. }
  apply (Forall_take _ n) in H. revert H. generalize (take n (carried ps)).
  induction 1 as [|m l [He Ht] Hl IH]; [done|].
  unfold carried. simpl. rewrite Ht, He. simpl. fold (carried l). by rewrite IH.
Qed.

Lemma carried_avoids ps c m :
  (forall p, p ∈ ps -> avoids c p = true) -> m ∈ carried ps -> avoids c m = true.
Proof.
  intros Hps [Hm _]%elem_of_sfilter. apply list_elem_of_In, in_map_iff in Hm as (p & <- & Hp).
  apply avoids_trim_matches, Hps. by apply list_elem_of_In.
Qed.

Lemma sanitized_tracestate_fixed value stored :
  sanitized_tracestate value = Some stored -> sanitized_tracestate stored = Some stored.
Proof.
  intros Hs.
  unfold sanitized_tracestate in Hs.
  destruct (Nat.ltb_spec MAX_TRACESTATE_LEN (String.length value)) as [|Hlen]; [done|].
  destruct (tracestate_members _ [] []) as [out|] eqn:Em; [|done].
  apply tracestate_members_sound in Em as (Hv & Hnd & Hout); [|constructor].
  rewrite kept_nil in Hout. rewrite app_nil_l in Hnd.
  assert (Hne : out <> []) by (by destruct out).
  assert (Hst : stored = str_join "," out) by (destruct out; congruence). clear Hs. subst stored.
  assert (Hsplit : split_on ","%char (str_join "," out) = out).
  { apply split_join; [done|]. intros w Hw. rewrite Hout in Hw.
    eapply carried_avoids; [apply split_on_avoids|].
    by eapply elem_of_take in Hw as (?&?%list_elem_of_lookup_2&?). }
  assert (Hcar : carried out = out) by (rewrite Hout; apply carried_idemp).
  assert (Hln : (String.length (str_join "," out) <= String.length value)%nat).
  { apply le_S_n. rewrite length_join_total by done.
    rewrite <- (join_split ","%char value).
    rewrite length_join_total by apply split_on_nonempty.
    rewrite Hout. etrans; [apply total_take|apply total_carried]. }
  unfold sanitized_tracestate.
  destruct (Nat.ltb_spec MAX_TRACESTATE_LEN (String.length (str_join "," out))); [lia|].
  rewrite Hsplit, tracestate_members_complete.
  - rewrite Hcar, kept_nil.
    rewrite take_ge by (rewrite Hout, length_take; unfold MAX_TRACESTATE_MEMBERS; lia).
    by destruct out.
  - rewrite Hcar, Hout. by apply Forall_take.
  - rewrite app_nil_l, Hcar, Hout. rewrite <- firstn_map.
    by apply NoDup_take.
Qed.

(** ** Properties *)

(** Normalising a [tracestate] is idempotent: whatever is stored in a
    column is accepted again, unchanged, by the next hop that parses it. *)
Theorem sanitized_tracestate_idempotent (value stored : string)
  (Hs : sanitized_tracestate value = Some stored) :
  sanitized_tracestate stored = Some stored.
Proof. by eapply sanitized_tracestate_fixed. Qed.

Lemma sanitized_tracestate_idempotent_witness :
  sanitized_tracestate "b=2 , ,a=1" = Some "b=2,a=1" /\
  sanitized_tracestate "b=2,a=1" = Some "b=2,a=1".
Proof.
  split; [vm_compute; reflexivity|].
  apply (sanitized_tracestate_idempotent "b=2 , ,a=1"). vm_compute. reflexivity.
Defined.

Lemma appended_ok_spec version k fields :
  appended_ok version k fields = true <->
  (fields = [] \/ version <> "00" /\ (k + length fields <= MAX_APPENDED_FIELDS)%nat)
  /\ Forall (fun f => is_empty f = false) fields.
Proof.
  revert k. induction fields as [|f fs IH]; intros k; simpl.
  - split; [intros _; split; [by left|constructor]|done].
  - case_bool_decide as Hv; simpl.
    { split; [done|]. intros [[?|[? ?]] _]; congruence. }
    destruct (is_empty f) eqn:He; simpl.
    { split; [done|]. intros [_ H]. inversion H; congruence. }
    destruct (Nat.ltb_spec MAX_APPENDED_FIELDS (S k)); simpl.
    { split; [done|]. intros [[?|[_ ?]] _]; [done|lia]. }
    rewrite IH, Forall_cons. split.
    + intros [H1 H2]. split; [right; split; [done|]|done].
      destruct H1 as [->|[_ ?]]; simpl; lia.
    + intros [[?|[? ?]] [_ H2]]; [done|]. split; [|done]. right. split; [done|lia].
Qed.

(** The content of a [traceparent] the program acts on. *)
Definition traceparent_fields (version t p f : string) (extra : list string) : Prop :=
  is_hex version 2 = true /\ version <> "ff"
  /\ is_hex t 32 = true /\ nonzero t = true
  /\ is_hex p 16 = true /\ nonzero p = true /\ is_hex f 2 = true
  /\ (extra = [] \/ version <> "00" /\ (length extra <= MAX_APPENDED_FIELDS)%nat)
  /\ Forall (fun x => is_empty x = false /\ avoids "-"%char x = true) extra.

Lemma is_hex_avoids v n : is_hex v n = true -> avoids "-"%char v = true.
Proof.
  unfold is_hex, avoids. intros [_ H]%andb_true_iff. revert H.
  induction v as [|c v IH]; simpl; [done|]. intros [Hc Hv]%andb_true_iff.
  apply andb_true_iff. split; [|auto].
  destruct (Ascii.eqb_spec c "-"%char) as [->|]; [done|done].
Qed.

(** The [traceparent] grammar: a value is accepted exactly when it is the
    four hexadecimal fields joined by dashes (two, thirty-two, sixteen and two
    digits, the two ids not all zero, version not [ff]), followed by at most
    twelve non-empty further fields, and by none at all under version [00]. *)
Theorem traceparent_grammar (value : string) :
  is_well_formed_traceparent value = true <->
  exists version t p f extra,
    value = str_join "-" (version :: t :: p :: f :: extra)
    /\ traceparent_fields version t p f extra.
Proof.
  unfold is_well_formed_traceparent, traceparent_fields. split.
  - intros H. pose proof (join_split "-"%char value) as Hj.
    pose proof (split_on_avoids "-"%char value) as Hav.
    destruct (split_on "-"%char value) as [|version [|t [|p [|f extra]]]]; try done.
    exists version, t, p, f, extra. split; [done|].
    destruct (is_hex version 2) eqn:Hver; [|done].
    case_bool_decide as Hff; [done|]. simpl in H.
    destruct (appended_ok version 0 extra) eqn:Happ; [|done]. simpl in H.
    reflect_bools. apply appended_ok_spec in Happ as [Hex Hne].
    split_and!; try done.
    rewrite Forall_forall in *. intros x Hx. split; [by apply Hne|].
    apply Hav. do 4 right. done.
  - intros (version & t & p & f & extra & -> & Hver & Hff & Ht & Htz & Hp & Hpz & Hf & Hex & Hne).
    rewrite split_join; [|done|].
    2: { intros w Hw. rewrite !elem_of_cons in Hw. rewrite Forall_forall in Hne.
         destruct Hw as [->|[->|[->|[->|Hw]]]]; eauto using is_hex_avoids. by apply Hne. }
    rewrite Hver, bool_decide_eq_false_2 by done. simpl.
    assert (Happ : appended_ok version 0 extra = true).
    { apply appended_ok_spec. split; [done|]. eapply Forall_impl; [done|]. by intros ? []. }
    rewrite Happ. simpl. by rewrite Ht, Htz, Hp, Hpz, Hf.
Qed.

(** A stored context is canonical: reading back the two columns a context
    was written to gives the same context, so a value survives any number of
    store and forward hops. *)
Theorem from_parts_roundtrip (tp ts : option string) (c : TraceContext)
  (Hc : from_parts tp ts = Some c) :
  from_parts (Some (traceparent c)) (tracestate c) = Some c
  /\ deserialize_trace (traceparent c) (tracestate c) = Ok c.
Proof.
  assert (H : from_parts (Some (traceparent c)) (tracestate c) = Some c).
  { unfold from_parts in Hc. destruct tp as [tp|]; [|done].
    destruct (is_well_formed_traceparent tp) eqn:Hw; [|done].
    simplify_eq. simpl. rewrite Hw. do 2 f_equal.
    destruct ts as [ts|]; [|done]. simpl.
    destruct (sanitized_tracestate ts) as [st|] eqn:Es; [|done].
    by apply sanitized_tracestate_fixed in Es. }
  split; [done|]. unfold deserialize_trace. by rewrite H.
Qed.

Lemma from_parts_roundtrip_witness :
  exists c,
    from_parts (Some "00-0af7651916cd43dd8448eb211c80319c-b7ad6b7169203331-01") (Some " a=1,")
    = Some c /\
    from_parts (Some (traceparent c)) (tracestate c) = Some c
    /\ deserialize_trace (traceparent c) (tracestate c) = Ok c.
Proof.
  eexists. split; [vm_compute; reflexivity|].
  apply (from_parts_roundtrip
           (Some "00-0af7651916cd43dd8448eb211c80319c-b7ad6b7169203331-01") (Some " a=1,")).
  vm_compute. reflexivity.
Defined.
