(* ===== verification/Identity.v ===== *)
(** * Identity: idempotency keys, reserved headers and lock keys

    Models [src/crates/kafkaman-core/src/idempotency.rs] (the key and its
    hexadecimal form), [reserved_header] of
    [src/crates/kafkaman-core/src/message.rs], the envelope of
    [src/crates/kafkaman-core/src/envelope.rs] and
    [src/crates/kafkaman-sqlx/src/lock_keys.rs]. The SHA-256 digest behind
    [IdempotencyIdentity::derive] is third-party code and a parameter; the
    canonical JSON it digests is in [CanonicalJson]. *)

From S2P Require Import Prelude Text Vocabulary.
Open Scope string_scope.
Open Scope list_scope.
Open Scope Z_scope.

#[local] Arguments String.append !_ _ : simpl nomatch.

(** ** [IdempotencyKey] *)

(** [IdempotencyKey([u8; 32])]: thirty-two bytes, each a [Z] in [0, 256). *)
Definition IdempotencyKey := list Z.
Definition key_ok (k : IdempotencyKey) : Prop :=
  length k = 32%nat /\ Forall (fun b => 0 <= b < 256) k.

Definition HEX_LEN : nat := 64.

Definition chr (z : Z) : ascii := Ascii.ascii_of_N (Z.to_N z).

Definition hex_digit (nibble : Z) : ascii :=
  default "0"%char (String.get (Z.to_nat (Z.land nibble 15)) "0123456789abcdef").

Definition decode_hex_nibble (byte : ascii) : option Z :=
  if byte_in 48 57 byte then Some (byte_val byte - 48)
  else if byte_in 97 102 byte then Some (byte_val byte - 97 + 10)
  else if byte_in 65 70 byte then Some (byte_val byte - 65 + 10)
  else None.

Fixpoint to_hex (key : IdempotencyKey) : string :=
  match key with
  | [] => ""
  | byte :: rest =>
      String (hex_digit (Z.shiftr byte 4)) (String (hex_digit (Z.land byte 15)) (to_hex rest))
  end.

(** The decoding loop of [from_hex], two characters per byte. *)
Fixpoint decode_pairs (s : string) : option IdempotencyKey :=
  match s with
  | String h (String l rest) =>
      high ← decode_hex_nibble h;
      low ← decode_hex_nibble l;
      bytes ← decode_pairs rest;
      Some (Z.lor (Z.shiftl high 4) low :: bytes)
  | _ => Some []
  end.

Definition from_hex (value : string) : result CoreError IdempotencyKey :=
  if negb (Nat.eqb (String.length value) HEX_LEN)
  then Err (InvalidIdempotencyKey value "must be 64 hexadecimal characters")
  else ok_or (InvalidIdempotencyKey value "must contain only hexadecimal characters")
             (decode_pairs value).

Record IdempotencyIdentity := { idem_key : IdempotencyKey; idem_source : option json }.

Definition STRING_SOURCE_IDEMPOTENCY_NAMESPACE := "kafkaman:string-source:v1".

Section derive.
(** SHA-256 of a byte string, and the canonical JSON writer of a source. *)
Context (sha256 : string -> IdempotencyKey) (canonical_json : json -> string).

Definition derive (namespace : string) (source : json) : result CoreError IdempotencyIdentity :=
  if is_empty (trim namespace)
  then Err (InvalidIdempotencyNamespace namespace "must not be empty or whitespace")
  else Ok {| idem_key := sha256 (namespace +:+ String "000"%char (canonical_json source));
             idem_source := Some source |}.

Definition derive_from_string (to_json : string -> json) (value : string)
  : result CoreError IdempotencyIdentity :=
  if is_empty (trim value)
  then Err (InvalidIdempotencySource
              "string idempotency source must not be empty or whitespace")
  else derive STRING_SOURCE_IDEMPOTENCY_NAMESPACE (to_json value).
End derive.

(** ** Headers *)

Definition RESERVED_HEADER_PREFIX := "kafkaman-".

Definition is_reserved_key (key : string) : bool :=
  Nat.leb (String.length RESERVED_HEADER_PREFIX) (String.length key)
  && bool_decide (to_ascii_lowercase (str_take (String.length RESERVED_HEADER_PREFIX) key)
                  = RESERVED_HEADER_PREFIX).

(** The keys of a [BTreeMap] come in byte order. *)
Definition btree_keys (m : gmap string string) : list string :=
  merge_sort String.le (map fst (map_to_list m)).

Definition reserved_header (headers : gmap string string) : option string :=
  List.find is_reserved_key (btree_keys headers).

(** ** [Envelope<P>] *)

Record Envelope (P : Type) := {
  env_message_id : uuid;
  env_idempotency_key : option IdempotencyIdentity;
  env_correlation_id : uuid;
  env_causation_id : option uuid;
  env_headers : gmap string string;
  env_payload : P;
  env_occurred_at : instant;
}.
Arguments env_message_id {P} _.
Arguments env_idempotency_key {P} _.
Arguments env_correlation_id {P} _.
Arguments env_causation_id {P} _.
Arguments env_headers {P} _.
Arguments env_payload {P} _.
Arguments env_occurred_at {P} _.

(** ** Advisory lock keys *)

Definition FNV_OFFSET_BASIS : Z := 0xcbf29ce484222325.
Definition FNV_PRIME : Z := 0x00000100000001b3.

Definition bytes_of (s : string) : list Z := map byte_val (String.list_ascii_of_string s).

Definition fnv1a (hash : Z) (bytes : list Z) : Z :=
  fold_left (fun hash byte => wrap 64 (Z.lxor hash byte * FNV_PRIME)) bytes hash.

Definition advisory_lock_key (schema : string) : Z :=
  as_signed 64 (fnv1a FNV_OFFSET_BASIS (bytes_of schema)).

Definition lock_parts (schema message_type entity_key : string) : list string :=
  ["outbox_entity"; schema; message_type; entity_key].

Definition outbox_entity_lock_key (schema message_type entity_key : string) : Z :=
  as_signed 64
    (fold_left (fun hash part => fnv1a (fnv1a hash (bytes_of part)) [255])
       (lock_parts schema message_type entity_key) FNV_OFFSET_BASIS).

(** ** Lemmas *)

Lemma nibble_cases n : 0 <= n < 16 -> n ∈ (seqZ 0 16).
Proof. intros H. apply elem_of_seqZ. lia. Qed.

Lemma hex_digit_decode n : 0 <= n < 16 -> decode_hex_nibble (hex_digit n) = Some n.
Proof.
  intros H. apply nibble_cases in H. revert n H. apply Forall_forall.
  apply (bool_decide_unpack _). vm_compute. done.
Qed.

Lemma shiftr_nibble b : 0 <= b < 256 -> 0 <= Z.shiftr b 4 < 16.
Proof. intros H. rewrite Z.shiftr_div_pow2 by lia. change (2 ^ 4) with 16.
  split; [apply Z.div_pos; lia|apply Z.div_lt_upper_bound; lia]. Qed.

Lemma land_nibble b : 0 <= b -> Z.land b 15 = b mod 16.
Proof. intros H. change 15 with (Z.ones 4). by rewrite Z.land_ones by lia. Qed.

Lemma nibbles_join b :
  0 <= b < 256 -> Z.lor (Z.shiftl (Z.shiftr b 4) 4) (Z.land b 15) = b.
Proof.
  intros H. assert (Hb : b ∈ seqZ 0 256) by (apply elem_of_seqZ; lia).
  clear H. revert b Hb. apply Forall_forall. apply (bool_decide_unpack _). vm_compute. done.
Qed.

Lemma nibbles_split h l :
  0 <= h < 16 -> 0 <= l < 16 ->
  let b := Z.lor (Z.shiftl h 4) l in
  Z.shiftr b 4 = h /\ Z.land b 15 = l /\ 0 <= b < 256.
Proof.
  intros Hh Hl. apply nibble_cases in Hh, Hl. revert h Hh l Hl.
  assert (H : Forall (fun h => Forall (fun l =>
     Z.shiftr (Z.lor (Z.shiftl h 4) l) 4 = h /\ Z.land (Z.lor (Z.shiftl h 4) l) 15 = l
     /\ 0 <= Z.lor (Z.shiftl h 4) l < 256) (seqZ 0 16)) (seqZ 0 16)).
  { apply (bool_decide_unpack _). vm_compute. done. }
  rewrite Forall_forall in H. intros h Hh l Hl. specialize (H h Hh).
  rewrite Forall_forall in H. by apply H.
Qed.

Lemma decode_hex_digit c n :
  decode_hex_nibble c = Some n -> 0 <= n < 16 /\ hex_digit n = ascii_to_lower c.
Proof.
  destruct c as [[] [] [] [] [] [] [] []]; vm_compute; intros [=<-]; done.
Qed.

Lemma length_to_hex k : String.length (to_hex k) = (2 * length k)%nat.
Proof. induction k as [|b k IH]; [done|]. simpl. rewrite IH. lia. Qed.

Lemma decode_to_hex k :
  Forall (fun b => 0 <= b < 256) k -> decode_pairs (to_hex k) = Some k.
Proof.
  induction 1 as [|b k Hb Hk IH]; [done|]. cbn [to_hex decode_pairs].
  rewrite !hex_digit_decode.
  - simpl. rewrite IH. simpl. by rewrite nibbles_join.
  - by apply shiftr_nibble.
  - rewrite land_nibble by lia. apply Z.mod_pos_bound. lia.
Qed.

Lemma string_pair_ind (P : string -> Prop) :
  P "" -> (forall c, P (String c "")) ->
  (forall a b s, P s -> P (String a (String b s))) -> forall s, P s.
Proof.
  intros H0 H1 H2 s.
  assert (H : P s /\ forall c, P (String c s)); [|tauto].
  induction s as [|c s [IH1 IH2]]; split; auto.
Qed.

Lemma to_hex_decode s k :
  Nat.even (String.length s) = true -> decode_pairs s = Some k ->
  to_hex k = to_ascii_lowercase s /\ Forall (fun b => 0 <= b < 256) k.
Proof.
  revert k. induction s as [|c|h l s IH] using string_pair_ind; intros k He H.
  - by simplify_eq/=.
  - done.
  - cbn [decode_pairs] in H. simpl in He.
    destruct (decode_hex_nibble h) as [nh|] eqn:Eh; [|done].
    destruct (decode_hex_nibble l) as [nl|] eqn:El; [|done].
    destruct (decode_pairs s) as [bs|]; [|done]. simpl in H. simplify_eq.
    apply decode_hex_digit in Eh as [Rh Dh], El as [Rl Dl].
    destruct (nibbles_split nh nl Rh Rl) as (E1 & E2 & Rb).
    destruct (IH bs He eq_refl) as [IH1 IH2].
    split; [|by constructor]. cbn [to_hex to_ascii_lowercase].
    by rewrite E1, E2, Dh, Dl, IH1.
Qed.

Lemma from_hex_to_hex k : key_ok k -> from_hex (to_hex k) = Ok k.
Proof.
  intros [Hl Hb]. unfold from_hex. rewrite length_to_hex, Hl. simpl. by rewrite decode_to_hex.
Qed.

(** ** Properties *)

(** The hexadecimal form of an idempotency key is a faithful encoding: a
    key is read back from its own text, and an accepted text of either case is
    the canonical lowercase text of the key it names. *)
Theorem idempotency_key_roundtrip (k : IdempotencyKey) (s : string) (Hk : key_ok k) :
  from_hex (to_hex k) = Ok k
  /\ (forall k', from_hex s = Ok k' -> key_ok k' /\ to_hex k' = to_ascii_lowercase s).
Proof.
  split; [by apply from_hex_to_hex|].
  - intros k'. unfold from_hex.
    destruct (Nat.eqb_spec (String.length s) HEX_LEN) as [E|]; [|done]. simpl.
    destruct (decode_pairs s) as [k''|] eqn:D; [|done]. intros [=->].
    apply to_hex_decode in D as [D1 D2]; [|by rewrite E].
    split; [|done]. split; [|done].
    apply (f_equal String.length) in D1. rewrite length_to_hex in D1.
    assert (Hlow : forall t, String.length (to_ascii_lowercase t) = String.length t)
      by (induction t; simpl; congruence).
    rewrite Hlow, E in D1. unfold HEX_LEN in D1. lia.
Qed.

Lemma idempotency_key_roundtrip_witness :
  key_ok (seqZ 0 32) /\ from_hex (to_hex (seqZ 0 32)) = Ok (seqZ 0 32).
Proof.
  assert (H : key_ok (seqZ 0 32)) by (split; [done|apply (bool_decide_unpack _); vm_compute; done]).
  split; [done|]. apply (idempotency_key_roundtrip (seqZ 0 32) "" H).
Defined.

(** ** The bytes a lock key is computed from *)

Definition lock_stream (parts : list string) : list Z :=
  concat (map (fun p => bytes_of p ++ [255]) parts).

(** UTF-8 never uses the byte [0xff]. *)
Definition no_ff (s : string) : bool := all_bytes (fun c => negb (byte_in 255 255 c)) s.

Lemma fnv1a_app h xs ys : fnv1a h (xs ++ ys) = fnv1a (fnv1a h xs) ys.
Proof. unfold fnv1a. by rewrite fold_left_app. Qed.

Lemma lock_fold_stream parts h :
  fold_left (fun hash part => fnv1a (fnv1a hash (bytes_of part)) [255]) parts h
  = fnv1a h (lock_stream parts).
Proof.
  revert h. induction parts as [|p ps IH]; intros h; [done|].
  cbn [fold_left]. rewrite IH. unfold lock_stream. cbn [map concat].
  by rewrite !fnv1a_app.
Qed.

Lemma byte_val_inj a b : byte_val a = byte_val b -> a = b.
Proof.
  unfold byte_val. intros H. apply N2Z.inj in H.
  rewrite <- (Ascii.ascii_N_embedding a), <- (Ascii.ascii_N_embedding b). by f_equal.
Qed.

Lemma bytes_of_cut s t xs ys :
  no_ff s = true -> no_ff t = true ->
  bytes_of s ++ 255 :: xs = bytes_of t ++ 255 :: ys -> s = t /\ xs = ys.
Proof.
  unfold no_ff, bytes_of, byte_in.
  revert t. induction s as [|a s IH]; intros [|b t] Hs Ht H; simpl in *.
  - by simplify_eq.
  - exfalso. injection H as H _. rewrite <- H in Ht. simpl in Ht. done.
  - exfalso. injection H as H _. rewrite H in Hs. simpl in Hs. done.
  - injection H as Hab H. apply byte_val_inj in Hab as ->.
    apply andb_true_iff in Hs as [_ Hs], Ht as [_ Ht].
    destruct (IH t Hs Ht H) as [-> ->]. done.
Qed.

Lemma lock_stream_inj ps qs :
  Forall (fun p => no_ff p = true) ps -> Forall (fun p => no_ff p = true) qs ->
  lock_stream ps = lock_stream qs -> ps = qs.
Proof.
  unfold lock_stream. intros Hp. revert qs.
  induction Hp as [|p ps Hp _ IH]; intros qs Hq H.
  - destruct qs as [|q qs]; [done|]. simpl in H. by destruct (bytes_of q).
  - inversion Hq as [|q qs' Hq1 Hq2]; subst.
    { simpl in H. by destruct (bytes_of p). }
    cbn [map concat] in H. rewrite <- !app_assoc in H. simpl in H.
    apply bytes_of_cut in H as [-> H]; [|done..]. f_equal. by apply IH.
Qed.

(** An entity's lock key is one FNV-1a pass over a byte stream that
    determines the schema, the message type and the entity key: two entities
    whose parts concatenate alike still hash different streams. The key fits
    PostgreSQL's signed 64-bit argument. *)
Theorem outbox_lock_key_stream (s m e s' m' e' : string)
  (Hok : Forall (fun p => no_ff p = true) [s; m; e; s'; m'; e']) :
  outbox_entity_lock_key s m e
    = as_signed 64 (fnv1a FNV_OFFSET_BASIS (lock_stream (lock_parts s m e)))
  /\ - 2 ^ 63 <= outbox_entity_lock_key s m e < 2 ^ 63
  /\ (lock_stream (lock_parts s m e) = lock_stream (lock_parts s' m' e') ->
      s = s' /\ m = m' /\ e = e').
Proof.
  unfold outbox_entity_lock_key. rewrite lock_fold_stream. split; [done|]. split.
  - unfold as_signed. generalize (fnv1a FNV_OFFSET_BASIS (lock_stream (lock_parts s m e))).
    intros z. pose proof (wrap_range 64 z ltac:(lia)). case_decide; lia.
  - rewrite !Forall_cons in Hok. intros H.
    apply lock_stream_inj in H; [unfold lock_parts in H; by simplify_eq|..];
      unfold lock_parts; repeat constructor; tauto.
Qed.

Lemma outbox_lock_key_stream_witness :
  lock_stream (lock_parts "ab" "c" "d") <> lock_stream (lock_parts "a" "bc" "d").
Proof.
  intros E. destruct (outbox_lock_key_stream "ab" "c" "d" "a" "bc" "d") as (_ & _ & H).
  - repeat constructor.
  - by destruct (H E).
Defined.

Lemma elem_of_btree_keys m k : k ∈ btree_keys m <-> is_Some (m !! k).
Proof.
  unfold btree_keys. rewrite merge_sort_Permutation, list_elem_of_In, in_map_iff. split.
  - intros ([k' v] & <- & Hin%list_elem_of_In). apply elem_of_map_to_list in Hin. eauto.
  - intros [v Hv]. exists (k, v). split; [done|]. by apply list_elem_of_In, elem_of_map_to_list.
Qed.

(** A header map passes the reserved-namespace guard exactly when none of
    its keys begins with [kafkaman-] in any letter case, and a refusal names a
    key that does. *)
Theorem reserved_header_guard (headers : gmap string string) :
  (reserved_header headers = None <-> forall k, is_Some (headers !! k) -> is_reserved_key k = false)
  /\ (forall k, reserved_header headers = Some k ->
                is_Some (headers !! k) /\ is_reserved_key k = true).
Proof.
  unfold reserved_header. split; [split|].
  - intros H k Hk. eapply find_none in H; [done|].
    by apply list_elem_of_In, elem_of_btree_keys.
  - intros H. destruct (List.find _ _) as [k|] eqn:E; [|done].
    apply find_some in E as [Hin Hr]. rewrite H in Hr; [done|].
    by apply elem_of_btree_keys, list_elem_of_In.
  - intros k [Hin Hr]%find_some. split; [|done]. by apply elem_of_btree_keys, list_elem_of_In.
Qed.
