(* ===== verification/Topics.v ===== *)
(** * Topics: what an entity topic must look like

    Models [src/crates/kafkaman-core/src/topics.rs]: parsing a broker's
    [cleanup.policy], the required [TopicSpec], and [reconcile], the decision
    about one topic given what the broker reports and what boot may do. *)

From S2P Require Import Prelude Text Vocabulary.
Open Scope string_scope.
Open Scope list_scope.
Open Scope Z_scope.

Inductive CleanupPolicy :=
| Compact
| Delete
| CompactAndDelete
| Unrecognized (raw : string).
#[global] Instance CleanupPolicy_eq_dec : EqDecision CleanupPolicy.
Proof. solve_decision. Defined.

(** The three flags the parsing loop sets. *)
Record policy_flags := { f_compact : bool; f_delete : bool; f_unknown : bool }.

Definition policy_part (fl : policy_flags) (part : string) : policy_flags :=
  let p := to_ascii_lowercase (trim part) in
  if bool_decide (p = "compact") then
    {| f_compact := true; f_delete := f_delete fl; f_unknown := f_unknown fl |}
  else if bool_decide (p = "delete") then
    {| f_compact := f_compact fl; f_delete := true; f_unknown := f_unknown fl |}
  else if bool_decide (p = "") then fl
  else {| f_compact := f_compact fl; f_delete := f_delete fl; f_unknown := true |}.

Definition parse_policy (raw : string) : CleanupPolicy :=
  let fl := fold_left policy_part (split_on ","%char raw)
              {| f_compact := false; f_delete := false; f_unknown := false |} in
  if f_unknown fl then Unrecognized (trim raw)
  else match f_compact fl, f_delete fl with
       | true, true => CompactAndDelete
       | true, false => Compact
       | false, true => Delete
       | false, false => Unrecognized (trim raw)
       end.

Definition as_broker_value (p : CleanupPolicy) : string :=
  match p with
  | Compact => "compact"
  | Delete => "delete"
  | CompactAndDelete => "compact,delete"
  | Unrecognized raw => raw
  end.

Definition is_compact_only (p : CleanupPolicy) : bool :=
  match p with Compact => true | _ => false end.

Record TopicSpec := {
  cleanup_policy : CleanupPolicy;
  partitions : option Z;
  replication_factor : option Z;
}.
#[global] Instance TopicSpec_eq_dec : EqDecision TopicSpec.
Proof. solve_decision. Defined.

Definition compacted : TopicSpec :=
  {| cleanup_policy := Compact; partitions := None; replication_factor := None |}.

Definition with_partitions (spec : TopicSpec) (n : Z) : result CoreError TopicSpec :=
  if n <? 1 then Err (InvalidTopicSpec "partitions" "must be at least 1")
  else Ok {| cleanup_policy := cleanup_policy spec; partitions := Some n;
             replication_factor := replication_factor spec |}.

Definition with_replication_factor (spec : TopicSpec) (n : Z) : result CoreError TopicSpec :=
  if n <? 1 then Err (InvalidTopicSpec "replication_factor" "must be at least 1")
  else Ok {| cleanup_policy := cleanup_policy spec; partitions := partitions spec;
             replication_factor := Some n |}.

Record ObservedTopic := {
  obs_name : string;
  obs_cleanup_policy : CleanupPolicy;
  obs_partitions : Z;
}.

Record PartitionDrift := { drift_topic : string; drift_declared : Z; drift_found : Z }.

Definition check (spec : TopicSpec) (observed : ObservedTopic)
  : result CoreError (option PartitionDrift) :=
  if bool_decide (cleanup_policy spec <> obs_cleanup_policy observed)
  then Err (TopicPolicyMismatch (obs_name observed)
              (as_broker_value (cleanup_policy spec))
              (as_broker_value (obs_cleanup_policy observed)))
  else match partitions spec with
       | Some declared =>
           if negb (declared =? obs_partitions observed)
           then Ok (Some {| drift_topic := obs_name observed; drift_declared := declared;
                            drift_found := obs_partitions observed |})
           else Ok None
       | None => Ok None
       end.

Definition partitions_for_create (spec : TopicSpec) (topic : string) : result CoreError Z :=
  ok_or (TopicPartitionsUndeclared topic) (partitions spec).

Inductive TopicMode := Verify | Create | Off.
#[global] Instance TopicMode_eq_dec : EqDecision TopicMode.
Proof. solve_decision. Defined.

Inductive TopicAction :=
| Satisfied
| CreateTopic (partitions : Z) (replication_factor : option Z).

Record TopicOutcome := { action : TopicAction; drift : option PartitionDrift }.

Definition reconcile (topic : string) (spec : TopicSpec) (observed : option ObservedTopic)
    (mode : TopicMode) : result CoreError TopicOutcome :=
  if bool_decide (mode = Off) then Ok {| action := Satisfied; drift := None |}
  else match observed with
       | None =>
           match mode with
           | Create =>
               n ← partitions_for_create spec topic;
               Ok {| action := CreateTopic n (replication_factor spec); drift := None |}
           | _ => Err (TopicMissing topic)
           end
       | Some observed =>
           d ← check spec observed;
           Ok {| action := Satisfied; drift := d |}
       end.

(** ** Properties *)

(** What one part of a policy list means. *)
Definition part_of (part : string) : string := to_ascii_lowercase (trim part).

Lemma fold_policy_flags parts fl :
  fold_left policy_part parts fl =
  {| f_compact := f_compact fl || existsb (fun p => bool_decide (part_of p = "compact")) parts;
     f_delete := f_delete fl || existsb (fun p => bool_decide (part_of p = "delete")) parts;
     f_unknown := f_unknown fl ||
       existsb (fun p => negb (bool_decide (part_of p = "compact")
                               || bool_decide (part_of p = "delete")
                               || bool_decide (part_of p = ""))) parts |}.
Proof.
  revert fl. induction parts as [|p ps IH]; intros [c d u]; simpl; [by rewrite !orb_false_r|].
  rewrite IH. unfold policy_part. fold (part_of p).
  case_bool_decide as H1; [rewrite !bool_decide_eq_false_2 by (rewrite H1; done)|
    case_bool_decide as H2; [rewrite ?bool_decide_eq_false_2 by (rewrite H2; done)|
      case_bool_decide as H3]]; simpl;
    f_equal; rewrite ?orb_true_r, ?orb_true_l, ?orb_false_l; try done; by destruct c, d, u.
Qed.

Lemma existsb_miss (f : string -> string) (v : string) p ps :
  existsb (fun p => bool_decide (f p = v)) ps = false -> p ∈ ps -> f p <> v.
Proof.
  intros H Hp E. apply not_true_iff_false in H. apply H, existsb_exists. exists p.
  split; [by apply list_elem_of_In|by apply bool_decide_eq_true].
Qed.

(** Boot accepts a topic only when it is safe to: outside mode [Off] an
    existing topic passes exactly when its cleanup policy is the required one,
    whatever its partition count (a difference is reported, not refused); an
    absent topic is created only in mode [Create], only with a declared
    partition count, and never otherwise accepted. *)
Theorem reconcile_decisions (topic : string) (spec : TopicSpec) (mode : TopicMode)
  (Hmode : mode <> Off) :
  (forall obs out, reconcile topic spec (Some obs) mode = Ok out <->
     cleanup_policy spec = obs_cleanup_policy obs /\
     out = {| action := Satisfied;
              drift := match partitions spec with
                       | Some n => if n =? obs_partitions obs then None
                                   else Some (Build_PartitionDrift (obs_name obs) n (obs_partitions obs))
                       | None => None end |})
  /\ (forall out, reconcile topic spec None mode = Ok out <->
        mode = Create /\ exists n, partitions spec = Some n /\
        out = {| action := CreateTopic n (replication_factor spec); drift := None |})
  /\ (mode = Verify -> reconcile topic spec None mode = Err (TopicMissing topic))
  /\ (mode = Create -> partitions spec = None ->
      reconcile topic spec None mode = Err (TopicPartitionsUndeclared topic)).
Proof.
  unfold reconcile. rewrite bool_decide_eq_false_2 by done. split; [|split; [|split]].
  - intros obs out. unfold check. case_bool_decide as Hp; simpl.
    + split; [done|]. by intros [? _].
    + destruct (partitions spec) as [n|]; simpl; [|naive_solver].
      destruct (n =? obs_partitions obs); simpl; naive_solver.
  - intros out. unfold partitions_for_create.
    destruct mode; [naive_solver| |done].
    destruct (partitions spec) as [n|]; simpl; naive_solver.
  - by intros ->.
  - intros -> Hn. unfold partitions_for_create. by rewrite Hn.
Qed.

Lemma reconcile_decisions_witness :
  reconcile "t" compacted (Some (Build_ObservedTopic "t" Delete 3)) Verify
  = Err (TopicPolicyMismatch "t" "compact" "delete")
  /\ reconcile "t" compacted None Verify = Err (TopicMissing "t").
Proof.
  split; [reflexivity|].
  by apply (reconcile_decisions "t" compacted Verify).
Defined.

(** Only a list that names [compact] and nothing else (in any letter case,
    spacing and repetition) is read as the compacted policy an entity topic
    requires. *)
Theorem parse_policy_compact (raw : string) :
  parse_policy raw = Compact <->
  (exists p, p ∈ split_on ","%char raw /\ part_of p = "compact")
  /\ (forall p, p ∈ split_on ","%char raw -> part_of p = "compact" \/ part_of p = "").
Proof.
  unfold parse_policy. rewrite fold_policy_flags. cbn [f_compact f_delete f_unknown orb].
  set (ps := split_on ","%char raw).
  destruct (existsb (fun p => negb _) ps) eqn:Eu.
  { split; [done|]. intros [_ H]. apply existsb_exists in Eu as (p & Hp%list_elem_of_In & Hn).
    destruct (H p Hp) as [E|E]; rewrite E in Hn; done. }
  assert (Hk : forall p, p ∈ ps -> part_of p = "compact" \/ part_of p = "delete" \/ part_of p = "").
  { intros p Hp%list_elem_of_In. destruct (decide (part_of p = "compact")); [auto|].
    destruct (decide (part_of p = "delete")); [auto|].
    destruct (decide (part_of p = "")); [auto|]. exfalso.
    apply not_true_iff_false in Eu. apply Eu, existsb_exists. exists p. split; [done|].
    by rewrite !bool_decide_eq_false_2. }
  destruct (existsb (fun p => bool_decide (part_of p = "compact")) ps) eqn:Ec,
    (existsb (fun p => bool_decide (part_of p = "delete")) ps) eqn:Ed; (split; [try done|]).
  - intros [_ H]. apply existsb_exists in Ed as (p & Hp%list_elem_of_In & E).
    apply bool_decide_eq_true in E. destruct (H p Hp) as [E'|E']; rewrite E in E'; done.
  - intros _. split.
    + apply existsb_exists in Ec as (p & Hp%list_elem_of_In & E).
      apply bool_decide_eq_true in E. eauto.
    + intros p Hp. destruct (Hk p Hp) as [?|[Hd|?]]; auto.
      by apply (existsb_miss _ _ p) in Ed.
  - done.
  - intros [(p & Hp & E) _]. by apply (existsb_miss _ _ p) in Ec.
  - intros [(p & Hp & E) _]. by apply (existsb_miss _ _ p) in Ec.
Qed.
