(* ===== verification/Registry.v ===== *)
(** * Registry: identifiers, message types and their tables

    Models [src/crates/kafkaman-core/src/identifier.rs], the descriptor of
    [src/crates/kafkaman-core/src/message.rs], the registration half of
    [src/crates/kafkaman-sqlx/src/resolved_config.rs] and
    [src/crates/kafkaman-sqlx/src/tables.rs]. *)

From S2P Require Import Prelude Text Vocabulary Identity Topics.
Open Scope string_scope.
Open Scope list_scope.
Open Scope Z_scope.

#[local] Arguments String.append !_ _ : simpl nomatch.

(** ** [SqlIdentifier] *)

Definition MAX_LEN : nat := 63.

Definition RESERVED_WORDS : list string :=
  ["all"; "alter"; "and"; "as"; "by"; "case"; "create"; "delete"; "drop"; "from"; "group";
   "insert"; "into"; "join"; "limit"; "not"; "null"; "or"; "order"; "select"; "set"; "table";
   "type"; "update"; "where"].

Definition is_ascii_lowercase : ascii -> bool := byte_in 97 122.
Definition is_ascii_digit : ascii -> bool := byte_in 48 57.
Definition ident_byte (c : ascii) : bool :=
  is_ascii_lowercase c || is_ascii_digit c || Ascii.eqb c "_"%char.

(** [slice::binary_search(..).is_ok()] on a list sorted in byte order is
    membership; [reserved_words_sorted] below discharges the precondition. *)
Definition validate_identifier (value : string) : result CoreError unit :=
  match value with
  | EmptyString => Err (InvalidIdentifier value "must not be empty")
  | String first rest =>
      if Nat.ltb MAX_LEN (String.length value)
      then Err (InvalidIdentifier value "must be at most 63 bytes")
      else if negb (is_ascii_lowercase first)
      then Err (InvalidIdentifier value "must start with a lowercase ASCII letter")
      else if negb (all_bytes ident_byte rest)
      then Err (InvalidIdentifier value
                  "may contain only lowercase ASCII letters, digits, and underscores")
      else if bool_decide (value ∈ RESERVED_WORDS)
      then Err (InvalidIdentifier value "must not be a reserved SQL word")
      else Ok tt
  end.

(** [SqlIdentifier(String)]. *)
Definition SqlIdentifier := string.
Definition identifier_new (value : string) : result CoreError SqlIdentifier :=
  _ ← validate_identifier value; Ok value.
Definition dquote : ascii := "034"%char.
Definition quoted (i : SqlIdentifier) : string := String dquote (i +:+ String dquote "").

(** ** [MessageDescriptor] *)

Record MessageDescriptor := {
  message_type : SqlIdentifier;
  desc_topic : string;
  topic_spec : TopicSpec;
}.
#[global] Instance MessageDescriptor_eq_dec : EqDecision MessageDescriptor.
Proof. solve_decision. Defined.

Definition descriptor_new (mt topic : string) : result CoreError MessageDescriptor :=
  if is_empty (trim topic) then Err (InvalidMessageDescriptor "topic must not be empty")
  else i ← identifier_new mt;
       Ok {| message_type := i; desc_topic := topic; topic_spec := compacted |}.

(** What a [catch_unwind] around a call into application code sees: the value,
    or the payload of the panic. *)
Inductive unwinding (A : Type) := Returned (a : A) | Panicked (p : panic_payload).
Arguments Returned {A} a.
Arguments Panicked {A} p.

(** The application's [KafkaMessage] implementation: any of its methods may
    panic, and serialisation may also fail. *)
Class KafkaMessage (P : Type) := {
  MESSAGE_TYPE : string;
  TOPIC_NAME : string;
  partition_key : P -> unwinding (option string);
  entity_key : P -> unwinding string;
  to_value : P -> unwinding (result string json);
}.
Arguments MESSAGE_TYPE P {_}.
Arguments TOPIC_NAME P {_}.

Definition descriptor_of (P : Type) `{KafkaMessage P} : result CoreError MessageDescriptor :=
  descriptor_new (MESSAGE_TYPE P) (TOPIC_NAME P).

(** [catch_application_panic]. *)
Definition catch_application_panic {A} (mt operation : string) (call : unwinding A)
  : result Error A :=
  match call with
  | Returned a => Ok a
  | Panicked p => Err (EApplicationPanicked mt operation (panic_message p))
  end.

Definition lift_core {A} (r : result CoreError A) : result Error A :=
  match r with Ok a => Ok a | Err e => Err (ECore e) end.

(** ** Registration *)

(** The fields of [ResolvedConfig] that registration and table lookup read. *)
Record ResolvedConfig := {
  schema : SqlIdentifier;
  topic_prefix : string;
  messages : list MessageDescriptor;
}.

Definition effective (cfg : ResolvedConfig) (d : MessageDescriptor) : MessageDescriptor :=
  {| message_type := message_type d; desc_topic := topic_prefix cfg +:+ desc_topic d;
     topic_spec := topic_spec d |}.

Definition registered (cfg : ResolvedConfig) (d : MessageDescriptor) : option MessageDescriptor :=
  List.find (fun existing => bool_decide (message_type existing = message_type d)) (messages cfg).

Definition push_message (cfg : ResolvedConfig) (d : MessageDescriptor) : ResolvedConfig :=
  {| schema := schema cfg; topic_prefix := topic_prefix cfg; messages := messages cfg ++ [d] |}.

Definition with_message (cfg : ResolvedConfig) (d : MessageDescriptor) : ResolvedConfig :=
  let d := effective cfg d in
  match registered cfg d with Some _ => cfg | None => push_message cfg d end.

Definition try_with_message (cfg : ResolvedConfig) (d : MessageDescriptor)
  : result Error ResolvedConfig :=
  let d := effective cfg d in
  match registered cfg d with
  | Some existing =>
      if bool_decide (desc_topic existing <> desc_topic d)
      then Err (EConflictingMessageType (message_type d) (desc_topic existing) (desc_topic d))
      else Ok cfg
  | None => Ok (push_message cfg d)
  end.

(** The registration loop at the end of [from_config_with_prefix_env]. *)
Fixpoint register_all (cfg : ResolvedConfig) (ds : list MessageDescriptor)
  : result Error ResolvedConfig :=
  match ds with
  | [] => Ok cfg
  | d :: ds => cfg ← try_with_message cfg d; register_all cfg ds
  end.

Definition descriptor_for (P : Type) `{KafkaMessage P} (cfg : ResolvedConfig)
  : result Error MessageDescriptor :=
  d ← lift_core (descriptor_of P);
  ok_or (EUnknownMessageType (message_type d)) (registered cfg d).

(** ** Tables *)

Inductive TableKind := OutboxKind | ReceivedKind | CacheKind.
#[global] Instance TableKind_eq_dec : EqDecision TableKind.
Proof. solve_decision. Defined.

Definition table_prefix (k : TableKind) : string :=
  match k with OutboxKind => "outbox_" | ReceivedKind => "received_" | CacheKind => "cache_" end.

(** [OutboxTable::new], [ReceivedTable::new] and [CacheTable::new] build the
    table name alike. *)
Record Table := { tbl_schema : SqlIdentifier; tbl_name : SqlIdentifier; tbl_desc : MessageDescriptor }.

Definition table_new (k : TableKind) (s : SqlIdentifier) (d : MessageDescriptor)
  : result Error Table :=
  name ← lift_core (identifier_new (table_prefix k +:+ message_type d));
  Ok {| tbl_schema := s; tbl_name := name; tbl_desc := d |}.

Definition for_message (k : TableKind) (P : Type) `{KafkaMessage P} (cfg : ResolvedConfig)
  : result Error Table :=
  d ← descriptor_for P cfg; table_new k (schema cfg) d.

Definition qualified_name (t : Table) : string :=
  quoted (tbl_schema t) +:+ "." +:+ quoted (tbl_name t).

(** The lowercase hexadecimal digits of a 32-bit number, zero-padded to eight. *)
Definition hex8 (n : Z) : string :=
  foldr (fun i s => String (hex_digit (Z.shiftr n (4 * i))) s) "" [7; 6; 5; 4; 3; 2; 1; 0].

Definition bounded_index_name (table suffix : string) : string :=
  let middle_limit := (MAX_LEN - String.length "idx_" - String.length suffix)%nat in
  let middle :=
    if Nat.leb (String.length table) middle_limit then table
    else let hash := hex8 (wrap 32 (advisory_lock_key table)) in
         let keep := (middle_limit - String.length hash - 1)%nat in
         str_take keep table +:+ "_" +:+ hash in
  "idx_" +:+ middle +:+ suffix.

(** ** Properties of identifiers *)

Example reserved_words_sorted : StronglySorted (fun a b => String.ltb a b = true) RESERVED_WORDS.
Proof. repeat constructor. Qed.

Lemma identifier_new_Ok v i :
  identifier_new v = Ok i <->
  i = v /\ (exists c rest, v = String c rest /\ is_ascii_lowercase c = true
                           /\ all_bytes ident_byte rest = true)
  /\ (String.length v <= MAX_LEN)%nat /\ v ∉ RESERVED_WORDS.
Proof.
  unfold identifier_new, validate_identifier. destruct v as [|c rest].
  { simpl. split; [done|]. by intros (_ & (?&?&?&_) & _). }
  destruct (Nat.ltb_spec MAX_LEN (String.length (String c rest))); simpl.
  { split; [done|]. intros (_ & _ & Hl & _). simpl in *. lia. }
  destruct (is_ascii_lowercase c) eqn:Hc; simpl.
  2: { split; [done|]. intros (_ & (?&?&[=<- <-]&?&_) & _). congruence. }
  destruct (all_bytes ident_byte rest) eqn:Hr; simpl.
  2: { split; [done|]. intros (_ & (?&?&[=<- <-]&_&?) & _). congruence. }
  case_bool_decide as Hw; simpl; split; try done.
  - by intros (_ & _ & _ & ?).
  - intros [=<-]. split_and!; eauto.
  - by intros (-> & _).
Qed.

Lemma identifier_bytes v i : identifier_new v = Ok i -> all_bytes ident_byte i = true.
Proof.
  intros (-> & (c & rest & -> & Hc & Hr) & _)%identifier_new_Ok. simpl.
  unfold ident_byte at 1. by rewrite Hc, Hr.
Qed.

(** An accepted identifier is safe to interpolate: it consists of
    lowercase letters, digits and underscores only, so it holds neither the
    double quote that would end its quoted form nor any SQL delimiter, and it
    is never a reserved word or longer than PostgreSQL keeps. *)
Theorem identifier_safe (v i : string) (Hi : identifier_new v = Ok i) :
  i = v /\ all_bytes ident_byte i = true /\ avoids dquote i = true
  /\ i ∉ RESERVED_WORDS /\ (1 <= String.length i <= 63)%nat.
Proof.
  pose proof (identifier_bytes v i Hi) as Hb.
  apply identifier_new_Ok in Hi as (-> & (c & rest & Hv & _) & Hl & Hw).
  split_and!; [done|done| |done|subst v; simpl; lia|done].
  clear -Hb. unfold avoids. induction v as [|c v IH]; [done|]. simpl in *.
  apply andb_true_iff in Hb as [Hc Hv]. rewrite (IH Hv), andb_true_r.
  destruct (Ascii.eqb_spec c dquote) as [->|]; [by vm_compute in Hc|done].
Qed.

Lemma identifier_safe_witness :
  identifier_new "product_snapshot" = Ok "product_snapshot"
  /\ avoids dquote "product_snapshot" = true.
Proof.
  split; [reflexivity|].
  apply (identifier_safe "product_snapshot" "product_snapshot"). reflexivity.
Defined.

Lemma append_inj_len s1 s2 t1 t2 :
  String.length s1 = String.length s2 -> s1 +:+ t1 = s2 +:+ t2 -> s1 = s2 /\ t1 = t2.
Proof.
  revert s2. induction s1 as [|a s1 IH]; intros [|b s2] Hl H; simpl in *; try done.
  injection H as -> H. injection Hl as Hl. by destruct (IH s2 Hl H) as [-> ->].
Qed.

(** Distinct message types and kinds of table never share a table: the
    name determines both. *)
Theorem table_name_inj (k k' : TableKind) (s s' : SqlIdentifier) (d d' : MessageDescriptor)
  (t t' : Table) (Ht : table_new k s d = Ok t) (Ht' : table_new k' s' d' = Ok t')
  (Heq : tbl_name t = tbl_name t') :
  k = k' /\ message_type d = message_type d'.
Proof.
  assert (Hname : forall k s d t, table_new k s d = Ok t -> tbl_name t = table_prefix k +:+ message_type d).
  { clear. intros k s d t. unfold table_new.
    destruct (identifier_new (table_prefix k +:+ message_type d)) as [i|] eqn:E; [|done].
    simpl. intros [=<-]. simpl. by apply identifier_new_Ok in E as [-> _]. }
  rewrite (Hname _ _ _ _ Ht), (Hname _ _ _ _ Ht') in Heq.
  destruct k, k'; simpl in Heq; simplify_eq; done.
Qed.

Lemma table_name_inj_witness :
  exists t, table_new OutboxKind "s" (Build_MessageDescriptor "order" "t" compacted) = Ok t /\
  (OutboxKind = OutboxKind /\ "order" = "order").
Proof.
  eexists. split; [vm_compute; reflexivity|].
  apply (table_name_inj OutboxKind OutboxKind "s" "s"
    (Build_MessageDescriptor "order" "t" compacted) (Build_MessageDescriptor "order" "t" compacted)
    (Build_Table "s" "outbox_order" (Build_MessageDescriptor "order" "t" compacted))
    (Build_Table "s" "outbox_order" (Build_MessageDescriptor "order" "t" compacted)));
    vm_compute; reflexivity.
Defined.

(** ** Properties of registration *)

Definition registry_wf (cfg : ResolvedConfig) : Prop := NoDup (map message_type (messages cfg)).

Lemma registered_Some cfg d r :
  registered cfg d = Some r -> r ∈ messages cfg /\ message_type r = message_type d.
Proof.
  intros [Hin H]%find_some. apply bool_decide_eq_true in H. by rewrite list_elem_of_In.
Qed.

Lemma registered_None cfg d :
  registered cfg d = None -> message_type d ∉ map message_type (messages cfg).
Proof.
  intros H (r & Heq & Hin)%list_elem_of_In%in_map_iff. eapply find_none in H; [|done].
  by apply bool_decide_eq_false in H.
Qed.

Lemma try_with_message_Ok cfg d cfg' :
  try_with_message cfg d = Ok cfg' -> registry_wf cfg ->
  registry_wf cfg' /\ topic_prefix cfg' = topic_prefix cfg
  /\ messages cfg ⊆ messages cfg'
  /\ exists r, r ∈ messages cfg' /\ message_type r = message_type d
               /\ desc_topic r = topic_prefix cfg +:+ desc_topic d.
Proof.
  unfold try_with_message. intros H Hwf.
  destruct (registered cfg (effective cfg d)) as [r|] eqn:E.
  - case_bool_decide as Ht; [done|]. simplify_eq.
    apply registered_Some in E as [Hin Hty].
    split_and!; [done..|]. exists r. split_and!; [done|done|].
    by destruct (decide (desc_topic r = desc_topic (effective cfg' d))).
  - simplify_eq. apply registered_None in E. unfold registry_wf, push_message in *. simpl.
    split_and!; [|done|set_solver|].
    + rewrite map_app. apply NoDup_app. split_and!; [done| |apply NoDup_singleton].
      intros x Hx Hx'. apply list_elem_of_singleton in Hx' as ->. done.
    + exists (effective cfg d). split_and!; [set_solver|done..].
Qed.

Lemma register_all_Ok ds : forall cfg cfg',
  register_all cfg ds = Ok cfg' -> registry_wf cfg ->
  registry_wf cfg' /\ topic_prefix cfg' = topic_prefix cfg /\ messages cfg ⊆ messages cfg'
  /\ forall d, d ∈ ds -> exists r, r ∈ messages cfg' /\ message_type r = message_type d
               /\ desc_topic r = topic_prefix cfg +:+ desc_topic d.
Proof.
  induction ds as [|d ds IH]; intros cfg cfg' H Hwf; simpl in H.
  - simplify_eq. split_and!; [done..|]. intros d Hd. by inversion Hd.
  - apply bind_Ok in H as (cfg1 & H1 & H2).
    apply try_with_message_Ok in H1 as (Hwf1 & Hp & Hsub & r & Hr & Hty & Htop); [|done].
    apply IH in H2 as (Hwf2 & Hp2 & Hsub2 & Hall); [|done].
    split_and!; [done|congruence|set_solver|].
    intros d' [->|Hd']%elem_of_cons.
    + exists r. split_and!; [set_solver|done..].
    + rewrite <- Hp. by apply Hall.
Qed.

(** One message type owns exactly one topic: a successful registration
    gives every declared type exactly one entry, under the configured prefix,
    and a set of declarations naming one type on two topics is refused. *)
Theorem register_all_one_topic (cfg : ResolvedConfig) (ds : list MessageDescriptor)
  (Hwf : registry_wf cfg) :
  (forall cfg', register_all cfg ds = Ok cfg' ->
     registry_wf cfg' /\
     forall d, d ∈ ds -> exists r, r ∈ messages cfg' /\ message_type r = message_type d
       /\ desc_topic r = topic_prefix cfg +:+ desc_topic d)
  /\ (forall d d', d ∈ ds -> d' ∈ ds -> message_type d = message_type d' ->
        desc_topic d <> desc_topic d' -> is_ok (register_all cfg ds) = false).
Proof.
  split.
  - intros cfg' H. apply register_all_Ok in H as (? & _ & _ & ?); done.
  - intros d d' Hd Hd' Hty Hne. destruct (register_all cfg ds) as [cfg'|] eqn:E; [|done].
    apply register_all_Ok in E as (Hwf' & _ & _ & Hall); [|done].
    destruct (Hall d Hd) as (r & Hr & Hrt & Hrn), (Hall d' Hd') as (r' & Hr' & Hrt' & Hrn').
    assert (r = r') as <- by (eapply NoDup_key_inj; eauto; congruence).
    rewrite Hrn in Hrn'. apply (inj (String.append _)) in Hrn'. done.
Qed.

Lemma register_all_one_topic_witness :
  is_ok (register_all (Build_ResolvedConfig "s" "p." [])
    [Build_MessageDescriptor "a" "t1" compacted; Build_MessageDescriptor "a" "t2" compacted]) = false.
Proof.
  refine (proj2 (register_all_one_topic (Build_ResolvedConfig "s" "p." [])
    [Build_MessageDescriptor "a" "t1" compacted; Build_MessageDescriptor "a" "t2" compacted] _)
    (Build_MessageDescriptor "a" "t1" compacted)
    (Build_MessageDescriptor "a" "t2" compacted) _ _ _ _);
    [constructor|set_solver|set_solver|reflexivity|discriminate].
Defined.

(** ** Index names *)

Lemma hex_digit_ident n : ident_byte (hex_digit n) = true.
Proof.
  unfold hex_digit. set (i := Z.to_nat (Z.land n 15)).
  assert (H : Forall (fun i => ident_byte (default "0"%char (String.get i "0123456789abcdef")) = true)
                (seq 0 16)) by (apply (bool_decide_unpack _); vm_compute; done).
  rewrite Forall_forall in H. destruct (decide (i < 16)%nat) as [Hi|Hi].
  - apply H. apply elem_of_seq. lia.
  - by do 16 (destruct i as [|i]; [lia|]).
Qed.

Lemma hex8_ident n : all_bytes ident_byte (hex8 n) = true /\ String.length (hex8 n) = 8%nat.
Proof. unfold hex8. cbn [foldr all_bytes]. rewrite !hex_digit_ident. done. Qed.

Lemma all_bytes_str_take p n s : all_bytes p s = true -> all_bytes p (str_take n s) = true.
Proof.
  unfold str_take. revert s. induction n as [|n IH]; intros [|c s] H; try done.
  simpl in *. apply andb_true_iff in H as [-> Hs]. by rewrite IH.
Qed.

(** A generated index name is always a valid identifier: whatever the table,
    a suffix of identifier bytes that leaves room for the hash yields a name of at most 63
    bytes that [SqlIdentifier::new] accepts, so the [unreachable!] behind it is
    never reached. *)
Theorem index_name_valid (table suffix : string)
  (Ht : identifier_new table = Ok table) (Hs : all_bytes ident_byte suffix = true)
  (Hl : (String.length suffix <= 50)%nat) :
  identifier_new (bounded_index_name table suffix) = Ok (bounded_index_name table suffix).
Proof.
  pose proof (identifier_bytes _ _ Ht) as Hb.
  apply identifier_new_Ok. split; [done|]. unfold bounded_index_name.
  set (lim := (MAX_LEN - String.length "idx_" - String.length suffix)%nat).
  assert (Hlim : (lim + String.length suffix = 59)%nat) by (unfold lim, MAX_LEN; simpl; lia).
  destruct (hex8_ident (wrap 32 (advisory_lock_key table))) as [Hh Hhl].
  set (h := hex8 _) in *.
  set (middle := if Nat.leb (String.length table) lim then table
                 else str_take (lim - String.length h - 1) table +:+ "_" +:+ h).
  assert (Hm : all_bytes ident_byte middle = true /\ (String.length middle <= lim)%nat).
  { unfold middle. destruct (Nat.leb_spec (String.length table) lim) as [|Hgt]; [done|].
    rewrite !all_bytes_append, Hh, all_bytes_str_take by done.
    rewrite !length_append, str_take_length by lia. simpl. split; [done|lia]. }
  destruct Hm as [Hmb Hml]. split_and!.
  - exists "i"%char, ("dx_" +:+ middle +:+ suffix). split_and!; [done|done|].
    by rewrite !all_bytes_append, Hmb, Hs.
  - rewrite !length_append. change (String.length "idx_") with 4%nat. unfold MAX_LEN. lia.
  - intros Hin. unfold RESERVED_WORDS in Hin. rewrite !elem_of_cons in Hin.
    change ("idx_" +:+ middle +:+ suffix) with (String "i" (String "d" ("x_" +:+ middle +:+ suffix))) in Hin.
    repeat destruct Hin as [[=]|Hin]; by apply elem_of_nil in Hin.
Qed.

Lemma index_name_valid_witness :
  let t := "received_a_message_type_with_a_name_that_is_almost_too_long_xx" in
  identifier_new (bounded_index_name t "_idempotency") = Ok (bounded_index_name t "_idempotency").
Proof.
  apply (index_name_valid "received_a_message_type_with_a_name_that_is_almost_too_long_xx" "_idempotency");
    vm_compute; try reflexivity; lia.
Defined.
