(* ===== verification/Outbox.v ===== *)
(** * Outbox: the table between a business change and the broker

    Models [src/crates/kafkaman-sqlx/src/outbox_enqueue.rs], [outbox_claim.rs],
    [outbox_mark.rs] and [outbox_purge.rs], the row types of
    [src/crates/kafkaman-core/src/rows.rs] and [purge_config.rs] beside it.

    A statement is atomic: it reads one state of the table and leaves another.
    [now] is the database clock of the transaction; [locked] says which rows
    other transactions hold ([SKIP LOCKED]); [visible] says which rows the
    snapshot of an enqueuing transaction shows, because a transaction with a
    fixed snapshot may miss a predecessor. *)

From S2P Require Import Prelude Text Vocabulary Trace Identity Topics Registry.
Open Scope string_scope.
Open Scope list_scope.
Open Scope Z_scope.

(** ** The table *)

(** The columns no statement ever updates. *)
Record OutboxMsg := {
  message_id : uuid;
  idempotency_key : option string;
  idempotency_source : option json;
  topic : string;
  partition_col : option string;
  entity_col : option string;
  correlation_id : uuid;
  causation_id : option uuid;
  traceparent_col : option string;
  tracestate_col : option string;
  headers : gmap string string;
  payload : json;
  occurred_at : instant;
  created_at : instant;
  enqueue_order : Z;
}.
#[global] Instance OutboxMsg_eq_dec : EqDecision OutboxMsg.
Proof. solve_decision. Defined.

(** A stored row. *)
Record DbRow := {
  msg :> OutboxMsg;
  status : OutboxStatus;
  attempts : Z;
  next_attempt_at : instant;
  last_error : option string;
  claim_id : option uuid;
  claimed_by : option string;
  claim_expires_at : option instant;
  published_at : option instant;
}.
#[global] Instance DbRow_eq_dec : EqDecision DbRow.
Proof. solve_decision. Defined.

(** The two columns rows are ordered by. *)
Definition row_order (r : DbRow) : Z := enqueue_order r.
Definition row_created (r : DbRow) : Z := created_at r.

(** The table and its [enqueue_order] sequence. *)
Record Outbox := { rows : list DbRow; next_order : Z }.

Definition with_rows (ob : Outbox) (rs : list DbRow) : Outbox :=
  {| rows := rs; next_order := next_order ob |}.

Abbreviation sql A := (eff Error Outbox A).

Definition sql_error (code text : string) : Error := ESqlx (SqlxDatabase OtherKind (Some code) text).

(** ** Enqueue *)

(** The table's [CHECK] on the stored key. *)
Definition lower_hex (c : ascii) : bool := byte_in 48 57 c || byte_in 97 102 c.
Definition check_idempotency_key (k : option string) : bool :=
  match k with
  | None => true
  | Some k => Nat.eqb (String.length k) 64 && all_bytes lower_hex k
  end.

(** [InsertOutboxRow::execute]. The sequence advances when the row's defaults
    are evaluated, so a rejected row leaves a gap. *)
Definition insert_outbox_row (now : instant) (m : Z -> OutboxMsg) (st : OutboxStatus)
  (error : option string) : sql unit := fun ob =>
  if i64_max <? next_order ob
  then (Err (sql_error "2200H" "nextval: reached maximum value of sequence"), ob)
  else
    let row := {| msg := m (next_order ob); status := st; attempts := 0; next_attempt_at := now;
                  last_error := error; claim_id := None; claimed_by := None;
                  claim_expires_at := None; published_at := None |} in
    let advanced := {| rows := rows ob; next_order := next_order ob + 1 |} in
    if negb (check_idempotency_key (idempotency_key row))
    then (Err (ESqlx (SqlxDatabase CheckViolation (Some "23514") "idempotency_key check")), advanced)
    else if existsb (fun r : DbRow => bool_decide (message_id r = message_id row)) (rows ob)
    then (Err (ESqlx (SqlxDatabase UniqueViolation (Some "23505") "outbox primary key")), advanced)
    else (Ok tt, with_rows advanced (rows ob ++ [row])).

(** The assignments shared by every statement that takes a row out of play. *)
Definition supersede_row (error : option string -> option string) (r : DbRow) : DbRow :=
  {| msg := msg r; status := Superseded; attempts := attempts r;
     next_attempt_at := next_attempt_at r; last_error := error (last_error r);
     claim_id := None; claimed_by := None; claim_expires_at := None;
     published_at := published_at r |}.

Definition pending_of (e : string) (r : DbRow) : bool :=
  sql_eq (entity_col r) (Some e) && bool_decide (status r = Pending).

Definition supersede_pending_outbox_rows (visible : uuid -> bool) (e : string) : sql unit :=
  fun ob =>
    (Ok tt, with_rows ob (sql_update (fun r : DbRow => visible (message_id r) && pending_of e r)
                                     (supersede_row id) (rows ob))).

(** The enqueue guard's rollback: the rows come back, the sequence does not. *)
Definition rollback (before after : Outbox) : Outbox :=
  {| rows := rows before; next_order := next_order after |}.

Definition ENTITY_KEY_HEADER := "kafkaman-entity-key".

(** The headers of the row: the key is carried for foreign consumers when the
    record key is not the entity key already. *)
Definition outgoing_headers (pk : option string) (ek : string) (hs : gmap string string)
  : gmap string string :=
  if bool_decide (pk = Some ek) then hs else <[ENTITY_KEY_HEADER := ek]> hs.

(** [enqueue_inner]; [enqueue] and [enqueue_on_connection] add the span alone.
    The advisory lock of the entity makes the statements of one entity's
    enqueues follow one another, which is why the whole is one step. *)
Definition enqueue_inner {P} `{KafkaMessage P} (cfg : ResolvedConfig) (now : instant)
  (visible : uuid -> bool) (evt : Envelope P) (trace : option TraceContext) : sql unit :=
  table ← lift (for_message OutboxKind P cfg);
  _ ← lift (match reserved_header (env_headers evt) with
            | Some reserved => Err (EReservedHeader reserved)
            | None => Ok tt
            end);
  let mt := message_type (tbl_desc table) in
  pk ← lift (catch_application_panic mt "resolve partition key" (partition_key (env_payload evt)));
  ek ← lift (catch_application_panic mt "resolve entity key" (entity_key (env_payload evt)));
  let hs := outgoing_headers pk ek (env_headers evt) in
  value ← lift (catch_application_panic mt "serialize payload" (to_value (env_payload evt)));
  value ← lift (match value with Ok v => Ok v | Err text => Err (ESerde text) end);
  let m order :=
    {| message_id := env_message_id evt;
       idempotency_key := to_hex ∘ idem_key <$> env_idempotency_key evt;
       idempotency_source := env_idempotency_key evt ≫= idem_source;
       topic := desc_topic (tbl_desc table);
       partition_col := pk; entity_col := Some ek;
       correlation_id := env_correlation_id evt; causation_id := env_causation_id evt;
       traceparent_col := traceparent <$> trace; tracestate_col := trace ≫= tracestate;
       headers := hs; payload := value; occurred_at := timestamptz (env_occurred_at evt);
       created_at := now; enqueue_order := order |} in
  match env_idempotency_key evt with
  | None =>
      _ ← insert_outbox_row now m OFailed (Some "missing idempotency identity");
      raise EMissingIdempotencyKey
  | Some _ =>
      undoing rollback (
        _ ← supersede_pending_outbox_rows visible ek;
        insert_outbox_row now m Pending None)
  end.

(** ** Claim *)

Definition is_status (s : OutboxStatus) (r : DbRow) : bool := bool_decide (status r = s).
Definition same_entity (a b : DbRow) : bool := sql_eq (entity_col a) (entity_col b).

(** [EXISTS (.. inflight ..)] and [EXISTS (.. newer ..)] for a candidate row. *)
Definition inflight (t : list DbRow) (c : DbRow) : bool :=
  existsb (fun r : DbRow => same_entity r c && is_status Publishing r) t.
Definition newer_pending (t : list DbRow) (c : DbRow) : bool :=
  existsb (fun r : DbRow => same_entity r c && is_status Pending r
                    && (enqueue_order c <? enqueue_order r)) t.

Definition stale_of (cs : list DbRow) (r : DbRow) : bool :=
  is_status Pending r
  && existsb (fun c : DbRow => same_entity r c && (enqueue_order r <? enqueue_order c)) cs.

Definition superseded_text := "superseded by newer pending state for the same entity".

(** PostgreSQL refuses a negative [LIMIT]. *)
Definition check_limit (limit : Z) : result Error unit :=
  if limit <? 0 then Err (sql_error "2201W" "LIMIT must not be negative") else Ok tt.

(** [collapse_stale_pending_rows]. *)
Definition collapse_window (now : instant) (limit : Z) (t : list DbRow) : list DbRow :=
  sql_limit limit (sql_order_by row_order (List.filter (fun c : DbRow =>
    is_status Pending c && (next_attempt_at c <=? now) && bool_decide (is_Some (entity_col c))
    && negb (inflight t c) && negb (newer_pending t c)) t)).

Definition collapse_stale_pending_rows (now : instant) (limit : Z) : sql unit :=
  _ ← lift (check_limit limit);
  stmt (fun ob =>
    (Ok tt, with_rows ob (sql_update (stale_of (collapse_window now limit (rows ob)))
                                     (supersede_row (fun _ => Some superseded_text)) (rows ob)))).

(** The claim's [candidates]: due newest pending rows whose entity has nothing
    in flight, and rows whose lease has run out. *)
Definition claimable (now : instant) (t : list DbRow) (c : DbRow) : bool :=
  (is_status Pending c && (next_attempt_at c <=? now)
   && (bool_decide (entity_col c = None) || negb (inflight t c))
   && negb (newer_pending t c))
  || (is_status Publishing c && sql_le_opt (claim_expires_at c) now).

Definition candidates (now : instant) (locked : uuid -> bool) (limit : Z) (t : list DbRow)
  : list DbRow :=
  sql_limit limit (sql_order_by row_order
    (List.filter (fun c : DbRow => claimable now t c && negb (locked (message_id c))) t)).

Definition claim_row (now : instant) (worker : string) (lease : interval) (cid : uuid) (r : DbRow)
  : DbRow :=
  {| msg := msg r; status := Publishing; attempts := attempts r + 1;
     next_attempt_at := next_attempt_at r; last_error := last_error r;
     claim_id := Some cid; claimed_by := Some worker; claim_expires_at := Some (now + lease);
     published_at := published_at r |}.

Definition id_in (cs : list DbRow) (r : DbRow) : bool :=
  existsb (fun c : DbRow => bool_decide (message_id c = message_id r)) cs.

(** The claim statement: both updates read the candidates' snapshot, and the
    [RETURNING] rows are the claimed ones. *)
Definition claim_statement (now : instant) (locked : uuid -> bool) (worker : string)
  (lease : interval) (limit : Z) (cid : uuid) : sql (list DbRow) :=
  _ ← lift (check_limit limit);
  stmt (fun ob =>
    let cs := candidates now locked limit (rows ob) in
    if existsb (fun c : DbRow => i32_max <=? attempts c) cs
    then (Err (sql_error "22003" "integer out of range"), ob)
    else
      let rs := map (fun r : DbRow => if id_in cs r then claim_row now worker lease cid r
                              else if stale_of cs r then supersede_row (fun _ => Some superseded_text) r
                              else r) (rows ob) in
      (Ok (List.filter (id_in cs) rs), with_rows ob rs)).

(** [OutboxRow], the public view of a row. *)
Record OutboxRow := {
  orow_idempotency_key : option IdempotencyKey;
  orow_status : OutboxStatus;
  orow_trace : option TraceContext;
  orow_db : DbRow;
}.

(** [row_from_pg]: the columns that are decoded are the status, the key and the
    trace context; every other column is copied from the stored row. *)
Definition row_from_pg (r : DbRow) : result Error OutboxRow :=
  k ← match idempotency_key r with
      | None => Ok None
      | Some hex => match from_hex hex with Ok k => Ok (Some k) | Err e => Err (ECore e) end
      end;
  st ← lift_core (outbox_status_from_str (enum_str (status r)));
  Ok {| orow_idempotency_key := k; orow_status := st;
        orow_trace := from_parts (traceparent_col r) (tracestate_col r); orow_db := r |}.

(** [OutboxRow::record_key]. *)
Definition record_key (r : OutboxRow) : option string :=
  match partition_col (orow_db r) with Some k => Some k | None => entity_col (orow_db r) end.

Record ClaimedOutboxRow := { claimed_row : OutboxRow; claimed_id : uuid }.

Fixpoint decode_claimed (cid : uuid) (rs : list DbRow) : result Error (list ClaimedOutboxRow) :=
  match rs with
  | [] => Ok []
  | r :: rs =>
      o ← row_from_pg r;
      os ← decode_claimed cid rs;
      Ok ({| claimed_row := o; claimed_id := cid |} :: os)
  end.

(** [claim_batch]: [Uuid::new_v4] supplies [cid]. The sort restores insert order. *)
Definition claim_batch (now : instant) (locked : uuid -> bool) (worker : string) (lease : interval)
  (limit : Z) (cid : uuid) : sql (list ClaimedOutboxRow) :=
  _ ← collapse_stale_pending_rows now limit;
  rs ← claim_statement now locked worker lease limit cid;
  claimed ← lift (decode_claimed cid rs);
  mret (sql_order_by (fun c => row_order (orow_db (claimed_row c))) claimed).

(** ** Marks *)

Inductive MarkOutcome := Updated | StaleClaim | Missing.
#[global] Instance MarkOutcome_eq_dec : EqDecision MarkOutcome.
Proof. solve_decision. Defined.

(** [WHERE message_id = $1 AND status = 'publishing' AND claim_id = $2]. *)
Definition claimed_as (mid cid : uuid) (r : DbRow) : bool :=
  bool_decide (message_id r = mid) && is_status Publishing r && sql_eq (claim_id r) (Some cid).

Definition mark_miss_outcome (mid : uuid) (ob : Outbox) : MarkOutcome :=
  if existsb (fun r : DbRow => bool_decide (message_id r = mid)) (rows ob) then StaleClaim else Missing.

(** [mark_with_sql], and the tail [mark_publish_failed] repeats. *)
Definition mark_with (f : DbRow -> DbRow) (mid cid : uuid) : sql MarkOutcome := fun ob =>
  let affected := sql_count (claimed_as mid cid) (rows ob) in
  let ob' := with_rows ob (sql_update (claimed_as mid cid) f (rows ob)) in
  (Ok (if Nat.eqb affected 1 then Updated else mark_miss_outcome mid ob'), ob').

Definition published_row (now : instant) (r : DbRow) : DbRow :=
  {| msg := msg r; status := Published; attempts := attempts r;
     next_attempt_at := next_attempt_at r; last_error := last_error r;
     claim_id := None; claimed_by := None; claim_expires_at := None; published_at := Some now |}.

Definition mark_published (now : instant) : uuid -> uuid -> sql MarkOutcome :=
  mark_with (published_row now).

Definition retry_row (now : instant) (error : string) (retry_after : interval) (r : DbRow) : DbRow :=
  {| msg := msg r; status := Pending; attempts := attempts r;
     next_attempt_at := now + retry_after; last_error := Some error;
     claim_id := None; claimed_by := None; claim_expires_at := None;
     published_at := published_at r |}.

Definition mark_publish_failed (now : instant) (mid cid : uuid) (error : string)
  (retry_after : interval) : sql MarkOutcome :=
  mark_with (retry_row now error retry_after) mid cid.

(** [outbox_row]. *)
Definition outbox_row (mid : uuid) (ob : Outbox) : result Error (option OutboxRow) :=
  match List.find (fun r : DbRow => bool_decide (message_id r = mid)) (rows ob) with
  | None => Ok None
  | Some r => o ← row_from_pg r; Ok (Some o)
  end.

(** ** Retention *)

Record PurgeConfig := {
  older_than : interval;
  batch_size : Z;
  purge_poll_interval : interval;
  include_failed : bool;
}.

Definition purge_validate (cfg : PurgeConfig) : result CoreError unit :=
  if older_than cfg =? 0 then
    Err (InvalidPurgeConfig "older_than"
           "must be greater than zero; retaining nothing deletes rows as they land")
  else if batch_size cfg <=? 0 then
    Err (InvalidPurgeConfig "batch_size" "must be greater than zero")
  else if purge_poll_interval cfg =? 0 then
    Err (InvalidPurgeConfig "poll_interval" "must be greater than zero")
  else Ok tt.

Definition purgeable (cfg : PurgeConfig) (s : OutboxStatus) : bool :=
  match s with
  | Published | Superseded => true
  | OFailed => include_failed cfg
  | _ => false
  end.

Definition reclaimable (now : instant) (locked : uuid -> bool) (cfg : PurgeConfig) (r : DbRow) : bool :=
  purgeable cfg (status r) && (created_at r <? now - older_than cfg) && negb (locked (message_id r)).

Definition victims (now : instant) (locked : uuid -> bool) (cfg : PurgeConfig) (t : list DbRow)
  : list DbRow :=
  sql_limit (batch_size cfg) (sql_order_by row_created
    (List.filter (reclaimable now locked cfg) t)).

(** [purge_outbox_once], answering the number of rows deleted. *)
Definition purge_outbox_once (now : instant) (locked : uuid -> bool) (cfg : PurgeConfig) : sql nat :=
  _ ← lift (lift_core (purge_validate cfg));
  stmt (fun ob =>
    let vs := victims now locked cfg (rows ob) in
    (Ok (sql_count (id_in vs) (rows ob)),
     with_rows ob (List.filter (fun r : DbRow => negb (id_in vs r)) (rows ob)))).

(** ** Stored keys *)

Lemma lower_hex_nibble c : lower_hex c = true -> is_Some (decode_hex_nibble c).
Proof. intros H. destruct c as [[] [] [] [] [] [] [] []]; try (by vm_compute in H); by eexists. Qed.

Lemma lower_hex_pairs n : forall s, String.length s = (2 * n)%nat -> all_bytes lower_hex s = true ->
  is_Some (decode_pairs s).
Proof.
  induction n as [|n IH]; intros s Hl Ha.
  - destruct s; [|done]. by eexists.
  - destruct s as [|h [|l s]]; simpl in Hl; [lia..|]. simpl in Ha. reflect_bools.
    destruct (lower_hex_nibble h) as [hi Ehi]; [done|].
    destruct (lower_hex_nibble l) as [lo Elo]; [done|].
    destruct (IH s) as [k Ek]; [lia|done|]. simpl. rewrite Ehi, Elo. simpl. rewrite Ek. by eexists.
Qed.

(** The [CHECK] on the key makes it decodable. *)
Lemma checked_key_decodes k :
  check_idempotency_key (Some k) = true -> exists bs, from_hex k = Ok bs.
Proof.
  simpl. intros [Hl Ha]%andb_true_iff. unfold from_hex, HEX_LEN. rewrite Hl. simpl.
  apply Nat.eqb_eq in Hl. destruct (lower_hex_pairs 32 k Hl Ha) as [bs ->]. simpl. by eexists.
Qed.
