(* ===== verification/OutboxOrder.v ===== *)
(** * OutboxOrder: what the outbox statements keep true

    The invariant of the table of [Outbox], the step relation of everything
    that touches it (enqueues, relays, the purger, the clock), and the ordering
    theorem the design rests on: one entity's states reach the broker in the
    order they were enqueued. *)

From S2P Require Import Prelude Text Vocabulary Trace Identity Topics Registry Outbox.
Open Scope string_scope.
Open Scope list_scope.
Open Scope Z_scope.

(** ** The invariant *)

Definition row_id (r : DbRow) : uuid := message_id r.
Definition live (r : DbRow) : bool := negb (outbox_is_terminal (status r)).

(** Everything in flight for an entity is one row, and every other live row of
    that entity is a younger pending one. *)
Definition inflight_ok (t : list DbRow) : Prop :=
  forall r1 r2, r1 ∈ t -> r2 ∈ t -> status r1 = Publishing -> live r2 = true ->
    same_entity r1 r2 = true ->
    r2 = r1 \/ (status r2 = Pending /\ row_order r1 < row_order r2).

Record outbox_inv (ob : Outbox) : Prop := {
  inv_sorted : StronglySorted Z.lt (map row_order (rows ob));
  inv_ids : NoDup (map row_id (rows ob));
  inv_bound : forall r, r ∈ rows ob -> row_order r < next_order ob;
  inv_inflight : inflight_ok (rows ob);
  inv_keys : forall r : DbRow, r ∈ rows ob -> check_idempotency_key (idempotency_key r) = true;
}.

(** ** Entities *)

Lemma same_entity_spec a b :
  same_entity a b = true <-> exists e, entity_col a = Some e /\ entity_col b = Some e.
Proof. unfold same_entity. apply sql_eq_true. Qed.

Lemma same_entity_sym a b : same_entity a b = same_entity b a.
Proof.
  apply eq_true_iff_eq. rewrite !same_entity_spec. naive_solver.
Qed.

Lemma same_entity_trans a b c :
  same_entity a b = true -> same_entity b c = true -> same_entity a c = true.
Proof. rewrite !same_entity_spec. intros (e&?&?) (e'&?&?). exists e. split; congruence. Qed.

Lemma same_entity_msg a b a' b' :
  msg a' = msg a -> msg b' = msg b -> same_entity a' b' = same_entity a b.
Proof. unfold same_entity. by intros -> ->. Qed.

Lemma is_status_true s r : is_status s r = true <-> status r = s.
Proof. apply bool_decide_eq_true. Qed.

Lemma live_cases r : live r = true <-> status r = Pending \/ status r = Publishing.
Proof. unfold live. destruct (status r); naive_solver. Qed.

Lemma existsb_true {A} (p : A -> bool) (l : list A) :
  existsb p l = true <-> exists x, x ∈ l /\ p x = true.
Proof. rewrite existsb_exists. by setoid_rewrite list_elem_of_In. Qed.

Lemma existsb_false {A} (p : A -> bool) (l : list A) :
  existsb p l = false <-> forall x, x ∈ l -> p x = false.
Proof.
  rewrite <- not_true_iff_false, existsb_true. split.
  - intros H x Hx. apply not_true_iff_false. naive_solver.
  - intros H (x & Hx & Hp). rewrite (H x Hx) in Hp. done.
Qed.

Lemma inflight_false t c :
  inflight t c = false <->
  forall r, r ∈ t -> same_entity r c = true -> status r <> Publishing.
Proof.
  unfold inflight. rewrite existsb_false. setoid_rewrite andb_false_iff.
  split; intros H r Hr.
  - intros He Hs. apply is_status_true in Hs. destruct (H r Hr); congruence.
  - destruct (same_entity r c) eqn:E; [right|by left].
    apply not_true_iff_false. rewrite is_status_true. auto.
Qed.

Lemma newer_pending_false t c :
  newer_pending t c = false <->
  forall r, r ∈ t -> same_entity r c = true -> status r = Pending -> row_order r <= row_order c.
Proof.
  unfold newer_pending, row_order. rewrite existsb_false. split; intros H r Hr.
  - intros He Hs. apply is_status_true in Hs. specialize (H r Hr).
    rewrite He, Hs in H. simpl in H. reflect_bools. lia.
  - destruct (same_entity r c) eqn:E; [|done].
    destruct (is_status Pending r) eqn:Es; [|done]. apply is_status_true in Es.
    specialize (H r Hr E Es). simpl. apply Z.ltb_ge. lia.
Qed.

Lemma stale_of_true cs r :
  stale_of cs r = true <->
  status r = Pending /\ exists c, c ∈ cs /\ same_entity r c = true /\ row_order r < row_order c.
Proof.
  unfold stale_of, row_order. rewrite andb_true_iff, is_status_true, existsb_true.
  setoid_rewrite andb_true_iff. by setoid_rewrite Z.ltb_lt.
Qed.

Lemma id_in_true cs r : id_in cs r = true <-> exists c, c ∈ cs /\ row_id c = row_id r.
Proof. unfold id_in. rewrite existsb_true. by setoid_rewrite bool_decide_eq_true. Qed.

(** What makes a row claimable: a pending row is due, nothing of its entity is
    in flight and none of its entity is newer; a publishing row's lease is over. *)
Lemma claimable_pending now t c :
  claimable now t c = true -> status c = Pending ->
  next_attempt_at c <= now
  /\ (forall r, r ∈ t -> same_entity r c = true -> status r <> Publishing)
  /\ (forall r, r ∈ t -> same_entity r c = true -> status r = Pending -> row_order r <= row_order c).
Proof.
  unfold claimable. intros H Hs. apply orb_true_iff in H as [H|H]; reflect_bools.
  2: { apply is_status_true in H. congruence. }
  split; [done|]. split; [|by apply newer_pending_false].
  match goal with H : _ \/ _ |- _ => destruct H as [Hn|Hn] end; reflect_bools.
  - intros r _ (e&_&?)%same_entity_spec. congruence.
  - by apply inflight_false.
Qed.

Lemma claimable_status now t c :
  claimable now t c = true -> status c = Pending \/ status c = Publishing.
Proof.
  unfold claimable. intros H. apply orb_true_iff in H as [H|H]; reflect_bools;
    match goal with H : is_status _ _ = true |- _ => apply is_status_true in H end; auto.
Qed.

Lemma elem_of_candidates now locked limit t c :
  c ∈ candidates now locked limit t ->
  c ∈ t /\ claimable now t c = true /\ locked (message_id c) = false.
Proof.
  unfold candidates. intros H%elem_of_limit%elem_of_order_by%elem_of_sfilter.
  destruct H as [? H]. apply andb_true_iff in H as [? H]. by apply negb_true_iff in H.
Qed.

(** ** Evolution of a table *)

(** Rows may be dropped and leave play, but none comes into play, and a row that
    is in flight afterwards is untouched. *)
Definition settles (t t' : list DbRow) : Prop :=
  forall r', r' ∈ t' -> exists r, r ∈ t /\ msg r' = msg r
    /\ (status r' = Publishing -> r' = r) /\ (status r' = Pending -> live r = true).

(** What every statement but an insert does to the immutable columns and to the
    set of live rows. *)
Record evolves (ob ob' : Outbox) : Prop := {
  ev_msgs : map msg (rows ob') `sublist_of` map msg (rows ob);
  ev_next : next_order ob <= next_order ob';
  ev_live : forall r', r' ∈ rows ob' -> exists r, r ∈ rows ob /\ msg r' = msg r
                       /\ (live r' = true -> live r = true);
}.


Lemma evolves_inv ob ob' :
  outbox_inv ob -> evolves ob ob' -> inflight_ok (rows ob') -> outbox_inv ob'.
Proof.
  intros [Hs Hn Hb _ Hk] [Hm Hx Hl] Hi.
  assert (Hmap : forall {A} (f : OutboxMsg -> A),
    map (fun r : DbRow => f r) (rows ob') `sublist_of` map (fun r : DbRow => f r) (rows ob)).
  { intros A f. rewrite <- !(map_map msg f). by apply sublist_map. }
  split; [| | |done|].
  - eapply StronglySorted_sublist; [apply (Hmap _ enqueue_order)|done].
  - eapply sublist_NoDup; [exact Hn|]. apply (Hmap _ message_id).
  - intros r' Hr'. destruct (Hl r' Hr') as (r & Hr & He & _).
    specialize (Hb r Hr). unfold row_order in *. rewrite He. lia.
  - intros r' Hr'. destruct (Hl r' Hr') as (r & Hr & -> & _). auto.
Qed.

Lemma settles_inflight t t' :
  NoDup (map row_id t') -> inflight_ok t -> settles t t' -> inflight_ok t'.
Proof.
  intros Hn Hi Hs r1' r2' H1 H2 Hp1 Hl2 He.
  destruct (Hs r1' H1) as (r1 & Hr1 & Hm1 & Hp & _). specialize (Hp Hp1) as ->.
  destruct (Hs r2' H2) as (r2 & Hr2 & Hm2 & Hp2 & Hq2).
  assert (Hl : live r2 = true).
  { apply live_cases in Hl2 as [?|Hp']; [auto|]. rewrite <- (Hp2 Hp'). by apply live_cases; right. }
  rewrite (same_entity_msg r1 r2 _ _ eq_refl Hm2) in He.
  destruct (Hi r1 r2 Hr1 Hr2 Hp1 Hl He) as [->|[Hpd Ho]].
  - left. eapply (NoDup_key_inj row_id t'); eauto. unfold row_id. by rewrite Hm2.
  - right. unfold row_order in *. rewrite Hm2. split; [|done].
    apply live_cases in Hl2 as [?|Hp']; [done|]. specialize (Hp2 Hp') as ->. congruence.
Qed.

Lemma settles_live t t' :
  settles t t' ->
  forall r', r' ∈ t' -> exists r, r ∈ t /\ msg r' = msg r /\ (live r' = true -> live r = true).
Proof.
  intros H r' Hr'. destruct (H r' Hr') as (r & Hr & Hm & Hp & Hq).
  exists r. split_and!; [done..|]. intros [?|E]%live_cases; [auto|].
  rewrite <- (Hp E). by apply live_cases; right.
Qed.

(** A statement that updates rows without moving one into flight. *)
Lemma map_settles (f : DbRow -> DbRow) t :
  (forall r, r ∈ t -> msg (f r) = msg r /\ (status (f r) = Publishing -> f r = r)
                      /\ (status (f r) = Pending -> live r = true)) ->
  settles t (map f t).
Proof.
  intros H r' Hr'. apply list_elem_of_In, in_map_iff in Hr' as (r & <- & Hr%list_elem_of_In).
  destruct (H r Hr) as (? & ? & ?). eauto 10.
Qed.

Lemma map_msgs (f : DbRow -> DbRow) t :
  (forall r, r ∈ t -> msg (f r) = msg r) -> map msg (map f t) = map msg t.
Proof.
  intros H. rewrite map_map. apply map_ext_in. intros r Hr%list_elem_of_In. auto.
Qed.

Lemma filter_settles p t : settles t (List.filter p t).
Proof.
  intros r' [Hr _]%elem_of_sfilter. exists r'. split_and!; [done..|]. intros. by apply live_cases; left.
Qed.

Lemma evolves_settles ob ob' :
  map msg (rows ob') `sublist_of` map msg (rows ob) -> next_order ob <= next_order ob' ->
  settles (rows ob) (rows ob') -> outbox_inv ob -> evolves ob ob' /\ outbox_inv ob'.
Proof.
  intros Hm Hn Hs Hi.
  assert (Hev : evolves ob ob') by (split; [done..|by apply settles_live]).
  split; [done|]. apply (evolves_inv ob); [done..|].
  eapply settles_inflight; [|apply (inv_inflight _ Hi)|done].
  eapply sublist_NoDup; [apply (inv_ids _ Hi)|].
  rewrite <- !(map_map msg message_id). by apply sublist_map.
Qed.

Lemma evolves_refl ob : evolves ob ob.
Proof. split; [done|lia|]. eauto. Qed.

Lemma evolves_trans a b c : evolves a b -> evolves b c -> evolves a c.
Proof.
  intros [H1 H2 H3] [H4 H5 H6]. split; [by etrans|lia|].
  intros r Hr. destruct (H6 r Hr) as (r' & Hr' & E & Hl).
  destruct (H3 r' Hr') as (r'' & Hr'' & E' & Hl'). exists r''. split_and!; [done|congruence|auto].
Qed.

(** ** The statements *)

(** The statements that only move rows forward. *)
Lemma update_evolves p f ob :
  (forall r, r ∈ rows ob -> p r = true ->
     msg (f r) = msg r /\ status (f r) <> Publishing /\ (status (f r) = Pending -> live r = true)) ->
  outbox_inv ob ->
  evolves ob (with_rows ob (sql_update p f (rows ob)))
  /\ outbox_inv (with_rows ob (sql_update p f (rows ob))).
Proof.
  intros Hf Hi. apply evolves_settles; [| simpl; lia | | done].
  - simpl. unfold sql_update. rewrite map_msgs; [done|].
    intros r Hr. destruct (p r) eqn:E; [|done]. by apply Hf.
  - apply map_settles. intros r Hr. destruct (p r) eqn:E.
    + destruct (Hf r Hr E) as (? & ? & ?). done.
    + split_and!; [done..|]. intros. by apply live_cases; left.
Qed.

Lemma supersede_evolves p g ob :
  outbox_inv ob ->
  evolves ob (with_rows ob (sql_update p (supersede_row g) (rows ob)))
  /\ outbox_inv (with_rows ob (sql_update p (supersede_row g) (rows ob))).
Proof. intros Hi. apply update_evolves; [|done]. by intros r _ _. Qed.

Lemma collapse_evolves now limit ob :
  outbox_inv ob -> let ob' := snd (collapse_stale_pending_rows now limit ob) in
  evolves ob ob' /\ outbox_inv ob'.
Proof.
  intros Hi. unfold collapse_stale_pending_rows, mbind, eff_bind, lift, check_limit.
  destruct (limit <? 0); simpl; [by split; [apply evolves_refl|]|]. by apply supersede_evolves.
Qed.

Lemma claimed_as_true mid cid r :
  claimed_as mid cid r = true <->
  message_id r = mid /\ status r = Publishing /\ claim_id r = Some cid.
Proof.
  unfold claimed_as. rewrite !andb_true_iff, bool_decide_eq_true, is_status_true, sql_eq_true.
  naive_solver.
Qed.

Lemma mark_evolves f mid cid ob :
  (forall r, msg (f r) = msg r /\ status (f r) <> Publishing) ->
  outbox_inv ob -> let ob' := snd (mark_with f mid cid ob) in evolves ob ob' /\ outbox_inv ob'.
Proof.
  intros Hf Hi. unfold mark_with. simpl. apply update_evolves; [|done].
  intros r _ (_ & Hs & _)%claimed_as_true. destruct (Hf r). split_and!; [done..|].
  intros _. by apply live_cases; right.
Qed.

Lemma purge_evolves now locked cfg ob :
  outbox_inv ob -> let ob' := snd (purge_outbox_once now locked cfg ob) in
  evolves ob ob' /\ outbox_inv ob'.
Proof.
  intros Hi. unfold purge_outbox_once, mbind, eff_bind, lift.
  destruct (lift_core (purge_validate cfg)); simpl; [|by split; [apply evolves_refl|]].
  apply evolves_settles; simpl; [|lia|apply filter_settles|done].
  apply sublist_map, sublist_sfilter.
Qed.

(** ** The claim *)

Section claim.
Context (now : instant) (locked : uuid -> bool) (worker : string) (lease : interval)
  (limit : Z) (cid : uuid) (ob : Outbox) (Hinv : outbox_inv ob).
Let cs := candidates now locked limit (rows ob).

(** What the claim statement makes of one row. *)
Definition claim_image (r : DbRow) : DbRow :=
  if id_in cs r then claim_row now worker lease cid r
  else if stale_of cs r then supersede_row (fun _ => Some superseded_text) r else r.

Lemma claim_image_msg r : msg (claim_image r) = msg r.
Proof. unfold claim_image. destruct (id_in cs r); [done|]. by destruct (stale_of cs r). Qed.

Lemma candidate_of r : r ∈ rows ob -> id_in cs r = true -> r ∈ cs.
Proof.
  intros Hr (c & Hc & Heq)%id_in_true.
  destruct (elem_of_candidates _ _ _ _ _ Hc) as [Hc' _].
  by rewrite <- (NoDup_key_inj row_id (rows ob) c r (inv_ids _ Hinv) Hc' Hr Heq).
Qed.

Lemma candidate_in r : r ∈ cs -> id_in cs r = true.
Proof. intros Hr. apply id_in_true. eauto. Qed.

Lemma row_order_inj r1 r2 :
  r1 ∈ rows ob -> r2 ∈ rows ob -> row_order r1 = row_order r2 -> r1 = r2.
Proof.
  apply (NoDup_key_inj row_order). eapply StronglySorted_Zlt_NoDup, (inv_sorted _ Hinv).
Qed.

(** Pending candidates are the newest live row of an idle entity. *)
Lemma candidate_newest c r :
  c ∈ cs -> status c = Pending -> r ∈ rows ob -> live r = true -> same_entity c r = true ->
  r = c \/ (status r = Pending /\ row_order r < row_order c).
Proof.
  intros Hc Hs Hr Hl He. destruct (elem_of_candidates _ _ _ _ _ Hc) as (Hc' & Hcl & _).
  destruct (claimable_pending _ _ _ Hcl Hs) as (_ & Hno & Hnew).
  rewrite same_entity_sym in He. apply live_cases in Hl as [Hp|Hp]; [|by destruct (Hno r Hr He)].
  specialize (Hnew r Hr He Hp).
  destruct (decide (row_order r = row_order c)); [left; by apply row_order_inj|right; split; [done|lia]].
Qed.

Lemma claim_image_live r : r ∈ rows ob -> live (claim_image r) = true -> live r = true.
Proof.
  intros Hr. unfold claim_image. destruct (id_in cs r) eqn:E.
  - intros _. apply live_cases. eapply claimable_status.
    apply (elem_of_candidates now locked limit (rows ob)). by apply candidate_of.
  - by destruct (stale_of cs r).
Qed.

(** A row in flight after the claim was in flight before or has been claimed
    as a pending candidate. *)
Lemma claim_image_publishing r :
  r ∈ rows ob -> status (claim_image r) = Publishing ->
  status r = Publishing \/ (r ∈ cs /\ status r = Pending).
Proof.
  intros Hr. unfold claim_image. destruct (id_in cs r) eqn:E.
  - intros _. pose proof (candidate_of r Hr E) as Hc.
    destruct (elem_of_candidates _ _ _ _ _ Hc) as (_ & Hcl & _).
    destruct (claimable_status _ _ _ Hcl); auto.
  - destruct (stale_of cs r); [done|auto].
Qed.

Lemma claim_image_inflight : inflight_ok (map claim_image (rows ob)).
Proof.
  intros r1' r2' H1 H2 Hp1 Hl2 He.
  apply list_elem_of_In, in_map_iff in H1 as (r1 & <- & H1%list_elem_of_In).
  apply list_elem_of_In, in_map_iff in H2 as (r2 & <- & H2%list_elem_of_In).
  rewrite (same_entity_msg r1 r2) in He by apply claim_image_msg.
  pose proof (claim_image_live r2 H2 Hl2) as Hl.
  unfold row_order. rewrite !claim_image_msg.
  destruct (claim_image_publishing r1 H1 Hp1) as [Hs|[Hc Hs]].
  - destruct (inv_inflight _ Hinv r1 r2 H1 H2 Hs Hl He) as [->|[Hpd Ho]]; [by left|right].
    split; [|done]. unfold claim_image in *. destruct (id_in cs r2) eqn:E.
    + exfalso. pose proof (candidate_of r2 H2 E) as Hc2.
      destruct (candidate_newest r2 r1 Hc2 Hpd H1) as [->|[? _]]; [..|congruence|congruence].
      * apply live_cases; auto.
      * by rewrite same_entity_sym.
    + by destruct (stale_of cs r2).
  - destruct (candidate_newest r1 r2 Hc Hs H2 Hl He) as [->|[Hpd Ho]]; [by left|exfalso].
    unfold claim_image in Hl2. destruct (id_in cs r2) eqn:E.
    + pose proof (candidate_of r2 H2 E) as Hc2.
      destruct (candidate_newest r2 r1 Hc2 Hpd H1) as [->|[_ ?]]; [..|lia|lia].
      * apply live_cases; auto.
      * by rewrite same_entity_sym.
    + assert (Hst : stale_of cs r2 = true).
      { apply stale_of_true. split; [done|]. exists r1. by rewrite same_entity_sym. }
      by rewrite Hst in Hl2.
Qed.

Lemma claim_image_evolves :
  let ob' := with_rows ob (map claim_image (rows ob)) in evolves ob ob' /\ outbox_inv ob'.
Proof.
  assert (Hev : evolves ob (with_rows ob (map claim_image (rows ob)))).
  { split; simpl; [|lia|].
    - rewrite map_msgs; [done|]. intros r _. apply claim_image_msg.
    - intros r' (r & <- & Hr%list_elem_of_In)%list_elem_of_In%in_map_iff. exists r.
      split_and!; [done|apply claim_image_msg|by apply claim_image_live]. }
  split; [exact Hev|]. eapply evolves_inv; [exact Hinv|exact Hev|exact claim_image_inflight].
Qed.

Lemma claim_evolves :
  let ob' := snd (claim_statement now locked worker lease limit cid ob) in
  evolves ob ob' /\ outbox_inv ob'.
Proof.
  unfold claim_statement, mbind, eff_bind, lift, check_limit, stmt.
  destruct (limit <? 0); simpl; [by split; [apply evolves_refl|]|].
  destruct (existsb _ _); simpl; [by split; [apply evolves_refl|]|].
  apply claim_image_evolves.
Qed.
End claim.

(** ** Inserts *)

(** [ob'] is [ob] with one more row, allocated from the sequence. *)
Definition appends (row : DbRow) (ob ob' : Outbox) : Prop :=
  ob' = {| rows := rows ob ++ [row]; next_order := next_order ob + 1 |}
  /\ row_order row = next_order ob /\ status row <> Publishing
  /\ (forall r, r ∈ rows ob -> row_id r <> row_id row)
  /\ check_idempotency_key (idempotency_key row) = true.

Lemma elem_of_snoc {A} (l : list A) a x : x ∈ l ++ [a] <-> x ∈ l \/ x = a.
Proof. set_solver. Qed.

Lemma appends_inv row ob ob' : outbox_inv ob -> appends row ob ob' -> outbox_inv ob'.
Proof.
  intros [Hs Hn Hb Hi Hk] (-> & Ho & Hp & Hf & Hc). split; simpl.
  - rewrite map_app. simpl. apply StronglySorted_snoc; [done|].
    intros x (r & <- & Hr%list_elem_of_In)%list_elem_of_In%in_map_iff. rewrite Ho. auto.
  - rewrite map_app. apply NoDup_app. split_and!; [done| |apply NoDup_singleton].
    intros x (r & <- & Hr%list_elem_of_In)%list_elem_of_In%in_map_iff Hx.
    simpl in Hx. apply elem_of_cons in Hx as [Hx|Hx]; [by apply (Hf r)|by inversion Hx].
  - intros r [Hr| ->]%elem_of_snoc; [specialize (Hb r Hr)|]; lia.
  - intros r1 r2 [H1| ->]%elem_of_snoc [H2| ->]%elem_of_snoc Hp1 Hl2 He; [by apply Hi| |done|done].
    right. apply live_cases in Hl2 as [?|?]; [|done]. split; [done|].
    specialize (Hb r1 H1). lia.
  - intros r [Hr| ->]%elem_of_snoc; auto.
Qed.

Lemma insert_cases now m st err ob :
  (forall o, enqueue_order (m o) = o) -> st <> Publishing ->
  let '(res, ob') := insert_outbox_row now m st err ob in
  (exists e, res = Err e /\ rows ob' = rows ob /\ next_order ob <= next_order ob')
  \/ (res = Ok tt /\ exists row, appends row ob ob' /\ msg row = m (next_order ob)
      /\ status row = st /\ last_error row = err /\ next_attempt_at row = now /\ attempts row = 0).
Proof.
  intros Hm Hst. unfold insert_outbox_row.
  destruct (i64_max <? next_order ob); [left; eexists; split_and!; [done..|simpl; lia]|].
  destruct (check_idempotency_key _) eqn:Hk; simpl; [|left; eexists; split_and!; [done..|simpl; lia]].
  destruct (existsb _ _) eqn:E; simpl; [left; eexists; split_and!; [done..|simpl; lia]|].
  right. split; [done|]. eexists. split; [split_and!; [reflexivity|..]|done]; simpl.
  - unfold row_order. simpl. by rewrite Hm.
  - done.
  - intros r Hr Heq. rewrite existsb_false in E. specialize (E r Hr).
    apply bool_decide_eq_false in E. by apply E.
  - done.
Qed.

(** The outcomes of an enqueue. Either the table kept its rows and the caller
    has an error; or the refusal of an envelope without identity is on record;
    or the pending rows of the entity that were visible are superseded and the
    new state is the youngest row of the table. *)
Inductive enqueue_outcome {P} `{KafkaMessage P} (cfg : ResolvedConfig) (now : instant)
  (visible : uuid -> bool) (evt : Envelope P) (ob : Outbox) : result Error unit -> Outbox -> Prop :=
| enqueue_refused e ob' :
    rows ob' = rows ob -> next_order ob <= next_order ob' ->
    enqueue_outcome cfg now visible evt ob (Err e) ob'
| enqueue_audited row ob' :
    env_idempotency_key evt = None -> appends row ob ob' ->
    row_id row = env_message_id evt -> status row = OFailed ->
    last_error row = Some "missing idempotency identity" ->
    enqueue_outcome cfg now visible evt ob (Err EMissingIdempotencyKey) ob'
| enqueue_accepted ek row ob' :
    entity_key (env_payload evt) = Returned ek ->
    env_idempotency_key evt <> None ->
    appends row (snd (supersede_pending_outbox_rows visible ek ob)) ob' ->
    row_id row = env_message_id evt -> status row = Pending -> next_attempt_at row = now ->
    entity_col row = Some ek -> to_value (env_payload evt) = Returned (Ok (payload row)) ->
    enqueue_outcome cfg now visible evt ob (Ok tt) ob'.

Lemma enqueue_outcomes {P} `{KafkaMessage P} cfg now visible (evt : Envelope P) trace ob :
  let '(res, ob') := enqueue_inner cfg now visible evt trace ob in
  enqueue_outcome cfg now visible evt ob res ob'.
Proof.
  unfold enqueue_inner, mbind, eff_bind, lift.
  destruct (for_message OutboxKind P cfg) as [table|e]; simpl; [|by constructor].
  destruct (reserved_header (env_headers evt)) as [h|]; simpl; [by constructor|].
  destruct (partition_key (env_payload evt)) as [pk|p]; simpl; [|by constructor].
  destruct (entity_key (env_payload evt)) as [ek|p] eqn:Hek; simpl; [|by constructor].
  destruct (to_value (env_payload evt)) as [[v|t]|p] eqn:Hv; simpl; [|by constructor..].
  destruct (env_idempotency_key evt) as [idem|] eqn:Hid.
  - unfold undoing.
    match goal with |- context [insert_outbox_row now ?m Pending None ?ob1] =>
      pose proof (insert_cases now m Pending None ob1) as Hc;
      destruct (insert_outbox_row now m Pending None ob1) as [res ob'] end.
    destruct Hc as [(e & -> & Hr & Hn)|(-> & row & Happ & Hm & Hs & _ & Hnow & _)]; [done..| |].
    + simpl in *. constructor; simpl; [done|lia].
    + apply (enqueue_accepted _ _ _ _ _ ek row); [done|congruence|exact Happ|..];
        unfold row_id; rewrite ?Hm; done.
  - match goal with |- context [insert_outbox_row now ?m ?s ?l ?ob1] =>
      pose proof (insert_cases now m s l ob1) as Hc;
      destruct (insert_outbox_row now m s l ob1) as [res ob'] end.
    destruct Hc as [(e & -> & Hr & Hn)|(-> & row & Happ & Hm & Hs & Hl & _)]; [done..| |].
    + by constructor.
    + apply (enqueue_audited _ _ _ _ _ row); [done..| |done|done]. unfold row_id. by rewrite Hm.
Qed.

(** Both branches that add a row add it to a table that has only evolved. *)
Lemma enqueue_evolves {P} `{KafkaMessage P} cfg now visible (evt : Envelope P) trace ob :
  outbox_inv ob ->
  exists ob1, evolves ob ob1 /\ outbox_inv ob1
    /\ let ob' := snd (enqueue_inner cfg now visible evt trace ob) in
       ob' = ob1 \/ exists row, appends row ob1 ob'.
Proof.
  intros Hi. pose proof (enqueue_outcomes cfg now visible evt trace ob) as Ho.
  destruct (enqueue_inner cfg now visible evt trace ob) as [res ob']. simpl.
  destruct Ho as [e ob' Hr Hn|row ob' _ Happ|ek row ob' _ _ Happ].
  - exists ob'. assert (evolves ob ob' /\ outbox_inv ob') as [? ?]; [|eauto].
    apply evolves_settles; rewrite ?Hr; [done|done|intros r ?; exists r|done].
    split_and!; try done. intros. apply live_cases; auto.
  - exists ob. split_and!; [apply evolves_refl|done|eauto].
  - exists (snd (supersede_pending_outbox_rows visible ek ob)).
    destruct (supersede_evolves (fun r : DbRow => visible (message_id r) && pending_of ek r) id ob Hi).
    split_and!; eauto.
Qed.

(** A successful enqueue leaves the event's state as its entity's newest and only
    pending row, beside every row that was not pending for the entity. *)
Lemma enqueue_inserts {P} `{KafkaMessage P} cfg now (evt : Envelope P) trace ob ob' u :
  outbox_inv ob -> enqueue_inner cfg now (fun _ => true) evt trace ob = (Ok u, ob') ->
  exists ek row, entity_key (env_payload evt) = Returned ek
    /\ row ∈ rows ob' /\ row_id row = env_message_id evt /\ status row = Pending
    /\ entity_col row = Some ek /\ to_value (env_payload evt) = Returned (Ok (payload row))
    /\ (forall r, r ∈ rows ob' -> row_order r <= row_order row)
    /\ (forall r, r ∈ rows ob' -> pending_of ek r = true -> r = row)
    /\ (forall r, r ∈ rows ob -> pending_of ek r = false -> r ∈ rows ob')
    /\ length (rows ob') = S (length (rows ob)).
Proof.
  intros Hinv Hen. pose proof (enqueue_outcomes cfg now (fun _ => true) evt trace ob) as Ho. rewrite Hen in Ho.
  inversion Ho as [| |ek row ob1 He _ (-> & Hor & _) Hid Hs Hn Hk Hv]; subst.
  exists ek, row. simpl. split_and!; try done; [set_solver|..].
  + intros r [(r0 & Hr0 & ->)%elem_of_update| ->]%elem_of_snoc; [|done].
    rewrite Hor. simpl. pose proof (inv_bound _ Hinv r0 Hr0) as Hb.
    destruct (pending_of ek r0); unfold row_order in *; simpl in *; lia.
  + intros r [(r0 & Hr0 & ->)%elem_of_update| ->]%elem_of_snoc; [|done].
    destruct (pending_of ek r0) eqn:E; simpl; [|congruence].
    unfold pending_of. simpl. by rewrite andb_false_r.
  + intros r Hr Hp. apply elem_of_snoc. left. apply elem_of_update. exists r. by rewrite Hp.
  + rewrite length_app, length_update. simpl. lia.
Qed.

(** ** Everything that happens to an outbox *)

(** A send that reached the broker: the claimed row a worker had in memory, and
    the time. *)
Record Sent := { s_row : DbRow; s_at : instant }.

(** The table, the time, the rows workers have claimed and not yet marked, as
    they were returned to them, and what the broker has received, oldest first. *)
Record World := { table : Outbox; clock : instant; held : list DbRow; sends : list Sent }.

Definition log (w : World) : list OutboxMsg := map (fun s => msg (s_row s)) (sends w).

(** The lease of a claimed row has run out at [at_]; a send was late when the
    lease it was made under had. *)
Definition overdue (at_ : instant) (r : DbRow) : bool := sql_le_opt (claim_expires_at r) at_.
Definition late (s : Sent) : bool := overdue (s_at s) (s_row s).

Definition with_table (w : World) (ob : Outbox) : World :=
  {| table := ob; clock := clock w; held := held w; sends := sends w |}.

(** A claim hands the rows it returns to a worker; a mark is the last thing a
    worker does with a row it claimed. *)
Definition world_claim (now : instant) (locked : uuid -> bool) (worker : string) (lease : interval)
  (limit : Z) (cid : uuid) (w : World) : World :=
  let '(res, ob) := claim_statement now locked worker lease limit cid (table w) in
  {| table := ob; clock := clock w;
     held := held w ++ match res with Ok rs => rs | Err _ => [] end; sends := sends w |}.
Definition world_marked (mid cid : uuid) (ob : Outbox) (w : World) : World :=
  {| table := ob; clock := clock w;
     held := List.filter (fun r => negb (claimed_as mid cid r)) (held w); sends := sends w |}.
Definition world_send (r : DbRow) (w : World) : World :=
  {| table := table w; clock := clock w; held := held w;
     sends := sends w ++ [{| s_row := r; s_at := clock w |}] |}.

Lemma log_send r w : log (world_send r w) = log w ++ [msg r].
Proof. unfold log. simpl. by rewrite map_app. Qed.

(** The steps. A claim reads a time that has passed, the start of its
    transaction; [now] is free in the others, which do not depend on it. A worker
    sends a row it has claimed and not marked: it does not look at the table
    again, so its lease may have run out and the row may be another worker's. A
    worker may stop at any point and lose what it holds. *)
Inductive step : World -> World -> Prop :=
| step_enqueue P `{KafkaMessage P} cfg now visible (evt : Envelope P) trace w :
    step w (with_table w (snd (enqueue_inner cfg now visible evt trace (table w))))
| step_collapse now limit w :
    step w (with_table w (snd (collapse_stale_pending_rows now limit (table w))))
| step_claim now locked worker lease limit cid w :
    now <= clock w -> step w (world_claim now locked worker lease limit cid w)
| step_publish (r : DbRow) w :
    r ∈ held w -> step w (world_send r w)
| step_published now mid cid w :
    step w (world_marked mid cid (snd (mark_published now mid cid (table w))) w)
| step_failed now mid cid error retry_after w :
    step w (world_marked mid cid (snd (mark_publish_failed now mid cid error retry_after (table w))) w)
| step_purge now locked cfg w :
    step w (with_table w (snd (purge_outbox_once now locked cfg (table w))))
| step_crash rest w :
    rest `sublist_of` held w ->
    step w {| table := table w; clock := clock w; held := rest; sends := sends w |}
| step_tick later w :
    clock w <= later ->
    step w {| table := table w; clock := later; held := held w; sends := sends w |}.

Definition empty_outbox : Outbox := {| rows := []; next_order := 1 |}.
Definition initial : World := {| table := empty_outbox; clock := 0; held := []; sends := [] |}.

(** What the broker has received for an entity, as enqueue ordinals. *)
Definition published_orders (e : string) (l : list OutboxMsg) : list Z :=
  map enqueue_order (List.filter (fun m => bool_decide (entity_col m = Some e)) l).

Lemma elem_of_published_orders e o l :
  o ∈ published_orders e l <-> exists m, m ∈ l /\ entity_col m = Some e /\ enqueue_order m = o.
Proof.
  unfold published_orders. rewrite list_elem_of_In, in_map_iff.
  setoid_rewrite <- list_elem_of_In. setoid_rewrite elem_of_sfilter.
  setoid_rewrite bool_decide_eq_true. naive_solver.
Qed.

(** Two sends in the order the broker received them: the second is not of an
    older state of the same entity, or it was late. *)
Definition in_order (s1 s2 : Sent) : Prop :=
  forall e, entity_col (s_row s1) = Some e -> entity_col (s_row s2) = Some e ->
    late s2 = true \/ row_order (s_row s1) <= row_order (s_row s2).

(** What has been claimed is behind every live row of its entity; a claim whose
    lease is running is the row of the table; and sends are in order. *)
Definition known (w : World) : list OutboxMsg := map msg (held w) ++ log w.
Record world_inv (w : World) : Prop := {
  wi_table : outbox_inv (table w);
  wi_behind : forall m r e, m ∈ known w -> r ∈ rows (table w) -> live r = true ->
    entity_col m = Some e -> entity_col r = Some e -> enqueue_order m <= row_order r;
  wi_bound : forall m, m ∈ known w -> enqueue_order m < next_order (table w);
  wi_claimed : forall r, r ∈ held w -> status r = Publishing;
  wi_held : forall r, r ∈ held w -> overdue (clock w) r = false -> r ∈ rows (table w);
  wi_order : StronglySorted in_order (sends w);
}.

Lemma elem_of_known w m :
  m ∈ known w <-> (exists r, r ∈ held w /\ m = msg r) \/ m ∈ log w.
Proof.
  unfold known. rewrite elem_of_app, list_elem_of_fmap. naive_solver.
Qed.

(** A row in flight is behind the live rows of its entity. *)
Lemma inflight_behind ob (r r' : DbRow) e :
  outbox_inv ob -> r ∈ rows ob -> status r = Publishing -> r' ∈ rows ob -> live r' = true ->
  entity_col r = Some e -> entity_col r' = Some e -> row_order r <= row_order r'.
Proof.
  intros Hi Hr Hs Hr' Hl He He'.
  assert (Hse : same_entity r r' = true) by (apply same_entity_spec; eauto).
  destruct (inv_inflight _ Hi r r' Hr Hr' Hs Hl Hse) as [->|[_ ?]]; lia.
Qed.

(** A statement that inserts nothing. Every row held afterwards is in flight, was
    held before or is a row of the table now, and is that row while its lease
    runs. *)
Lemma world_evolves w ob' held' :
  world_inv w -> evolves (table w) ob' -> outbox_inv ob' ->
  (forall r, r ∈ held' -> status r = Publishing /\ (r ∈ held w \/ r ∈ rows ob')
             /\ (overdue (clock w) r = false -> r ∈ rows ob')) ->
  world_inv {| table := ob'; clock := clock w; held := held'; sends := sends w |}.
Proof.
  intros [Ht Hb Hn Hc Hh Ho] [_ Hx Hl] Hi Hheld.
  assert (Hk : forall m, m ∈ known {| table := ob'; clock := clock w; held := held'; sends := sends w |} ->
    m ∈ known w \/ exists r, m = msg r /\ r ∈ rows ob' /\ status r = Publishing).
  { intros m [(r & Hr & ->)|Hm]%elem_of_known; simpl in *; [|left; apply elem_of_known; by right].
    destruct (Hheld r Hr) as (Hs & [?|?] & _); [left; apply elem_of_known; left|right]; eauto. }
  split; simpl; [done| | | | |done].
  - intros m r' e Hm Hr' Hlive Em Er. destruct (Hk m Hm) as [Hm'|(r & -> & Hr & Hs)].
    + destruct (Hl r' Hr') as (r & Hr & E & Hlv). unfold row_order. rewrite E in *.
      by apply (Hb m r e); auto.
    + by apply (inflight_behind ob' r r' e).
  - intros m Hm. destruct (Hk m Hm) as [Hm'|(r & -> & Hr & Hs)].
    + specialize (Hn m Hm'). lia.
    + apply (inv_bound _ Hi r Hr).
  - intros r Hr. by apply Hheld.
  - intros r Hr. by apply Hheld.
Qed.

(** A statement that leaves the rows in flight alone. *)
Definition keeps_inflight (ob ob' : Outbox) : Prop :=
  forall r, r ∈ rows ob -> status r = Publishing -> r ∈ rows ob'.

Lemma world_statement w ob' :
  world_inv w -> evolves (table w) ob' /\ outbox_inv ob' -> keeps_inflight (table w) ob' ->
  world_inv (with_table w ob').
Proof.
  intros Hw [Hev Hi] Hk. apply world_evolves; [done..|]. intros r Hr.
  pose proof (wi_claimed _ Hw r Hr) as Hs. split_and!; [done|by left|].
  intros Hd. apply Hk; [|done]. by apply (wi_held _ Hw).
Qed.

Lemma world_appends w ob' row :
  world_inv w -> appends row (table w) ob' -> world_inv (with_table w ob').
Proof.
  intros [Ht Hb Hn Hc Hh Ho] Happ. pose proof (appends_inv _ _ _ Ht Happ).
  destruct Happ as (-> & Hor & _). split; simpl; [done| | |done| |done].
  - intros m r e Hm [Hr| ->]%elem_of_snoc Hlive Em Er; [by eapply Hb|].
    specialize (Hn m Hm). lia.
  - intros m Hm. specialize (Hn m Hm). simpl in *. lia.
  - intros r Hr Hd. apply elem_of_snoc. left. auto.
Qed.

Lemma update_keeps_inflight p f ob :
  (forall r, p r = true -> status r <> Publishing) ->
  keeps_inflight ob (with_rows ob (sql_update p f (rows ob))).
Proof.
  intros Hp r Hr Hs. apply elem_of_update. exists r. split; [done|].
  destruct (p r) eqn:E; [|done]. by destruct (Hp r E).
Qed.

Lemma stale_of_pending cs r : stale_of cs r = true -> status r <> Publishing.
Proof. intros [-> _]%stale_of_true. done. Qed.

Lemma collapse_keeps_inflight now limit ob :
  keeps_inflight ob (snd (collapse_stale_pending_rows now limit ob)).
Proof.
  unfold collapse_stale_pending_rows, mbind, eff_bind, lift, check_limit, stmt.
  destruct (limit <? 0); simpl; [by intros r|]. apply update_keeps_inflight. apply stale_of_pending.
Qed.

Lemma supersede_keeps_inflight visible ek ob :
  keeps_inflight ob (snd (supersede_pending_outbox_rows visible ek ob)).
Proof.
  apply (update_keeps_inflight (fun r : DbRow => visible (message_id r) && pending_of ek r)).
  intros r [_ [_ Hs%(bool_decide_eq_true_1 _)]%andb_true_iff]%andb_true_iff. congruence.
Qed.

Lemma purge_keeps_inflight now locked cfg ob :
  outbox_inv ob -> keeps_inflight ob (snd (purge_outbox_once now locked cfg ob)).
Proof.
  intros Hi. unfold purge_outbox_once, mbind, eff_bind, lift, stmt.
  destruct (lift_core (purge_validate cfg)); simpl; [|by intros r]. intros r Hr Hs.
  apply elem_of_sfilter. split; [done|].
  apply negb_true_iff, not_true_iff_false. intros (v & Hv & E)%id_in_true.
  unfold victims in Hv. apply elem_of_limit, elem_of_order_by, elem_of_sfilter in Hv as [Hv Hrec].
  rewrite (NoDup_key_inj row_id _ v r (inv_ids _ Hi) Hv Hr E) in Hrec.
  unfold reclaimable, purgeable in Hrec. by rewrite Hs in Hrec.
Qed.

Lemma world_claim_inv now locked worker lease limit cid w :
  world_inv w -> now <= clock w -> world_inv (world_claim now locked worker lease limit cid w).
Proof.
  intros Hw Hnow. pose proof (wi_table _ Hw) as Ht.
  destruct (claim_evolves now locked worker lease limit cid _ Ht) as [Hev Hi]. revert Hev Hi.
  unfold world_claim, claim_statement, mbind, eff_bind, lift, check_limit, stmt.
  assert (Hsame : world_inv {| table := table w; clock := clock w; held := held w ++ []; sends := sends w |})
    by (rewrite app_nil_r; by destruct w).
  destruct (limit <? 0); simpl; [done|]. destruct (existsb _ _); simpl; [done|].
  intros Hev Hi. apply world_evolves; [done..|]. intros r [Hr|Hr]%elem_of_app.
  - pose proof (wi_claimed _ Hw r Hr) as Hs. split_and!; [done|by left|]. intros Hd.
    pose proof (wi_held _ Hw r Hr Hd) as Hrow. simpl.
    apply list_elem_of_In, in_map_iff. exists r. split; [|by apply list_elem_of_In].
    destruct (id_in _ r) eqn:E.
    + exfalso. apply (candidate_of now locked limit (table w) Ht r Hrow) in E.
      destruct (elem_of_candidates _ _ _ _ _ E) as (_ & Hcl & _).
      unfold claimable in Hcl. apply orb_true_iff in Hcl as [Hcl|[_ Hcl]%andb_true_iff].
      { rewrite !andb_true_iff in Hcl. destruct Hcl as (((Hp%is_status_true & _) & _) & _). congruence. }
      unfold overdue, sql_le_opt in *. destruct (claim_expires_at r); [|done].
      apply Z.leb_le in Hcl. apply Z.leb_gt in Hd. lia.
    + destruct (stale_of _ r) eqn:Es; [|done]. by destruct (stale_of_pending _ _ Es).
  - apply elem_of_sfilter in Hr as [Hr Hid]. split_and!; [|by right|done].
    apply list_elem_of_In, in_map_iff in Hr as (r0 & <- & Hr0). destruct (id_in _ r0) eqn:E; [done|].
    exfalso. unfold id_in in Hid, E.
    destruct (stale_of _ r0); simpl in Hid; by rewrite E in Hid.
Qed.

Lemma world_mark_inv f mid cid w :
  (forall r, msg (f r) = msg r /\ status (f r) <> Publishing) ->
  world_inv w -> world_inv (world_marked mid cid (snd (mark_with f mid cid (table w))) w).
Proof.
  intros Hf Hw. destruct (mark_evolves f mid cid (table w) Hf (wi_table _ Hw)).
  apply world_evolves; [done..|]. intros r [Hr Hn%negb_true_iff]%elem_of_sfilter.
  split_and!; [by apply (wi_claimed _ Hw)|by left|]. intros Hd. simpl. apply elem_of_update.
  exists r. split; [by apply (wi_held _ Hw)|by rewrite Hn].
Qed.

Lemma world_send_inv w r : world_inv w -> r ∈ held w -> world_inv (world_send r w).
Proof.
  intros [Ht Hb Hn Hc Hh Ho] Hr.
  assert (Hk : forall m, m ∈ known (world_send r w) -> m ∈ known w).
  { intros m Hm. apply elem_of_known. apply elem_of_known in Hm as [?|Hm]; [by left|].
    unfold log in Hm. simpl in Hm. rewrite map_app in Hm. apply elem_of_app in Hm as [?|Hm]; [by right|].
    apply list_elem_of_singleton in Hm as ->. left. eauto. }
  split; simpl; [done|eauto..|].
  apply StronglySorted_snoc; [done|]. intros s Hs e Es Er.
  destruct (overdue (clock w) r) eqn:Hd; [by left|right]. simpl in *.
  assert (Hrow : r ∈ rows (table w)) by auto.
  apply (Hb (msg (s_row s)) r e); [|done| |done..].
  - apply elem_of_known. right. apply list_elem_of_fmap. eauto.
  - apply live_cases. right. auto.
Qed.

(** An enqueue that answered with a row or without one. *)
Lemma world_enqueue_inv {P} `{KafkaMessage P} cfg now visible (evt : Envelope P) trace w :
  world_inv w -> world_inv (with_table w (snd (enqueue_inner cfg now visible evt trace (table w)))).
Proof.
  intros Hw. pose proof (wi_table _ Hw) as Ht.
  pose proof (enqueue_outcomes cfg now visible evt trace (table w)) as Ho.
  destruct (enqueue_inner cfg now visible evt trace (table w)) as [res ob']. simpl.
  destruct Ho as [e ob' Hr Hn|row ob' _ Happ|ek row ob' _ _ Happ].
  - apply world_statement; [done| |intros r ?; by rewrite Hr].
    apply evolves_settles; rewrite ?Hr; [done|done| |done]. intros r ?. exists r.
    split_and!; try done. intros. apply live_cases; auto.
  - by eapply world_appends.
  - eapply (world_appends (with_table w (snd (supersede_pending_outbox_rows visible ek (table w)))));
      [|exact Happ].
    apply world_statement; [done| |apply supersede_keeps_inflight].
    by apply (supersede_evolves (fun r : DbRow => visible (message_id r) && pending_of ek r) id).
Qed.

Lemma step_inv w w' : world_inv w -> step w w' -> world_inv w'.
Proof.
  intros Hw Hstep. pose proof (wi_table _ Hw) as Ht. destruct Hstep.
  - by apply world_enqueue_inv.
  - apply world_statement; [done|by apply collapse_evolves|apply collapse_keeps_inflight].
  - by apply world_claim_inv.
  - by apply world_send_inv.
  - by apply world_mark_inv.
  - by apply world_mark_inv.
  - apply world_statement; [done|by apply purge_evolves|by apply purge_keeps_inflight].
  - apply world_evolves; [done|apply evolves_refl|done|]. intros r Hr.
    assert (Hin : r ∈ held w) by (by eapply elem_of_sublist).
    split_and!; [by apply (wi_claimed _ Hw)|by left|by apply (wi_held _ Hw)].
  - destruct Hw as [_ Hb Hn Hc Hh Ho]. split; simpl; [done..| |done]. intros r Hr Hd. apply Hh; [done|].
    unfold overdue, sql_le_opt in *. destruct (claim_expires_at r); [|done].
    apply Z.leb_gt in Hd. apply Z.leb_gt. lia.
Qed.

Lemma initial_inv : world_inv initial.
Proof.
  split; simpl; [split; simpl|..]; try constructor; try (by intros; set_solver).
Qed.

Lemma reachable_inv w : rtc step initial w -> world_inv w.
Proof.
  intros H. remember initial as w0 eqn:E.
  assert (Hi : world_inv w0) by (subst; apply initial_inv). clear E.
  induction H; eauto using step_inv.
Qed.

(** ** A concrete message type, to evaluate the model on *)

Module Sample.
(** A payload is the record key, the entity key and the serialised text. *)
Definition order_placed : Type := option string * string * string.
#[global] Instance order_placed_message : KafkaMessage order_placed := {|
  MESSAGE_TYPE := "order_placed";
  TOPIC_NAME := "orders";
  partition_key := fun p => Returned p.1.1;
  entity_key := fun p => Returned p.1.2;
  to_value := fun p => Returned (Ok p.2);
|}.

Definition cfg : ResolvedConfig := {|
  schema := "app"; topic_prefix := "dev.";
  messages := [ {| Registry.message_type := "order_placed"; desc_topic := "dev.orders";
                   topic_spec := compacted |} ] |}.

Definition key : IdempotencyIdentity := {| idem_key := repeat 171 32; idem_source := None |}.

Definition event (mid : uuid) (e v : string) : Envelope order_placed := {|
  env_message_id := mid; env_idempotency_key := Some key; env_correlation_id := 7%N;
  env_causation_id := None; env_headers := ∅; env_payload := (None, e, v);
  env_occurred_at := 0 |}.

Definition all : uuid -> bool := fun _ => true.
Definition none : uuid -> bool := fun _ => false.

Definition enqueue (now : instant) (mid : uuid) (e v : string) : sql unit :=
  enqueue_inner cfg now all (event mid e v) None.

(** Two states of one order and one of another. *)
Definition two_orders : Outbox :=
  snd (enqueue 3 12 "o1" "v2" (snd (enqueue 2 11 "o2" "v1" (snd (enqueue 1 10 "o1" "v1" empty_outbox))))).

Example enqueue_supersedes :
  map (fun r => (row_id r, row_order r, status r)) (rows two_orders)
  = [(10%N, 1, Superseded); (11%N, 2, Pending); (12%N, 3, Pending)].
Proof. vm_compute. reflexivity. Qed.
End Sample.

Ltac run_step := eapply rtc_l; [econstructor|].

(** ** What a claim hands out *)

Lemma sfilter_map {A B} (f : A -> B) (p : B -> bool) (l : list A) :
  List.filter p (map f l) = map f (List.filter (fun a => p (f a)) l).
Proof. induction l as [|a l IH]; simpl; [done|]. rewrite IH. by destruct (p (f a)). Qed.

Lemma decode_claimed_rows cid rs os :
  decode_claimed cid rs = Ok os ->
  map (fun c => orow_db (claimed_row c)) os = rs /\ (forall c, c ∈ os -> claimed_id c = cid).
Proof.
  revert os. induction rs as [|r rs IH]; simpl; intros os H.
  { injection H as <-. split; [done|]. by intros c ?%elem_of_nil. }
  destruct (row_from_pg r) as [o|] eqn:Eo; simpl in H; [|done].
  destruct (decode_claimed cid rs) as [os'|]; simpl in H; [|done].
  injection H as <-. destruct (IH os' eq_refl) as [<- Hc]. split.
  - simpl. f_equal. unfold row_from_pg in Eo.
    destruct (idempotency_key r) as [k|]; [destruct (from_hex k)|]; simpl in Eo; try done;
      destruct (lift_core _); simpl in Eo; by simplify_eq.
  - intros c [->|?]%elem_of_cons; [done|auto].
Qed.

(** The [CHECK] makes every stored row decodable. *)
Lemma checked_row_decodes (r : DbRow) :
  check_idempotency_key (idempotency_key r) = true -> exists o, row_from_pg r = Ok o.
Proof.
  intros H. unfold row_from_pg, outbox_status_from_str. rewrite enum_find_str. simpl.
  destruct (idempotency_key r) as [k|]; simpl; [|by eexists].
  destruct (checked_key_decodes k H) as [bs ->]. simpl. by eexists.
Qed.

Lemma decode_claimed_total cid rs :
  (forall r, r ∈ rs -> check_idempotency_key (idempotency_key (msg r)) = true) ->
  exists os, decode_claimed cid rs = Ok os.
Proof.
  induction rs as [|r rs IH]; intros H; simpl; [by eexists|].
  destruct (checked_row_decodes r) as [o ->]; [apply H; left|]. simpl.
  destruct IH as [os ->]; [|by eexists]. intros r' ?. apply H. by right.
Qed.

(** The collapse keeps live rows as they are. *)
Lemma collapse_live now limit ob r :
  r ∈ rows (snd (collapse_stale_pending_rows now limit ob)) -> live r = true -> r ∈ rows ob.
Proof.
  unfold collapse_stale_pending_rows, mbind, eff_bind, lift, check_limit, stmt.
  destruct (limit <? 0); simpl; [done|].
  intros (r0 & Hr0 & ->)%elem_of_update. by destruct (stale_of _ r0).
Qed.

Section batch.
Context (now : instant) (locked : uuid -> bool) (worker : string) (lease : interval)
  (limit : Z) (cid : uuid) (ob : Outbox) (Hinv : outbox_inv ob).
Let ob1 := snd (collapse_stale_pending_rows now limit ob).
Let cs := candidates now locked limit (rows ob1).
Let Hinv1 : outbox_inv ob1.
Proof. apply (collapse_evolves now limit ob Hinv). Qed.

Definition claimed_rows (batch : list ClaimedOutboxRow) : list DbRow :=
  map (fun c => orow_db (claimed_row c)) batch.

(** The returned rows are the claimed images of the candidates. *)
Lemma returning_rows :
  List.filter (id_in cs) (map (claim_image now locked worker lease limit cid ob1) (rows ob1))
  = map (claim_row now worker lease cid) (List.filter (id_in cs) (rows ob1)).
Proof.
  rewrite sfilter_map.
  rewrite (List.filter_ext _ (id_in cs)).
  2: { intros r. unfold id_in. by rewrite claim_image_msg. }
  apply map_ext_in. intros r [_ Hr]%filter_In. unfold claim_image. fold cs. by rewrite Hr.
Qed.

Lemma candidates_filter : List.filter (id_in cs) (rows ob1) ≡ₚ cs.
Proof.
  apply (key_in_filter row_id); [apply (inv_ids _ Hinv1)| |].
  - apply NoDup_selected. eapply NoDup_fmap_1, (inv_ids _ Hinv1).
  - intros c Hc. by destruct (elem_of_candidates _ _ _ _ _ Hc).
Qed.

Lemma candidates_orders : NoDup (map row_order cs).
Proof.
  rewrite <- candidates_filter.
  eapply sublist_NoDup, sublist_map, sublist_sfilter.
  apply StronglySorted_Zlt_NoDup, (inv_sorted _ Hinv1).
Qed.

Lemma candidates_length : 0 <= limit -> Z.of_nat (length cs) <= limit.
Proof. intros. unfold cs, candidates, sql_limit. rewrite length_take. lia. Qed.

(** How a successful claim unfolds. *)
Lemma claim_batch_Ok batch ob' :
  claim_batch now locked worker lease limit cid ob = (Ok batch, ob') ->
  0 <= limit /\ outbox_inv ob'
  /\ ob' = with_rows ob1 (map (claim_image now locked worker lease limit cid ob1) (rows ob1))
  /\ claimed_rows batch ≡ₚ map (claim_row now worker lease cid) cs
  /\ StronglySorted Z.le (map row_order (claimed_rows batch))
  /\ (forall c, c ∈ batch -> claimed_id c = cid).
Proof.
  unfold claim_batch, mbind, eff_bind.
  assert (exists res, collapse_stale_pending_rows now limit ob = (res, ob1)) as [[[]|e] ->];
    [eexists; apply surjective_pairing| |done].
  unfold claim_statement, mbind, eff_bind, lift, check_limit, stmt.
  destruct (limit <? 0) eqn:El; [done|]. fold cs.
  destruct (existsb _ cs); [done|].
  change (map _ (rows ob1)) with (map (claim_image now locked worker lease limit cid ob1) (rows ob1)).
  rewrite returning_rows.
  destruct (decode_claimed cid _) as [os|e] eqn:Ed; [|done].
  unfold mret, eff_ret. intros [= <- <-].
  destruct (decode_claimed_rows _ _ _ Ed) as [Hrs Hids].
  split_and!; [by apply Z.ltb_ge|by apply claim_image_evolves|done|..].
  - unfold claimed_rows, sql_order_by. rewrite merge_sort_Permutation, Hrs.
    by rewrite candidates_filter.
  - unfold claimed_rows. rewrite map_map.
    apply (StronglySorted_map (key_le (fun c => row_order (orow_db (claimed_row c)))));
      [done|apply order_by_sorted].
  - intros c Hc%elem_of_order_by. auto.
Qed.

(** A candidate is an unchanged row of the table before the collapse. *)
Lemma candidate_origin c :
  c ∈ cs -> c ∈ rows ob /\ locked (row_id c) = false
    /\ ((status c = Pending /\ next_attempt_at c <= now)
        \/ (status c = Publishing /\ sql_le_opt (claim_expires_at c) now = true)).
Proof.
  intros Hc. destruct (elem_of_candidates _ _ _ _ _ Hc) as (Hr & Hcl & Hlk).
  split_and!; [|done|].
  - eapply collapse_live; [exact Hr|]. apply live_cases. by eapply claimable_status.
  - destruct (claimable_status _ _ _ Hcl) as [Hs|Hs].
    + left. split; [done|]. by destruct (claimable_pending _ _ _ Hcl Hs).
    + right. split; [done|]. unfold claimable in Hcl. apply orb_true_iff in Hcl as [H|H]; reflect_bools.
      * apply is_status_true in H. congruence.
      * done.
Qed.

(** Two candidates never share an entity. *)
Lemma candidate_entity c1 c2 : c1 ∈ cs -> c2 ∈ cs -> same_entity c1 c2 = true -> c1 = c2.
Proof.
  intros H1 H2 He.
  destruct (elem_of_candidates _ _ _ _ _ H1) as (Hr1 & Hc1 & _).
  destruct (elem_of_candidates _ _ _ _ _ H2) as (Hr2 & Hc2 & _).
  assert (Hl : forall c, claimable now (rows ob1) c = true -> live c = true)
    by (intros c Hc; apply live_cases; by eapply claimable_status).
  pose proof (candidate_newest now locked limit ob1 Hinv1) as Hnew.
  destruct (claimable_status _ _ _ Hc1) as [Hs1|Hs1].
  - destruct (Hnew c1 c2 H1 Hs1 Hr2 (Hl _ Hc2) He) as [->|[Hs2 Ho]]; [done|].
    rewrite same_entity_sym in He.
    destruct (Hnew c2 c1 H2 Hs2 Hr1 (Hl _ Hc1) He) as [->|[_ ?]]; [done|lia].
  - destruct (inv_inflight _ Hinv1 c1 c2 Hr1 Hr2 Hs1 (Hl _ Hc2) He) as [->|[Hs2 Ho]]; [done|].
    rewrite same_entity_sym in He.
    destruct (Hnew c2 c1 H2 Hs2 Hr1 (Hl _ Hc1) He) as [->|[? _]]; [done|congruence].
Qed.
End batch.

(** ** The theorems *)

(** C3. One entity's states reach the broker in the order they were enqueued,
    up to late sends. Whatever enqueues, relays, crashes, lease expiries, failed
    publishes and purges did, and even if enqueuing transactions missed
    predecessors in their snapshot: a state is sent after a newer one of its
    entity only by a worker whose lease on it had run out by then. So when each
    send of an entity reaches the broker within its lease, the ordinals published
    for the entity never decrease. *)
Theorem entity_publish_order (w : World) (Hw : rtc step initial w) (e : string) :
  (forall i j s1 s2, sends w !! i = Some s1 -> sends w !! j = Some s2 -> (i < j)%nat ->
     entity_col (s_row s1) = Some e -> entity_col (s_row s2) = Some e ->
     row_order (s_row s2) < row_order (s_row s1) -> late s2 = true)
  /\ ((forall s, s ∈ sends w -> entity_col (s_row s) = Some e -> late s = false) ->
      StronglySorted Z.le (published_orders e (log w))).
Proof.
  pose proof (wi_order _ (reachable_inv w Hw)) as Ho. split.
  - intros i j s1 s2 Hi Hj Hlt E1 E2 Hor.
    destruct (sorted_lookup in_order _ _ _ _ _ Ho Hi Hj Hlt e E1 E2); [done|lia].
  - intros Htimely. unfold log. revert Ho Htimely. generalize (sends w) as l. clear.
    induction l as [|s l IH]; intros Ho Htimely; [constructor|]. inversion Ho as [|? ? Hl Hall]; subst.
    unfold published_orders. simpl.
    assert (StronglySorted Z.le (published_orders e (map (fun s => msg (s_row s)) l))) as Hs.
    { apply IH; [done|]. intros s' ?. apply Htimely. by right. }
    case_bool_decide as E; [|exact Hs]. simpl. constructor; [exact Hs|].
    apply List.Forall_forall. intros o Ho'%list_elem_of_In.
    apply elem_of_published_orders in Ho' as (m & Hm & Em & <-).
    apply list_elem_of_fmap in Hm as (s' & -> & Hs').
    rewrite List.Forall_forall in Hall. destruct (Hall s' ltac:(by apply list_elem_of_In) e E Em) as [Hlate|?]; [|done].
    rewrite Htimely in Hlate; [done|by right|done].
Qed.

(** C18. In every reachable table an entity has at most one row in flight, and
    whatever else of it is live is pending and younger than that row. *)
Theorem one_inflight_per_entity (w : World) (Hw : rtc step initial w) (r1 r2 : DbRow)
  (H1 : r1 ∈ rows (table w)) (H2 : r2 ∈ rows (table w)) (He : same_entity r1 r2 = true)
  (Hs : status r1 = Publishing) (Hl : live r2 = true) :
  r2 = r1 \/ (status r2 = Pending /\ row_order r1 < row_order r2).
Proof. by apply (inv_inflight _ (wi_table _ (reachable_inv w Hw))). Qed.

Lemma claimed_rows_sound now locked worker lease limit cid ob batch ob' (Hinv : outbox_inv ob) :
  claim_batch now locked worker lease limit cid ob = (Ok batch, ob') ->
  forall r, r ∈ claimed_rows batch ->
    exists c, c ∈ candidates now locked limit (rows (snd (collapse_stale_pending_rows now limit ob)))
      /\ r = claim_row now worker lease cid c /\ r ∈ rows ob'.
Proof.
  intros Hb r Hr. destruct (claim_batch_Ok _ _ _ _ _ _ _ Hinv _ _ Hb) as (_ & _ & -> & Hp & _).
  rewrite Hp in Hr. apply list_elem_of_In, in_map_iff in Hr as (c & <- & Hc%list_elem_of_In).
  exists c. split_and!; [done..|]. simpl. apply list_elem_of_In, in_map_iff. exists c. split.
  - unfold claim_image. by rewrite (candidate_in now locked limit _ c Hc).
  - apply list_elem_of_In. by destruct (elem_of_candidates _ _ _ _ _ Hc).
Qed.

Lemma claim_batch_sorted now locked worker lease limit cid ob batch ob' :
  outbox_inv ob -> claim_batch now locked worker lease limit cid ob = (Ok batch, ob') ->
  StronglySorted Z.lt (map row_order (claimed_rows batch))
  /\ NoDup (map row_id (claimed_rows batch)).
Proof.
  intros Hinv Hb. destruct (claim_batch_Ok _ _ _ _ _ _ _ Hinv _ _ Hb) as (_ & _ & _ & Hp & Hs & _).
  split.
  - apply StronglySorted_strict; [done|]. rewrite Hp, map_map. by apply candidates_orders.
  - rewrite Hp, map_map. apply (NoDup_map_key (fun c => row_id (claim_row now worker lease cid c)) row_order); [|by apply candidates_orders].
    intros c1 c2 H1 H2 E. destruct (collapse_evolves now limit ob Hinv) as [_ Hinv1].
    destruct (elem_of_candidates _ _ _ _ _ H1) as [? _], (elem_of_candidates _ _ _ _ _ H2) as [? _].
    by rewrite (NoDup_key_inj row_id _ c1 c2 (inv_ids _ Hinv1) ltac:(eassumption) ltac:(eassumption) E).
Qed.

Lemma claim_batch_entities now locked worker lease limit cid ob batch ob' :
  outbox_inv ob -> claim_batch now locked worker lease limit cid ob = (Ok batch, ob') ->
  forall r1 r2, r1 ∈ claimed_rows batch -> r2 ∈ claimed_rows batch ->
    same_entity r1 r2 = true -> r1 = r2.
Proof.
  intros Hinv Hb. pose proof (claimed_rows_sound _ _ _ _ _ _ _ _ _ Hinv Hb) as Hr.
  intros r1 r2 (c1 & H1 & -> & _)%Hr (c2 & H2 & -> & _)%Hr He.
  by rewrite (candidate_entity now locked limit ob Hinv c1 c2 H1 H2 He).
Qed.

(** C12. What a claim hands out. The batch is in strictly increasing enqueue
    order, within the limit, and holds at most one row of any entity; each row
    is now in flight under the new claim and lease with one more attempt, and
    was before either pending and due or in flight with its lease over, and not
    locked by another transaction; and no older live row of its entity is left. *)
Theorem claim_batch_sound (now : instant) (locked : uuid -> bool) (worker : string)
  (lease : interval) (limit : Z) (cid : uuid) (ob ob' : Outbox) (batch : list ClaimedOutboxRow)
  (Hinv : outbox_inv ob)
  (Hb : claim_batch now locked worker lease limit cid ob = (Ok batch, ob')) :
  StronglySorted Z.lt (map row_order (claimed_rows batch))
  /\ Z.of_nat (length batch) <= limit
  /\ (forall r1 r2, r1 ∈ claimed_rows batch -> r2 ∈ claimed_rows batch ->
        same_entity r1 r2 = true -> r1 = r2)
  /\ (forall r, r ∈ claimed_rows batch ->
        r ∈ rows ob' /\ status r = Publishing /\ claim_id r = Some cid
        /\ claim_expires_at r = Some (now + lease)
        /\ (exists r0, r0 ∈ rows ob /\ msg r0 = msg r /\ attempts r = attempts r0 + 1
            /\ locked (row_id r) = false
            /\ ((status r0 = Pending /\ next_attempt_at r0 <= now)
                \/ (status r0 = Publishing /\ sql_le_opt (claim_expires_at r0) now = true)))
        /\ (forall r', r' ∈ rows ob' -> live r' = true -> same_entity r r' = true ->
              row_order r <= row_order r')).
Proof.
  destruct (claim_batch_Ok _ _ _ _ _ _ _ Hinv _ _ Hb) as (Hlim & Hinv' & _ & Hp & _).
  pose proof (claimed_rows_sound _ _ _ _ _ _ _ _ _ Hinv Hb) as Hr.
  split_and!.
  - exact (proj1 (claim_batch_sorted _ _ _ _ _ _ _ _ _ Hinv Hb)).
  - pose proof (candidates_length now locked limit ob Hlim) as Hlen.
    apply Permutation_length in Hp. unfold claimed_rows in Hp. rewrite !length_map in Hp. lia.
  - exact (claim_batch_entities _ _ _ _ _ _ _ _ _ Hinv Hb).
  - intros r Hin. destruct (Hr r Hin) as (c & Hc & -> & Hrow).
    destruct (candidate_origin now locked limit ob c Hc) as (Hc0 & Hlk & Hwas).
    split_and!; [done..| |].
    + exists c. by split_and!.
    + intros r' Hr' Hl He.
      destruct (inv_inflight _ Hinv' _ r' Hrow Hr' eq_refl Hl He) as [->|[_ ?]]; lia.
Qed.

(** A newest pending row survives the collapse, so what was claimable stays so. *)
Lemma collapse_claimable now limit ob c :
  outbox_inv ob -> c ∈ rows ob -> claimable now (rows ob) c = true ->
  let ob1 := snd (collapse_stale_pending_rows now limit ob) in
  c ∈ rows ob1 /\ claimable now (rows ob1) c = true.
Proof.
  intros Hinv Hc Hcl. unfold collapse_stale_pending_rows, mbind, eff_bind, lift, check_limit, stmt.
  destruct (limit <? 0); simpl; [done|].
  set (win := collapse_window now limit (rows ob)).
  assert (Hwin : forall x, x ∈ win -> x ∈ rows ob /\ status x = Pending).
  { intros x Hx. unfold win, collapse_window in Hx.
    apply elem_of_limit, elem_of_order_by, elem_of_sfilter in Hx as [? Hx].
    rewrite !andb_true_iff in Hx. by destruct Hx as ((((Hx%is_status_true & _) & _) & _) & _). }
  assert (Hns : stale_of win c = false).
  { apply not_true_iff_false. intros (Hs & x & (Hx & Hxs)%Hwin & He & Ho)%stale_of_true.
    destruct (claimable_pending _ _ _ Hcl Hs) as (_ & _ & Hnew).
    rewrite same_entity_sym in He. specialize (Hnew x Hx He Hxs). lia. }
  assert (Hlive : forall r, r ∈ sql_update (stale_of win) (supersede_row (fun _ => Some superseded_text)) (rows ob) ->
                    live r = true -> r ∈ rows ob).
  { intros r (r0 & ? & ->)%elem_of_update. by destruct (stale_of win r0). }
  split; [apply elem_of_update; exists c; by rewrite Hns|].
  destruct (claimable_status _ _ _ Hcl) as [Hs|Hs].
  - destruct (claimable_pending _ _ _ Hcl Hs) as (Hdue & Hno & Hnew).
    unfold claimable. apply orb_true_iff. left. rewrite !andb_true_iff. split_and!.
    + by apply is_status_true.
    + by apply Z.leb_le.
    + apply orb_true_iff. right. apply negb_true_iff, inflight_false.
      intros r Hr He Hp. eapply Hno; [|exact He|exact Hp]. apply Hlive; [done|]. apply live_cases; auto.
    + apply negb_true_iff, newer_pending_false. intros r Hr He Hp.
      apply Hnew; [|done..]. apply Hlive; [done|]. apply live_cases; auto.
  - unfold claimable in *. apply orb_true_iff in Hcl as [Hcl|Hcl].
    + rewrite !andb_true_iff in Hcl. destruct Hcl as (((Hp%is_status_true & _) & _) & _). congruence.
    + apply orb_true_iff. by right.
Qed.

(** A claim on decodable rows with attempts left to count succeeds. *)
Lemma claim_batch_total now locked worker lease limit cid ob :
  outbox_inv ob -> 0 <= limit -> (forall r, r ∈ rows ob -> attempts r < i32_max) ->
  exists batch ob', claim_batch now locked worker lease limit cid ob = (Ok batch, ob').
Proof.
  intros Hinv Hlim Hatt.
  destruct (collapse_evolves now limit ob Hinv) as [_ Hinv1].
  unfold claim_batch, mbind, eff_bind.
  destruct (collapse_stale_pending_rows now limit ob) as [res ob1] eqn:E1. simpl in Hinv1.
  assert (res = Ok tt) as ->.
  { revert E1. unfold collapse_stale_pending_rows, mbind, eff_bind, lift, check_limit, stmt.
    rewrite (proj2 (Z.ltb_ge _ _) Hlim). by intros [= <- _]. }
  unfold claim_statement, mbind, eff_bind, lift, check_limit, stmt.
  rewrite (proj2 (Z.ltb_ge _ _) Hlim).
  destruct (existsb _ (candidates now locked limit (rows ob1))) eqn:Ex.
  - exfalso. apply existsb_true in Ex as (c & Hc & Ha%Z.leb_le).
    pose proof (candidate_origin now locked limit ob) as Ho. rewrite E1 in Ho. simpl in Ho.
    destruct (Ho c Hc) as [Hr _]. specialize (Hatt c Hr). lia.
  - destruct (decode_claimed_total cid (List.filter (id_in (candidates now locked limit (rows ob1)))
      (map (claim_image now locked worker lease limit cid ob1) (rows ob1)))) as [os Hos].
    { intros r [(r0 & <- & Hr0%list_elem_of_In)%list_elem_of_In%in_map_iff _]%elem_of_sfilter.
      rewrite claim_image_msg. by apply (inv_keys _ Hinv1). }
    unfold claim_image in Hos. rewrite Hos. by eexists _, _.
Qed.

(** C33. A claim succeeds and starves nobody. As long as a row's attempt counter
    can still be incremented the statement returns a batch, and a row that is
    claimable and not locked is either in it, or the batch is full of rows that
    were all enqueued before it. *)
Theorem claim_batch_fair (now : instant) (locked : uuid -> bool) (worker : string)
  (lease : interval) (limit : Z) (cid : uuid) (ob : Outbox) (Hinv : outbox_inv ob)
  (Hlim : 0 <= limit) (Hatt : forall r, r ∈ rows ob -> attempts r < i32_max) :
  exists batch ob', claim_batch now locked worker lease limit cid ob = (Ok batch, ob')
  /\ forall c, c ∈ rows ob -> claimable now (rows ob) c = true -> locked (row_id c) = false ->
       row_id c ∈ map row_id (claimed_rows batch)
       \/ (Z.of_nat (length batch) = limit
           /\ forall r, r ∈ claimed_rows batch -> row_order r < row_order c).
Proof.
  destruct (claim_batch_total now locked worker lease limit cid ob Hinv Hlim Hatt) as (batch & ob' & Hb).
  exists batch, ob'. split; [done|]. intros c Hc Hcl Hlk.
  destruct (claim_batch_Ok _ _ _ _ _ _ _ Hinv _ _ Hb) as (_ & _ & _ & Hp & _).
  destruct (collapse_claimable now limit ob c Hinv Hc Hcl) as [Hc1 Hcl1].
  destruct (collapse_evolves now limit ob Hinv) as [_ Hinv1]. simpl in Hinv1.
  set (ob1 := snd (collapse_stale_pending_rows now limit ob)) in *.
  assert (Hn : NoDup (rows ob1)) by (eapply NoDup_fmap_1, (inv_ids _ Hinv1)).
  destruct (limit_or_full row_order (List.filter (fun c : DbRow =>
    claimable now (rows ob1) c && negb (locked (message_id c))) (rows ob1)) limit c)
    as [Hin|[Hlen Hall]].
  - eapply sublist_NoDup, sublist_sfilter. done.
  - apply elem_of_sfilter. unfold row_id in Hlk. by rewrite Hcl1, Hlk.
  - left. rewrite Hp, map_map. apply list_elem_of_In, in_map_iff. exists c.
    by rewrite <- list_elem_of_In.
  - right. split.
    + apply Permutation_length in Hp. unfold claimed_rows in Hp. rewrite !length_map in Hp.
      unfold candidates in Hp. rewrite Hlen in Hp. lia.
    + intros r Hr. rewrite Hp in Hr.
      apply list_elem_of_In, in_map_iff in Hr as (x & <- & Hx%list_elem_of_In).
      destruct (Hall x Hx) as [Hne Hle].
      change (row_order (claim_row now worker lease cid x)) with (row_order x).
      destruct (elem_of_candidates _ _ _ _ _ Hx) as [Hx1 _].
      destruct (decide (row_order x = row_order c)) as [E|]; [|lia].
      by destruct (Hne (row_order_inj ob1 Hinv1 x c Hx1 Hc1 E)).
Qed.

(** ** Marks, retention and the life of a row *)

Lemma claimed_as_unique ob mid cid r :
  outbox_inv ob -> r ∈ rows ob -> claimed_as mid cid r = true ->
  List.filter (claimed_as mid cid) (rows ob) = [r].
Proof.
  intros Hinv Hr Hc.
  assert (Hrows : NoDup (rows ob)) by (eapply NoDup_fmap_1, (inv_ids _ Hinv)).
  apply Permutation_singleton_r, NoDup_Permutation.
  - eapply sublist_NoDup, sublist_sfilter. done.
  - apply NoDup_singleton.
  - intros r'. rewrite elem_of_sfilter, list_elem_of_singleton. split; [|by intros ->].
    intros [Hr' Hc']. apply claimed_as_true in Hc as [Hm _], Hc' as [Hm' _].
    apply (NoDup_key_inj row_id (rows ob)); [apply (inv_ids _ Hinv)|done..|].
    unfold row_id. congruence.
Qed.

(** A mark under the claim of the row rewrites that row. *)
Lemma mark_hit f mid cid ob r :
  outbox_inv ob -> r ∈ rows ob -> claimed_as mid cid r = true ->
  mark_with f mid cid ob
  = (Ok Updated, with_rows ob (sql_update (fun r' : DbRow => bool_decide (message_id r' = mid)) f (rows ob))).
Proof.
  intros Hinv Hr Hc. unfold mark_with, sql_count.
  rewrite (claimed_as_unique ob mid cid r) by done. simpl. f_equal. f_equal.
  unfold sql_update. apply map_ext_in. intros r' Hr'%list_elem_of_In.
  destruct (claimed_as mid cid r') eqn:E.
  - apply claimed_as_true in E as [-> _]. by rewrite bool_decide_true.
  - case_bool_decide as Hm; [|done]. apply claimed_as_true in Hc as Hc'. destruct Hc' as [Hm' _].
    replace r' with r in E; [congruence|].
    apply (NoDup_key_inj row_id (rows ob)); [apply (inv_ids _ Hinv)|done..|]. unfold row_id. congruence.
Qed.

(** A mark under any other claim changes nothing. *)
Lemma mark_miss f mid cid ob :
  (forall r, r ∈ rows ob -> claimed_as mid cid r = false) ->
  mark_with f mid cid ob
  = (Ok (if bool_decide (mid ∈ map row_id (rows ob)) then StaleClaim else Missing), ob).
Proof.
  intros Hno. unfold mark_with, sql_count. rewrite update_id by done.
  assert (List.filter (claimed_as mid cid) (rows ob) = []) as ->.
  { destruct (List.filter _ _) as [|r l] eqn:E; [done|].
    assert (Hr : r ∈ List.filter (claimed_as mid cid) (rows ob)) by (rewrite E; left).
    apply elem_of_sfilter in Hr as [Hr Hc]. by rewrite Hno in Hc. }
  simpl. destruct ob as [rs n]. unfold with_rows. simpl. f_equal. f_equal.
  unfold mark_miss_outcome. simpl. case_bool_decide as Hm.
  - destruct (existsb _ rs) eqn:E; [done|]. exfalso.
    apply list_elem_of_In, in_map_iff in Hm as (r & Hm & Hr%list_elem_of_In).
    rewrite existsb_false in E. specialize (E r Hr). by apply bool_decide_eq_false in E.
  - destruct (existsb _ rs) eqn:E; [|done]. exfalso. apply Hm.
    apply existsb_true in E as (r & Hr & Er%bool_decide_eq_true). apply list_elem_of_In, in_map_iff.
    exists r. by rewrite <- list_elem_of_In.
Qed.

(** A mark is fenced by the claim generation. It takes effect exactly when
    the row is in flight under the claim named, and then rewrites that row and
    no other; otherwise the table is left as it was, and the answer tells a row
    that another worker holds or has finished from a row that is gone. *)
Theorem mark_fenced (f : DbRow -> DbRow) (mid cid : uuid) (ob : Outbox) (Hinv : outbox_inv ob) :
  (forall r, r ∈ rows ob -> claimed_as mid cid r = true ->
     mark_with f mid cid ob
     = (Ok Updated, with_rows ob (sql_update (fun r' : DbRow => bool_decide (message_id r' = mid)) f (rows ob))))
  /\ ((forall r, r ∈ rows ob -> claimed_as mid cid r = false) ->
      mark_with f mid cid ob
      = (Ok (if bool_decide (mid ∈ map row_id (rows ob)) then StaleClaim else Missing), ob)).
Proof. split; [intros r; by apply mark_hit|apply mark_miss]. Qed.

Lemma sql_count_split {A} (p : A -> bool) (l : list A) :
  (sql_count p l + length (List.filter (fun a => negb (p a)) l) = length l)%nat.
Proof. unfold sql_count. induction l as [|a l IH]; simpl; [done|]. destruct (p a); simpl; lia. Qed.

(** Retention. A sweep deletes at most a batch and reports exactly how many
    rows went; what it deletes is terminal, past the age, not locked, and failed
    only when asked; every other row stays as it was; and a sweep that deletes
    fewer rows than the batch allows has left no reclaimable row behind. *)
Theorem purge_sound (now : instant) (locked : uuid -> bool) (cfg : PurgeConfig) (ob ob' : Outbox)
  (n : nat) (Hinv : outbox_inv ob) (Hp : purge_outbox_once now locked cfg ob = (Ok n, ob')) :
  Z.of_nat n <= batch_size cfg
  /\ (n + length (rows ob') = length (rows ob))%nat
  /\ rows ob' `sublist_of` rows ob
  /\ (forall r, r ∈ rows ob -> r ∈ rows ob' \/ reclaimable now locked cfg r = true)
  /\ (Z.of_nat n < batch_size cfg -> forall r, r ∈ rows ob' -> reclaimable now locked cfg r = false).
Proof.
  revert Hp. unfold purge_outbox_once, mbind, eff_bind, lift, stmt.
  destruct (purge_validate cfg) as [[]|e] eqn:Hv; simpl; [|done]. intros [= <- <-].
  assert (Hbs : 0 < batch_size cfg).
  { unfold purge_validate in Hv. destruct (older_than cfg =? 0), (batch_size cfg <=? 0) eqn:E; try done.
    by apply Z.leb_gt. }
  set (vs := victims now locked cfg (rows ob)).
  assert (Hn : NoDup (rows ob)) by (eapply NoDup_fmap_1, (inv_ids _ Hinv)).
  assert (Hnf : NoDup (List.filter (reclaimable now locked cfg) (rows ob))) by (eapply sublist_NoDup, sublist_sfilter; done).
  assert (Hvs : forall v, v ∈ vs -> v ∈ rows ob /\ reclaimable now locked cfg v = true).
  { intros v Hv'. unfold vs, victims in Hv'. apply elem_of_limit, elem_of_order_by, elem_of_sfilter in Hv'.
    exact Hv'. }
  assert (Hperm : List.filter (id_in vs) (rows ob) ≡ₚ vs).
  { apply (key_in_filter row_id); [apply (inv_ids _ Hinv)|by apply NoDup_selected|by intros v []%Hvs]. }
  assert (Hcnt : sql_count (id_in vs) (rows ob) = length vs) by (by apply Permutation_length).
  simpl. split_and!.
  - rewrite Hcnt. unfold vs, victims, sql_limit. rewrite length_take. lia.
  - apply sql_count_split.
  - apply sublist_sfilter.
  - intros r Hr. rewrite elem_of_sfilter. destruct (id_in vs r) eqn:E; [right|left; done].
    assert (Hin : r ∈ List.filter (id_in vs) (rows ob)) by (apply elem_of_sfilter; done).
    rewrite Hperm in Hin. by apply Hvs.
  - intros Hlt r [Hr Hni]%elem_of_sfilter. apply not_true_iff_false. intros Hrec.
    destruct (limit_or_full row_created (List.filter (reclaimable now locked cfg) (rows ob)) (batch_size cfg) r)
      as [Hin|[Hfull _]]; [done|by apply elem_of_sfilter| |].
    + apply negb_true_iff in Hni. rewrite <- not_true_iff_false in Hni. apply Hni, id_in_true.
      exists r. split; [exact Hin|done].
    + rewrite Hcnt in Hlt. unfold vs, victims in Hlt. rewrite Hfull in Hlt. lia.
Qed.

(** Statements that rewrite live rows only keep terminal rows as they are. *)
Lemma update_keeps p f (t : list DbRow) r :
  (p r = true -> live r = true) -> r ∈ t -> live r = false -> r ∈ sql_update p f t.
Proof.
  intros Hp Hr Hl. apply elem_of_update. exists r. split; [done|].
  destruct (p r); [|done]. rewrite Hp in Hl; done.
Qed.

Lemma stale_of_live cs r : stale_of cs r = true -> live r = true.
Proof. intros [? _]%stale_of_true. apply live_cases. auto. Qed.

(** The terminal statuses are terminal: a published, superseded or failed
    row is never changed again by any step; it can only disappear, in a sweep. *)
Theorem terminal_is_final (w w' : World) (Hw : rtc step initial w) (Hs : step w w') (r : DbRow)
  (Hr : r ∈ rows (table w)) (Ht : outbox_is_terminal (status r) = true) :
  r ∈ rows (table w') \/ row_id r ∉ map row_id (rows (table w')).
Proof.
  assert (Hinv : outbox_inv (table w)) by apply (reachable_inv w Hw).
  assert (Hl : live r = false) by (unfold live; by rewrite Ht).
  destruct Hs as [P ? cfg now visible evt trace w|now limit w|now locked worker lease limit cid w _
                 | |now mid cid w|now mid cid err after w|now locked cfg w| |]; simpl; auto.
  - left. pose proof (enqueue_outcomes cfg now visible evt trace (table w)) as Ho.
    destruct (enqueue_inner cfg now visible evt trace (table w)) as [res ob']. simpl.
    destruct Ho as [e ob' -> _|row ob' _ [-> _]|ek row ob' _ _ [-> _]]; simpl; [done|set_solver|].
    apply elem_of_snoc. left. apply update_keeps; [|done..].
    intros [_ [_ Hpd%(bool_decide_eq_true_1 _)]%andb_true_iff]%andb_true_iff. apply live_cases. auto.
  - left. unfold collapse_stale_pending_rows, mbind, eff_bind, lift, check_limit, stmt.
    destruct (limit <? 0); simpl; [done|]. apply update_keeps; [apply stale_of_live|done..].
  - left. unfold world_claim, claim_statement, mbind, eff_bind, lift, check_limit, stmt.
    destruct (limit <? 0); simpl; [done|]. destruct (existsb _ _); simpl; [done|].
    apply list_elem_of_In, in_map_iff. exists r. rewrite <- list_elem_of_In. split; [|done].
    destruct (id_in _ r) eqn:E.
    + apply (candidate_of now locked limit (table w) Hinv) in E; [|done].
      destruct (elem_of_candidates _ _ _ _ _ E) as (_ & Hc & _).
      apply claimable_status, live_cases in Hc. congruence.
    + destruct (stale_of _ r) eqn:Es; [apply stale_of_live in Es; congruence|done].
  - left. apply update_keeps; [|done..]. intros (_ & ? & _)%claimed_as_true. apply live_cases; auto.
  - left. apply update_keeps; [|done..]. intros (_ & ? & _)%claimed_as_true. apply live_cases; auto.
  - unfold purge_outbox_once, mbind, eff_bind, lift, stmt.
    destruct (lift_core _); simpl; [|by left]. destruct (id_in (victims now locked cfg (rows (table w))) r) eqn:E.
    + right. intros (r' & Hid & Hin%list_elem_of_In)%list_elem_of_In%in_map_iff.
      apply elem_of_sfilter in Hin as [_ Hn%negb_true_iff].
      unfold id_in in *. unfold row_id in Hid. by rewrite Hid, E in Hn.
    + left. apply elem_of_sfilter. by rewrite E.
Qed.

(** C14. An enqueue either is recorded whole or leaves the rows alone. When it
    succeeds and sees every earlier row, the new row is the youngest of the
    table and the only pending row of its entity, and no row outside that
    entity's pending ones has changed. When it fails, the rows are as before,
    except that an envelope without identity leaves one failed audit row. *)
Theorem enqueue_spec {P} `{KafkaMessage P} (cfg : ResolvedConfig) (now : instant)
  (evt : Envelope P) (trace : option TraceContext) (ob : Outbox) (Hinv : outbox_inv ob) :
  match enqueue_inner cfg now (fun _ => true) evt trace ob with
  | (Ok _, ob') =>
      exists ek row, entity_key (env_payload evt) = Returned ek
      /\ row ∈ rows ob' /\ row_id row = env_message_id evt /\ status row = Pending
      /\ entity_col row = Some ek /\ to_value (env_payload evt) = Returned (Ok (payload row))
      /\ (forall r, r ∈ rows ob' -> row_order r <= row_order row)
      /\ (forall r, r ∈ rows ob' -> pending_of ek r = true -> r = row)
      /\ (forall r, r ∈ rows ob -> pending_of ek r = false -> r ∈ rows ob')
      /\ length (rows ob') = S (length (rows ob))
  | (Err e, ob') =>
      rows ob' = rows ob
      \/ (e = EMissingIdempotencyKey /\ exists row, rows ob' = rows ob ++ [row]
          /\ status row = OFailed /\ row_id row = env_message_id evt)
  end.
Proof.
  pose proof (enqueue_outcomes cfg now (fun _ => true) evt trace ob) as Ho.
  destruct (enqueue_inner cfg now (fun _ => true) evt trace ob) as [res ob'] eqn:Hen.
  destruct Ho as [e ob' Hr _|row ob' _ [-> _] Hid Hs _|ek row ob' He _ Happ Hid Hs Hn Hk Hv].
  - by left.
  - right. split; [done|]. by exists row.
  - exact (enqueue_inserts _ _ _ _ _ _ _ Hinv Hen).
Qed.

(** ** The model evaluated *)

Module Runs.
Import Sample.

Definition row_of (ob : Outbox) (i : nat) : option DbRow := rows ob !! i.

Definition claim (now : instant) (limit : Z) (cid : uuid) (ob : Outbox) : Outbox :=
  snd (claim_statement now none "w" 30 limit cid ob).

(** The steps as functions; a send is of the [i]th row held. *)
Definition enq (now : instant) (mid : uuid) (e v : string) (w : World) : World :=
  with_table w (snd (enqueue now mid e v (table w))).
Definition take (now : instant) (cid : uuid) : World -> World := world_claim now none "w" 30 10 cid.
Definition send (i : nat) (w : World) : World :=
  match held w !! i with Some r => world_send r w | None => w end.
Definition mark (now : instant) (mid cid : uuid) (w : World) : World :=
  world_marked mid cid (snd (mark_published now mid cid (table w))) w.
Definition tick (later : instant) (w : World) : World :=
  {| table := table w; clock := later; held := held w; sends := sends w |}.

Lemma enq_step now mid e v w : step w (enq now mid e v w).
Proof. apply (step_enqueue order_placed cfg now all (event mid e v) None). Qed.
Lemma take_step now cid w : (now <=? clock w) = true -> step w (take now cid w).
Proof. intros ?%Z.leb_le. by apply step_claim. Qed.
Lemma send_step i w : (i <? length (held w))%nat = true -> step w (send i w).
Proof.
  intros [r Hr]%Nat.ltb_lt%lookup_lt_is_Some. unfold send. rewrite Hr.
  apply step_publish. by eapply list_elem_of_lookup_2.
Qed.
Lemma tick_step later w : (clock w <=? later) = true -> step w (tick later w).
Proof. intros ?%Z.leb_le. by apply step_tick. Qed.

(** Publish the first state, then enqueue, claim and publish the second. *)
Definition w1 := take 2 100 (enq 1 10 "o1" "v1" (tick 2 initial)).
Definition w2 := mark 3 10 100 (send 0 w1).
Definition w3 := take 5 101 (enq 4 11 "o1" "v2" (tick 5 w2)).
Definition final : World := send 0 w3.

Lemma w1_reachable : rtc step initial w1.
Proof.
  eapply rtc_l; [by apply (tick_step 2)|]. eapply rtc_l; [apply (enq_step 1 10 "o1" "v1")|].
  eapply rtc_l; [apply (take_step 2 100); by vm_compute|]. apply rtc_refl.
Defined.

Lemma final_reachable : rtc step initial final.
Proof.
  etrans; [exact w1_reachable|].
  eapply rtc_l; [apply (send_step 0); by vm_compute|]. eapply rtc_l; [apply (step_published 3 10 100)|].
  eapply rtc_l; [apply (tick_step 5); by vm_compute|]. eapply rtc_l; [apply (enq_step 4 11 "o1" "v2")|].
  eapply rtc_l; [apply (take_step 5 101); by vm_compute|].
  eapply rtc_l; [apply (send_step 0); by vm_compute|]. apply rtc_refl.
Defined.

(** Three pending rows of two entities, nothing claimed yet. *)
Definition backlog : Outbox := two_orders.
Definition waiting : World := with_table initial backlog.

Lemma backlog_reachable : rtc step initial waiting.
Proof.
  eapply rtc_l; [apply (enq_step 1 10 "o1" "v1")|]. eapply rtc_l; [apply (enq_step 2 11 "o2" "v1")|].
  eapply rtc_l; [apply (enq_step 3 12 "o1" "v2")|]. apply rtc_refl.
Defined.

Lemma backlog_inv : outbox_inv backlog.
Proof. apply (wi_table _ (reachable_inv _ backlog_reachable)). Qed.

(** A worker claims a row and stalls past its lease; another reclaims and
    publishes it, and the next state of the entity too. Then the first wakes up. *)
Definition stalled := tick 40 w1.
Definition overtaken := send 1 (take 43 102 (enq 42 11 "o1" "v2" (tick 43 (mark 41 10 101 (send 1 (take 40 101 stalled)))))).
Definition woken := send 0 overtaken.

Lemma woken_reachable : rtc step initial woken.
Proof.
  etrans; [exact w1_reachable|].
  eapply rtc_l; [apply (tick_step 40); by vm_compute|]. eapply rtc_l; [apply (take_step 40 101); by vm_compute|].
  eapply rtc_l; [apply (send_step 1); by vm_compute|]. eapply rtc_l; [apply (step_published 41 10 101)|].
  eapply rtc_l; [apply (tick_step 43); by vm_compute|]. eapply rtc_l; [apply (enq_step 42 11 "o1" "v2")|].
  eapply rtc_l; [apply (take_step 43 102); by vm_compute|].
  eapply rtc_l; [apply (send_step 1); by vm_compute|].
  eapply rtc_l; [apply (send_step 0); by vm_compute|]. apply rtc_refl.
Defined.
End Runs.

Lemma entity_publish_order_witness :
  published_orders "o1" (log Runs.final) = [1; 2]
  /\ StronglySorted Z.le (published_orders "o1" (log Runs.final)).
Proof.
  split; [vm_compute; reflexivity|].
  apply (entity_publish_order Runs.final Runs.final_reachable "o1").
  refine (proj1 (Forall_forall _ _) _). vm_compute. repeat constructor.
Defined.

(** A row of a concrete table, found by position. *)
Ltac found i := apply (list_elem_of_lookup_2 _ i); vm_compute; reflexivity.

Lemma one_inflight_per_entity_witness :
  exists r, r ∈ rows (table Runs.final) /\ status r = Publishing
  /\ (r = r \/ (status r = Pending /\ row_order r < row_order r)).
Proof.
  destruct (Runs.row_of (table Runs.final) 1) as [r|] eqn:E; [|vm_compute in E; discriminate].
  assert (Hr : r ∈ rows (table Runs.final)) by (by apply (list_elem_of_lookup_2 _ 1)).
  vm_compute in E. injection E as <-. eexists. split; [exact Hr|]. split; [reflexivity|].
  apply (one_inflight_per_entity Runs.final Runs.final_reachable _ _ Hr Hr); reflexivity.
Defined.

Lemma claim_batch_sound_witness :
  exists batch ob', claim_batch 5 Sample.none "w" 30 10 100 Runs.backlog = (Ok batch, ob')
  /\ map row_order (claimed_rows batch) = [2; 3]
  /\ StronglySorted Z.lt (map row_order (claimed_rows batch)).
Proof.
  destruct (claim_batch 5 Sample.none "w" 30 10 100 Runs.backlog) as [[batch|e] ob'] eqn:E;
    [|vm_compute in E; discriminate].
  exists batch, ob'. split; [reflexivity|]. split.
  - vm_compute in E. injection E as <- _. reflexivity.
  - exact (proj1 (claim_batch_sound _ _ _ _ _ _ _ _ _ Runs.backlog_inv E)).
Defined.

Lemma claim_batch_fair_witness :
  exists batch ob', claim_batch 5 Sample.none "w" 30 1 100 Runs.backlog = (Ok batch, ob')
  /\ forall c, c ∈ rows Runs.backlog -> claimable 5 (rows Runs.backlog) c = true ->
       Sample.none (row_id c) = false ->
       row_id c ∈ map row_id (claimed_rows batch)
       \/ (Z.of_nat (length batch) = 1
           /\ forall r, r ∈ claimed_rows batch -> row_order r < row_order c).
Proof.
  apply (claim_batch_fair 5 Sample.none "w" 30 1 100 Runs.backlog Runs.backlog_inv); [lia|].
  apply Forall_forall. repeat constructor.
Defined.

Lemma mark_fenced_witness :
  fst (mark_published 9 12 100 (Runs.claim 5 10 100 Runs.backlog)) = Ok Updated
  /\ mark_published 9 12 55 Runs.backlog = (Ok StaleClaim, Runs.backlog)
  /\ mark_published 9 77 55 Runs.backlog = (Ok Missing, Runs.backlog).
Proof.
  split; [vm_compute; reflexivity|].
  assert (Hno : forall mid r, r ∈ rows Runs.backlog -> claimed_as mid 55 r = false).
  { intros mid. apply Forall_forall. repeat constructor; unfold claimed_as; simpl; apply andb_false_r. }
  split.
  - exact (proj2 (mark_fenced (published_row 9) 12 55 Runs.backlog Runs.backlog_inv) (Hno 12%N)).
  - exact (proj2 (mark_fenced (published_row 9) 77 55 Runs.backlog Runs.backlog_inv) (Hno 77%N)).
Defined.

Definition a_week : PurgeConfig :=
  {| older_than := 604800; batch_size := 1000; purge_poll_interval := 60; include_failed := false |}.

Lemma purge_sound_witness :
  exists ob', purge_outbox_once 700000 Sample.none a_week Runs.backlog = (Ok 1%nat, ob')
  /\ (1 + length (rows ob') = length (rows Runs.backlog))%nat.
Proof.
  destruct (purge_outbox_once 700000 Sample.none a_week Runs.backlog) as [res ob'] eqn:E.
  exists ob'. assert (res = Ok 1%nat) as -> by (vm_compute in E; congruence).
  split; [reflexivity|].
  apply (purge_sound 700000 Sample.none a_week Runs.backlog ob' 1 Runs.backlog_inv E).
Defined.

Lemma terminal_is_final_witness :
  exists r, r ∈ rows Runs.backlog /\ status r = Superseded
  /\ (r ∈ rows (Runs.claim 0 10 100 Runs.backlog)
      \/ row_id r ∉ map row_id (rows (Runs.claim 0 10 100 Runs.backlog))).
Proof.
  destruct (Runs.row_of Runs.backlog 0) as [r|] eqn:E; [|vm_compute in E; discriminate].
  assert (Hr : r ∈ rows Runs.backlog) by (by apply (list_elem_of_lookup_2 _ 0)).
  vm_compute in E. injection E as <-. eexists. split; [exact Hr|]. split; [reflexivity|].
  exact (terminal_is_final Runs.waiting _ Runs.backlog_reachable
           (step_claim 0 Sample.none "w" 30 10 100 Runs.waiting (Z.le_refl 0)) _ Hr eq_refl).
Defined.

Lemma enqueue_spec_witness :
  exists ob', enqueue_inner Sample.cfg 9 (fun _ => true) (Sample.event 13 "o2" "v2") None Runs.backlog
              = (Ok tt, ob')
  /\ length (rows ob') = 4%nat.
Proof.
  pose proof (enqueue_spec Sample.cfg 9 (Sample.event 13 "o2" "v2") None Runs.backlog
                Runs.backlog_inv) as H.
  destruct (enqueue_inner Sample.cfg 9 (fun _ => true) (Sample.event 13 "o2" "v2") None Runs.backlog)
    as [[[]|e] ob'] eqn:E; [|vm_compute in E; discriminate].
  exists ob'. split; [reflexivity|].
  by destruct H as (ek & row & _ & _ & _ & _ & _ & _ & _ & _ & _ & ->).
Defined.

(** What a late send does: the old state lands above the new one. The fence
    catches the late mark, not the late send. *)
Example late_publish_reorders :
  rtc step initial Runs.woken
  /\ published_orders "o1" (log Runs.overtaken) = [1; 2]
  /\ published_orders "o1" (log Runs.woken) = [1; 2; 1]
  /\ map late (sends Runs.woken) = [false; false; true]
  /\ fst (mark_published 44 10 100 (table Runs.woken)) = Ok StaleClaim.
Proof. split; [exact Runs.woken_reachable|]. vm_compute. split_and!; reflexivity. Qed.
