(* ===== verification/Lifecycle.v ===== *)
(** * Lifecycle: the success-event sampler

    Models [src/crates/kafkaman-core/src/lifecycle.rs]. A rate is an IEEE 754
    double ([SpecFloat] at precision 53 and exponent bound 1024); the counters
    are [u64]. *)

From S2P Require Import Prelude.
From Stdlib Require Import SpecFloat.
Open Scope list_scope.
Open Scope Z_scope.

(** ** [f64] operations the module uses *)

Definition f64 := spec_float.
Definition f64_mul : f64 -> f64 -> f64 := SFmul 53 1024.
Definition f64_of_Z (z : Z) : f64 := binary_normalize 53 1024 z 0 false.
Definition f64_is_finite (x : f64) : bool :=
  match x with S754_zero _ | S754_finite _ _ _ => true | _ => false end.

(** The magnitude of [x.round()]: half away from zero. *)
Definition round_magnitude (m : positive) (e : Z) : Z :=
  if 0 <=? e then Z.pos m * 2 ^ e else (Z.pos m + 2 ^ (- e - 1)) / 2 ^ (- e).

(** [x.round() as u64]: the cast saturates, and sends [NaN] to zero. *)
Definition round_as_u64 (x : f64) : Z :=
  match x with
  | S754_zero _ | S754_nan => 0
  | S754_infinity s => if s then 0 else u64_max
  | S754_finite s m e => if s then 0 else Z.min (round_magnitude m e) u64_max
  end.

(** ** [LifecycleEmission] *)

Record LifecycleEmission := { per_message : bool; sample_success : f64 }.

Definition RATE_DENOMINATOR : Z := 1000000.

Definition emits_success_event (e : LifecycleEmission) : bool :=
  per_message e && SFltb (f64_of_Z 0) (sample_success e) && f64_is_finite (sample_success e).

Definition numerator (e : LifecycleEmission) : option Z :=
  if negb (emits_success_event e) then None
  else if SFleb (f64_of_Z 1) (sample_success e) then Some RATE_DENOMINATOR
  else Some (Z.max (round_as_u64 (f64_mul (sample_success e) (f64_of_Z RATE_DENOMINATOR))) 1).

(** ** [LifecycleSampler] *)

Record LifecycleSampler := { sampler_numerator : option Z; seen : Z; emitted : Z }.

Definition sampler (e : LifecycleEmission) : LifecycleSampler :=
  {| sampler_numerator := numerator e; seen := 0; emitted := 0 |}.

(** [take]. [successes] is a [usize], which is 64 bits wide. *)
Definition sampler_take (successes : Z) (s : LifecycleSampler) : Z * LifecycleSampler :=
  match sampler_numerator s with
  | None => (0, s)
  | Some num =>
      if successes =? 0 then (0, s)
      else
        let seen' := u64_saturating_add (seen s) successes in
        let owed := Z.min (seen' * num / RATE_DENOMINATOR) u64_max in
        (u64_saturating_sub owed (emitted s),
         {| sampler_numerator := Some num; seen := seen'; emitted := owed |})
  end.

(** A scheduler's successive calls, and the events they produced in all. *)
Fixpoint sampler_run (batches : list Z) (s : LifecycleSampler) : Z * LifecycleSampler :=
  match batches with
  | [] => (0, s)
  | b :: bs =>
      let (n, s) := sampler_take b s in
      let (m, s) := sampler_run bs s in
      (n + m, s)
  end.

(** ** The sampler keeps the rate *)

Definition total (batches : list Z) : Z := foldr Z.add 0 batches.

(** The state after [n] successes. *)
Definition on_rate (num n : Z) (s : LifecycleSampler) : Prop :=
  s = {| sampler_numerator := Some num; seen := n; emitted := n * num / RATE_DENOMINATOR |}.

Lemma owed_le num n : 0 <= num <= RATE_DENOMINATOR -> 0 <= n -> n * num / RATE_DENOMINATOR <= n.
Proof.
  unfold RATE_DENOMINATOR. intros Hn H. apply Z.div_le_upper_bound; nia.
Qed.

Lemma owed_mono num a b :
  0 <= num -> a <= b -> a * num / RATE_DENOMINATOR <= b * num / RATE_DENOMINATOR.
Proof. unfold RATE_DENOMINATOR. intros. apply Z.div_le_mono; nia. Qed.

Lemma take_on_rate num n b s :
  0 <= num <= RATE_DENOMINATOR -> 0 <= n -> 0 <= b -> n + b <= u64_max -> on_rate num n s ->
  let (k, s') := sampler_take b s in
  on_rate num (n + b) s' /\ k = (n + b) * num / RATE_DENOMINATOR - n * num / RATE_DENOMINATOR.
Proof.
  intros Hnum Hn Hb Hmax ->. unfold sampler_take. simpl.
  destruct (Z.eqb_spec b 0) as [->|Hb0]; [rewrite Z.add_0_r; split; [done|lia]|].
  unfold u64_saturating_add, u64_saturating_sub. rewrite (Z.min_l (n + b)) by done.
  pose proof (owed_le num (n + b) Hnum ltac:(lia)).
  pose proof (owed_mono num n (n + b) ltac:(lia) ltac:(lia)).
  rewrite Z.min_l by lia. split; [done|lia].
Qed.

Lemma run_on_rate num batches n s :
  0 <= num <= RATE_DENOMINATOR -> 0 <= n -> Forall (fun b => 0 <= b) batches ->
  n + total batches <= u64_max -> on_rate num n s ->
  let (k, s') := sampler_run batches s in
  on_rate num (n + total batches) s'
  /\ k = (n + total batches) * num / RATE_DENOMINATOR - n * num / RATE_DENOMINATOR.
Proof.
  intros Hnum. revert n s. induction batches as [|b bs IH]; intros n s Hn Hall Hmax Hs; simpl in *.
  { rewrite Z.add_0_r. split; [done|lia]. }
  apply Forall_cons in Hall as [Hb Hbs].
  assert (Ht : 0 <= total bs) by (clear -Hbs; induction Hbs; simpl; lia).
  pose proof (take_on_rate num n b s Hnum Hn Hb ltac:(lia) Hs) as H.
  destruct (sampler_take b s) as [k s1]. destruct H as [H1 ->].
  pose proof (IH (n + b) s1 ltac:(lia) Hbs ltac:(lia) H1) as H2.
  destruct (sampler_run bs s1) as [m s2]. destruct H2 as [H2 ->].
  rewrite <- Z.add_assoc in *. split; [done|lia].
Qed.

(** After any split of [N] successes into batches the sampler has emitted
    exactly [⌊N * rate⌋] events, the rate being the numerator over a million: it
    is never ahead of the rate, never a whole event behind, and it does not
    drift with the batching. A disabled sampler emits nothing. *)
Theorem sampler_exact (e : LifecycleEmission) (batches : list Z)
  (Hb : Forall (fun b => 0 <= b) batches) (Hmax : total batches <= u64_max) :
  match numerator e with
  | None => fst (sampler_run batches (sampler e)) = 0
  | Some num => num <= RATE_DENOMINATOR ->
      fst (sampler_run batches (sampler e)) = total batches * num / RATE_DENOMINATOR
  end.
Proof.
  destruct (numerator e) as [num|] eqn:En.
  - intros Hle. assert (Hpos : 0 <= num).
    { unfold numerator in En. destruct (negb _); [done|].
      destruct (SFleb _ _); simplify_eq; unfold RATE_DENOMINATOR; lia. }
    pose proof (run_on_rate num batches 0 (sampler e) ltac:(lia) ltac:(lia) Hb Hmax) as H.
    destruct (sampler_run batches (sampler e)) as [k s]. simpl.
    destruct H as [_ ->]; [by unfold on_rate, sampler; rewrite En|].
    rewrite Z.add_0_l, Z.mul_0_l, Z.div_0_l by done. apply Z.sub_0_r.
  - unfold sampler. rewrite En. clear. induction batches as [|b bs IH]; [done|]. simpl.
    destruct (sampler_run bs _). simpl in *. lia.
Qed.

(** [0.1] as a double, and a rate small enough to be floored at one. *)
Definition tenth : f64 := S754_finite false 7205759403792794 (-56).

Example numerators :
  numerator {| per_message := true; sample_success := tenth |} = Some 100000
  /\ numerator {| per_message := true; sample_success := S754_finite false 4503599627370496 (-90) |}
     = Some 1
  /\ numerator {| per_message := true; sample_success := S754_nan |} = None
  /\ numerator {| per_message := false; sample_success := tenth |} = None.
Proof. vm_compute. split_and!; reflexivity. Qed.

Lemma sampler_exact_witness :
  fst (sampler_run [3; 0; 4; 3; 11] (sampler {| per_message := true; sample_success := tenth |})) = 2.
Proof.
  assert (H : numerator {| per_message := true; sample_success := tenth |} = Some 100000)
    by (vm_compute; reflexivity).
  pose proof (sampler_exact {| per_message := true; sample_success := tenth |} [3; 0; 4; 3; 11]
    ltac:(repeat constructor; lia) ltac:(vm_compute; discriminate)) as T.
  rewrite H in T. rewrite T; [vm_compute; reflexivity|vm_compute; discriminate].
Defined.
