(* ===== verification/Relay.v ===== *)
(** * Relay: one relay cycle

    Models the cycle of [src/crates/kafkaman-worker/src/relay.rs] (its loop is in
    [Worker]) and the configuration of [src/crates/kafkaman-core/src/relay_config.rs].

    The broker is not part of the program: the [Publisher] is a parameter that
    answers with an acknowledgement or an error. While a row is being published
    other transactions go on, so the parameter also says what the table has
    become by the time the answer is in. *)

From S2P Require Import Prelude Text Vocabulary Trace Identity Topics Registry Outbox.
From S2P Require Import OutboxOrder Lifecycle.
Open Scope string_scope.
Open Scope list_scope.
Open Scope Z_scope.

(** ** [RelayConfig] and [RelayStats] *)

Record RelayConfig := {
  worker_id : string;
  batch_limit : Z;
  lease_for : interval;
  retry_after : interval;
  relay_poll_interval : interval;
  relay_lifecycle : LifecycleEmission;
}.

Definition relay_validate (cfg : RelayConfig) : result CoreError unit :=
  if lease_for cfg =? 0 then
    Err (InvalidRelayConfig "lease_for"
           "must be greater than zero; a claim that expires as it is taken lets another worker reclaim and republish in a tight loop")
  else if batch_limit cfg <=? 0 then
    Err (InvalidRelayConfig "batch_limit" "must be greater than zero")
  else if relay_poll_interval cfg =? 0 then
    Err (InvalidRelayConfig "poll_interval"
           "must be greater than zero; it is the only thing that yields between empty polls")
  else Ok tt.

Record RelayStats := {
  rs_claimed : nat; rs_published : nat; rs_failed : nat; rs_stale : nat; rs_missing : nat }.

Definition no_stats (claimed : nat) : RelayStats :=
  {| rs_claimed := claimed; rs_published := 0; rs_failed := 0; rs_stale := 0; rs_missing := 0 |}.
Definition count_published (s : RelayStats) : RelayStats :=
  {| rs_claimed := rs_claimed s; rs_published := S (rs_published s); rs_failed := rs_failed s;
     rs_stale := rs_stale s; rs_missing := rs_missing s |}.
Definition count_failed (s : RelayStats) : RelayStats :=
  {| rs_claimed := rs_claimed s; rs_published := rs_published s; rs_failed := S (rs_failed s);
     rs_stale := rs_stale s; rs_missing := rs_missing s |}.
Definition count_stale (s : RelayStats) : RelayStats :=
  {| rs_claimed := rs_claimed s; rs_published := rs_published s; rs_failed := rs_failed s;
     rs_stale := S (rs_stale s); rs_missing := rs_missing s |}.
Definition count_missing (s : RelayStats) : RelayStats :=
  {| rs_claimed := rs_claimed s; rs_published := rs_published s; rs_failed := rs_failed s;
     rs_stale := rs_stale s; rs_missing := S (rs_missing s) |}.

Record PublishAck := { ack_topic : string; ack_partition : Z; ack_offset : Z }.

(** ** One cycle *)

(** What the cycle carries along: the table, the counters, the sampler, the
    sends it made and the success events it emitted, each by message id. *)
Record Cycle := {
  cy_table : Outbox;
  cy_stats : RelayStats;
  cy_sampler : option LifecycleSampler;
  cy_sent : list ClaimedOutboxRow;
  cy_events : list uuid;
}.

Definition claimed_message_id (c : ClaimedOutboxRow) : uuid := message_id (orow_db (claimed_row c)).

Section relay.
(** The broker with everything that happens meanwhile, and the failures of the
    connection on which a mark is sent. *)
Context (publish : ClaimedOutboxRow -> Outbox -> result string PublishAck * Outbox).
Context (mark_fault : uuid -> option SqlxError).
Context (now : instant) (cfg : RelayConfig).

Definition mark_through (mid : uuid) (m : sql MarkOutcome) : sql MarkOutcome :=
  match mark_fault mid with
  | Some e => raise (ESqlx e)
  | None => m
  end.

(** The tail of the loop body: the success event or the counter of a lost claim. *)
Definition settle_outcome (mid : uuid) (o : MarkOutcome) (c : Cycle) : Cycle :=
  match o with
  | Updated =>
      match cy_sampler c with
      | None => c
      | Some s =>
          let (n, s') := sampler_take 1 s in
          {| cy_table := cy_table c; cy_stats := cy_stats c; cy_sampler := Some s';
             cy_sent := cy_sent c;
             cy_events := if 0 <? n then cy_events c ++ [mid] else cy_events c |}
      end
  | StaleClaim =>
      {| cy_table := cy_table c; cy_stats := count_stale (cy_stats c); cy_sampler := cy_sampler c;
         cy_sent := cy_sent c; cy_events := cy_events c |}
  | Missing =>
      {| cy_table := cy_table c; cy_stats := count_missing (cy_stats c);
         cy_sampler := cy_sampler c; cy_sent := cy_sent c; cy_events := cy_events c |}
  end.

(** The loop body for one claimed row. *)
Definition relay_row (row : ClaimedOutboxRow) (c : Cycle) : result Error unit * Cycle :=
  let mid := claimed_message_id row in
  let (published, table) := publish row (cy_table c) in
  let (marked, table) :=
    match published with
    | Ok _ => mark_through mid (mark_published now mid (claimed_id row)) table
    | Err description =>
        mark_through mid (mark_publish_failed now mid (claimed_id row) description (retry_after cfg))
          table
    end in
  let c := {| cy_table := table; cy_stats := cy_stats c; cy_sampler := cy_sampler c;
              cy_sent := cy_sent c ++ [row]; cy_events := cy_events c |} in
  match marked with
  | Err e => (Err e, c)
  | Ok o =>
      let count := match o, published with
                   | Updated, Ok _ => count_published
                   | Updated, Err _ => count_failed
                   | _, _ => id
                   end in
      (Ok tt, settle_outcome mid o
                {| cy_table := cy_table c; cy_stats := count (cy_stats c);
                   cy_sampler := cy_sampler c; cy_sent := cy_sent c; cy_events := cy_events c |})
  end.

Fixpoint relay_rows (claimed : list ClaimedOutboxRow) (c : Cycle) : result Error unit * Cycle :=
  match claimed with
  | [] => (Ok tt, c)
  | row :: rest =>
      match relay_row row c with
      | (Ok _, c) => relay_rows rest c
      | (Err e, c) => (Err e, c)
      end
  end.

(** [relay_once_inner]. A claim that fails rolls its transaction back. *)
Definition relay_once_inner (locked : uuid -> bool) (cid : uuid)
  (lifecycle : option LifecycleSampler) (ob : Outbox) : result Error RelayStats * Cycle :=
  let start stats table :=
    {| cy_table := table; cy_stats := stats; cy_sampler := lifecycle; cy_sent := [];
       cy_events := [] |} in
  match lift_core (relay_validate cfg) with
  | Err e => (Err e, start (no_stats 0) ob)
  | Ok _ =>
      match claim_batch now locked (worker_id cfg) (lease_for cfg) (batch_limit cfg) cid ob with
      | (Err e, ob') => (Err e, start (no_stats 0) (rollback ob ob'))
      | (Ok claimed, ob') =>
          match relay_rows claimed (start (no_stats (length claimed)) ob') with
          | (Ok _, c) => (Ok (cy_stats c), c)
          | (Err e, c) => (Err e, c)
          end
      end
  end.
End relay.

(** ** The counters *)

Definition accounted (s : RelayStats) : nat :=
  rs_published s + rs_failed s + rs_stale s + rs_missing s.

Lemma settle_accounted mid o c :
  cy_stats (settle_outcome mid o c)
  = match o with Updated => cy_stats c | StaleClaim => count_stale (cy_stats c)
                 | Missing => count_missing (cy_stats c) end
  /\ cy_table (settle_outcome mid o c) = cy_table c /\ cy_sent (settle_outcome mid o c) = cy_sent c.
Proof.
  destruct o; simpl; [|done..]. destruct (cy_sampler c) as [s|]; [|done].
  by destruct (sampler_take 1 s).
Qed.

Lemma relay_row_accounts publish fault now cfg row c :
  let '(res, c') := relay_row publish fault now cfg row c in
  cy_sent c' = cy_sent c ++ [row] /\ rs_claimed (cy_stats c') = rs_claimed (cy_stats c)
  /\ (res = Ok tt -> accounted (cy_stats c') = S (accounted (cy_stats c))).
Proof.
  unfold relay_row. destruct (publish row (cy_table c)) as [published table].
  destruct (match published with Ok _ => _ | Err _ => _ end) as [[o|e] table']; [|by simpl].
  match goal with |- context [settle_outcome ?m o ?c'] =>
    destruct (settle_accounted m o c') as (-> & _ & ->) end.
  simpl. unfold accounted. destruct o, published; simpl; split_and!; try done; intros _; lia.
Qed.

Lemma relay_rows_accounts publish fault now cfg claimed c :
  let '(res, c') := relay_rows publish fault now cfg claimed c in
  (exists sent, cy_sent c' = cy_sent c ++ sent /\ sent `prefix_of` claimed
                /\ (res = Ok tt -> sent = claimed))
  /\ rs_claimed (cy_stats c') = rs_claimed (cy_stats c)
  /\ (res = Ok tt -> accounted (cy_stats c') = (accounted (cy_stats c) + length claimed)%nat).
Proof.
  revert c. induction claimed as [|row rest IH]; intros c; simpl.
  { split_and!; [|done|lia]. exists []. by rewrite app_nil_r. }
  pose proof (relay_row_accounts publish fault now cfg row c) as Hrow.
  destruct (relay_row publish fault now cfg row c) as [[[]|e] c1]; destruct Hrow as (Hs & Hc & Ha).
  - specialize (IH c1). destruct (relay_rows publish fault now cfg rest c1) as [res c2].
    destruct IH as ((sent & Hsent & Hpre & Hall) & Hc2 & Hacc). split_and!; [|congruence|].
    + exists (row :: sent). rewrite Hsent, Hs, <- app_assoc. split_and!; [done|by apply prefix_cons|].
      intros ?. by rewrite Hall.
    + intros E. rewrite (Hacc E), (Ha eq_refl). simpl. lia.
  - split_and!; [|done|done]. exists [row]. split_and!; [done| |done]. by exists rest.
Qed.

(** Whatever the broker answers and whatever other transactions do
    meanwhile, a completed cycle accounts for every row it claimed exactly once
    (published, failed, stale or missing), and it sends the claimed rows in
    strictly increasing enqueue order with no two of one entity. A cycle cut
    short by a lost connection has sent a prefix of that order. *)
Theorem relay_accounts (publish : ClaimedOutboxRow -> Outbox -> result string PublishAck * Outbox)
  (mark_fault : uuid -> option SqlxError) (now : instant) (cfg : RelayConfig)
  (locked : uuid -> bool) (cid : uuid) (lifecycle : option LifecycleSampler) (ob : Outbox)
  (Hinv : outbox_inv ob) :
  let '(res, c) := relay_once_inner publish mark_fault now cfg locked cid lifecycle ob in
  StronglySorted Z.lt (map row_order (claimed_rows (cy_sent c)))
  /\ (forall r1 r2, r1 ∈ claimed_rows (cy_sent c) -> r2 ∈ claimed_rows (cy_sent c) ->
        same_entity r1 r2 = true -> r1 = r2)
  /\ (cy_sent c = [] \/ exists batch ob',
        claim_batch now locked (worker_id cfg) (lease_for cfg) (batch_limit cfg) cid ob = (Ok batch, ob')
        /\ cy_sent c `prefix_of` batch)
  /\ (forall stats, res = Ok stats ->
        fst (claim_batch now locked (worker_id cfg) (lease_for cfg) (batch_limit cfg) cid ob)
          = Ok (cy_sent c)
        /\ rs_claimed stats = length (cy_sent c)
        /\ rs_claimed stats
           = (rs_published stats + rs_failed stats + rs_stale stats + rs_missing stats)%nat).
Proof.
  unfold relay_once_inner.
  destruct (lift_core (relay_validate cfg)); [|split_and!; [constructor|set_solver|by left|done]].
  destruct (claim_batch _ _ _ _ _ _ _) as [[claimed|e] ob'] eqn:Hb;
    [|split_and!; [constructor|set_solver|by left|done]].
  destruct (claim_batch_sorted _ _ _ _ _ _ _ _ _ Hinv Hb) as [Hs _].
  pose proof (claim_batch_entities _ _ _ _ _ _ _ _ _ Hinv Hb) as He.
  match goal with |- context [relay_rows ?p ?f ?n ?g claimed ?c0] =>
    pose proof (relay_rows_accounts p f n g claimed c0) as Hr;
    destruct (relay_rows p f n g claimed c0) as [[[]|e] c] end;
    destruct Hr as ((sent & Hsent & [rest Hpre] & Hall) & Hcl & Hacc); simpl in *; rewrite Hsent.
  - rewrite (Hall eq_refl). split_and!; [done..|right; eauto|].
    intros stats [= <-]. rewrite Hcl. split_and!; [done..|]. symmetry. by apply Hacc.
  - rewrite Hpre in Hs, He. unfold claimed_rows in *. rewrite !map_app in *.
    split_and!; [|intros r1 r2 H1 H2; apply He; set_solver|right; exists claimed, ob'; split;
      [done|by exists rest]|done].
    eapply StronglySorted_sublist; [|exact Hs]. apply sublist_inserts_r. done.
Qed.

(** ** A cycle nobody disturbs *)

Section quiet.
Context (answers : uuid -> result string PublishAck) (now : instant) (cfg : RelayConfig).

Definition quiet_publish (row : ClaimedOutboxRow) (t : Outbox) : result string PublishAck * Outbox :=
  (answers (claimed_message_id row), t).
Definition no_fault (mid : uuid) : option SqlxError := None.

(** How the row of a message ends up. *)
Definition settled (mid : uuid) (r : DbRow) : Prop :=
  row_id r = mid /\ claim_id r = None /\
  match answers mid with
  | Ok _ => status r = Published /\ published_at r = Some now
  | Err d => status r = Pending /\ last_error r = Some d /\ next_attempt_at r = now + retry_after cfg
  end.

Lemma quiet_row row c r :
  outbox_inv (cy_table c) -> r ∈ rows (cy_table c) ->
  claimed_as (claimed_message_id row) (claimed_id row) r = true ->
  exists c', relay_row quiet_publish no_fault now cfg row c = (Ok tt, c')
    /\ outbox_inv (cy_table c')
    /\ rs_stale (cy_stats c') = rs_stale (cy_stats c)
    /\ rs_missing (cy_stats c') = rs_missing (cy_stats c)
    /\ (forall r', r' ∈ rows (cy_table c) -> row_id r' <> claimed_message_id row ->
          r' ∈ rows (cy_table c'))
    /\ (exists r', r' ∈ rows (cy_table c') /\ settled (claimed_message_id row) r').
Proof.
  intros Hinv Hr Hc. unfold relay_row, quiet_publish, mark_through, no_fault, mark_published,
    mark_publish_failed.
  set (f := match answers (claimed_message_id row) with
            | Ok _ => published_row now | Err d => retry_row now d (retry_after cfg) end).
  assert (Hm : (match answers (claimed_message_id row) with
          | Ok _ => mark_with (published_row now) (claimed_message_id row) (claimed_id row)
          | Err d => mark_with (retry_row now d (retry_after cfg)) (claimed_message_id row) (claimed_id row)
          end) (cy_table c) = mark_with f (claimed_message_id row) (claimed_id row) (cy_table c))
    by (unfold f; by destruct (answers _)).
  assert (Hf : forall x, msg (f x) = msg x /\ status (f x) <> Publishing)
    by (intros x; unfold f; by destruct (answers _)).
  pose proof (mark_evolves f (claimed_message_id row) (claimed_id row) _ Hf Hinv) as [_ Hinv'].
  rewrite (mark_hit f _ _ _ r) in * by done. simpl in Hinv'.
  set (mid := claimed_message_id row) in *.
  set (ob' := with_rows _ _) in *.
  assert (Hrow : claimed_as mid (claimed_id row) r = true -> row_id r = mid)
    by (by intros [? _]%claimed_as_true).
  assert (Hkeep : forall r', r' ∈ rows (cy_table c) -> row_id r' <> mid -> r' ∈ rows ob').
  { intros r' Hr' Hne. apply elem_of_update. exists r'. split; [done|]. by rewrite bool_decide_false. }
  assert (Hset : exists r', r' ∈ rows ob' /\ settled mid r').
  { exists (f r). split.
    - apply elem_of_update. exists r. split; [done|]. by rewrite bool_decide_true by auto.
    - unfold settled, row_id. destruct (Hf r) as [-> _]. specialize (Hrow Hc).
      unfold f. fold mid. by destruct (answers mid). }
  destruct (answers mid) eqn:Ea; rewrite Hm;
    (eexists; split; [reflexivity|]);
    (match goal with |- context [settle_outcome ?m ?o ?c'] =>
      destruct (settle_accounted m o c') as (-> & -> & _) end); simpl; by split_and!.
Qed.

Lemma quiet_rows claimed c :
  outbox_inv (cy_table c) -> NoDup (map claimed_message_id claimed) ->
  (forall row, row ∈ claimed -> exists r, r ∈ rows (cy_table c)
      /\ claimed_as (claimed_message_id row) (claimed_id row) r = true) ->
  exists c', relay_rows quiet_publish no_fault now cfg claimed c = (Ok tt, c')
    /\ outbox_inv (cy_table c')
    /\ rs_stale (cy_stats c') = rs_stale (cy_stats c)
    /\ rs_missing (cy_stats c') = rs_missing (cy_stats c)
    /\ (forall r', r' ∈ rows (cy_table c) -> row_id r' ∉ map claimed_message_id claimed ->
          r' ∈ rows (cy_table c'))
    /\ (forall row, row ∈ claimed ->
          exists r', r' ∈ rows (cy_table c') /\ settled (claimed_message_id row) r').
Proof.
  revert c. induction claimed as [|row rest IH]; intros c Hinv Hn Hcl; simpl.
  { exists c. split_and!; try done. by intros row ?%elem_of_nil. }
  simpl in Hn. apply NoDup_cons in Hn as [Hni Hn].
  destruct (Hcl row) as (r & Hr & Hc); [by left|].
  destruct (quiet_row row c r Hinv Hr Hc) as (c1 & -> & Hinv1 & Hst1 & Hmi1 & Hk1 & (r1 & Hr1 & Hs1)).
  destruct (IH c1 Hinv1 Hn) as (c2 & Hrun & Hinv2 & Hst2 & Hmi2 & Hk2 & Hs2).
  { intros row' Hrow'. destruct (Hcl row') as (r' & Hr' & Hc'); [by right|].
    exists r'. split; [|done]. apply Hk1; [done|]. apply claimed_as_true in Hc' as [E _].
    unfold row_id. rewrite E. intros E'. apply Hni. rewrite <- E'.
    apply list_elem_of_In, in_map_iff. exists row'. by rewrite <- list_elem_of_In. }
  exists c2. split_and!; [done|done|congruence|congruence| |].
  - intros r' Hr' Hni'. apply not_elem_of_cons in Hni' as [? ?]. auto.
  - intros row' [->|Hrow']%elem_of_cons; [|auto].
    exists r1. split; [|done]. apply Hk2; [done|]. by destruct Hs1 as [-> _].
Qed.
End quiet.

(** Undisturbed, a cycle finishes and does what it is for: it returns, no
    claim is lost, and each row it sent is published and stamped when the broker
    acknowledged it, or pending again with the broker's error and a retry
    [retry_after] from now when the broker refused. *)
Theorem relay_quiet (answers : uuid -> result string PublishAck) (now : instant) (cfg : RelayConfig)
  (locked : uuid -> bool) (cid : uuid) (lifecycle : option LifecycleSampler) (ob : Outbox)
  (Hinv : outbox_inv ob) (Hcfg : relay_validate cfg = Ok tt)
  (Hatt : forall r, r ∈ rows ob -> attempts r < i32_max) :
  exists stats c,
    relay_once_inner (quiet_publish answers) no_fault now cfg locked cid lifecycle ob = (Ok stats, c)
    /\ outbox_inv (cy_table c) /\ rs_stale stats = 0%nat /\ rs_missing stats = 0%nat
    /\ forall row, row ∈ cy_sent c ->
         exists r, r ∈ rows (cy_table c) /\ settled answers now cfg (claimed_message_id row) r.
Proof.
  assert (Hlim : 0 <= batch_limit cfg).
  { unfold relay_validate in Hcfg. destruct (lease_for cfg =? 0), (batch_limit cfg <=? 0) eqn:E; try done.
    apply Z.leb_gt in E. lia. }
  destruct (claim_batch_total now locked (worker_id cfg) (lease_for cfg) (batch_limit cfg) cid ob
              Hinv Hlim Hatt) as (claimed & ob' & Hb).
  destruct (claim_batch_Ok _ _ _ _ _ _ _ Hinv _ _ Hb) as (_ & Hinv' & _ & _ & _ & Hids).
  destruct (claim_batch_sorted _ _ _ _ _ _ _ _ _ Hinv Hb) as [_ Hn].
  unfold relay_once_inner. rewrite Hcfg. simpl. rewrite Hb.
  match goal with |- context [relay_rows _ _ _ _ claimed ?c0] =>
    pose proof (quiet_rows answers now cfg claimed c0 Hinv') as Hq;
    pose proof (relay_rows_accounts (quiet_publish answers) no_fault now cfg claimed c0) as Ha end.
  destruct Hq as (c & Hrun & Hinv2 & Hst & Hmi & _ & Hset); simpl.
  - unfold claimed_rows in Hn. by rewrite map_map in Hn.
  - intros row Hrow. rewrite (Hids row Hrow).
    destruct (claimed_rows_sound _ _ _ _ _ _ _ _ _ Hinv Hb (orow_db (claimed_row row)))
      as (c & _ & E & Hin).
    { unfold claimed_rows. apply list_elem_of_In, in_map_iff. exists row. by rewrite <- list_elem_of_In. }
    exists (orow_db (claimed_row row)). split; [done|]. apply claimed_as_true.
    split; [done|]. by rewrite E.
  - rewrite Hrun in *. destruct Ha as ((sent & Hsent & _ & Hall) & _).
    exists (cy_stats c), c. split_and!; [done..|]. simpl in Hsent. rewrite Hsent, (Hall eq_refl). done.
Qed.

Definition relay_cfg : RelayConfig :=
  {| worker_id := "w"; batch_limit := 100; lease_for := 30; retry_after := 1; relay_poll_interval := 1;
     relay_lifecycle := {| per_message := true; sample_success := f64_of_Z 1 |} |}.

(** The broker takes one message and refuses the other. *)
Definition flaky (mid : uuid) : result string PublishAck :=
  if bool_decide (mid = 11%N) then Err "broker down"
  else Ok {| ack_topic := "dev.orders"; ack_partition := 0; ack_offset := 5 |}.

Lemma relay_accounts_witness :
  let '(res, c) := relay_once_inner (quiet_publish flaky) no_fault 5 relay_cfg Sample.none 100 None
                     Runs.backlog in
  res = Ok {| rs_claimed := 2; rs_published := 1; rs_failed := 1; rs_stale := 0; rs_missing := 0 |}
  /\ StronglySorted Z.lt (map row_order (claimed_rows (cy_sent c))).
Proof.
  pose proof (relay_accounts (quiet_publish flaky) no_fault 5 relay_cfg Sample.none 100 None
                Runs.backlog Runs.backlog_inv) as H.
  destruct (relay_once_inner _ _ _ _ _ _ _ _) as [res c] eqn:E. split.
  - vm_compute in E. by injection E as <- _.
  - apply H.
Defined.

Lemma relay_quiet_witness :
  exists stats c,
    relay_once_inner (quiet_publish flaky) no_fault 5 relay_cfg Sample.none 100 None Runs.backlog
    = (Ok stats, c) /\ rs_stale stats = 0%nat.
Proof.
  destruct (relay_quiet flaky 5 relay_cfg Sample.none 100 None Runs.backlog Runs.backlog_inv eq_refl)
    as (stats & c & H & _ & Hs & _).
  - apply Forall_forall. repeat constructor.
  - exists stats, c. exact (conj H Hs).
Defined.

(** ** The success event *)

Section success_event.
Context (publish : ClaimedOutboxRow -> Outbox -> result string PublishAck * Outbox).
Context (mark_fault : uuid -> option SqlxError) (now : instant) (cfg : RelayConfig).

(** The sampler after [k] rows whose mark was a hit. *)
Definition sampled (k : nat) (s : LifecycleSampler) : LifecycleSampler := (sampler_run (replicate k 1) s).2.

Lemma sampled_S k s : sampled (S k) s = sampled k (sampler_take 1 s).2.
Proof.
  unfold sampled. cbn [replicate sampler_run]. destruct (sampler_take 1 s) as [n s']. cbn [snd].
  by destruct (sampler_run (replicate k 1) s').
Qed.

(** A row moves the sampler exactly when its mark was a hit, whatever the broker
    answered. *)
Lemma relay_row_sampler row c s :
  cy_sampler c = Some s ->
  let '(res, c') := relay_row publish mark_fault now cfg row c in
  res = Ok tt ->
  (rs_published (cy_stats c') + rs_failed (cy_stats c') = rs_published (cy_stats c) + rs_failed (cy_stats c)
   /\ cy_sampler c' = Some s)%nat
  \/ (rs_published (cy_stats c') + rs_failed (cy_stats c') = S (rs_published (cy_stats c) + rs_failed (cy_stats c))
      /\ cy_sampler c' = Some (sampler_take 1 s).2)%nat.
Proof.
  intros Hs. unfold relay_row. destruct (publish row (cy_table c)) as [published table].
  destruct (match published with Ok _ => _ | Err _ => _ end) as [[o|e] table']; [|done]. intros _.
  unfold settle_outcome. destruct o; cbn [cy_sampler]; rewrite Hs; [|left; by destruct published..].
  right. destruct (sampler_take 1 s) as [n s']. destruct published; cbn; split; [lia|done|lia|done].
Qed.

Lemma relay_rows_sampler claimed : forall c s c',
  cy_sampler c = Some s -> relay_rows publish mark_fault now cfg claimed c = (Ok tt, c') ->
  exists k, (rs_published (cy_stats c') + rs_failed (cy_stats c')
             = k + (rs_published (cy_stats c) + rs_failed (cy_stats c)))%nat
            /\ cy_sampler c' = Some (sampled k s).
Proof.
  induction claimed as [|row rest IH]; intros c s c' Hs Hrun; cbn [relay_rows] in Hrun.
  { injection Hrun as <-. by exists 0%nat. }
  pose proof (relay_row_sampler row c s Hs) as Hrow.
  destruct (relay_row publish mark_fault now cfg row c) as [[[]|e] c1]; [|done].
  destruct (Hrow eq_refl) as [[Hc Hs1]|[Hc Hs1]]; destruct (IH _ _ _ Hs1 Hrun) as (k & Hk & Hs').
  - exists k. by rewrite <- Hc.
  - exists (S k). rewrite sampled_S. split; [lia|done].
Qed.
End success_event.

(** C40. The success event is tied to the mark, not to the publish. In any cycle,
    when the broker refuses a row and the row's claim is still there to mark, the
    row goes back to pending with the broker's error and is counted as failed,
    and the sampler is asked all the same: when it says so, "outbox message
    published" is emitted for the row that was not published. Over a completed
    cycle the sampler has been asked once for every row counted as published or
    as failed. *)
Theorem success_event_after_failed_publish
  (publish : ClaimedOutboxRow -> Outbox -> result string PublishAck * Outbox)
  (mark_fault : uuid -> option SqlxError) (now : instant) (cfg : RelayConfig) :
  (forall row c description table r s,
     publish row (cy_table c) = (Err description, table) -> mark_fault (claimed_message_id row) = None ->
     outbox_inv table -> r ∈ rows table -> claimed_as (claimed_message_id row) (claimed_id row) r = true ->
     cy_sampler c = Some s ->
     exists c', relay_row publish mark_fault now cfg row c = (Ok tt, c')
       /\ cy_stats c' = count_failed (cy_stats c)
       /\ (exists r', r' ∈ rows (cy_table c') /\ row_id r' = claimed_message_id row
             /\ status r' = Pending /\ last_error r' = Some description)
       /\ cy_sampler c' = Some (sampler_take 1 s).2
       /\ cy_events c' = cy_events c ++ (if 0 <? (sampler_take 1 s).1 then [claimed_message_id row] else []))
  /\ (forall locked cid s ob stats c,
       relay_once_inner publish mark_fault now cfg locked cid (Some s) ob = (Ok stats, c) ->
       cy_sampler c = Some (sampled (rs_published stats + rs_failed stats) s)).
Proof.
  split.
  - intros row c description table r s Hpub Hfault Hinv Hr Hc Hs.
    unfold relay_row. rewrite Hpub. unfold mark_through. rewrite Hfault. unfold mark_publish_failed.
    rewrite (mark_hit _ _ _ _ r) by done. unfold settle_outcome. cbn [cy_sampler]. rewrite Hs.
    destruct (sampler_take 1 s) as [n s']. eexists. split; [reflexivity|]. cbn [cy_stats cy_table cy_sampler cy_events fst snd].
    split; [done|]. split; [|split; [done|]; destruct (0 <? n); [done|by rewrite app_nil_r]].
    apply claimed_as_true in Hc as [Hid _].
    exists (retry_row now description (retry_after cfg) r). split; [|done].
    apply elem_of_update. exists r. split; [done|]. by rewrite bool_decide_true.
  - intros locked cid s ob stats c. unfold relay_once_inner.
    destruct (lift_core (relay_validate cfg)); [|done].
    destruct (claim_batch _ _ _ _ _ _ ob) as [[claimed|e] ob']; [|done].
    match goal with |- context [relay_rows _ _ _ _ claimed ?c0] =>
      pose proof (relay_rows_sampler publish mark_fault now cfg claimed c0 s) as Hrows;
      destruct (relay_rows publish mark_fault now cfg claimed c0) as [[[]|e] c1] end; [|done].
    intros [= <- <-]. destruct (Hrows _ eq_refl eq_refl) as (k & Hk & ->). cbn in Hk.
    by replace k with (rs_published (cy_stats c1) + rs_failed (cy_stats c1))%nat by lia.
Qed.

(** One row, refused: the event is emitted for it. *)
Lemma success_event_after_failed_publish_witness :
  let ob := snd (Sample.enqueue 2 11 "o2" "v1" empty_outbox) in
  let s := sampler (relay_lifecycle relay_cfg) in
  exists stats c,
    relay_once_inner (quiet_publish flaky) no_fault 5 relay_cfg Sample.none 100 (Some s) ob = (Ok stats, c)
    /\ rs_published stats = 0%nat /\ rs_failed stats = 1%nat /\ cy_events c = [11%N]
    /\ cy_sampler c = Some (sampled 1 s).
Proof.
  cbv zeta. destruct (relay_once_inner _ _ _ _ _ _ _ _) as [[stats|e] c] eqn:E; [|vm_compute in E; discriminate E].
  pose proof (proj2 (success_event_after_failed_publish (quiet_publish flaky) no_fault 5 relay_cfg) _ _ _ _ _ _ E) as H.
  assert (Hst : rs_published stats = 0%nat /\ rs_failed stats = 1%nat /\ cy_events c = [11%N]).
  { vm_compute in E. injection E as <- <-. split; [reflexivity|]. split; reflexivity. }
  destruct Hst as (Hp & Hf & He). rewrite Hp, Hf in H. exists stats, c.
  split; [reflexivity|]. split; [exact Hp|]. split; [exact Hf|]. split; [exact He|exact H].
Defined.
