(* ===== verification/Retry.v ===== *)
(** * Retry: policies, backoff and the retry budget

    Models [src/crates/kafkaman-config/src/retry.rs] and
    [src/crates/kafkaman-sqlx/src/retry_backoff.rs]. A [Duration] is its number
    of nanoseconds. [f64::powi] has no fixed rounding, so it is an argument; so
    are the draws of the random generator. *)

From S2P Require Import Prelude Text Vocabulary Lifecycle.
From Stdlib Require Import SpecFloat.
Open Scope string_scope.
Open Scope list_scope.
Open Scope Z_scope.

(** ** [RetryPolicy] *)

Inductive DlqMode := DlqTable.

Record RetryPolicy := {
  max_attempts : Z;
  initial_backoff : interval;
  max_backoff : interval;
  multiplier : f64;
  errors_limit : Z;
  dlq : DlqMode;
}.

Definition NANOS : Z := 1000000000.

Definition retry_default : RetryPolicy :=
  {| max_attempts := 10; initial_backoff := NANOS; max_backoff := 300 * NANOS;
     multiplier := f64_of_Z 2; errors_limit := 20; dlq := DlqTable |}.

Record RetryPolicyOverride := {
  o_max_attempts : option Z;
  o_initial_backoff : option interval;
  o_max_backoff : option interval;
  o_multiplier : option f64;
  o_errors_limit : option Z;
  o_dlq : option DlqMode;
}.

Definition apply_to (o : RetryPolicyOverride) (base : RetryPolicy) : RetryPolicy :=
  {| max_attempts := default (max_attempts base) (o_max_attempts o);
     initial_backoff := default (initial_backoff base) (o_initial_backoff o);
     max_backoff := default (max_backoff base) (o_max_backoff o);
     multiplier := default (multiplier base) (o_multiplier o);
     errors_limit := default (errors_limit base) (o_errors_limit o);
     dlq := default (dlq base) (o_dlq o) |}.

Record RetryConfig := { defaults : RetryPolicy; overrides : gmap string RetryPolicyOverride }.

Definition policy_for (cfg : RetryConfig) (mt : string) : RetryPolicy :=
  match overrides cfg !! mt with
  | Some o => apply_to o (defaults cfg)
  | None => defaults cfg
  end.

(** [validate_policy]: the issues it appends, as paths and messages. *)
Definition validate_policy (path : string) (p : RetryPolicy) : list (string * string) :=
  (if max_attempts p =? 0
   then [(path +:+ ".max_attempts", "must be greater than or equal to 1")] else [])
  ++ (if initial_backoff p =? 0
      then [(path +:+ ".initial_backoff", "must be greater than zero")] else [])
  ++ (if max_backoff p <? initial_backoff p
      then [(path +:+ ".initial_backoff", "must be less than or equal to max_backoff")] else [])
  ++ (if negb (f64_is_finite (multiplier p)) || SFltb (multiplier p) (f64_of_Z 1)
      then [(path +:+ ".multiplier", "must be finite and greater than or equal to 1.0")] else [])
  ++ (if errors_limit p =? 0
      then [(path +:+ ".errors_limit", "must be greater than or equal to 1")] else []).

(** ** [Duration] and [f64] *)

Definition as_secs_f64 (d : interval) : f64 :=
  SFadd 53 1024 (f64_of_Z (d / NANOS)) (SFdiv 53 1024 (f64_of_Z (d mod NANOS)) (f64_of_Z NANOS)).

(** [f64::min] on operands that are not [NaN]. *)
Definition f64_min (a b : f64) : f64 := if SFltb b a then b else a.

(** [n / d] to the nearest integer, ties to even. *)
Definition div_half_even (n d : Z) : Z :=
  let q := n / d in
  let r := n mod d in
  match (2 * r) ?= d with
  | Lt => q
  | Gt => q + 1
  | Eq => if Z.even q then q else q + 1
  end.

(** [Duration::from_secs_f64]: [None] is the panic on a negative or
    unrepresentable number of seconds. *)
Definition from_secs_f64 (x : f64) : option interval :=
  match x with
  | S754_zero _ => Some 0
  | S754_finite false m e =>
      let ns := if 0 <=? e then Z.pos m * 2 ^ e * NANOS
                else div_half_even (Z.pos m * NANOS) (2 ^ (- e)) in
      if ns <? 2 ^ 64 * NANOS then Some ns else None
  | _ => None
  end.

(** ** The schedule *)

Record FailureDisposition := { fd_kind : ReceivedFailureKind; fd_stage : FailureStage; fd_terminal : bool }.

(** [u32::try_from(attempts).unwrap_or(0)]. *)
Definition clamp_attempts (attempts : Z) : Z := if attempts <? 0 then 0 else attempts.

(** [retry_backoff]; [powi] is the platform's. *)
Definition retry_backoff (powi : f64 -> Z -> f64) (p : RetryPolicy) (attempts : Z) : option interval :=
  let m := if attempts =? 0 then f64_of_Z 1 else powi (multiplier p) (Z.min attempts i32_max) in
  let candidate := f64_mul (as_secs_f64 (initial_backoff p)) m in
  if negb (f64_is_finite candidate) then Some (max_backoff p)
  else from_secs_f64 (f64_min candidate (as_secs_f64 (max_backoff p))).

(** [jittered]; [draw half] is what [gen_range(0..=half)] returned. *)
Definition jittered (draw : interval -> interval) (base : interval) : interval :=
  let half := base / 2 in
  if half =? 0 then base else half + draw half.

(** [duration_to_time], in nanoseconds: the seconds saturate. *)
Definition duration_to_time (d : interval) : interval :=
  Z.min (d / NANOS) i64_max * NANOS + d mod NANOS.

Definition received_retry_outcome (p : RetryPolicy) (attempts : Z) (d : FailureDisposition) : Z * bool :=
  let next := u32_saturating_add (clamp_attempts attempts) 1 in
  (next, fd_terminal d || (max_attempts p <=? next)).

Record ReceivedFailureSchedule := {
  exhausted : bool;
  sched_next_attempt_at : option instant;
  sched_errors_limit : Z;
}.

(** [received_failure_schedule]. [wait] is the jittered backoff of an attempt
    count; it is consulted only when there is a next attempt. *)
Definition received_failure_schedule (p : RetryPolicy) (wait : Z -> interval) (attempts : Z)
  (occurred_at : instant) (d : FailureDisposition) : ReceivedFailureSchedule :=
  let exhausted := snd (received_retry_outcome p attempts d) in
  {| exhausted := exhausted;
     sched_next_attempt_at :=
       if exhausted then None
       else Some (occurred_at + duration_to_time (wait (clamp_attempts attempts)));
     sched_errors_limit := Z.max (errors_limit p) 1 |}.

(** ** Properties *)

(** Jitter spreads a backoff over its upper half and never beyond it: for
    any draw the generator may make, the wait is at least half of the computed
    backoff (rounded down) and at most all of it, and it is zero only when the
    backoff was. *)
Theorem jittered_bounds (draw : interval -> interval) (base : interval)
  (Hbase : 0 <= base) (Hdraw : forall half, 0 <= half -> 0 <= draw half <= half) :
  base / 2 <= jittered draw base <= base /\ (jittered draw base = 0 -> base = 0).
Proof.
  unfold jittered. pose proof (Z.div_pos base 2 Hbase ltac:(lia)) as Hh.
  pose proof (Hdraw (base / 2) Hh) as Hd.
  pose proof (Z.mul_div_le base 2 ltac:(lia)) as Hle.
  destruct (Z.eqb_spec (base / 2) 0) as [E|E]; split; try lia.
Qed.

Lemma jittered_bounds_witness :
  3 / 2 <= jittered (fun half => half) 3 <= 3 /\ (jittered (fun half => half) 3 = 0 -> 3 = 0).
Proof. apply (jittered_bounds (fun half => half) 3); [lia|]. intros half Hh. lia. Defined.

(** The retry budget is finite and exact. A row whose failures are not
    terminal is retried after each of its first [max_attempts - 1] failures and
    parked by the next one, whatever has been recorded before; a terminal
    failure parks it at once; and a row that is parked has no due time. *)
Theorem retry_budget (p : RetryPolicy) (wait : Z -> interval) (attempts : Z) (at_ : instant)
  (d : FailureDisposition) (Ha : 0 <= attempts < u32_max) :
  let s := received_failure_schedule p wait attempts at_ d in
  (exhausted s = true <-> fd_terminal d = true \/ max_attempts p <= attempts + 1)
  /\ (sched_next_attempt_at s = None <-> exhausted s = true)
  /\ 1 <= sched_errors_limit s.
Proof.
  simpl. unfold received_failure_schedule, received_retry_outcome, clamp_attempts, u32_saturating_add.
  simpl. destruct (Z.ltb_spec attempts 0); [lia|]. rewrite Z.min_l by lia. split_and!; [|..|lia].
  - rewrite orb_true_iff, Z.leb_le. done.
  - destruct (_ || _); split; congruence.
Qed.

Lemma retry_budget_witness :
  let d := {| fd_kind := KHandler; fd_stage := SHandler; fd_terminal := false |} in
  exhausted (received_failure_schedule retry_default (fun _ => 0) 8 0 d) = false
  /\ exhausted (received_failure_schedule retry_default (fun _ => 0) 9 0 d) = true.
Proof.
  split; [vm_compute; reflexivity|].
  pose proof (retry_budget retry_default (fun _ => 0) 9 0
    {| fd_kind := KHandler; fd_stage := SHandler; fd_terminal := false |}
    ltac:(unfold u32_max; lia)) as [H _].
  apply H. right. vm_compute. discriminate.
Defined.

(** The default policy's growth: one second, doubling, capped at five minutes;
    a multiplication that overflows is capped too. [powi2 x n] is
    [2 ^ n] for the [x] that is two; powers of two are exact. *)
Definition powi2 (x : f64) (n : Z) : f64 :=
  match x with S754_finite s m e => S754_finite s m (e + n - 1) | _ => x end.

Example default_backoff :
  map (retry_backoff powi2 retry_default) [0; 1; 2; 3; 8; 9; 30]
  = map (fun s => Some (s * NANOS)) [1; 2; 4; 8; 256; 300; 300].
Proof. vm_compute. reflexivity. Qed.

Example overflowing_backoff :
  retry_backoff (fun _ _ => S754_infinity false) retry_default 5 = Some (300 * NANOS).
Proof. vm_compute. reflexivity. Qed.

(** A policy passes validation exactly when it can work: at least one
    attempt, a positive first backoff no larger than the cap, a finite
    multiplier of at least one and room for at least one stored error. Every
    violation is reported, not only the first. *)
Theorem validate_policy_spec (path : string) (p : RetryPolicy) :
  validate_policy path p = [] <->
  max_attempts p <> 0 /\ initial_backoff p <> 0 /\ initial_backoff p <= max_backoff p
  /\ f64_is_finite (multiplier p) = true /\ SFltb (multiplier p) (f64_of_Z 1) = false
  /\ errors_limit p <> 0.
Proof.
  unfold validate_policy.
  destruct (Z.eqb_spec (max_attempts p) 0), (Z.eqb_spec (initial_backoff p) 0),
    (Z.ltb_spec (max_backoff p) (initial_backoff p)),
    (f64_is_finite (multiplier p)), (SFltb (multiplier p) (f64_of_Z 1)),
    (Z.eqb_spec (errors_limit p) 0); simpl; split; intros Hx;
    try discriminate Hx; try (destruct Hx as (?&?&?&?&?&?); first [congruence|lia]);
    try reflexivity; split_and!; try assumption; try reflexivity; lia.
Qed.
