(* ===== verification/Received.v ===== *)
(** * Received: the table between the broker and the handlers

    Models [src/crates/kafkaman-sqlx/src/received_storage.rs],
    [received_rows.rs], [queries.rs], [replay.rs] and [ingest_failure.rs], with
    the row types of [src/crates/kafkaman-core/src/rows.rs]. As in [Outbox], a
    statement is atomic, [now] is the database clock and [locked] says which
    rows other transactions hold. *)

From S2P Require Import Prelude Text Vocabulary Trace Identity Topics Registry Retry Outbox.
Open Scope string_scope.
Open Scope list_scope.
Open Scope Z_scope.

(** ** The table *)

(** [ReceivedError]: one entry of the [errors] column. *)
Record ReceivedError := {
  re_kind : ReceivedFailureKind;
  re_title : string;
  re_detail : string;
  re_occurred_at : instant;
  re_stage : option FailureStage;
}.

Definition received_error_new (k : ReceivedFailureKind) (detail : string) (at_ : instant)
  (stage : option FailureStage) : ReceivedError :=
  {| re_kind := k; re_title := kind_title k; re_detail := detail; re_occurred_at := at_;
     re_stage := stage |}.

(** The columns no statement updates. *)
Record RMsg := {
  r_message_id : uuid;
  r_idempotency_key : string;
  r_idempotency_source : option json;
  r_source_topic : string;
  r_source_partition : Z;
  r_source_offset : Z;
  r_key : option string;
  r_entity_key : option string;
  r_message_type : string;
  r_message_version : Z;
  r_headers : gmap string string;
  r_payload : json;
  r_correlation_id : option uuid;
  r_causation_id : option uuid;
  r_traceparent : option string;
  r_tracestate : option string;
  r_occurred_at : instant;
  r_created_at : instant;
}.

Record RRow := {
  rmsg :> RMsg;
  r_status : ReceiveStatus;
  r_attempts : Z;
  r_next_attempt_at : option instant;
  r_errors : list ReceivedError;
  r_last_failed_at : option instant;
  r_last_failure_kind : option ReceivedFailureKind;
  r_processed_at : option instant;
}.

Definition Received := list RRow.
Abbreviation rsql A := (eff Error Received A).

(** ** Ingest *)

Inductive ReceivedInsertOutcome := Inserted | DuplicateIdempotencyKey | MessageIdConflict.
#[global] Instance ReceivedInsertOutcome_eq_dec : EqDecision ReceivedInsertOutcome.
Proof. solve_decision. Defined.

Definition has_id (mid : uuid) (r : RRow) : bool := bool_decide (r_message_id r = mid).
Definition has_key (k : string) (r : RRow) : bool := bool_decide (r_idempotency_key r = k).

(** The loop of [received_insert_conflict_outcome] over the conflicting rows. *)
Fixpoint conflict_scan (mid : uuid) (k : string) (saw : bool) (rs : list RRow)
  : ReceivedInsertOutcome :=
  match rs with
  | [] => if saw then MessageIdConflict else DuplicateIdempotencyKey
  | r :: rs => if has_key k r then DuplicateIdempotencyKey
               else conflict_scan mid k (saw || has_id mid r) rs
  end.

Definition received_insert_conflict_outcome (mid : uuid) (k : string) (t : Received)
  : ReceivedInsertOutcome :=
  conflict_scan mid k false (List.filter (fun r => has_id mid r || has_key k r) t).

Definition fresh_row (m : RMsg) : RRow :=
  {| rmsg := m; r_status := RPending; r_attempts := 0; r_next_attempt_at := None; r_errors := [];
     r_last_failed_at := None; r_last_failure_kind := None; r_processed_at := None |}.

(** [INSERT .. ON CONFLICT DO NOTHING], then the classification. The primary key
    and the unique index on the idempotency key are the two conflicts. *)
Definition insert_statement (m : RMsg) : rsql ReceivedInsertOutcome := fun t =>
  if negb (check_idempotency_key (Some (r_idempotency_key m)))
  then (Err (ESqlx (SqlxDatabase CheckViolation (Some "23514") "idempotency_key check")), t)
  else if existsb (fun r => has_id (r_message_id m) r || has_key (r_idempotency_key m) r) t
  then (Ok (received_insert_conflict_outcome (r_message_id m) (r_idempotency_key m) t), t)
  else (Ok Inserted, t ++ [fresh_row m]).

(** [insert_received_with_outcome]. *)
Definition insert_received_with_outcome {P} `{KafkaMessage P} (cfg : ResolvedConfig) (now : instant)
  (evt : Envelope P) (partition offset : Z) (key : option string) (trace : option TraceContext)
  : rsql ReceivedInsertOutcome :=
  table ← lift (for_message ReceivedKind P cfg);
  _ ← lift (match reserved_header (env_headers evt) with
            | Some reserved => Err (EReservedHeader reserved)
            | None => Ok tt
            end);
  idem ← lift (ok_or EMissingIdempotencyKey (env_idempotency_key evt));
  let mt := message_type (tbl_desc table) in
  value ← lift (catch_application_panic mt "serialize payload" (to_value (env_payload evt)));
  value ← lift (match value with Ok v => Ok v | Err text => Err (ESerde text) end);
  ek ← lift (catch_application_panic mt "resolve entity key" (entity_key (env_payload evt)));
  insert_statement
    {| r_message_id := env_message_id evt; r_idempotency_key := to_hex (idem_key idem);
       r_idempotency_source := idem_source idem;
       r_source_topic := desc_topic (tbl_desc table); r_source_partition := partition;
       r_source_offset := offset; r_key := key; r_entity_key := Some ek; r_message_type := mt;
       r_message_version := 1; r_headers := env_headers evt; r_payload := value;
       r_correlation_id := Some (env_correlation_id evt); r_causation_id := env_causation_id evt;
       r_traceparent := traceparent <$> trace; r_tracestate := trace ≫= tracestate;
       r_occurred_at := timestamptz (env_occurred_at evt); r_created_at := now |}.

Definition insert_received {P} `{KafkaMessage P} (cfg : ResolvedConfig) (now : instant)
  (evt : Envelope P) (partition offset : Z) (key : option string) (trace : option TraceContext)
  : rsql bool :=
  o ← insert_received_with_outcome cfg now evt partition offset key trace;
  mret (bool_decide (o = Inserted)).

(** ** The quarantine of records that never became rows *)

Record ReceivedIngestFailure := {
  if_source_topic : string;
  if_source_partition : Z;
  if_source_offset : Z;
  if_key : option string;
  if_headers : json;
  if_payload : option string;
  if_message_type : string;
  if_expected_topic : string;
  if_kind : ReceivedIngestFailureKind;
  if_error : string;
}.

Definition failure_source (f : ReceivedIngestFailure) : string * Z * Z :=
  (if_source_topic f, if_source_partition f, if_source_offset f).

(** [insert_received_ingest_failure]: the source position is the primary key. *)
Definition insert_received_ingest_failure (f : ReceivedIngestFailure)
  (q : gmap (string * Z * Z) ReceivedIngestFailure) : bool * gmap (string * Z * Z) ReceivedIngestFailure :=
  match q !! failure_source f with
  | Some _ => (false, q)
  | None => (true, <[failure_source f := f]> q)
  end.

(** ** Dispatch bookkeeping *)

(** [received_row_from_pg]: the idempotency key, the status and the trace
    context are decoded, the other columns copied. *)
Record ReceivedRow := {
  row_db : RRow;
  row_key : IdempotencyKey;
  row_status : ReceiveStatus;
  row_trace : option TraceContext;
}.

Definition received_row_from_pg (r : RRow) : result Error ReceivedRow :=
  k ← lift_core (from_hex (r_idempotency_key r));
  st ← lift_core (receive_status_from_str (enum_str (r_status r)));
  Ok {| row_db := r; row_key := k; row_status := st;
        row_trace := from_parts (r_traceparent r) (r_tracestate r) |}.

Definition is_rstatus (s : ReceiveStatus) (r : RRow) : bool := bool_decide (r_status r = s).

(** [status IN (pending, retryable)]. *)
Definition open_row (r : RRow) : bool := is_rstatus RPending r || is_rstatus Retryable r.

Definition due (at_ : instant) (r : RRow) : bool :=
  (is_rstatus RPending r
   && (bool_decide (r_next_attempt_at r = None) || sql_le_opt (r_next_attempt_at r) at_))
  || (is_rstatus Retryable r && sql_le_opt (r_next_attempt_at r) at_).

Definition row_age (r : RRow) : Z := r_created_at r.

Definition due_rows (locked : uuid -> bool) (at_ : instant) (t : Received) : list RRow :=
  sql_order_by row_age (List.filter (fun r : RRow => due at_ r && negb (locked (r_message_id r))) t).

(** [claim_received_row]: the transaction then holds the row's lock. *)
Definition claim_received_row (locked : uuid -> bool) (at_ : instant) (t : Received)
  : result Error (option ReceivedRow) :=
  match due_rows locked at_ t with
  | [] => Ok None
  | r :: _ => o ← received_row_from_pg r; Ok (Some o)
  end.

Definition received_mark_miss (mid : uuid) (t : Received) : MarkOutcome :=
  if existsb (has_id mid) t then StaleClaim else Missing.

Definition received_mark (mid : uuid) (f : RRow -> RRow) (t : Received) : MarkOutcome * Received :=
  let p r := has_id mid r && open_row r in
  let t' := sql_update p f t in
  (if Nat.eqb (sql_count p t) 1 then Updated else received_mark_miss mid t', t').

Definition processed_row (at_ : instant) (r : RRow) : RRow :=
  {| rmsg := rmsg r; r_status := Processed; r_attempts := r_attempts r;
     r_next_attempt_at := r_next_attempt_at r; r_errors := r_errors r;
     r_last_failed_at := r_last_failed_at r; r_last_failure_kind := r_last_failure_kind r;
     r_processed_at := Some at_ |}.

Definition mark_received_processed (mid : uuid) (at_ : instant) : rsql MarkOutcome := fun t =>
  let (o, t') := received_mark mid (processed_row at_) t in (Ok o, t').

(** [ReceivedFailureRecord]. *)
Record ReceivedFailureRecord := {
  fr_message_id : uuid;
  fr_disposition : FailureDisposition;
  fr_message : string;
  fr_occurred_at : instant;
  fr_current_attempts : Z;
}.

Definition failure_record_of (r : RRow) (d : FailureDisposition) (message : string) (at_ : instant)
  : ReceivedFailureRecord :=
  {| fr_message_id := r_message_id r; fr_disposition := d; fr_message := message;
     fr_occurred_at := at_; fr_current_attempts := r_attempts r |}.

(** The [jsonb_agg] of the newest [limit] entries, in order. *)
Definition newest (limit : Z) (es : list ReceivedError) : list ReceivedError :=
  drop (length es - Z.to_nat limit) es.

Definition failed_row (s : ReceivedFailureSchedule) (e : ReceivedError) (r : RRow) : RRow :=
  {| rmsg := rmsg r; r_status := if exhausted s then Failed else Retryable;
     r_attempts := r_attempts r + 1;
     r_next_attempt_at := if exhausted s then None else sched_next_attempt_at s;
     r_errors := newest (sched_errors_limit s) (r_errors r ++ [e]);
     r_last_failed_at := Some (re_occurred_at e); r_last_failure_kind := Some (re_kind e);
     r_processed_at := r_processed_at r |}.

(** [record_received_failure]. The counter is an [INTEGER]. *)
Definition record_received_failure (p : RetryPolicy) (wait : Z -> interval)
  (f : ReceivedFailureRecord) : rsql MarkOutcome := fun t =>
  let d := fr_disposition f in
  let e := received_error_new (fd_kind d) (fr_message f) (fr_occurred_at f) (Some (fd_stage d)) in
  let s := received_failure_schedule p wait (fr_current_attempts f) (fr_occurred_at f) d in
  if existsb (fun r => has_id (fr_message_id f) r && open_row r && (i32_max <=? r_attempts r)) t
  then (Err (sql_error "22003" "integer out of range"), t)
  else let (o, t') := received_mark (fr_message_id f) (failed_row s e) t in (Ok o, t').

(** ** The dead-letter view and redrive *)

(** [ORDER BY last_failed_at, created_at, message_id]. *)
Definition failure_order (r : RRow) : list Z :=
  nulls_last (r_last_failed_at r) ++ [r_created_at r; Z.of_N (r_message_id r)].

Definition since_ok (after : option instant) (r : RRow) : bool :=
  match after with
  | None => true
  | Some a => match r_last_failed_at r with Some t => a <=? t | None => false end
  end.
Definition kind_ok (k : option ReceivedFailureKind) (r : RRow) : bool :=
  match k with None => true | Some k => sql_eq (r_last_failure_kind r) (Some k) end.

(** [received_failed_where_sql], and [replay_received_filter_sql], which writes
    the same predicate. *)
Definition failed_filter (after : option instant) (k : option ReceivedFailureKind) (r : RRow) : bool :=
  is_rstatus Failed r && since_ok after r && kind_ok k r.

Definition received_failed_rows (after : option instant) (k : option ReceivedFailureKind)
  (limit : Z) (t : Received) : result Error (list ReceivedRow) :=
  mapM received_row_from_pg
    (sql_limit (Z.max limit 0) (sql_order_by_lex failure_order (List.filter (failed_filter after k) t))).

Definition received_failed_count (after : option instant) (k : option ReceivedFailureKind)
  (t : Received) : nat := sql_count (failed_filter after k) t.

Record Replay := {
  replay_version : Z;
  replay_descriptor : MessageDescriptor;
  occurred_after : option instant;
  max_rows : option Z;
  replay_contexts : list string;
  replay_failure_kind : option ReceivedFailureKind;
  clear_history : bool;
}.

(** [Replay::outbox]: refused, always. *)
Definition replay_outbox (P : Type) `{KafkaMessage P} : result Error Replay :=
  Err (EUnsafeOutboxReplay (MESSAGE_TYPE P)).

(** [Replay::received_descriptor] and [Replay::received]. *)
Definition replay_received_descriptor (v : Z) (d : MessageDescriptor) : Replay :=
  {| replay_version := v; replay_descriptor := d; occurred_after := None; max_rows := None;
     replay_contexts := []; replay_failure_kind := None; clear_history := false |}.
Definition replay_received (P : Type) `{KafkaMessage P} (v : Z) : result Error Replay :=
  d ← lift_core (descriptor_of P); Ok (replay_received_descriptor v d).

Definition max_rows_or_error (r : Replay) : result Error Z :=
  match max_rows r with
  | Some n => if 0 <? n then Ok n
              else Err (EInvalidReplay (replay_version r) "max_rows must be greater than zero")
  | None => Err (EInvalidReplay (replay_version r) "max_rows is required")
  end.

Definition redriven_row (clear : bool) (r : RRow) : RRow :=
  {| rmsg := rmsg r; r_status := RPending;
     r_attempts := if clear then 0 else r_attempts r;
     r_next_attempt_at := None;
     r_errors := if clear then [] else r_errors r;
     r_last_failed_at := if clear then None else r_last_failed_at r;
     r_last_failure_kind := if clear then None else r_last_failure_kind r;
     r_processed_at := None |}.

Definition replay_filter (r : Replay) : RRow -> bool :=
  failed_filter (occurred_after r) (replay_failure_kind r).

Definition replay_candidates (locked : uuid -> bool) (n : Z) (r : Replay) (t : Received) : list RRow :=
  sql_limit n (sql_order_by_lex failure_order
    (List.filter (fun x : RRow => replay_filter r x && negb (locked (r_message_id x))) t)).

Definition rid_in (cs : list RRow) (r : RRow) : bool :=
  existsb (fun c : RRow => bool_decide (r_message_id c = r_message_id r)) cs.

(** [redrive_received], answering the number of rows moved. *)
Definition redrive_received (locked : uuid -> bool) (s : SqlIdentifier) (r : Replay) : rsql nat :=
  _ ← lift (table_new ReceivedKind s (replay_descriptor r));
  n ← lift (max_rows_or_error r);
  stmt (fun t =>
    let p x := rid_in (replay_candidates locked n r t) x && replay_filter r x in
    (Ok (sql_count p t), sql_update p (redriven_row (clear_history r)) t)).

(** [estimate_replay_count]. *)
Definition estimate_replay_count (s : SqlIdentifier) (r : Replay) (t : Received) : result Error nat :=
  _ ← table_new ReceivedKind s (replay_descriptor r);
  n ← max_rows_or_error r;
  Ok (length (sql_limit n (sql_order_by_lex failure_order (List.filter (replay_filter r) t)))).

(** ** The invariant *)

Definition rrow_id (r : RRow) : uuid := r_message_id r.
Definition rrow_key (r : RRow) : string := r_idempotency_key r.

Record received_inv (t : Received) : Prop := {
  ri_ids : NoDup (map rrow_id t);
  ri_keys : NoDup (map rrow_key t);
  ri_checked : forall r, r ∈ t -> check_idempotency_key (Some (rrow_key r)) = true;
}.

Lemma update_inv p f (t : Received) :
  (forall r, rmsg (f r) = rmsg r) -> received_inv t -> received_inv (sql_update p f t).
Proof.
  intros Hf [Hi Hk Hc]. split.
  - rewrite (update_column rrow_id); [done|]. intros r _ _. unfold rrow_id. by rewrite Hf.
  - rewrite (update_column rrow_key); [done|]. intros r _ _. unfold rrow_key. by rewrite Hf.
  - intros r' (r & Hr & ->)%elem_of_update. specialize (Hc r Hr).
    destruct (p r); [|done]. unfold rrow_key in *. by rewrite Hf.
Qed.

Lemma conflict_scan_spec mid k saw rs :
  conflict_scan mid k saw rs
  = if existsb (has_key k) rs then DuplicateIdempotencyKey
    else if saw || existsb (has_id mid) rs then MessageIdConflict else DuplicateIdempotencyKey.
Proof.
  revert saw. induction rs as [|r rs IH]; intros saw; simpl; [by rewrite orb_false_r|].
  destruct (has_key k r); [done|]. rewrite IH. simpl. by rewrite orb_assoc.
Qed.

Lemma existsb_sfilter {A} (p q : A -> bool) (l : list A) :
  (forall x, p x = true -> q x = true) -> existsb p (List.filter q l) = existsb p l.
Proof.
  intros H. induction l as [|a l IH]; [done|]. simpl. destruct (q a) eqn:E; simpl; [by rewrite IH|].
  destruct (p a) eqn:Ep; [by rewrite H in E|done].
Qed.

(** The classification: the stored key decides, then the message id. *)
Lemma conflict_outcome_spec mid k t :
  received_insert_conflict_outcome mid k t
  = if existsb (has_key k) t then DuplicateIdempotencyKey
    else if existsb (has_id mid) t then MessageIdConflict else DuplicateIdempotencyKey.
Proof.
  unfold received_insert_conflict_outcome. rewrite conflict_scan_spec. simpl.
  rewrite !existsb_sfilter; [done|..]; intros r ->; [done|apply orb_true_r].
Qed.

Lemma existsb_orb {A} (p q : A -> bool) (l : list A) :
  existsb (fun x => p x || q x) l = existsb p l || existsb q l.
Proof.
  induction l as [|a l IH]; [done|]. simpl. rewrite IH.
  by destruct (p a), (q a), (existsb p l).
Qed.

Lemma existsb_has_key k t : existsb (has_key k) t = true <-> k ∈ map rrow_key t.
Proof.
  rewrite existsb_exists, list_elem_of_In, in_map_iff. unfold has_key, rrow_key.
  setoid_rewrite bool_decide_eq_true. naive_solver.
Qed.

Lemma existsb_has_id mid t : existsb (has_id mid) t = true <-> mid ∈ map rrow_id t.
Proof.
  rewrite existsb_exists, list_elem_of_In, in_map_iff. unfold has_id, rrow_id.
  setoid_rewrite bool_decide_eq_true. naive_solver.
Qed.

(** A row with a new key and a new id. *)
Lemma fresh_inv m (t : Received) :
  received_inv t -> check_idempotency_key (Some (r_idempotency_key m)) = true ->
  r_idempotency_key m ∉ map rrow_key t -> r_message_id m ∉ map rrow_id t ->
  received_inv (t ++ [fresh_row m]).
Proof.
  intros [Hids Hkeys Hc] Hm Hnk Hni. split.
  - rewrite map_app. apply NoDup_app. split_and!; [done| |apply NoDup_singleton].
    intros x Hx Hx'. simpl in Hx'. apply list_elem_of_singleton in Hx' as ->. done.
  - rewrite map_app. apply NoDup_app. split_and!; [done| |apply NoDup_singleton].
    intros x Hx Hx'. simpl in Hx'. apply list_elem_of_singleton in Hx' as ->. done.
  - intros r. rewrite elem_of_app, list_elem_of_singleton. intros [?| ->]; auto.
Qed.

(** An insert adds the row or nothing, and keeps the invariant. *)
Lemma insert_statement_adds m (t : Received) :
  received_inv t ->
  received_inv (snd (insert_statement m t))
  /\ (snd (insert_statement m t) = t \/ snd (insert_statement m t) = t ++ [fresh_row m]).
Proof.
  intros Hinv. unfold insert_statement.
  destruct (check_idempotency_key _) eqn:Hkey; simpl; [|by split; [|left]].
  rewrite existsb_orb. pose proof (existsb_has_key (r_idempotency_key m) t) as Hk.
  pose proof (existsb_has_id (r_message_id m) t) as Hi.
  destruct (existsb (has_key _) t), (existsb (has_id _) t); simpl; try (by split; [|left]).
  split; [|by right]. by apply fresh_inv; [..|intros ?%Hk|intros ?%Hi].
Qed.

(** C22. Ingest deduplicates. Storing a record inserts exactly one pending row
    when neither its idempotency key nor its message id is known; a known key is
    an ordinary redelivery and a known id under an unknown key a conflict, and
    both leave the table alone. Keys and ids stay unique. *)
Theorem ingest_dedupes (m : RMsg) (t : Received) (Hinv : received_inv t)
  (Hkey : check_idempotency_key (Some (r_idempotency_key m)) = true) :
  let '(res, t') := insert_statement m t in
  received_inv t'
  /\ (res = Ok Inserted <-> r_idempotency_key m ∉ map rrow_key t /\ r_message_id m ∉ map rrow_id t)
  /\ (res = Ok DuplicateIdempotencyKey <-> r_idempotency_key m ∈ map rrow_key t)
  /\ (res = Ok MessageIdConflict <->
      r_idempotency_key m ∉ map rrow_key t /\ r_message_id m ∈ map rrow_id t)
  /\ (res = Ok Inserted -> t' = t ++ [fresh_row m]) /\ (res <> Ok Inserted -> t' = t).
Proof.
  unfold insert_statement. rewrite Hkey. simpl.
  rewrite existsb_orb, conflict_outcome_spec.
  pose proof (existsb_has_key (r_idempotency_key m) t) as Hk.
  pose proof (existsb_has_id (r_message_id m) t) as Hi.
  destruct (existsb (has_key _) t) eqn:Ek, (existsb (has_id _) t) eqn:Ei; simpl;
    split_and!; try done; try (intuition congruence).
  by apply fresh_inv; [..|intros ?%Hk|intros ?%Hi].
Qed.

(** ** Marks *)

Lemma has_id_true mid r : has_id mid r = true <-> rrow_id r = mid.
Proof. apply bool_decide_eq_true. Qed.

Lemma is_rstatus_true s r : is_rstatus s r = true <-> r_status r = s.
Proof. apply bool_decide_eq_true. Qed.

Lemma open_row_true r : open_row r = true <-> r_status r = RPending \/ r_status r = Retryable.
Proof. unfold open_row. by rewrite orb_true_iff, !is_rstatus_true. Qed.

Lemma received_mark_hit mid f t r :
  received_inv t -> r ∈ t -> rrow_id r = mid -> open_row r = true ->
  received_mark mid f t = (Updated, sql_update (has_id mid) f t).
Proof.
  intros Hinv Hr Hid Ho. unfold received_mark, sql_count.
  assert (Hone : forall r', r' ∈ t -> has_id mid r' = true -> r' = r).
  { intros r' Hr' E%has_id_true. apply (NoDup_key_inj rrow_id t); [apply (ri_ids _ Hinv)|done..|congruence]. }
  assert (Hp : List.filter (fun x => has_id mid x && open_row x) t = [r]).
  { apply Permutation_singleton_r, NoDup_Permutation; [|apply NoDup_singleton|].
    - eapply sublist_NoDup, sublist_sfilter. eapply NoDup_fmap_1, (ri_ids _ Hinv).
    - intros r'. rewrite elem_of_sfilter, list_elem_of_singleton, andb_true_iff. split.
      + intros (? & ? & _). auto.
      + intros ->. split; [done|]. split; [by apply has_id_true|done]. }
  rewrite Hp. simpl. f_equal. unfold sql_update. apply map_ext_in. intros r' Hr'%list_elem_of_In.
  destruct (has_id mid r') eqn:E; [|done]. rewrite (Hone r' Hr' E), Ho. done.
Qed.

Lemma received_mark_closed mid f t r :
  received_inv t -> r ∈ t -> rrow_id r = mid -> open_row r = false ->
  received_mark mid f t = (StaleClaim, t).
Proof.
  intros Hinv Hr Hid Ho. unfold received_mark, sql_count.
  assert (Hno : forall r', r' ∈ t -> has_id mid r' && open_row r' = false).
  { intros r' Hr'. destruct (has_id mid r') eqn:E; [|done]. apply has_id_true in E.
    rewrite (NoDup_key_inj rrow_id t r' r (ri_ids _ Hinv) Hr' Hr); [done|congruence]. }
  assert (List.filter (fun x => has_id mid x && open_row x) t = []) as ->.
  { destruct (List.filter _ t) as [|x l] eqn:E; [done|].
    assert (Hx : x ∈ List.filter (fun x => has_id mid x && open_row x) t) by (rewrite E; left).
    apply elem_of_sfilter in Hx as [Hx Hc]. by rewrite Hno in Hc. }
  simpl. rewrite update_id by done. f_equal. unfold received_mark_miss.
  rewrite (proj2 (existsb_has_id mid t)); [done|].
  rewrite <- Hid. apply list_elem_of_In, in_map_iff. exists r. by rewrite <- list_elem_of_In.
Qed.

Lemma newest_spec limit es e :
  1 <= limit ->
  exists kept, newest limit (es ++ [e]) = kept ++ [e] /\ kept `suffix_of` es
    /\ Z.of_nat (length (kept ++ [e])) = Z.min limit (Z.of_nat (length es) + 1).
Proof.
  intros Hl. unfold newest. rewrite length_app. simpl.
  rewrite drop_app_le by lia. eexists. split; [done|]. split.
  - eexists. symmetry. apply take_drop.
  - rewrite length_app, length_drop. simpl. lia.
Qed.

(** The counter of an open row below the limit of [INTEGER] can be written. *)
Lemma attempts_writable t r :
  received_inv t -> r ∈ t -> (open_row r = true -> r_attempts r < i32_max) ->
  existsb (fun x => has_id (rrow_id r) x && open_row x && (i32_max <=? r_attempts x)) t = false.
Proof.
  intros Hinv Hr Ha. apply not_true_iff_false. intros (x & Hx%list_elem_of_In & Hc)%existsb_exists.
  rewrite !andb_true_iff in Hc. destruct Hc as ((Hid%has_id_true & Hox) & Hmax%Z.leb_le).
  rewrite (NoDup_key_inj rrow_id t x r (ri_ids _ Hinv) Hx Hr Hid) in *. specialize (Ha Hox). lia.
Qed.

Lemma record_failure_hit p wait t r d message at_ :
  received_inv t -> r ∈ t -> open_row r = true -> r_attempts r < i32_max ->
  record_received_failure p wait (failure_record_of r d message at_) t
  = (Ok Updated, sql_update (has_id (rrow_id r))
       (failed_row (received_failure_schedule p wait (r_attempts r) at_ d)
                   (received_error_new (fd_kind d) message at_ (Some (fd_stage d)))) t).
Proof.
  intros Hinv Hr Ho Ha. unfold record_received_failure, failure_record_of.
  cbn [fr_message_id fr_disposition fr_message fr_occurred_at fr_current_attempts].
  change (r_message_id r) with (rrow_id r). rewrite (attempts_writable t r) by done.
  by rewrite (received_mark_hit _ _ t r).
Qed.

Lemma record_failure_closed p wait t r d message at_ :
  received_inv t -> r ∈ t -> open_row r = false ->
  record_received_failure p wait (failure_record_of r d message at_) t = (Ok StaleClaim, t).
Proof.
  intros Hinv Hr Ho. unfold record_received_failure, failure_record_of.
  cbn [fr_message_id fr_disposition fr_message fr_occurred_at fr_current_attempts].
  change (r_message_id r) with (rrow_id r).
  rewrite (attempts_writable t r) by (done || by rewrite Ho).
  by rewrite (received_mark_closed _ _ t r).
Qed.

Lemma exhausted_iff p wait attempts at_ d :
  0 <= attempts < i32_max -> fd_terminal d = false ->
  exhausted (received_failure_schedule p wait attempts at_ d) = true <-> max_attempts p <= attempts + 1.
Proof.
  intros Ha Hd. unfold received_failure_schedule, received_retry_outcome, clamp_attempts, u32_saturating_add.
  cbn [exhausted snd]. rewrite Hd, orb_false_l. destruct (Z.ltb_spec attempts 0); [lia|].
  rewrite Z.min_l by (unfold i32_max, u32_max in *; lia). by rewrite Z.leb_le.
Qed.

(** The row of an id after an update of that id. *)
Lemma elem_of_update_id mid f (t : Received) r' :
  (forall r, rmsg (f r) = rmsg r) ->
  r' ∈ List.filter (has_id mid) (sql_update (has_id mid) f t) <->
  exists r, r ∈ t /\ rrow_id r = mid /\ r' = f r.
Proof.
  intros Hf. rewrite elem_of_sfilter, elem_of_update, has_id_true. split.
  - intros [(r & Hr & ->) Hid]. destruct (has_id mid r) eqn:E; [apply has_id_true in E; eauto|].
    by apply has_id_true in Hid; rewrite Hid in E.
  - intros (r & Hr & Hid & ->). split.
    + exists r. by rewrite (proj2 (has_id_true mid r) Hid).
    + unfold rrow_id. by rewrite Hf.
Qed.

(** Recording a failure. An open row moves to [Failed] without a due time
    when its budget is spent or the failure is terminal, and to [Retryable] with
    a due time otherwise; the attempt is counted; the stored history keeps the
    newest [errors_limit] entries with the new one last; the columns the
    dead-letter queries read name this failure; and no other row is touched. *)
Theorem record_failure_spec (p : RetryPolicy) (wait : Z -> interval) (t : Received) (r : RRow)
  (d : FailureDisposition) (message : string) (at_ : instant)
  (Hinv : received_inv t) (Hr : r ∈ t) (Ho : open_row r = true) (Ha : r_attempts r < i32_max) :
  let s := received_failure_schedule p wait (r_attempts r) at_ d in
  let e := received_error_new (fd_kind d) message at_ (Some (fd_stage d)) in
  record_received_failure p wait (failure_record_of r d message at_) t
  = (Ok Updated, sql_update (has_id (rrow_id r)) (failed_row s e) t)
  /\ (r_status (failed_row s e r) = if exhausted s then Failed else Retryable)
  /\ (r_next_attempt_at (failed_row s e r) = None <-> exhausted s = true)
  /\ r_attempts (failed_row s e r) = r_attempts r + 1
  /\ r_last_failure_kind (failed_row s e r) = Some (fd_kind d)
  /\ (exists kept, r_errors (failed_row s e r) = kept ++ [e] /\ kept `suffix_of` r_errors r
      /\ Z.of_nat (length (kept ++ [e]))
         = Z.min (Z.max (errors_limit p) 1) (Z.of_nat (length (r_errors r)) + 1)).
Proof.
  intros s e. split_and!; try done.
  - by apply record_failure_hit.
  - cbn [r_next_attempt_at failed_row]. destruct (exhausted s) eqn:E; [done|].
    unfold s, received_failure_schedule in E |- *. cbn [exhausted sched_next_attempt_at] in *.
    by rewrite E.
  - apply newest_spec. lia.
Qed.

(** The retry loop ends: a row that keeps failing for reasons that are not
    terminal is parked as [Failed] by the failure that uses up its budget, and
    not before; once parked, neither a success nor a failure mark touches it. *)
Theorem failures_park_row (p : RetryPolicy) (wait : Z -> interval) (t : Received) (r : RRow)
  (d : FailureDisposition) (message : string) (at_ : instant)
  (Hinv : received_inv t) (Hr : r ∈ t) (Ha : 0 <= r_attempts r < i32_max)
  (Hd : fd_terminal d = false) :
  (open_row r = true ->
   (Failed ∈ (r_status <$> List.filter (has_id (rrow_id r))
       (snd (record_received_failure p wait (failure_record_of r d message at_) t)))
    <-> max_attempts p <= r_attempts r + 1))
  /\ (r_status r = Failed ->
      record_received_failure p wait (failure_record_of r d message at_) t = (Ok StaleClaim, t)
      /\ mark_received_processed (rrow_id r) at_ t = (Ok StaleClaim, t)).
Proof.
  split.
  - intros Ho. rewrite (record_failure_hit p wait t r d message at_ Hinv Hr Ho (proj2 Ha)). cbn [snd].
    rewrite <- (exhausted_iff p wait (r_attempts r) at_ d Ha Hd), list_elem_of_fmap.
    setoid_rewrite elem_of_update_id; [|done]. split.
    + intros (x & Hs & x0 & Hx0 & Hid & ->). cbn [r_status failed_row] in Hs.
      revert Hs. by destruct (exhausted _).
    + intros E. eexists. split; [|by exists r]. cbn [r_status failed_row]. by rewrite E.
  - intros Hs. assert (Ho : open_row r = false).
    { apply not_true_iff_false. rewrite open_row_true, Hs. by intros [?|?]. }
    rewrite record_failure_closed by done. unfold mark_received_processed.
    by rewrite (received_mark_closed _ _ t r).
Qed.

(** ** Claims *)

Lemma received_row_decodes r :
  check_idempotency_key (Some (rrow_key r)) = true ->
  exists o, received_row_from_pg r = Ok o /\ row_db o = r /\ row_status o = r_status r.
Proof.
  intros H. destruct (checked_key_decodes _ H) as [bs E]. unfold received_row_from_pg.
  unfold rrow_key in E. rewrite E. unfold receive_status_from_str. rewrite enum_find_str. simpl. by eexists.
Qed.

Lemma due_open at_ r : due at_ r = true -> open_row r = true.
Proof.
  unfold due, open_row. intros [[? _]%andb_true_iff|[? _]%andb_true_iff]%orb_true_iff;
    apply orb_true_iff; auto.
Qed.

(** What a claim answers, on a table that keeps the invariant. *)
Lemma claim_received_cases locked at_ t :
  received_inv t ->
  (claim_received_row locked at_ t = Ok None
   /\ forall r, r ∈ t -> due at_ r = true -> locked (rrow_id r) = true)
  \/ (exists o, claim_received_row locked at_ t = Ok (Some o)
      /\ row_db o ∈ t /\ due at_ (row_db o) = true /\ locked (rrow_id (row_db o)) = false
      /\ row_status o = r_status (row_db o)
      /\ forall r, r ∈ t -> due at_ r = true -> locked (rrow_id r) = false ->
           r_created_at (row_db o) <= r_created_at r).
Proof.
  intros Hinv. unfold claim_received_row.
  assert (Hel : forall r, r ∈ due_rows locked at_ t <->
            r ∈ t /\ due at_ r = true /\ locked (rrow_id r) = false).
  { intros r. unfold due_rows. by rewrite elem_of_order_by, elem_of_sfilter, andb_true_iff, negb_true_iff. }
  pose proof (order_by_sorted row_age
    (List.filter (fun r : RRow => due at_ r && negb (locked (r_message_id r))) t)) as Hs.
  fold (due_rows locked at_ t) in Hs.
  destruct (due_rows locked at_ t) as [|r0 rest].
  - left. split; [done|]. intros r Hr Hd. destruct (locked (rrow_id r)) eqn:E; [done|].
    exfalso. assert (Hn : r ∈ @nil RRow) by (apply Hel; auto). by apply elem_of_nil in Hn.
  - right. destruct (proj1 (Hel r0)) as (Hr & Hd & Hl); [by left|].
    destruct (received_row_decodes r0 (ri_checked _ Hinv r0 Hr)) as (o & -> & <- & Hst).
    exists o. split_and!; try done. intros r Hr' Hd' Hl'.
    apply StronglySorted_inv in Hs as [_ Hall]. rewrite Forall_forall in Hall.
    assert (Hin : r ∈ row_db o :: rest) by (apply Hel; auto).
    apply elem_of_cons in Hin as [->|Hin]; [done|]. exact (Hall r Hin).
Qed.

(** A dispatcher claims the oldest due row that no other worker holds, and
    only a row that is still open: never one that is processed or parked. It
    comes back empty only when every due row is held elsewhere. *)
Theorem claim_oldest_due (locked : uuid -> bool) (at_ : instant) (t : Received)
  (Hinv : received_inv t) :
  match claim_received_row locked at_ t with
  | Ok (Some o) =>
      row_db o ∈ t /\ (r_status (row_db o) = RPending \/ r_status (row_db o) = Retryable)
      /\ locked (rrow_id (row_db o)) = false
      /\ forall r, r ∈ t -> due at_ r = true -> locked (rrow_id r) = false ->
           r_created_at (row_db o) <= r_created_at r
  | Ok None => forall r, r ∈ t -> due at_ r = true -> locked (rrow_id r) = true
  | Err _ => False
  end.
Proof.
  destruct (claim_received_cases locked at_ t Hinv) as [[-> H]|(o & -> & Hr & Hd & Hl & _ & Hmin)]; [done|].
  split_and!; [done| |done..]. by apply open_row_true, (due_open at_).
Qed.

(** ** Redrive *)

Lemma replay_candidate_spec locked n r t c :
  c ∈ replay_candidates locked n r t -> c ∈ t /\ replay_filter r c = true /\ locked (rrow_id c) = false.
Proof.
  unfold replay_candidates. intros H%elem_of_limit%elem_of_order_by_lex%elem_of_sfilter.
  destruct H as [? H]. apply andb_true_iff in H as [? H%negb_true_iff]. done.
Qed.

(** What a redrive that succeeded did to the table. *)
Lemma redrive_moves (locked : uuid -> bool) (s : SqlIdentifier) (r : Replay) (t t' : Received)
  (n : nat) (Hinv : received_inv t) (Hr : redrive_received locked s r t = (Ok n, t')) :
  exists bound, max_rows r = Some bound /\ 0 < bound /\ Z.of_nat n <= bound
  /\ received_inv t'
  /\ exists moved, moved ≡ₚ replay_candidates locked bound r t /\ length moved = n
     /\ t' = sql_update (fun x => rid_in moved x) (redriven_row (clear_history r)) t
     /\ (forall x, x ∈ moved -> r_status x = Failed /\ locked (rrow_id x) = false)
     /\ (forall x y, x ∈ moved -> y ∈ t -> replay_filter r y = true -> locked (rrow_id y) = false ->
           y ∉ moved -> lex_le failure_order x y).
Proof.
  revert Hr. unfold redrive_received, mbind, eff_bind, lift, stmt, max_rows_or_error.
  destruct (table_new ReceivedKind s (replay_descriptor r)) as [tb|]; [|done].
  destruct (max_rows r) as [bound|]; [|done].
  destruct (Z.ltb_spec 0 bound) as [Hb|]; [|done].
  set (cs := replay_candidates locked bound r t). intros [= <- <-].
  assert (Hsub : forall c, c ∈ cs -> c ∈ t /\ replay_filter r c = true /\ locked (rrow_id c) = false)
    by (intros c; apply replay_candidate_spec).
  assert (Hin : forall x, x ∈ t -> rid_in cs x = true <-> x ∈ cs)
    by (intros x Hx; apply (key_in_spec rrow_id t); [apply (ri_ids _ Hinv)|done|intros c Hc; apply Hsub, Hc]).
  assert (Hp : forall x, x ∈ t -> rid_in cs x && replay_filter r x = rid_in cs x).
  { intros x Hx. destruct (rid_in cs x) eqn:E; [|done]. apply Hin in E; [|done]. apply Hsub, E. }
  assert (Hperm : List.filter (rid_in cs) t ≡ₚ cs).
  { apply (key_in_filter rrow_id); [apply (ri_ids _ Hinv)| |intros c Hc; apply Hsub, Hc].
    apply NoDup_selected. eapply NoDup_fmap_1, (ri_ids _ Hinv). }
  assert (Hcount : sql_count (fun x => rid_in cs x && replay_filter r x) t = length cs).
  { unfold sql_count. rewrite (filter_ext_in _ (rid_in cs)); [by apply Permutation_length|].
    intros x Hx%list_elem_of_In. auto. }
  exists bound. split_and!; [done|done| |by apply update_inv|].
  - rewrite Hcount. unfold cs, replay_candidates, sql_limit. rewrite length_take. lia.
  - exists cs. split_and!; [done|done| | |].
    + unfold sql_update. apply map_ext_in. intros x Hx%list_elem_of_In. by rewrite Hp.
    + intros x Hx. destruct (Hsub x Hx) as (_ & Hf & Hl). split; [|done].
      unfold replay_filter, failed_filter in Hf. rewrite !andb_true_iff in Hf.
      by destruct Hf as ((Hf%is_rstatus_true & _) & _).
    + intros x y Hx Hy Hf Hl Hny. unfold cs, replay_candidates, sql_limit in *.
      eapply sorted_take_prefix; [apply order_by_lex_sorted|exact Hx|].
      assert (Hy' : y ∈ sql_order_by_lex failure_order (List.filter (fun x : RRow =>
                replay_filter r x && negb (locked (r_message_id x))) t)).
      { apply elem_of_order_by_lex, elem_of_sfilter. unfold rrow_id in Hl. by rewrite Hf, Hl. }
      rewrite <- (take_drop (Z.to_nat bound)) in Hy'. apply elem_of_app in Hy' as [?|?]; done.
Qed.

(** A redrive is bounded, targeted and safe for convergence. It refuses to
    run without a positive bound; it reports exactly the rows it moved, at most
    the bound; each of them was parked, matched the filter and was not held by
    another transaction, and it takes the oldest failures first; it becomes
    pending with its message, source offset included, untouched, keeping its
    attempts and history unless asked to clear them; no other row changes. *)
Theorem redrive_spec (locked : uuid -> bool) (s : SqlIdentifier) (r : Replay) (t t' : Received)
  (n : nat) (Hinv : received_inv t) (Hr : redrive_received locked s r t = (Ok n, t')) :
  exists bound, max_rows r = Some bound /\ 0 < bound /\ Z.of_nat n <= bound
  /\ received_inv t'
  /\ exists moved, moved ≡ₚ replay_candidates locked bound r t /\ length moved = n
     /\ t' = sql_update (fun x => rid_in moved x) (redriven_row (clear_history r)) t
     /\ (forall x, x ∈ moved -> r_status x = Failed /\ locked (rrow_id x) = false)
     /\ (forall x y, x ∈ moved -> y ∈ t -> replay_filter r y = true -> locked (rrow_id y) = false ->
           y ∉ moved -> lex_le failure_order x y).
Proof. exact (redrive_moves locked s r t t' n Hinv Hr). Qed.

(** ** The model evaluated *)

Module RSample.
Definition hex (b : Z) : string := to_hex (repeat b 32).

Definition msg (mid : uuid) (b offset : Z) : RMsg :=
  {| r_message_id := mid; r_idempotency_key := hex b; r_idempotency_source := None;
     r_source_topic := "dev.orders"; r_source_partition := 0; r_source_offset := offset;
     r_key := Some "o1"; r_entity_key := Some "o1"; r_message_type := "order_placed";
     r_message_version := 1; r_headers := ∅; r_payload := "v"; r_correlation_id := Some 7%N;
     r_causation_id := None; r_traceparent := None; r_tracestate := None; r_occurred_at := 0;
     r_created_at := offset |}.

(** A pending row, a row parked by its tenth failure, and a second parked row. *)
Definition parked (mid : uuid) (b offset at_ : Z) : RRow :=
  {| rmsg := msg mid b offset; r_status := Failed; r_attempts := 10; r_next_attempt_at := None;
     r_errors := [received_error_new KHandler "boom" at_ (Some SHandler)];
     r_last_failed_at := Some at_; r_last_failure_kind := Some KHandler; r_processed_at := None |}.
Definition t : Received := [fresh_row (msg 1 10 3); parked 2 11 4 50; parked 3 12 5 40].

Lemma t_inv : received_inv t.
Proof.
  split; [by apply (bool_decide_unpack _); vm_compute|by apply (bool_decide_unpack _); vm_compute|].
  apply Forall_forall. repeat constructor.
Qed.

Definition unlocked : uuid -> bool := fun _ => false.
Definition failing : FailureDisposition :=
  {| fd_kind := KHandler; fd_stage := SHandler; fd_terminal := false |}.
Definition descriptor : MessageDescriptor :=
  {| message_type := "order_placed"; desc_topic := "dev.orders"; topic_spec := compacted |}.
Definition redrive_one : Replay :=
  {| replay_version := 0; replay_descriptor := descriptor; occurred_after := None;
     max_rows := Some 1; replay_contexts := []; replay_failure_kind := Some KHandler;
     clear_history := false |}.
End RSample.

Lemma ingest_dedupes_witness :
  fst (insert_statement (RSample.msg 9 11 8) RSample.t) = Ok DuplicateIdempotencyKey
  /\ fst (insert_statement (RSample.msg 2 99 8) RSample.t) = Ok MessageIdConflict
  /\ received_inv (snd (insert_statement (RSample.msg 9 99 8) RSample.t)).
Proof.
  split; [vm_compute; reflexivity|]. split; [vm_compute; reflexivity|].
  pose proof (ingest_dedupes (RSample.msg 9 99 8) RSample.t RSample.t_inv
                ltac:(vm_compute; reflexivity)) as H.
  destruct (insert_statement (RSample.msg 9 99 8) RSample.t) as [res t']. apply H.
Defined.

Lemma record_failure_spec_witness :
  exists t', record_received_failure retry_default (fun _ => 5)
    (failure_record_of (fresh_row (RSample.msg 1 10 3)) RSample.failing "boom" 20) RSample.t
  = (Ok Updated, t').
Proof.
  eexists. apply (record_failure_spec retry_default (fun _ => 5) RSample.t
    (fresh_row (RSample.msg 1 10 3)) RSample.failing "boom" 20 RSample.t_inv);
    [left|reflexivity|reflexivity].
Defined.

Lemma failures_park_row_witness :
  mark_received_processed 2 60 RSample.t = (Ok StaleClaim, RSample.t).
Proof.
  apply (failures_park_row retry_default (fun _ => 5) RSample.t (RSample.parked 2 11 4 50)
    RSample.failing "boom" 60 RSample.t_inv); [right; left|split; reflexivity || (vm_compute; congruence)|reflexivity|reflexivity].
Defined.

Lemma claim_oldest_due_witness :
  exists o, claim_received_row RSample.unlocked 60 RSample.t = Ok (Some o)
  /\ rrow_id (row_db o) = 1%N /\ row_db o ∈ RSample.t.
Proof.
  pose proof (claim_oldest_due RSample.unlocked 60 RSample.t RSample.t_inv) as H.
  destruct (claim_received_row RSample.unlocked 60 RSample.t) as [[o|]|] eqn:E;
    [|vm_compute in E; discriminate..].
  exists o. split; [reflexivity|]. split; [vm_compute in E; by injection E as <-|apply H].
Defined.

Lemma redrive_spec_witness :
  exists t', redrive_received RSample.unlocked "app" RSample.redrive_one RSample.t = (Ok 1%nat, t')
  /\ map r_status t' = [RPending; Failed; RPending] /\ received_inv t'.
Proof.
  destruct (redrive_received RSample.unlocked "app" RSample.redrive_one RSample.t) as [res t'] eqn:E.
  exists t'. assert (res = Ok 1%nat /\ map r_status t' = [RPending; Failed; RPending]) as [-> Hs]
    by (vm_compute in E; by injection E as <- <-).
  split; [reflexivity|]. split; [exact Hs|].
  destruct (redrive_spec RSample.unlocked "app" RSample.redrive_one RSample.t t' 1 RSample.t_inv E)
    as (_ & _ & _ & _ & H & _). exact H.
Defined.
