(* ===== verification/Cache.v ===== *)
(** * Cache: the converged state of every entity

    Models [src/crates/kafkaman-sqlx/src/dispatch_cache.rs]: the guarded upsert
    of a received row into the cache table of its message type, the
    classification of an upsert that wrote nothing, and the adoption of a new
    origin. *)

From S2P Require Import Prelude Text Vocabulary Topics Registry Retry Outbox Received.
Open Scope string_scope.
Open Scope list_scope.
Open Scope Z_scope.

(** ** The table *)

Record CacheRow := {
  c_payload : json;
  applied_topic : string;
  applied_partition : Z;
  applied_offset : Z;
  c_deleted : bool;
  c_updated_at : instant;
}.

(** Keyed by [entity_key]. *)
Abbreviation Cache := (gmap string CacheRow).

Inductive CacheApplyOutcome := Applied | Ignored | Migrated.
#[global] Instance CacheApplyOutcome_eq_dec : EqDecision CacheApplyOutcome.
Proof. solve_decision. Defined.

(** ** The entity of a received row *)

(** Well-formed UTF-8, as [String::from_utf8] decides it. *)
Definition utf8_cont (c : ascii) : bool := byte_in 128 191 c.

Fixpoint utf8_valid (s : string) : bool :=
  match s with
  | EmptyString => true
  | String a s1 =>
      if byte_in 0 127 a then utf8_valid s1
      else match s1 with
      | EmptyString => false
      | String b s2 =>
          if byte_in 194 223 a then utf8_cont b && utf8_valid s2
          else match s2 with
          | EmptyString => false
          | String c s3 =>
              if byte_in 224 239 a then
                (if byte_in 224 224 a then byte_in 160 191 b
                 else if byte_in 237 237 a then byte_in 128 159 b else utf8_cont b)
                && utf8_cont c && utf8_valid s3
              else match s3 with
              | EmptyString => false
              | String d s4 =>
                  byte_in 240 244 a
                  && (if byte_in 240 240 a then byte_in 144 191 b
                      else if byte_in 244 244 a then byte_in 128 143 b else utf8_cont b)
                  && utf8_cont c && utf8_cont d && utf8_valid s4
              end
          end
      end
  end.

Definition received_entity_key (row : RRow) : result Error string :=
  match r_entity_key row with
  | Some k => Ok k
  | None =>
      match r_key row with
      | Some bytes => if utf8_valid bytes then Ok bytes
                      else Err (EInvalidEntityKey (r_message_type row))
      | None => Err (EMissingEntityKey (r_message_id row) (r_message_type row))
      end
  end.

(** ** The upsert *)

Definition cache_row_of (now : instant) (deleted : bool) (row : RRow) : CacheRow :=
  {| c_payload := r_payload row; applied_topic := r_source_topic row;
     applied_partition := r_source_partition row; applied_offset := r_source_offset row;
     c_deleted := deleted; c_updated_at := now |}.

Definition same_origin (c : CacheRow) (row : RRow) : bool :=
  bool_decide (applied_topic c = r_source_topic row)
  && bool_decide (applied_partition c = r_source_partition row).

(** [INSERT .. ON CONFLICT (entity_key) DO UPDATE .. WHERE ..]: whether a row was
    written. The update leaves [deleted] as it is. *)
Definition upsert_statement (now : instant) (ek : string) (row : RRow) (c : Cache) : bool * Cache :=
  match c !! ek with
  | None => (true, <[ek := cache_row_of now false row]> c)
  | Some cur =>
      if same_origin cur row && (applied_offset cur <? r_source_offset row)
      then (true, <[ek := cache_row_of now (c_deleted cur) row]> c)
      else (false, c)
  end.

Section apply.
(** Other dispatchers may write between the unlocked read that classifies a
    skipped upsert and the locked read of a migration. *)
Context (meanwhile : Cache -> Cache).

Definition migrate_cache_origin (now : instant) (ek : string) (row : RRow)
  : eff Error Cache CacheApplyOutcome := fun c =>
  match c !! ek with
  | None => (Ok Ignored, c)
  | Some locked =>
      if same_origin locked row && (r_source_offset row <=? applied_offset locked)
      then (Ok Ignored, c)
      else (Ok (if same_origin locked row then Applied else Migrated),
            <[ek := cache_row_of now false row]> c)
  end.

Definition classify_skipped_cache_apply (now : instant) (ek : string) (row : RRow)
  (declared : string) : eff Error Cache CacheApplyOutcome := fun c =>
  match c !! ek with
  | None => (Ok Ignored, c)
  | Some cur =>
      let mismatch := ECacheOriginMismatch ek (applied_topic cur) (applied_partition cur)
                        (r_source_topic row) (r_source_partition row) in
      if same_origin cur row then (Ok Ignored, c)
      else if bool_decide (applied_topic cur = r_source_topic row) then (Err mismatch, c)
      else if bool_decide (r_source_topic row = declared)
      then migrate_cache_origin now ek row (meanwhile c)
      else if bool_decide (applied_topic cur = declared) then (Ok Ignored, c)
      else (Err mismatch, c)
  end.

(** [upsert_cache_from_received]; [s] and [d] are the schema and descriptor of
    the received table. *)
Definition upsert_cache_from_received (now : instant) (s : SqlIdentifier) (d : MessageDescriptor)
  (row : RRow) : eff Error Cache CacheApplyOutcome :=
  _ ← lift (table_new CacheKind s d);
  ek ← lift (received_entity_key row);
  stmt (fun c =>
    match upsert_statement now ek row c with
    | (true, c') => (Ok Applied, c')
    | (false, c') => classify_skipped_cache_apply now ek row (desc_topic d) c'
    end).
End apply.

(** ** What one apply does *)

(** Nobody interferes. *)
Definition alone : Cache -> Cache := id.

Lemma same_origin_true c (row : RRow) :
  same_origin c row = true <->
  applied_topic c = r_source_topic row /\ applied_partition c = r_source_partition row.
Proof. unfold same_origin. by rewrite andb_true_iff, !bool_decide_eq_true. Qed.

Lemma same_origin_topic c (row : RRow) :
  applied_topic c <> r_source_topic row -> same_origin c row = false.
Proof. intros H. apply not_true_iff_false. rewrite same_origin_true. naive_solver. Qed.

(** The apply once the entity and the table are known. *)
Definition apply_row (now : instant) (declared ek : string) (row : RRow) (c : Cache)
  : result Error CacheApplyOutcome * Cache :=
  match upsert_statement now ek row c with
  | (true, c') => (Ok Applied, c')
  | (false, c') => classify_skipped_cache_apply alone now ek row declared c'
  end.

Lemma upsert_unfold now s d (row : RRow) c tb ek :
  table_new CacheKind s d = Ok tb -> received_entity_key row = Ok ek ->
  upsert_cache_from_received alone now s d row c = apply_row now (desc_topic d) ek row c.
Proof. intros Ht He. unfold upsert_cache_from_received, mbind, eff_bind, lift. by rewrite Ht, He. Qed.

(** The decision table of an apply, by the cached origin of the entity. *)
Lemma apply_row_cases now declared ek (row : RRow) c :
  apply_row now declared ek row c =
  match c !! ek with
  | None => (Ok Applied, <[ek := cache_row_of now false row]> c)
  | Some cur =>
      if bool_decide (applied_topic cur = r_source_topic row) then
        if bool_decide (applied_partition cur = r_source_partition row) then
          if applied_offset cur <? r_source_offset row
          then (Ok Applied, <[ek := cache_row_of now (c_deleted cur) row]> c)
          else (Ok Ignored, c)
        else (Err (ECacheOriginMismatch ek (applied_topic cur) (applied_partition cur)
                     (r_source_topic row) (r_source_partition row)), c)
      else if bool_decide (r_source_topic row = declared)
           then (Ok Migrated, <[ek := cache_row_of now false row]> c)
           else if bool_decide (applied_topic cur = declared) then (Ok Ignored, c)
           else (Err (ECacheOriginMismatch ek (applied_topic cur) (applied_partition cur)
                        (r_source_topic row) (r_source_partition row)), c)
  end.
Proof.
  unfold apply_row, upsert_statement. destruct (c !! ek) as [cur|] eqn:E; [|done].
  unfold classify_skipped_cache_apply, migrate_cache_origin, same_origin, alone, id.
  case_bool_decide as Ht; simpl.
  - case_bool_decide as Hp; simpl.
    + destruct (applied_offset cur <? r_source_offset row); [done|].
      rewrite E, bool_decide_true, bool_decide_true by done. done.
    + rewrite E, bool_decide_true, bool_decide_false by done. done.
  - rewrite E, bool_decide_false by done. simpl. rewrite ?bool_decide_false by done.
    case_bool_decide; done.
Qed.

(** ** Convergence *)

Section converge.
Context (s : SqlIdentifier) (d : MessageDescriptor).

(** The applies of a history of deliveries, each at its own time; a failed
    apply leaves the cache alone. *)
Definition apply_all (ds : list (instant * RRow)) (c : Cache) : Cache :=
  foldl (fun c x => snd (upsert_cache_from_received alone x.1 s d x.2 c)) c ds.

(** A snapshot of the entity on the topic its type declares. *)
Definition declared_of (ek : string) (r : RRow) : Prop :=
  received_entity_key r = Ok ek /\ r_source_topic r = desc_topic d.

Definition reflects (cur : CacheRow) (w : RRow) : Prop :=
  applied_topic cur = r_source_topic w /\ applied_partition cur = r_source_partition w
  /\ applied_offset cur = r_source_offset w /\ c_payload cur = r_payload w.

(** After a history the entity reflects its newest declared snapshot, and
    before the first one nothing on the declared topic. *)
Definition converged (ek : string) (ds : list (instant * RRow)) (c : Cache) : Prop :=
  match c !! ek with
  | None => forall x, x ∈ ds -> ~ declared_of ek x.2
  | Some cur =>
      (applied_topic cur <> desc_topic d /\ forall x, x ∈ ds -> ~ declared_of ek x.2)
      \/ (applied_topic cur = desc_topic d /\ exists w, w ∈ ds /\ declared_of ek w.2
          /\ reflects cur w.2
          /\ forall x, x ∈ ds -> declared_of ek x.2 -> r_source_offset x.2 <= r_source_offset w.2)
  end.

(** An apply writes only the entity of its row. *)
Lemma apply_other meanwhile now row c ek :
  (forall c, meanwhile c !! ek = c !! ek) -> received_entity_key row <> Ok ek ->
  snd (upsert_cache_from_received meanwhile now s d row c) !! ek = c !! ek.
Proof.
  intros Hm Hne. unfold upsert_cache_from_received, mbind, eff_bind, lift, stmt.
  destruct (table_new CacheKind s d); [|done].
  destruct (received_entity_key row) as [ek'|]; [|done].
  assert (Hk : ek' <> ek) by congruence. unfold upsert_statement.
  assert (Hcl : snd (classify_skipped_cache_apply meanwhile now ek' row (desc_topic d) c) !! ek = c !! ek).
  { unfold classify_skipped_cache_apply. destruct (c !! ek') as [cur|]; [|done].
    destruct (same_origin cur row); [done|]. case_bool_decide; [done|]. case_bool_decide.
    - unfold migrate_cache_origin. destruct (meanwhile c !! ek') as [l|]; [|apply Hm].
      destruct (same_origin l row && (r_source_offset row <=? applied_offset l)); cbn [snd];
        [apply Hm|]. rewrite lookup_insert_ne by done. apply Hm.
    - by case_bool_decide. }
  destruct (c !! ek') as [cur|]; [|simpl; by rewrite lookup_insert_ne].
  destruct (same_origin cur row && (applied_offset cur <? r_source_offset row)); [|exact Hcl].
  simpl. by rewrite lookup_insert_ne.
Qed.

Lemma entity_cases (row : RRow) ek : received_entity_key row = Ok ek \/ received_entity_key row <> Ok ek.
Proof.
  destruct (received_entity_key row) as [k|]; [|by right].
  destruct (decide (k = ek)) as [->|]; [by left|right; congruence].
Qed.

(** A delivery that is not a declared snapshot of the entity, or is no newer
    than one already there, keeps the entity converged if it leaves it alone. *)
Lemma converged_keep ek ds x c c' :
  c' !! ek = c !! ek -> converged ek ds c ->
  (declared_of ek x.2 -> exists w, w ∈ ds /\ declared_of ek w.2
                                /\ exists cur, c !! ek = Some cur
                                /\ r_source_offset x.2 <= applied_offset cur) ->
  converged ek (ds ++ [x]) c'.
Proof.
  intros Hc' Hc Hx. unfold converged in *. rewrite Hc'.
  assert (Hsnoc : forall y, y ∈ ds ++ [x] <-> y ∈ ds \/ y = x)
    by (intros y; by rewrite elem_of_app, list_elem_of_singleton).
  assert (Hno : (forall y, y ∈ ds -> ~ declared_of ek y.2) -> forall y, y ∈ ds ++ [x] -> ~ declared_of ek y.2).
  { intros Hno y [?| ->]%Hsnoc; [auto|]. intros Hd. destruct (Hx Hd) as (w & Hw & Hdw & _). by apply (Hno w). }
  destruct (c !! ek) as [cur|]; [|auto].
  destruct Hc as [[? ?]|(? & w & Hw & Hdw & Hr & Hmax)]; [left; auto|right].
  split; [done|]. exists w. split_and!; [apply Hsnoc; auto|done..|].
  intros y [?| ->]%Hsnoc Hd; [auto|]. destruct (Hx Hd) as (_ & _ & _ & cur' & [= <-] & Hle).
  destruct Hr as (_ & _ & Hoff & _). lia.
Qed.

(** Writing a declared snapshot at least as new as all before it. *)
Lemma converged_write ek ds now (row : RRow) b c :
  declared_of ek row ->
  (forall x, x ∈ ds -> declared_of ek x.2 -> r_source_offset x.2 <= r_source_offset row) ->
  converged ek (ds ++ [(now, row)]) (<[ek := cache_row_of now b row]> c).
Proof.
  intros Hd Hmax. unfold converged. rewrite lookup_insert. case_decide; [|done].
  right. split; [apply Hd|]. exists (now, row).
  assert (Hsnoc : forall y : instant * RRow, y ∈ ds ++ [(now, row)] <-> y ∈ ds \/ y = (now, row))
    by (intros y; by rewrite elem_of_app, list_elem_of_singleton).
  split_and!; [apply Hsnoc; auto|done|done|]. intros y [?| ->]%Hsnoc ?; [auto|simpl; lia].
Qed.

(** Writing a snapshot from elsewhere, before any declared one. *)
Lemma converged_stray ek ds now (row : RRow) b c :
  r_source_topic row <> desc_topic d -> (forall x, x ∈ ds -> ~ declared_of ek x.2) ->
  converged ek (ds ++ [(now, row)]) (<[ek := cache_row_of now b row]> c).
Proof.
  intros Ht Hno. unfold converged. rewrite lookup_insert. case_decide; [|done].
  left. split; [done|]. intros y. rewrite elem_of_app, list_elem_of_singleton.
  intros [?| ->]; [auto|]. by intros [_ ?].
Qed.

Lemma converged_step ek ds now (row : RRow) c tb p :
  table_new CacheKind s d = Ok tb ->
  (forall y, y ∈ ds ++ [(now, row)] -> declared_of ek y.2 -> r_source_partition y.2 = p) ->
  converged ek ds c ->
  converged ek (ds ++ [(now, row)]) (snd (upsert_cache_from_received alone now s d row c)).
Proof.
  intros Ht Hp Hc. destruct (entity_cases row ek) as [Hek|Hek].
  2: { eapply converged_keep; [by apply apply_other|done|]. by intros [? _]. }
  rewrite (upsert_unfold now s d row c tb ek Ht Hek), apply_row_cases.
  assert (Hkeep : r_source_topic row <> desc_topic d -> converged ek (ds ++ [(now, row)]) c).
  { intros Hn. eapply converged_keep; [done|done|]. by intros [_ ?]. }
  destruct (c !! ek) as [cur|] eqn:Ec; cbn [snd].
  - pose proof Hc as Hc0. unfold converged in Hc0. rewrite Ec in Hc0.
    case_bool_decide as Htop.
    + destruct Hc0 as [[Hnt Hno]|(Hdt & w & Hw & Hdw & (Hrt & Hrp & Hro & _) & Hmax)].
      * case_bool_decide; [|apply Hkeep; congruence].
        destruct (applied_offset cur <? r_source_offset row); [|apply Hkeep; congruence].
        apply converged_stray; [congruence|done].
      * assert (Hd : declared_of ek row) by (split; congruence).
        rewrite bool_decide_true.
        2: { rewrite Hrp, (Hp w); [symmetry; apply (Hp (now, row)); [set_solver|done]|set_solver|done]. }
        destruct (Z.ltb_spec (applied_offset cur) (r_source_offset row)).
        { apply converged_write; [done|]. intros x Hx Hdx. specialize (Hmax x Hx Hdx). lia. }
        eapply converged_keep; [done|done|]. intros _. exists w. split_and!; [done..|]. by exists cur.
    + case_bool_decide as Hdecl; cbn [snd].
      * destruct Hc0 as [[_ Hno]|[? _]]; [|congruence].
        apply converged_write; [by split|]. intros x Hx Hdx. by destruct (Hno x Hx).
      * case_bool_decide; cbn [snd]; by apply Hkeep.
  - pose proof Hc as Hno. unfold converged in Hno. rewrite Ec in Hno.
    destruct (decide (r_source_topic row = desc_topic d)).
    + apply converged_write; [by split|]. intros x Hx Hdx. by destruct (Hno x Hx).
    + by apply converged_stray.
Qed.

Lemma apply_all_converges ek p tb c0 ds :
  table_new CacheKind s d = Ok tb ->
  (forall cur, c0 !! ek = Some cur -> applied_topic cur <> desc_topic d) ->
  (forall x, x ∈ ds -> declared_of ek x.2 -> r_source_partition x.2 = p) ->
  converged ek ds (apply_all ds c0).
Proof.
  intros Ht H0. induction ds as [|[now row] ds IH] using rev_ind; intros Hp.
  { unfold converged. simpl. destruct (c0 !! ek) as [cur|] eqn:E.
    - left. split; [eauto|]. by intros x ?%elem_of_nil.
    - by intros x ?%elem_of_nil. }
  unfold apply_all. rewrite foldl_app. simpl.
  apply (converged_step ek ds now row _ tb p Ht Hp). apply IH.
  intros x Hx. apply Hp. apply elem_of_app. by left.
Qed.
End converge.

(** C5. The cache converges to the newest declared state, in whatever order
    records arrive. Take any history of deliveries to a message type, repeated,
    reordered, mixed with other entities and with records of retired topics, on
    top of a cache that has nothing from the declared topic for an entity yet.
    If the entity's records on its declared topic share a partition, then after
    the history the entity shows the payload and the offset of the one with the
    highest offset. *)
Theorem cache_converges (s : SqlIdentifier) (d : MessageDescriptor) (tb : Table) (ek : string)
  (p : Z) (c0 : Cache) (ds : list (instant * RRow)) (w : instant * RRow)
  (Ht : table_new CacheKind s d = Ok tb)
  (H0 : forall cur, c0 !! ek = Some cur -> applied_topic cur <> desc_topic d)
  (Hp : forall x, x ∈ ds -> declared_of d ek x.2 -> r_source_partition x.2 = p)
  (Hw : w ∈ ds) (Hd : declared_of d ek w.2)
  (Hmax : forall x, x ∈ ds -> declared_of d ek x.2 ->
     r_source_offset x.2 < r_source_offset w.2
     \/ (r_source_offset x.2 = r_source_offset w.2 /\ r_payload x.2 = r_payload w.2)) :
  exists cur, apply_all s d ds c0 !! ek = Some cur /\ reflects cur w.2.
Proof.
  pose proof (apply_all_converges s d ek p tb c0 ds Ht H0 Hp) as Hc. unfold converged in Hc.
  destruct (apply_all s d ds c0 !! ek) as [cur|]; [|by destruct (Hc w Hw)].
  destruct Hc as [[_ Hno]|(_ & v & Hv & Hdv & (Ht' & Hp' & Ho & Hpl) & Hv_max)]; [by destruct (Hno w Hw)|].
  exists cur. split; [done|]. specialize (Hv_max w Hw Hd).
  destruct (Hmax v Hv Hdv) as [?|[E Epl]]; [lia|].
  split_and!; [|rewrite Hp', (Hp v Hv Hdv), (Hp w Hw Hd); done|congruence..].
  rewrite Ht'. destruct Hdv as [_ ->], Hd as [_ ->]. done.
Qed.

(** C32. The guard holds under interference. Whatever other dispatchers write
    between the reads of an apply, the apply either leaves the entity as they
    left it, or advances it: a row is written over one of the same origin only
    with a higher offset, and over one of another origin only when it arrived on
    the topic its type declares. *)
Theorem cache_apply_guarded (meanwhile : Cache -> Cache) (now : instant) (s : SqlIdentifier)
  (d : MessageDescriptor) (row : RRow) (c : Cache) :
  let '(res, c') := upsert_cache_from_received meanwhile now s d row c in
  exists base, (base = c \/ base = meanwhile c)
  /\ match res with
     | Err _ | Ok Ignored => c' = base
     | Ok Applied => exists ek b, received_entity_key row = Ok ek
         /\ c' = <[ek := cache_row_of now b row]> base
         /\ forall cur, base !! ek = Some cur ->
              same_origin cur row = true /\ applied_offset cur < r_source_offset row
     | Ok Migrated => exists ek cur, received_entity_key row = Ok ek
         /\ c' = <[ek := cache_row_of now false row]> base
         /\ r_source_topic row = desc_topic d
         /\ base !! ek = Some cur /\ same_origin cur row = false
     end.
Proof.
  unfold upsert_cache_from_received, mbind, eff_bind, lift, stmt.
  destruct (table_new CacheKind s d) as [tb|]; [|eauto].
  destruct (received_entity_key row) as [ek|] eqn:Hek; [|eauto].
  unfold upsert_statement. destruct (c !! ek) as [cur|] eqn:Ec.
  2: { exists c. split; [by left|]. exists ek, false. split_and!; [done..|]. congruence. }
  destruct (same_origin cur row && (applied_offset cur <? r_source_offset row)) eqn:Eg.
  { apply andb_true_iff in Eg as [? ?%Z.ltb_lt]. exists c. split; [by left|].
    exists ek, (c_deleted cur). split_and!; [done..|]. intros cur' [= <-]%(eq_trans (eq_sym Ec)). done. }
  unfold classify_skipped_cache_apply. rewrite Ec.
  destruct (same_origin cur row); [eauto|]. case_bool_decide; [eauto|].
  case_bool_decide as Hdecl; [|case_bool_decide; eauto].
  unfold migrate_cache_origin. destruct (meanwhile c !! ek) as [locked|] eqn:El; [|eauto].
  destruct (same_origin locked row) eqn:Eo; simpl.
  - destruct (Z.leb_spec (r_source_offset row) (applied_offset locked)); [eauto|].
    exists (meanwhile c). split; [by right|]. exists ek, false. split_and!; [done..|].
    intros cur' [= <-]%(eq_trans (eq_sym El)). done.
  - exists (meanwhile c). split; [by right|]. by exists ek, locked.
Qed.

(** Three snapshots of one entity out of order, one from a retired topic. *)
Definition on_topic (topic : string) (offset : Z) (v : json) : RRow :=
  fresh_row
    {| r_message_id := 1; r_idempotency_key := ""; r_idempotency_source := None;
       r_source_topic := topic; r_source_partition := 0; r_source_offset := offset;
       r_key := Some "o1"; r_entity_key := None; r_message_type := "order_placed";
       r_message_version := 1; r_headers := ∅; r_payload := v; r_correlation_id := None;
       r_causation_id := None; r_traceparent := None; r_tracestate := None; r_occurred_at := 0;
       r_created_at := 0 |}.

Definition deliveries : list (instant * RRow) :=
  [(1, on_topic "old.orders" 90 "a"); (2, on_topic "dev.orders" 2 "c");
   (3, on_topic "old.orders" 91 "x"); (4, on_topic "dev.orders" 1 "b");
   (5, on_topic "dev.orders" 2 "c")].

Lemma cache_converges_witness :
  exists cur, apply_all "app" RSample.descriptor deliveries ∅ !! "o1" = Some cur
  /\ reflects cur (on_topic "dev.orders" 2 "c").
Proof.
  eapply (cache_converges "app" RSample.descriptor _ "o1" 0 ∅ deliveries
            (2, on_topic "dev.orders" 2 "c")).
  - vm_compute. reflexivity.
  - intros cur H. rewrite lookup_empty in H. discriminate.
  - refine (proj1 (Forall_forall _ _) _). repeat constructor.
  - right. left.
  - split; vm_compute; reflexivity.
  - intros x Hx [_ Hd]. unfold deliveries in Hx.
    repeat (apply elem_of_cons in Hx as [->|Hx]); [..|by apply elem_of_nil in Hx];
      first [vm_compute in Hd; discriminate|right; split; reflexivity|left; reflexivity].
Defined.
