(* ===== verification/Dispatch.v ===== *)
(** * Dispatch: one received row, from claim to commit

    Models [src/crates/kafkaman-sqlx/src/dispatch.rs], [dispatch_failure.rs],
    [router.rs] and the handler boundary of [catch_panic.rs] (the
    [internal-hooks] observers are in [Observers], the spans in [Spans]).

    The database is the received table, the cache and the application's own
    tables. A transaction carries its working state, its savepoint and whether
    it can still execute statements; [lost] says at which statements the
    connection breaks. A handler is any function on the database: it may write
    anything, return, fail or panic, and may leave the transaction aborted (a
    statement of its own failed) or the connection dead. It does not release or
    roll back kafkaman's savepoint. *)

From S2P Require Import Prelude Text Vocabulary Trace Identity Topics Registry Retry.
From S2P Require Import Outbox Lifecycle Received Cache.
Open Scope string_scope.
Open Scope list_scope.
Open Scope Z_scope.

(** ** Classification *)

(** [is_terminal]: deterministic against the stored row. *)
Definition is_terminal (e : Error) : bool :=
  match e with
  | ECacheOriginMismatch _ _ _ _ _ | EMissingEntityKey _ _ | EInvalidEntityKey _ => true
  | _ => false
  end.

Definition failure_disposition (e : Error) (stage : FailureStage) : FailureDisposition :=
  {| fd_kind := failure_kind e; fd_stage := stage; fd_terminal := is_terminal e |}.

Inductive FailureRecordPath := ClaimTransaction | SavepointPath | FallbackConnection.
#[global] Instance FailureRecordPath_eq_dec : EqDecision FailureRecordPath.
Proof. solve_decision. Defined.

(** [DispatchFailure]. *)
Inductive DispatchFailure := HandlerFailure (e : Error) | BookkeepingFailure (e : Error).

Definition failure_error (f : DispatchFailure) : Error :=
  match f with HandlerFailure e | BookkeepingFailure e => e end.

Definition disposition (f : DispatchFailure) : FailureDisposition :=
  match f with
  | HandlerFailure e => failure_disposition e SHandler
  | BookkeepingFailure e => failure_disposition e SBookkeeping
  end.

Definition is_handler_panic (f : DispatchFailure) : bool :=
  match f with HandlerFailure (EHandlerPanicked _) => true | _ => false end.

Record DispatchStats := {
  ds_claimed : nat; ds_processed : nat; ds_failed : nat; ds_panicked : nat;
  ds_panicked_message_id : option uuid }.

Definition stats_default : DispatchStats :=
  {| ds_claimed := 0; ds_processed := 0; ds_failed := 0; ds_panicked := 0;
     ds_panicked_message_id := None |}.

Definition dispatch_failure_stats (o : MarkOutcome) : DispatchStats :=
  {| ds_claimed := 1; ds_processed := 0; ds_failed := if bool_decide (o = Updated) then 1 else 0;
     ds_panicked := 0; ds_panicked_message_id := None |}.

(** ** The handler boundary *)

(** What awaiting and then dropping a handler future did. *)
Record HandlerRun (A : Type) := { polled : unwinding (result Error A); dropped : unwinding unit }.
Arguments polled {A} _.
Arguments dropped {A} _.

(** [catch_handler_panic], awaited once to completion: the destructor runs
    inside the boundary on both paths. *)
Definition catch_handler_panic {A} (h : HandlerRun A) : result string (result Error A) :=
  match polled h, dropped h with
  | Returned v, Returned _ => Ok v
  | Returned _, Panicked p => Err ("handler future drop panicked: " +:+ panic_message p)
  | Panicked p, Returned _ => Err (panic_message p)
  | Panicked p, Panicked q =>
      Err (panic_message p +:+ "; handler future drop panicked while cleaning up: "
           +:+ panic_message q)
  end.

(** [run_handler]. *)
Definition run_handler {A} (h : HandlerRun A) : result Error A :=
  match catch_handler_panic h with
  | Ok r => r
  | Err message => Err (EHandlerPanicked message)
  end.

Inductive HandlerFlow := Continue | SkipHandler.
#[global] Instance HandlerFlow_eq_dec : EqDecision HandlerFlow.
Proof. solve_decision. Defined.

(** [ReceivedMeta], which repeats the row's columns; [deleted] is reserved. *)
Record ReceivedMeta := {
  m_message_id : uuid; m_idempotency_key : IdempotencyKey; m_idempotency_source : option json;
  m_entity_key : option string; m_message_type : string; m_message_version : Z; m_attempts : Z;
  m_headers : gmap string string; m_source_topic : string; m_source_partition : Z;
  m_source_offset : Z; m_key : option string; m_correlation_id : option uuid;
  m_causation_id : option uuid; m_occurred_at : instant; m_created_at : instant; m_deleted : bool }.

Definition meta_of (row : ReceivedRow) : ReceivedMeta :=
  let r := row_db row in
  {| m_message_id := r_message_id r; m_idempotency_key := row_key row;
     m_idempotency_source := r_idempotency_source r; m_entity_key := r_entity_key r;
     m_message_type := r_message_type r; m_message_version := r_message_version r;
     m_attempts := r_attempts r; m_headers := r_headers r; m_source_topic := r_source_topic r;
     m_source_partition := r_source_partition r; m_source_offset := r_source_offset r;
     m_key := r_key r; m_correlation_id := r_correlation_id r;
     m_causation_id := r_causation_id r; m_occurred_at := r_occurred_at r;
     m_created_at := r_created_at r; m_deleted := false |}.

(** ** Transactions *)

Inductive TxStatus := Active | AbortedTx | LostTx.
#[global] Instance TxStatus_eq_dec : EqDecision TxStatus.
Proof. solve_decision. Defined.

(** The statements a dispatch sends. *)
Inductive Stmt :=
| SBegin | SClaim | SSavepoint | SUpsert | SMark | SRollbackTo | SRecord | SCommit | SAcquire.

Definition conn_lost : Error := ESqlx (SqlxOther "connection closed").
Definition tx_aborted : Error :=
  ESqlx (SqlxDatabase OtherKind (Some "25P02") "current transaction is aborted").

(** A statement the server refused aborts the transaction; an error the program
    itself raises does not. *)
Definition aborts (e : Error) : bool := match e with ESqlx _ => true | _ => false end.

Section dispatch.
(** The application's tables. *)
Context {App : Type}.

Record Db := { db_received : Received; db_cache : Cache; db_app : App }.

Record Tx := { tx_db : Db; tx_savepoint : option Db; tx_status : TxStatus }.

(** A registered handler: the future's run, the database it left and the state
    it left the transaction in. *)
Definition Handler (A : Type) := ReceivedMeta -> json -> Db -> HandlerRun A * Db * TxStatus.

(** [TypedMessageHandler]: the stored payload is decoded inside the future, so
    a decode error is an error of the handler. *)
Definition typed_handler {P A} (decode : json -> result string P)
  (f : ReceivedMeta -> P -> Db -> HandlerRun A * Db * TxStatus) : Handler A :=
  fun meta value db =>
    match decode value with
    | Ok p => f meta p db
    | Err text => ({| polled := Returned (Err (ESerde text)); dropped := Returned tt |}, db, Active)
    end.

Record MessageRouter := {
  handlers : gmap string (Handler unit);
  before_handlers : gmap string (Handler HandlerFlow);
}.

Definition router_new : MessageRouter := {| handlers := ∅; before_handlers := ∅ |}.
Definition handler (P : Type) `{KafkaMessage P} (h : Handler unit) (r : MessageRouter) : MessageRouter :=
  {| handlers := <[MESSAGE_TYPE P := h]> (handlers r); before_handlers := before_handlers r |}.
Definition handler_before (P : Type) `{KafkaMessage P} (h : Handler HandlerFlow) (r : MessageRouter)
  : MessageRouter :=
  {| handlers := handlers r; before_handlers := <[MESSAGE_TYPE P := h]> (before_handlers r) |}.

Definition routes (r : MessageRouter) (mt : string) : bool :=
  bool_decide (is_Some (handlers r !! mt)) || bool_decide (is_Some (before_handlers r !! mt)).

(** [lost] and [commit_lands] describe the network: the statements at which the
    connection breaks, and whether a commit whose answer was lost took effect.
    [meanwhile] is what other transactions did before the fallback connection
    was opened. [display] is the [Display] text of an error. *)
Context (lost : Stmt -> bool) (commit_lands : bool) (meanwhile : Db -> Db)
  (display : Error -> string).
(** The received table's schema, descriptor and retry policy, the waits drawn
    for its retries, the clocks, and the rows other workers hold. *)
Context (schema_ : SqlIdentifier) (desc : MessageDescriptor) (policy : RetryPolicy)
  (wait : Z -> interval) (now due_at : instant) (locked : uuid -> bool) (router : MessageRouter).

Definition exec {A} (st : Stmt) (m : eff Error Db A) : eff Error Tx A := fun tx =>
  match tx_status tx with
  | LostTx => (Err conn_lost, tx)
  | AbortedTx => (Err tx_aborted, tx)
  | Active =>
      if lost st
      then (Err conn_lost, {| tx_db := tx_db tx; tx_savepoint := tx_savepoint tx; tx_status := LostTx |})
      else match m (tx_db tx) with
           | (Ok a, db) => (Ok a, {| tx_db := db; tx_savepoint := tx_savepoint tx; tx_status := Active |})
           | (Err e, db) =>
               (Err e, {| tx_db := db; tx_savepoint := tx_savepoint tx;
                          tx_status := if aborts e then AbortedTx else Active |})
           end
  end.

Definition on_received {A} (m : eff Error Received A) : eff Error Db A := fun db =>
  let (r, t) := m (db_received db) in
  (r, {| db_received := t; db_cache := db_cache db; db_app := db_app db |}).
Definition on_cache {A} (m : eff Error Cache A) : eff Error Db A := fun db =>
  let (r, c) := m (db_cache db) in
  (r, {| db_received := db_received db; db_cache := c; db_app := db_app db |}).

(** [create_dispatch_handler_savepoint] and [rollback_to_dispatch_handler_savepoint]. *)
Definition create_savepoint : eff Error Tx unit := fun tx =>
  match exec SSavepoint (mret tt) tx with
  | (Ok _, tx) => (Ok tt, {| tx_db := tx_db tx; tx_savepoint := Some (tx_db tx); tx_status := Active |})
  | (Err e, tx) => (Err e, tx)
  end.

Definition rollback_to_savepoint : eff Error Tx unit := fun tx =>
  match tx_status tx, tx_savepoint tx with
  | LostTx, _ => (Err conn_lost, tx)
  | _, None => (Err (sql_error "3B001" "savepoint does not exist"), tx)
  | _, Some db =>
      if lost SRollbackTo
      then (Err conn_lost, {| tx_db := tx_db tx; tx_savepoint := Some db; tx_status := LostTx |})
      else (Ok tt, {| tx_db := db; tx_savepoint := Some db; tx_status := Active |})
  end.

(** [COMMIT]: what it answers and the database it leaves, [before] being the
    committed state. The server turns the commit of an aborted transaction
    into a rollback and reports no error. *)
Definition commit (before : Db) (tx : Tx) : result Error unit * Db :=
  match tx_status tx with
  | LostTx => (Err conn_lost, before)
  | AbortedTx => (Ok tt, before)
  | Active => if lost SCommit then (Err conn_lost, if commit_lands then tx_db tx else before)
              else (Ok tt, tx_db tx)
  end.

(** A handler call, with the panic boundary. *)
Definition call {A} (h : Handler A) (row : ReceivedRow) : Tx -> result DispatchFailure A * Tx :=
  fun tx =>
    let '(run, db, st) := h (meta_of row) (r_payload (row_db row)) (tx_db tx) in
    let tx := {| tx_db := db; tx_savepoint := tx_savepoint tx; tx_status := st |} in
    match run_handler run with
    | Ok a => (Ok a, tx)
    | Err e => (Err (HandlerFailure e), tx)
    end.

Definition bookkeeping {A} (m : eff Error Tx A) : eff DispatchFailure Tx A := fun tx =>
  match m tx with
  | (Ok a, tx) => (Ok a, tx)
  | (Err e, tx) => (Err (BookkeepingFailure e), tx)
  end.

(** [converge_and_dispatch]. *)
Definition converge_and_dispatch (row : ReceivedRow) : eff DispatchFailure Tx MarkOutcome :=
  flow ← match before_handlers router !! r_message_type (row_db row) with
         | Some before => call before row
         | None => mret Continue
         end;
  applied ← bookkeeping (exec SUpsert
              (on_cache (upsert_cache_from_received alone now schema_ desc (row_db row))));
  _ ← (if bool_decide (flow = Continue) && negb (bool_decide (applied = Ignored)) then
         match handlers router !! r_message_type (row_db row) with
         | Some h => call h row
         | None => mret tt
         end
       else mret tt);
  bookkeeping (exec SMark
    (on_received (mark_received_processed (r_message_id (row_db row)) due_at))).

(** What a cycle leaves behind: its answer, the committed database, and where a
    failure record went. *)
Record Cycle := { cy_result : result Error DispatchStats; cy_db : Db; cy_path : option FailureRecordPath }.

Definition fails (e : Error) (db : Db) : Cycle :=
  {| cy_result := Err e; cy_db := db; cy_path := None |}.
Definition ends (s : DispatchStats) (db : Db) (p : option FailureRecordPath) : Cycle :=
  {| cy_result := Ok s; cy_db := db; cy_path := p |}.

Definition record (f : ReceivedFailureRecord) : eff Error Db MarkOutcome :=
  on_received (record_received_failure policy wait f).

(** [record_received_failure] and the commit after it, on the claim transaction;
    an error drops the transaction, which rolls it back. *)
Definition record_and_commit (before : Db) (f : ReceivedFailureRecord) (p : FailureRecordPath)
  (tx : Tx) : Cycle :=
  match exec SRecord (record f) tx with
  | (Err e, _) => fails e before
  | (Ok o, tx) =>
      match commit before tx with
      | (Err e, db) => fails e db
      | (Ok _, db) => ends (dispatch_failure_stats o) db (Some p)
      end
  end.

(** [rollback_handler_and_record_received_failure]. *)
Definition unwind_and_record (before : Db) (f : ReceivedFailureRecord) (tx : Tx) : Cycle :=
  match rollback_to_savepoint tx with
  | (Ok _, tx) => record_and_commit before f SavepointPath tx
  | (Err _, _) =>
      let db := meanwhile before in
      if lost SAcquire then fails conn_lost db
      else match record f db with
           | (Err e, db) => fails e db
           | (Ok o, db) => ends (dispatch_failure_stats o) db (Some FallbackConnection)
           end
  end.

Definition with_panic (f : DispatchFailure) (mid : uuid) (s : DispatchStats) : DispatchStats :=
  {| ds_claimed := ds_claimed s; ds_processed := ds_processed s; ds_failed := ds_failed s;
     ds_panicked := if is_handler_panic f then 1 else 0;
     ds_panicked_message_id := if is_handler_panic f then Some mid else None |}.

(** [dispatch_claimed_row]. *)
Definition dispatch_claimed_row (before : Db) (row : ReceivedRow) (tx : Tx) : Cycle :=
  let failure d e := failure_record_of (row_db row) d (display e) due_at in
  if negb (routes router (r_message_type (row_db row))) then
    let e := EMissingHandler (r_message_type (row_db row)) in
    record_and_commit before (failure (failure_disposition e SRouting) e) ClaimTransaction tx
  else match create_savepoint tx with
  | (Err e, _) => fails e before
  | (Ok _, tx) =>
      match converge_and_dispatch row tx with
      | (Ok o, tx) =>
          match commit before tx with
          | (Err e, db) => fails e db
          | (Ok _, db) =>
              ends {| ds_claimed := 1; ds_processed := if bool_decide (o = Updated) then 1 else 0;
                      ds_failed := 0; ds_panicked := 0; ds_panicked_message_id := None |} db None
          end
      | (Err f, tx) =>
          let c := unwind_and_record before (failure (disposition f) (failure_error f)) tx in
          match cy_result c with
          | Ok s => ends (with_panic f (r_message_id (row_db row)) s) (cy_db c) (cy_path c)
          | Err _ => c
          end
      end
  end.

(** [dispatch_once_inner]. *)
Definition dispatch_once (before : Db) : Cycle :=
  if lost SBegin || lost SClaim then fails conn_lost before
  else match claim_received_row locked due_at (db_received before) with
  | Err e => fails e before
  | Ok None => if lost SCommit then fails conn_lost before else ends stats_default before None
  | Ok (Some row) =>
      dispatch_claimed_row before row {| tx_db := before; tx_savepoint := None; tx_status := Active |}
  end.

(** [emit_success_event]: what the sampler says after a cycle. *)
Definition emit_success_event (s : LifecycleSampler) (c : Cycle) : bool * LifecycleSampler :=
  match cy_result c with
  | Ok st => if Nat.ltb 0 (ds_processed st)
             then let (n, s) := sampler_take 1 s in (negb (n =? 0), s)
             else (false, s)
  | Err _ => (false, s)
  end.

(** ** Transactions, in lemmas *)

Lemma exec_Ok {A} st (m : eff Error Db A) tx a tx' :
  exec st m tx = (Ok a, tx') ->
  m (tx_db tx) = (Ok a, tx_db tx') /\ tx_status tx = Active /\ tx_status tx' = Active
  /\ tx_savepoint tx' = tx_savepoint tx /\ lost st = false.
Proof.
  unfold exec. destruct (tx_status tx), (lost st); try done.
  destruct (m (tx_db tx)) as [[b|e] db] eqn:E; [|by destruct (aborts e)]. by intros [= <- <-].
Qed.

Lemma exec_savepoint {A} st (m : eff Error Db A) tx :
  tx_savepoint (snd (exec st m tx)) = tx_savepoint tx.
Proof.
  unfold exec. destruct (tx_status tx); [|done..]. destruct (lost st); [done|].
  by destruct (m (tx_db tx)) as [[b|e] db].
Qed.

Lemma call_savepoint {A} (h : Handler A) row tx :
  tx_savepoint (snd (call h row tx)) = tx_savepoint tx.
Proof.
  unfold call. destruct (h _ _ _) as [[run db] st]. by destruct (run_handler run).
Qed.

Lemma converge_savepoint row tx :
  tx_savepoint (snd (converge_and_dispatch row tx)) = tx_savepoint tx.
Proof.
  unfold converge_and_dispatch, mbind, eff_bind, bookkeeping.
  set (first := match before_handlers router !! _ with Some _ => _ | None => _ end).
  assert (H1 : tx_savepoint (snd (first tx)) = tx_savepoint tx)
    by (unfold first; destruct (before_handlers router !! _); [apply call_savepoint|done]).
  destruct (first tx) as [[flow|e] tx1]; [|done]. simpl in H1.
  set (up := on_cache _). pose proof (exec_savepoint SUpsert up tx1) as H2.
  destruct (exec SUpsert up tx1) as [[applied|e] tx2]; simpl in H2; [|simpl; congruence].
  set (second := if _ && _ then _ else _).
  assert (H3 : tx_savepoint (snd (second tx2)) = tx_savepoint tx2).
  { unfold second. destruct (_ && _); [|done].
    destruct (handlers router !! _); [apply call_savepoint|done]. }
  destruct (second tx2) as [[u|e] tx3]; simpl in H3; [|simpl; congruence].
  set (mk := on_received _). pose proof (exec_savepoint SMark mk tx3) as H4.
  destruct (exec SMark mk tx3) as [[o|e] tx4]; simpl in *; congruence.
Qed.

(** ** Handlers that leave the received table to the dispatcher *)

Definition respects {A} (h : Handler A) : Prop :=
  forall meta v db, db_received (snd (fst (h meta v db))) = db_received db.

Definition router_respects : Prop :=
  (forall mt h, handlers router !! mt = Some h -> respects h)
  /\ (forall mt h, before_handlers router !! mt = Some h -> respects h).

Lemma call_received {A} (h : Handler A) row tx :
  respects h -> db_received (tx_db (snd (call h row tx))) = db_received (tx_db tx).
Proof.
  intros Hh. unfold call. specialize (Hh (meta_of row) (r_payload (row_db row)) (tx_db tx)).
  destruct (h _ _ _) as [[run db] st]. simpl in Hh. by destruct (run_handler run).
Qed.

(** A convergence that went through ends in a live transaction, with the mark
    made on a received table the handlers have not touched. *)
Lemma converge_Ok row tx o tx' :
  converge_and_dispatch row tx = (Ok o, tx') -> router_respects ->
  tx_status tx' = Active
  /\ mark_received_processed (r_message_id (row_db row)) due_at (db_received (tx_db tx))
     = (Ok o, db_received (tx_db tx')).
Proof.
  intros Hc [Hh Hb]. revert Hc. unfold converge_and_dispatch, mbind, eff_bind, bookkeeping.
  set (first := match before_handlers router !! _ with Some _ => _ | None => _ end).
  assert (H1 : db_received (tx_db (snd (first tx))) = db_received (tx_db tx)).
  { unfold first. destruct (before_handlers router !! _) eqn:E; [|done]. apply call_received. eauto. }
  destruct (first tx) as [[flow|e] tx1]; [|done]. simpl in H1.
  destruct (exec SUpsert _ tx1) as [[applied|e] tx2] eqn:E2; [|done].
  apply exec_Ok in E2 as (E2 & _). unfold on_cache in E2.
  destruct (upsert_cache_from_received _ _ _ _ _ _) as [r c]. injection E2 as -> E2.
  set (second := if _ && _ then _ else _).
  assert (H3 : db_received (tx_db (snd (second tx2))) = db_received (tx_db tx2)).
  { unfold second. destruct (_ && _); [|done].
    destruct (handlers router !! _) eqn:E; [|done]. apply call_received. eauto. }
  destruct (second tx2) as [[u|e] tx3]; [|done]. simpl in H3.
  destruct (exec SMark _ tx3) as [[o'|e] tx4] eqn:E4; [|done].
  apply exec_Ok in E4 as (E4 & _ & Hs & _). intros [= <- <-]. split; [done|].
  unfold on_received in E4. rewrite <- E2 in H3. simpl in H3. rewrite H3, H1 in E4.
  destruct (mark_received_processed _ _ _) as [r' t]. injection E4 as -> <-. done.
Qed.

(** ** What a cycle can leave behind *)

(** A row with the failure [f] recorded. *)
Definition recorded_row (f : ReceivedFailureRecord) : RRow -> RRow :=
  let d := fr_disposition f in
  failed_row (received_failure_schedule policy wait (fr_current_attempts f) (fr_occurred_at f) d)
    (received_error_new (fd_kind d) (fr_message f) (fr_occurred_at f) (Some (fd_stage d))).

(** Nothing but, at most, [f] recorded on the row it names, if that is open. *)
Definition only_recorded (f : ReceivedFailureRecord) (base db : Db) : Prop :=
  db_cache db = db_cache base /\ db_app db = db_app base
  /\ (db_received db = db_received base
      \/ db_received db = sql_update (fun r => has_id (fr_message_id f) r && open_row r)
                            (recorded_row f) (db_received base)).

Lemma only_recorded_refl f base : only_recorded f base base.
Proof. split_and!; [done..|by left]. Qed.

Lemma record_effect f db : only_recorded f db (snd (record f db)).
Proof.
  unfold record, on_received, record_received_failure.
  destruct (existsb _ (db_received db)); simpl; [split_and!; [done..|by left]|].
  split_and!; [done..|]. by right.
Qed.

Lemma record_and_commit_effect before f p tx :
  tx_db tx = before ->
  let c := record_and_commit before f p tx in
  only_recorded f before (cy_db c)
  /\ forall st, cy_result c = Ok st -> ds_processed st = 0%nat.
Proof.
  intros Htx. unfold record_and_commit.
  destruct (exec SRecord (record f) tx) as [[o|e] tx'] eqn:E; [|split; [apply only_recorded_refl|done]].
  apply exec_Ok in E as (E & _). rewrite Htx in E.
  pose proof (record_effect f before) as Hr. rewrite E in Hr. simpl in Hr.
  unfold commit. destruct (tx_status tx'), (lost SCommit), commit_lands;
    (split; [simpl; first [done|apply only_recorded_refl]|simpl; by intros st [= <-]]).
Qed.

Lemma unwind_effect before f tx :
  tx_savepoint tx = Some before ->
  let c := unwind_and_record before f tx in
  (exists base, (base = before \/ base = meanwhile before)
                /\ only_recorded f base (cy_db c))
  /\ forall st, cy_result c = Ok st -> ds_processed st = 0%nat.
Proof.
  intros Hsp. unfold unwind_and_record.
  destruct (rollback_to_savepoint tx) as [[[]|e] tx'] eqn:E.
  - assert (Htx : tx_db tx' = before).
    { revert E. unfold rollback_to_savepoint. rewrite Hsp.
      destruct (tx_status tx), (lost SRollbackTo); try done; by intros [= <-]. }
    destruct (record_and_commit_effect before f SavepointPath tx' Htx). split; [|done].
    exists before. split; [by left|done].
  - destruct (lost SAcquire).
    { split; [|done]. exists (meanwhile before). split; [by right|apply only_recorded_refl]. }
    pose proof (record_effect f (meanwhile before)) as Hr.
    destruct (record f (meanwhile before)) as [[o|e'] db]; simpl in *.
    + split; [|by intros st [= <-]]. exists (meanwhile before). split; [by right|done].
    + split; [|done]. exists (meanwhile before). split; [by right|done].
Qed.

(** What the claimed row failed with: nothing handles its type, or the work in
    the savepoint ended in an error. *)
Definition fails_with (before : Db) (row : ReceivedRow) (d : FailureDisposition) (e : Error) : Prop :=
  (routes router (r_message_type (row_db row)) = false
   /\ e = EMissingHandler (r_message_type (row_db row)) /\ d = failure_disposition e SRouting)
  \/ exists f tx',
      converge_and_dispatch row {| tx_db := before; tx_savepoint := Some before; tx_status := Active |}
      = (Err f, tx') /\ d = disposition f /\ e = failure_error f.

(** The three ways a cycle can end: the claimed row is processed together with
    everything that belongs to it; nothing has happened; or nothing but the
    record of the claimed row's failure, where [base] is the database as another
    transaction may have left it by the time the failure is recorded. *)
Inductive cycle_ending (before : Db) (c : Cycle) : Prop :=
| ending_whole row tx' :
    claim_received_row locked due_at (db_received before) = Ok (Some row) ->
    converge_and_dispatch row {| tx_db := before; tx_savepoint := Some before; tx_status := Active |}
    = (Ok Updated, tx') ->
    cy_db c = tx_db tx' ->
    db_received (cy_db c)
    = sql_update (has_id (rrow_id (row_db row))) (processed_row due_at) (db_received before) ->
    (lost SCommit = false -> exists st, cy_result c = Ok st /\ ds_processed st = 1%nat
                                      /\ ds_failed st = 0%nat) ->
    cycle_ending before c
| ending_untouched :
    cy_db c = before -> (forall st, cy_result c = Ok st -> ds_processed st = 0%nat) ->
    cycle_ending before c
| ending_recorded row d e base :
    claim_received_row locked due_at (db_received before) = Ok (Some row) ->
    fails_with before row d e ->
    base = before \/ base = meanwhile before ->
    only_recorded (failure_record_of (row_db row) d (display e) due_at) base (cy_db c) ->
    (forall st, cy_result c = Ok st -> ds_processed st = 0%nat) ->
    cycle_ending before c.

(** The mark of a row that was just claimed takes effect. *)
Lemma claimed_mark t row :
  received_inv t -> claim_received_row locked due_at t = Ok (Some row) ->
  mark_received_processed (r_message_id (row_db row)) due_at t
  = (Ok Updated, sql_update (has_id (rrow_id (row_db row))) (processed_row due_at) t).
Proof.
  intros Hinv Hcl.
  destruct (claim_received_cases locked due_at t Hinv) as [[E _]|(o & E & Hr & Hd & _)];
    rewrite E in Hcl; [done|]. injection Hcl as <-.
  unfold mark_received_processed. change (r_message_id (row_db o)) with (rrow_id (row_db o)).
  by rewrite (received_mark_hit _ _ t (row_db o) Hinv Hr eq_refl (due_open _ _ Hd)).
Qed.

Lemma dispatch_claimed_ending before row :
  received_inv (db_received before) -> router_respects ->
  claim_received_row locked due_at (db_received before) = Ok (Some row) ->
  cycle_ending before
    (dispatch_claimed_row before row {| tx_db := before; tx_savepoint := None; tx_status := Active |}).
Proof.
  intros Hinv Hresp Hcl. unfold dispatch_claimed_row. destruct (negb (routes router _)) eqn:Hrt.
  { apply negb_true_iff in Hrt. match goal with |- context [record_and_commit before ?f ?p ?tx] =>
      destruct (record_and_commit_effect before f p tx eq_refl) end.
    eapply ending_recorded; [exact Hcl|by left|by left|done|done]. }
  unfold create_savepoint, exec. simpl. destruct (lost SSavepoint); [by apply ending_untouched|].
  simpl. set (tx := {| tx_db := before; tx_savepoint := Some before; tx_status := Active |}).
  destruct (converge_and_dispatch row tx) as [[o|f] tx'] eqn:Ec.
  - destruct (converge_Ok _ _ _ _ Ec Hresp) as [Hact Hmark]. simpl in Hmark.
    rewrite (claimed_mark _ _ Hinv Hcl) in Hmark. injection Hmark as <- Hrec.
    unfold commit. rewrite Hact. destruct (lost SCommit) eqn:El; [destruct commit_lands|].
    + eapply ending_whole; [exact Hcl|exact Ec|done|done|congruence].
    + by apply ending_untouched.
    + eapply ending_whole; [exact Hcl|exact Ec|done|done|]. intros _. by eexists.
  - match goal with |- context [unwind_and_record before ?g tx'] =>
      destruct (unwind_effect before g tx') as [(base & Hb & Ho) Hp] end.
    { pose proof (converge_savepoint row tx) as Hsp. by rewrite Ec in Hsp. }
    assert (Hf : fails_with before row (disposition f) (failure_error f)) by (right; by exists f, tx').
    destruct (cy_result (unwind_and_record _ _ _)) as [st|e] eqn:Er.
    + eapply ending_recorded; [exact Hcl|exact Hf|exact Hb|exact Ho|]. simpl. intros st' [= <-]. simpl. by apply Hp.
    + eapply ending_recorded; [exact Hcl|exact Hf|exact Hb|exact Ho|]. by rewrite Er.
Qed.

(** However a cycle ends, it ends in one of the two ways. *)
Lemma dispatch_ending (before : Db) :
  received_inv (db_received before) -> router_respects -> cycle_ending before (dispatch_once before).
Proof.
  intros Hinv Hresp. unfold dispatch_once. destruct (lost SBegin || lost SClaim); [by apply ending_untouched|].
  destruct (claim_received_row locked due_at (db_received before)) as [[row|]|e] eqn:Hcl.
  - by apply dispatch_claimed_ending.
  - destruct (lost SCommit); [by apply ending_untouched|].
    apply ending_untouched; [done|]. by intros st [= <-].
  - by apply ending_untouched.
Qed.

(** C4. Dispatch is atomic. However the handlers behave (they may write, fail,
    panic, abort the transaction or lose the connection) and wherever the
    connection breaks, a cycle either commits the handlers' writes, the cache
    apply and the processed mark together, or leaves the cache and the
    application's tables as they were (or as other transactions left them by the
    time a failure is recorded on a new connection), with at most the failure of
    the claimed row recorded: on the row of its id, if that is still open, with
    the class, text, stage and schedule of the error it failed with. The handlers are assumed only to leave the received
    table to the dispatcher. *)
Theorem dispatch_atomic (before : Db) (Hinv : received_inv (db_received before))
  (Hresp : router_respects) : cycle_ending before (dispatch_once before).
Proof. by apply dispatch_ending. Qed.

(** ** The successful path *)

Definition with_cache (db : Db) (c : Cache) : Db :=
  {| db_received := db_received db; db_cache := c; db_app := db_app db |}.

(** A handler position that let the cycle go on: nothing registered, or a run
    that returned [a] and left the transaction able to execute statements. *)
Definition passes {A} (h : option (Handler A)) (none : A) (row : ReceivedRow) (db : Db) (a : A)
  (db' : Db) : Prop :=
  match h with
  | None => a = none /\ db' = db
  | Some h => exists run, h (meta_of row) (r_payload (row_db row)) db = (run, db', Active)
                          /\ run_handler run = Ok a
  end.

Lemma call_passes {A} (h : Handler A) none row tx a tx' {B} st (m : eff Error Db B) b tx'' :
  call h row tx = (Ok a, tx') -> exec st m tx' = (Ok b, tx'') ->
  passes (Some h) none row (tx_db tx) a (tx_db tx').
Proof.
  unfold call. intros Hc (_ & Hs & _)%exec_Ok.
  destruct (h _ _ _) as [[run db] s'] eqn:E. destruct (run_handler run) as [x|] eqn:Er; [|done].
  injection Hc as -> <-. simpl in *. subst s'. by exists run.
Qed.

(** What a processed row went through, in order. The pre-upsert handler,
    if any, returned; the cache apply was made on the database it left, always;
    the post-upsert handler ran on the applied cache exactly when the first one
    did not ask to skip it and the record was not stale, and it returned; and
    each left the transaction alive, so an error a handler swallowed is never
    committed. *)
Theorem processed_path (row : ReceivedRow) (tx tx' : Tx) (o : MarkOutcome)
  (Hc : converge_and_dispatch row tx = (Ok o, tx')) :
  let mt := r_message_type (row_db row) in
  exists flow db1 applied c db2,
    passes (before_handlers router !! mt) Continue row (tx_db tx) flow db1
    /\ upsert_cache_from_received alone now schema_ desc (row_db row) (db_cache db1) = (Ok applied, c)
    /\ (if bool_decide (flow = Continue) && negb (bool_decide (applied = Ignored))
        then passes (handlers router !! mt) tt row (with_cache db1 c) tt db2
        else db2 = with_cache db1 c)
    /\ on_received (mark_received_processed (r_message_id (row_db row)) due_at) db2
       = (Ok o, tx_db tx').
Proof.
  simpl. revert Hc. unfold converge_and_dispatch, mbind, eff_bind, bookkeeping.
  set (first := match before_handlers router !! _ with Some _ => _ | None => _ end).
  destruct (first tx) as [[flow|e] tx1] eqn:E1; [|done]. unfold first in E1.
  destruct (exec SUpsert _ tx1) as [[applied|e] tx2] eqn:E2; [|done].
  set (second := if _ && _ then _ else _).
  destruct (second tx2) as [[[]|e] tx3] eqn:E3; [|done]. unfold second in E3.
  destruct (exec SMark _ tx3) as [[o'|e] tx4] eqn:E4; [|done]. intros [= <- <-].
  assert (H1 : passes (before_handlers router !! r_message_type (row_db row)) Continue row
                 (tx_db tx) flow (tx_db tx1)).
  { destruct (before_handlers router !! _) as [h|]; [by eapply call_passes|]. by injection E1 as <- <-. }
  pose proof (exec_Ok _ _ _ _ _ E2) as (H2 & _). pose proof (exec_Ok _ _ _ _ _ E4) as (H4 & _).
  unfold on_cache in H2.
  destruct (upsert_cache_from_received _ _ _ _ _ _) as [r c] eqn:Eu. injection H2 as -> H2.
  exists flow, (tx_db tx1), applied, c, (tx_db tx3). split_and!; [done|done| |done].
  unfold with_cache. rewrite H2.
  destruct (bool_decide (flow = Continue) && negb (bool_decide (applied = Ignored)));
    [|by injection E3 as <-].
  destruct (handlers router !! _) as [h|]; [by eapply call_passes|]. by injection E3 as <-.
Qed.

(** ** The failing path *)

Definition failure_row (f : DispatchFailure) (row : ReceivedRow) : RRow -> RRow :=
  failed_row
    (received_failure_schedule policy wait (r_attempts (row_db row)) due_at (disposition f))
    (received_error_new (failure_kind (failure_error f)) (display (failure_error f)) due_at
       (Some (fd_stage (disposition f)))).

(** Recording on a transaction that holds the committed database. *)
Lemma record_and_commit_Ok before row d message p tx :
  (forall st, lost st = false) -> received_inv (db_received before) ->
  row_db row ∈ db_received before -> open_row (row_db row) = true ->
  r_attempts (row_db row) < i32_max -> tx_db tx = before -> tx_status tx = Active ->
  let f := failure_record_of (row_db row) d message due_at in
  record_and_commit before f p tx
  = ends {| ds_claimed := 1; ds_processed := 0; ds_failed := 1; ds_panicked := 0;
            ds_panicked_message_id := None |}
      {| db_received := sql_update (has_id (rrow_id (row_db row)))
           (failed_row (received_failure_schedule policy wait (r_attempts (row_db row)) due_at d)
              (received_error_new (fd_kind d) message due_at (Some (fd_stage d))))
           (db_received before);
         db_cache := db_cache before; db_app := db_app before |} (Some p).
Proof.
  intros Hnet Hinv Hr Ho Ha Htx Hst. simpl. unfold record_and_commit, exec, record, on_received.
  rewrite Hst, Hnet, Htx, (record_failure_hit policy wait _ _ d message due_at Hinv Hr Ho Ha).
  unfold commit. cbn [tx_status]. by rewrite Hnet.
Qed.

Lemma claimed_open before row :
  received_inv (db_received before) ->
  claim_received_row locked due_at (db_received before) = Ok (Some row) ->
  row_db row ∈ db_received before /\ open_row (row_db row) = true.
Proof.
  intros Hinv Hcl.
  destruct (claim_received_cases locked due_at _ Hinv) as [[E _]|(o & E & Hr & Hd & _)];
    rewrite E in Hcl; [done|]. injection Hcl as <-. split; [done|by eapply due_open].
Qed.

(** A failure inside the savepoint, from claim to commit. *)
Lemma failure_cycle before row f tx' :
  (forall st, lost st = false) -> received_inv (db_received before) ->
  claim_received_row locked due_at (db_received before) = Ok (Some row) ->
  r_attempts (row_db row) < i32_max -> routes router (r_message_type (row_db row)) = true ->
  converge_and_dispatch row {| tx_db := before; tx_savepoint := Some before; tx_status := Active |}
  = (Err f, tx') -> tx_status tx' <> LostTx ->
  dispatch_once before
  = ends {| ds_claimed := 1; ds_processed := 0; ds_failed := 1;
            ds_panicked := if is_handler_panic f then 1 else 0;
            ds_panicked_message_id :=
              if is_handler_panic f then Some (rrow_id (row_db row)) else None |}
      {| db_received := sql_update (has_id (rrow_id (row_db row))) (failure_row f row)
                          (db_received before);
         db_cache := db_cache before; db_app := db_app before |} (Some SavepointPath).
Proof.
  intros Hnet Hinv Hcl Hatt Hroutes Hc Hlive. destruct (claimed_open _ _ Hinv Hcl) as [Hr Ho].
  pose proof (converge_savepoint row
    {| tx_db := before; tx_savepoint := Some before; tx_status := Active |}) as Hsp.
  rewrite Hc in Hsp. simpl in Hsp.
  unfold dispatch_once. rewrite !Hnet, Hcl. simpl. unfold dispatch_claimed_row. rewrite Hroutes. simpl.
  unfold create_savepoint, exec. simpl. rewrite Hnet. simpl. rewrite Hc.
  unfold unwind_and_record, rollback_to_savepoint. rewrite Hsp, Hnet.
  destruct (tx_status tx'); [| |done];
    (rewrite record_and_commit_Ok; [|done..]); simpl; unfold ends, with_panic, failure_row; simpl;
    by destruct f.
Qed.

(** C19. A failed dispatch is recorded, on the row and nowhere else. While the
    network holds and the handler has not killed the connection, whatever
    failed inside the savepoint is undone and the row carries the failure with
    the class of the error, the stage that raised it and the schedule its
    policy gives; a panic is counted and named; and the cache and the
    application's tables are those of before, so a retry starts from the same
    state. An error that no retry can change parks the row at once. *)
Theorem failure_recorded (before : Db) (row : ReceivedRow) (f : DispatchFailure) (tx' : Tx)
  (Hnet : forall st, lost st = false) (Hinv : received_inv (db_received before))
  (Hcl : claim_received_row locked due_at (db_received before) = Ok (Some row))
  (Hatt : r_attempts (row_db row) < i32_max)
  (Hroutes : routes router (r_message_type (row_db row)) = true)
  (Hc : converge_and_dispatch row {| tx_db := before; tx_savepoint := Some before; tx_status := Active |}
        = (Err f, tx')) (Hlive : tx_status tx' <> LostTx) :
  dispatch_once before
  = ends {| ds_claimed := 1; ds_processed := 0; ds_failed := 1;
            ds_panicked := if is_handler_panic f then 1 else 0;
            ds_panicked_message_id :=
              if is_handler_panic f then Some (rrow_id (row_db row)) else None |}
      {| db_received := sql_update (has_id (rrow_id (row_db row))) (failure_row f row)
                          (db_received before);
         db_cache := db_cache before; db_app := db_app before |} (Some SavepointPath)
  /\ (is_terminal (failure_error f) = true -> r_status (failure_row f row (row_db row)) = Failed).
Proof.
  split; [by eapply failure_cycle|].
  intros Ht. unfold failure_row. cbn [r_status failed_row].
  unfold received_failure_schedule, received_retry_outcome. cbn [exhausted snd].
  assert (fd_terminal (disposition f) = true) as -> by (by destruct f). done.
Qed.

(** An unregistered message type parks its rows, not the cache: the row is
    recorded as missing a handler in the claim transaction itself, under its
    ordinary retry budget, and neither the cache nor the application's tables
    change. *)
Theorem missing_handler_parks (before : Db) (row : ReceivedRow)
  (Hnet : forall st, lost st = false) (Hinv : received_inv (db_received before))
  (Hcl : claim_received_row locked due_at (db_received before) = Ok (Some row))
  (Hatt : r_attempts (row_db row) < i32_max)
  (Hroutes : routes router (r_message_type (row_db row)) = false) :
  let c := dispatch_once before in
  cy_path c = Some ClaimTransaction
  /\ db_cache (cy_db c) = db_cache before /\ db_app (cy_db c) = db_app before
  /\ exists r', r' ∈ db_received (cy_db c) /\ rmsg r' = rmsg (row_db row)
       /\ r_last_failure_kind r' = Some KMissingHandler
       /\ r_attempts r' = r_attempts (row_db row) + 1
       /\ (r_status r' = Retryable <-> snd (received_retry_outcome policy (r_attempts (row_db row))
             (failure_disposition (EMissingHandler (r_message_type (row_db row))) SRouting)) = false).
Proof.
  destruct (claimed_open _ _ Hinv Hcl) as [Hr Ho].
  unfold dispatch_once. rewrite !Hnet, Hcl. cbn [orb]. unfold dispatch_claimed_row. rewrite Hroutes.
  cbn [negb]. rewrite record_and_commit_Ok by done.
  cbn [cy_path cy_db ends db_cache db_app db_received]. split_and!; [done..|].
  eexists. split; [apply elem_of_update; exists (row_db row); split; [done|];
                   by rewrite (proj2 (has_id_true _ _) eq_refl)|].
  split_and!; [done..|]. cbn [r_status failed_row received_failure_schedule exhausted].
  destruct (snd _); done.
Qed.
End dispatch.

(** ** The model evaluated *)

Module DSample.
(** The application keeps a list of notes. *)
Definition App := list string.
Definition before : @Db App :=
  {| db_received := RSample.t; db_cache := ∅; db_app := ["old"] |}.

Definition write (note : string) (db : @Db App) : @Db App :=
  {| db_received := db_received db; db_cache := db_cache db; db_app := db_app db ++ [note] |}.

Definition good : Handler unit := fun meta v db =>
  ({| polled := Returned (Ok tt); dropped := Returned tt |}, write v db, Active).
Definition panicking : Handler unit := fun meta v db =>
  ({| polled := Panicked (PanicStr "boom"); dropped := Returned tt |}, write v db, Active).
(** A statement failed and the handler did not say so. *)
Definition swallowing : Handler unit := fun meta v db =>
  ({| polled := Returned (Ok tt); dropped := Returned tt |}, write v db, AbortedTx).

Definition routing (h : Handler unit) : @MessageRouter App :=
  {| handlers := {["order_placed" := h]}; before_handlers := ∅ |}.

Definition up : Stmt -> bool := fun _ => false.
Definition show : Error -> string := fun _ => "error".

Definition run (router : @MessageRouter App) : Cycle :=
  dispatch_once up true id show "app" RSample.descriptor retry_default (fun _ => 5) 60 60
    RSample.unlocked router before.

Lemma respecting (h : Handler unit) : respects h -> router_respects (routing h).
Proof.
  intros Hh. split; intros mt h'; simpl.
  - intros [_ <-]%lookup_singleton_Some. done.
  - by rewrite lookup_empty.
Qed.

Example good_run :
  cy_result (run (routing good)) = Ok {| ds_claimed := 1; ds_processed := 1; ds_failed := 0;
                                         ds_panicked := 0; ds_panicked_message_id := None |}
  /\ db_app (cy_db (run (routing good))) = ["old"; "v"]
  /\ map r_status (db_received (cy_db (run (routing good)))) = [Processed; Failed; Failed].
Proof. vm_compute. split_and!; reflexivity. Qed.

Example swallowed_error :
  db_app (cy_db (run (routing swallowing))) = ["old"]
  /\ db_cache (cy_db (run (routing swallowing))) = ∅
  /\ map r_status (db_received (cy_db (run (routing swallowing)))) = [Retryable; Failed; Failed].
Proof. vm_compute. split_and!; reflexivity. Qed.

Definition claimed : ReceivedRow :=
  {| row_db := fresh_row (RSample.msg 1 10 3); row_key := repeat 10 32; row_status := RPending;
     row_trace := None |}.
Definition tx0 : @Tx App := {| tx_db := before; tx_savepoint := Some before; tx_status := Active |}.
Definition converge (h : Handler unit) : result DispatchFailure MarkOutcome * @Tx App :=
  converge_and_dispatch up "app" RSample.descriptor 60 60 (routing h) claimed tx0.
End DSample.

Lemma dispatch_atomic_witness :
  cycle_ending DSample.up id DSample.show "app" RSample.descriptor retry_default (fun _ => 5) 60 60
    RSample.unlocked (DSample.routing DSample.panicking) DSample.before (DSample.run (DSample.routing DSample.panicking)).
Proof.
  apply (dispatch_atomic DSample.up true id DSample.show "app" RSample.descriptor retry_default
           (fun _ => 5) 60 60 RSample.unlocked (DSample.routing DSample.panicking) DSample.before).
  - exact RSample.t_inv.
  - apply DSample.respecting. intros meta v db. reflexivity.
Defined.

Lemma processed_path_witness :
  exists tx', DSample.converge DSample.good = (Ok Updated, tx')
  /\ exists flow db1 applied c db2,
      passes (before_handlers (DSample.routing DSample.good) !! "order_placed") Continue
        DSample.claimed DSample.before flow db1
      /\ upsert_cache_from_received alone 60 "app" RSample.descriptor
           (row_db DSample.claimed) (db_cache db1) = (Ok applied, c)
      /\ (if bool_decide (flow = Continue) && negb (bool_decide (applied = Ignored))
          then passes (handlers (DSample.routing DSample.good) !! "order_placed") tt DSample.claimed
                 (with_cache db1 c) tt db2
          else db2 = with_cache db1 c)
      /\ on_received (mark_received_processed 1 60) db2 = (Ok Updated, tx_db tx').
Proof.
  destruct (DSample.converge DSample.good) as [res tx'] eqn:E. exists tx'.
  assert (res = Ok Updated) as -> by (vm_compute in E; by injection E as <- _).
  split; [reflexivity|].
  exact (processed_path DSample.up "app" RSample.descriptor 60 60 (DSample.routing DSample.good)
           DSample.claimed DSample.tx0 tx' Updated E).
Defined.

Lemma failure_recorded_witness :
  exists db, DSample.run (DSample.routing DSample.panicking)
  = ends {| ds_claimed := 1; ds_processed := 0; ds_failed := 1; ds_panicked := 1;
            ds_panicked_message_id := Some 1%N |} db (Some SavepointPath)
  /\ db_app db = ["old"].
Proof.
  destruct (DSample.converge DSample.panicking) as [res tx'] eqn:E.
  assert (Hr : res = Err (HandlerFailure (EHandlerPanicked "boom")) /\ tx_status tx' <> LostTx)
    by (vm_compute in E; by injection E as <- <-).
  destruct Hr as [-> Hl].
  destruct (failure_recorded DSample.up true id DSample.show "app" RSample.descriptor retry_default
              (fun _ => 5) 60 60 RSample.unlocked (DSample.routing DSample.panicking) DSample.before
              DSample.claimed (HandlerFailure (EHandlerPanicked "boom")) tx') as [H _].
  - reflexivity.
  - exact RSample.t_inv.
  - vm_compute. reflexivity.
  - vm_compute. reflexivity.
  - vm_compute. reflexivity.
  - exact E.
  - exact Hl.
  - eexists. split; [exact H|]. reflexivity.
Defined.

Lemma missing_handler_parks_witness :
  cy_path (DSample.run router_new) = Some ClaimTransaction
  /\ db_cache (cy_db (DSample.run router_new)) = ∅.
Proof.
  destruct (missing_handler_parks DSample.up true id DSample.show "app" RSample.descriptor retry_default
              (fun _ => 5) 60 60 RSample.unlocked router_new DSample.before DSample.claimed)
    as (H1 & H2 & _).
  - reflexivity.
  - exact RSample.t_inv.
  - vm_compute. reflexivity.
  - vm_compute. reflexivity.
  - vm_compute. reflexivity.
  - exact (conj H1 H2).
Defined.
