(* ===== verification/Worker.v ===== *)
(** * Worker: the run loops and the panic breaker

    Models [src/crates/kafkaman-worker/src/dispatcher.rs], the loops of
    [relay.rs] and [purger.rs], [run_loop.rs], the error type of [lib.rs] and
    [src/crates/kafkaman-core/src/dispatcher_config.rs].

    A loop is run against the list of what its iterations meet: the token when
    it is checked, what the cycle answered, and whether the sleep elapsed before
    the token was cancelled. A list that ends leaves the loop running. *)

From S2P Require Import Prelude Text Vocabulary Registry Outbox OutboxOrder Lifecycle Relay.
From S2P Require Import Dispatch.
Open Scope string_scope.
Open Scope list_scope.
Open Scope Z_scope.

(** ** Errors and configuration *)

(** [kafkaman_worker::Error]. *)
Inductive WorkerError :=
| WSqlx (e : Error)
| WCore (e : CoreError)
| ConsecutivePanickingRowLimitExceeded (limit : nat) (message_type : string) (message_id : option uuid)
| InvalidQueueMetricsConfig (field reason : string)
| QueueMetricsAlreadyRunning.

Definition worker_problem_type (e : WorkerError) : string :=
  match e with
  | WSqlx e => problem_type e
  | WCore e => core_problem_type e
  | ConsecutivePanickingRowLimitExceeded _ _ _ => BREAKER_TRIPPED
  | InvalidQueueMetricsConfig _ _ | QueueMetricsAlreadyRunning => CONFIGURATION
  end.

Record DispatcherConfig := {
  dispatcher_poll_interval : interval;
  dispatcher_lifecycle : LifecycleEmission;
  max_consecutive_panicking_rows : nat;
}.

Definition dispatcher_validate (cfg : DispatcherConfig) : result CoreError unit :=
  if dispatcher_poll_interval cfg =? 0 then
    Err (InvalidDispatcherConfig "poll_interval"
           "must be greater than zero; it is the only thing that yields between empty polls")
  else if Nat.eqb (max_consecutive_panicking_rows cfg) 0 then
    Err (InvalidDispatcherConfig "max_consecutive_panicking_rows"
           ("must be greater than zero; there is no way to spell "
            +:+ String dquote ("never stop" +:+ String dquote
            " here, because a handler that panics on every row is not something to keep retrying in silence")))
  else Ok tt.

(** ** Loops *)

(** What an iteration meets. *)
Record Iteration (R : Type) := { cancelled : bool; cycled : result Error R; slept : bool }.
Arguments cancelled {R} _.
Arguments cycled {R} _.
Arguments slept {R} _.

(** Where a loop is after its iterations: stopped with an answer, or running. *)
Inductive Loop (S : Type) := Stopped (r : result WorkerError unit) | Running (s : S).
Arguments Stopped {S} r.
Arguments Running {S} s.

(** The shared shape of [run] and [run_purger]: check the token, work, go on at
    once when there was work, sleep otherwise. The state counts the cycles and
    the sleeps. A failed cycle counts as no work. *)
Fixpoint work_loop {R} (work : R -> nat) (its : list (Iteration R)) (n : nat * nat)
  : Loop (nat * nat) :=
  match its with
  | [] => Running n
  | it :: its =>
      if cancelled it then Stopped (Ok tt)
      else
        let w := match cycled it with Ok r => work r | Err _ => 0%nat end in
        if Nat.ltb 0 w then work_loop work its (S n.1, n.2)
        else if slept it then work_loop work its (S n.1, S n.2)
        else Stopped (Ok tt)
  end.

(** [relay::run] and [run_purger]: validation first, once. *)
Definition run_relay (cfg : RelayConfig) (its : list (Iteration RelayStats)) : Loop (nat * nat) :=
  match relay_validate cfg with
  | Err e => Stopped (Err (WCore e))
  | Ok _ => work_loop rs_claimed its (0%nat, 0%nat)
  end.

Definition run_purger (cfg : PurgeConfig) (its : list (Iteration nat)) : Loop (nat * nat) :=
  match purge_validate cfg with
  | Err e => Stopped (Err (WCore e))
  | Ok _ => work_loop id its (0%nat, 0%nat)
  end.

(** [dispatch_outcome]. *)
Definition dispatch_outcome (s : DispatchStats) : string :=
  if Nat.ltb 0 (ds_processed s) then "processed"
  else if Nat.ltb 0 (ds_panicked s) then "panicked"
  else if Nat.ltb 0 (ds_failed s) then "failed"
  else "stale".

(** [note_panicking_row]. *)
Definition note_panicking_row (streak : gset uuid) (s : DispatchStats) : gset uuid :=
  match ds_panicked_message_id s with
  | Some mid => {[mid]} ∪ streak
  | None => streak
  end.

(** The streak after a cycle, and whether the breaker trips on it. *)
Definition next_streak (streak : gset uuid) (s : DispatchStats) : gset uuid :=
  if Nat.ltb 0 (ds_panicked s) then note_panicking_row streak s
  else if Nat.ltb 0 (ds_claimed s) then ∅
  else streak.

Definition trips (limit : nat) (streak : gset uuid) (s : DispatchStats) : bool :=
  Nat.ltb 0 (ds_panicked s) && Nat.leb limit (size (next_streak streak s)).

Fixpoint dispatcher_loop (limit : nat) (mt : string) (its : list (Iteration DispatchStats))
  (streak : gset uuid) : Loop (gset uuid) :=
  match its with
  | [] => Running streak
  | it :: its =>
      if cancelled it then Stopped (Ok tt)
      else match cycled it with
      | Ok s =>
          if trips limit streak s
          then Stopped (Err (ConsecutivePanickingRowLimitExceeded limit mt (ds_panicked_message_id s)))
          else if Nat.ltb 0 (ds_claimed s) then dispatcher_loop limit mt its (next_streak streak s)
          else if slept it then dispatcher_loop limit mt its (next_streak streak s)
          else Stopped (Ok tt)
      | Err _ =>
          if slept it then dispatcher_loop limit mt its streak else Stopped (Ok tt)
      end
  end.

Definition run_dispatcher (cfg : DispatcherConfig) (mt : string) (its : list (Iteration DispatchStats))
  : Loop (gset uuid) :=
  match dispatcher_validate cfg with
  | Err e => Stopped (Err (WCore e))
  | Ok _ => dispatcher_loop (max_consecutive_panicking_rows cfg) mt its ∅
  end.

(** ** The breaker *)

(** The rows that panicked in a list of iterations. *)
Definition panicked_rows (its : list (Iteration DispatchStats)) : gset uuid :=
  list_to_set (omap (fun it => match cycled it with
                               | Ok s => if Nat.ltb 0 (ds_panicked s) then ds_panicked_message_id s else None
                               | Err _ => None
                               end) its).

Lemma panicked_rows_cons it its :
  panicked_rows (it :: its)
  = match cycled it with
    | Ok s => if Nat.ltb 0 (ds_panicked s)
              then match ds_panicked_message_id s with Some m => {[m]} | None => ∅ end else ∅
    | Err _ => ∅
    end ∪ panicked_rows its.
Proof.
  unfold panicked_rows. simpl. destruct (cycled it) as [s|e]; [|set_solver].
  destruct (Nat.ltb 0 (ds_panicked s)); [|set_solver].
  destruct (ds_panicked_message_id s); simpl; set_solver.
Qed.

Lemma next_streak_subset streak s :
  next_streak streak s ⊆ streak ∪ (if Nat.ltb 0 (ds_panicked s)
    then match ds_panicked_message_id s with Some m => {[m]} | None => ∅ end else ∅).
Proof.
  unfold next_streak, note_panicking_row. destruct (Nat.ltb 0 (ds_panicked s)).
  - destruct (ds_panicked_message_id s); set_solver.
  - destruct (Nat.ltb 0 (ds_claimed s)); set_solver.
Qed.

(** The breaker trips only on [limit] distinct rows. *)
Lemma loop_trips_distinct limit mt its streak e :
  dispatcher_loop limit mt its streak = Stopped (Err e) ->
  (limit <= size (streak ∪ panicked_rows its))%nat.
Proof.
  revert streak. induction its as [|it its IH]; intros streak H; simpl in H; [done|].
  destruct (cancelled it); [done|]. rewrite panicked_rows_cons.
  destruct (cycled it) as [s|err] eqn:Ec.
  - pose proof (next_streak_subset streak s) as Hsub.
    set (new := if Nat.ltb 0 (ds_panicked s) then _ else _) in *.
    assert (Hmono : forall x, x ⊆ streak ∪ new ->
              (size (x ∪ panicked_rows its) <= size (streak ∪ (new ∪ panicked_rows its)))%nat).
    { intros x Hx. apply subseteq_size. set_solver. }
    destruct (trips limit streak s) eqn:Et.
    + unfold trips in Et. apply andb_true_iff in Et as [_ Et%Nat.leb_le].
      etrans; [exact Et|]. apply subseteq_size. set_solver.
    + assert (Hrec : dispatcher_loop limit mt its (next_streak streak s) = Stopped (Err e))
        by (destruct (Nat.ltb 0 (ds_claimed s)); [done|by destruct (slept it)]).
      etrans; [by apply IH|]. by apply Hmono.
  - destruct (slept it); [|done]. etrans; [by apply IH|]. apply subseteq_size. set_solver.
Qed.

(** A poison message never stops the service. If fewer distinct rows panic
    than the limit allows, the dispatcher does not trip, however often those
    rows are retried, however cycles fail and in whatever order. *)
Theorem poison_rows_never_trip (cfg : DispatcherConfig) (mt : string)
  (its : list (Iteration DispatchStats)) (Hcfg : dispatcher_validate cfg = Ok tt)
  (Hfew : (size (panicked_rows its) < max_consecutive_panicking_rows cfg)%nat) (e : WorkerError) :
  run_dispatcher cfg mt its <> Stopped (Err e).
Proof.
  unfold run_dispatcher. rewrite Hcfg. intros H%loop_trips_distinct.
  rewrite union_empty_l_L in H. lia.
Qed.

(** An iteration that nothing interrupts and whose cycle claimed a row. *)
Definition panic_of (mid : uuid) : Iteration DispatchStats :=
  {| cancelled := false;
     cycled := Ok {| ds_claimed := 1; ds_processed := 0; ds_failed := 1; ds_panicked := 1;
                     ds_panicked_message_id := Some mid |};
     slept := true |}.

Lemma loop_panics limit mt mids streak :
  NoDup mids -> (forall m, m ∈ mids -> m ∉ streak) ->
  (size streak < limit)%nat -> (limit <= size streak + length mids)%nat ->
  exists mid, dispatcher_loop limit mt (map panic_of mids) streak
              = Stopped (Err (ConsecutivePanickingRowLimitExceeded limit mt (Some mid))).
Proof.
  revert streak. induction mids as [|m mids IH]; intros streak Hn Hf Hlt Hge; simpl in *; [lia|].
  apply NoDup_cons in Hn as [Hm Hn].
  assert (Hsz : size ({[m]} ∪ streak) = S (size streak)).
  { rewrite size_union; [by rewrite size_singleton|]. assert (m ∉ streak) by (apply Hf; left). set_solver. }
  unfold trips, next_streak, note_panicking_row. simpl. rewrite Hsz.
  destruct (Nat.leb_spec limit (S (size streak))); [by exists m|].
  apply IH; [done| |lia|lia]. intros x Hx. specialize (Hf x ltac:(by right)). set_solver.
Qed.

(** A deploy that panics on every row is stopped, on the row that reaches
    the limit at the latest, with an error that names the breaker: as many
    distinct rows panicking one after another as the limit says trip it. *)
Theorem broken_deploy_trips (cfg : DispatcherConfig) (mt : string) (mids : list uuid)
  (Hcfg : dispatcher_validate cfg = Ok tt) (Hn : NoDup mids)
  (Hlen : (max_consecutive_panicking_rows cfg <= length mids)%nat) :
  exists mid e, run_dispatcher cfg mt (map panic_of mids) = Stopped (Err e)
  /\ e = ConsecutivePanickingRowLimitExceeded (max_consecutive_panicking_rows cfg) mt (Some mid)
  /\ worker_problem_type e = BREAKER_TRIPPED.
Proof.
  unfold run_dispatcher. rewrite Hcfg.
  destruct (loop_panics (max_consecutive_panicking_rows cfg) mt mids ∅) as [mid H]; [done|..].
  - intros m _. set_solver.
  - rewrite size_empty. unfold dispatcher_validate in Hcfg.
    destruct (dispatcher_poll_interval cfg =? 0), (Nat.eqb_spec (max_consecutive_panicking_rows cfg) 0);
      try done. lia.
  - rewrite size_empty. lia.
  - eexists mid, _. split; [exact H|done].
Qed.

(** Transient failures never stop a loop: once the configuration is valid,
    the relay and the purger stop only because they were told to, whatever their
    cycles answer, and they sleep only in cycles that found no work. *)
Theorem loops_survive_failures (rcfg : RelayConfig) (pcfg : PurgeConfig)
  (rits : list (Iteration RelayStats)) (pits : list (Iteration nat))
  (Hr : relay_validate rcfg = Ok tt) (Hp : purge_validate pcfg = Ok tt)
  (Hr' : Forall (fun it => cancelled it = false /\ slept it = true) rits)
  (Hp' : Forall (fun it => cancelled it = false /\ slept it = true) pits) :
  (exists sleeps, run_relay rcfg rits = Running (length rits, sleeps)
     /\ sleeps = length (List.filter (fun it => match cycled it with
          Ok s => Nat.eqb (rs_claimed s) 0 | Err _ => true end) rits))
  /\ (exists sleeps, run_purger pcfg pits = Running (length pits, sleeps)
     /\ sleeps = length (List.filter (fun it => match cycled it with
          Ok n => Nat.eqb n 0 | Err _ => true end) pits)).
Proof.
  assert (Hloop : forall {R} (work : R -> nat) its n,
    Forall (fun it => cancelled it = false /\ slept it = true) its ->
    work_loop work its n
    = Running (n.1 + length its, n.2 + length (List.filter (fun it => match cycled it with
          Ok r => Nat.eqb (work r) 0 | Err _ => true end) its))%nat).
  { intros R work its. induction its as [|it its IH]; intros [a b] Hall; simpl.
    { f_equal. f_equal; lia. }
    apply Forall_cons in Hall as [[-> Hs] Hall]. rewrite Hs.
    destruct (cycled it) as [r|e]; simpl.
    - destruct (work r) as [|k]; simpl; rewrite IH by done; simpl; f_equal; f_equal; lia.
    - rewrite IH by done. simpl. f_equal; f_equal; lia. }
  unfold run_relay, run_purger. rewrite Hr, Hp, !Hloop by done.
  split; eexists; split; reflexivity.
Qed.

(** ** The model evaluated *)

Definition ten : DispatcherConfig :=
  {| dispatcher_poll_interval := 250; dispatcher_lifecycle := {| per_message := false; sample_success := f64_of_Z 0 |};
     max_consecutive_panicking_rows := 10 |}.

Lemma poison_rows_never_trip_witness :
  run_dispatcher ten "order_placed" (repeat (panic_of 7) 25)
  <> Stopped (Err (ConsecutivePanickingRowLimitExceeded 10 "order_placed" (Some 7%N))).
Proof.
  apply (poison_rows_never_trip ten "order_placed" (repeat (panic_of 7) 25)); [reflexivity|].
  vm_compute. repeat constructor.
Defined.

Lemma broken_deploy_trips_witness :
  exists mid e, run_dispatcher ten "order_placed" (map panic_of (map N.of_nat (seq 0 12))) = Stopped (Err e)
  /\ e = ConsecutivePanickingRowLimitExceeded 10 "order_placed" (Some mid)
  /\ worker_problem_type e = BREAKER_TRIPPED.
Proof.
  apply (broken_deploy_trips ten "order_placed" (map N.of_nat (seq 0 12))).
  - reflexivity.
  - by apply (bool_decide_unpack _); vm_compute.
  - vm_compute. repeat constructor.
Defined.

(** A row whose handler returned an error. *)
Definition error_cycle : Iteration DispatchStats :=
  {| cancelled := false;
     cycled := Ok {| ds_claimed := 1; ds_processed := 0; ds_failed := 1; ds_panicked := 0;
                     ds_panicked_message_id := None |};
     slept := true |}.

(** Nine panics, one handler error, nine more panics: eighteen distinct rows have
    panicked, nothing has been processed, and the streak is nine. *)
Example erroring_row_ends_streak :
  match run_dispatcher ten "order_placed"
    (map panic_of (map N.of_nat (seq 0 9)) ++ [error_cycle] ++ map panic_of (map N.of_nat (seq 20 9))) with
  | Running streak => size streak = 9%nat
  | Stopped _ => False
  end.
Proof. vm_compute. reflexivity. Qed.

Definition idle {R} (r : result Error R) : Iteration R :=
  {| cancelled := false; cycled := r; slept := true |}.

Lemma loops_survive_failures_witness :
  run_relay relay_cfg [idle (Err conn_lost); idle (Ok (no_stats 3)); idle (Err conn_lost)]
  = Running (3%nat, 2%nat).
Proof.
  destruct (loops_survive_failures relay_cfg a_week
    [idle (Err conn_lost); idle (Ok (no_stats 3)); idle (Err conn_lost)] [])
    as [(sleeps & H & Hs) _]; [reflexivity|reflexivity|repeat constructor|constructor|].
  rewrite H, Hs. reflexivity.
Defined.
