(* ===== verification/Wire.v ===== *)
(** * Wire: from an outbox row to a Kafka record and back

    Models [src/crates/kafkaman-rdkafka/src/publisher.rs] (the record a claimed
    row becomes), [ingest_record.rs] (the envelope a consumed record becomes),
    [error.rs] beside them and the text form of timestamps in
    [src/crates/kafkaman-core/src/rfc9557.rs].

    The text forms of uuids, JSON values and timestamps belong to third-party
    crates: they are the operations of [Formats], and [FormatLaws] states what
    their documentation promises. *)

From S2P Require Import Prelude Text Vocabulary Trace Identity Topics Registry Outbox.
From S2P Require Import OutboxOrder Relay Retry Received.
From stdpp Require Import pretty.
Open Scope string_scope.
Open Scope list_scope.
Open Scope Z_scope.

(** ** UTF-8 *)

(** U+FFFD, the replacement character. *)
Definition REPLACEMENT : string := byte_str [239; 191; 189].

Definition is_cont (c : ascii) : bool := byte_in 128 191 c.
(** The second bytes a three-byte and a four-byte sequence admit. *)
Definition second_of_three (b c : ascii) : bool :=
  if byte_in 224 224 b then byte_in 160 191 c
  else if byte_in 237 237 b then byte_in 128 159 c
  else is_cont c.
Definition second_of_four (b c : ascii) : bool :=
  if byte_in 240 240 b then byte_in 144 191 c
  else if byte_in 244 244 b then byte_in 128 143 c
  else is_cont c.

(** [String::from_utf8_lossy]: every maximal ill-formed piece becomes one
    replacement character. *)
Fixpoint from_utf8_lossy (s : string) : string :=
  match s with
  | EmptyString => EmptyString
  | String b s1 =>
      if byte_in 0 127 b then String b (from_utf8_lossy s1)
      else if byte_in 194 223 b then
        match s1 with
        | String c s2 =>
            if is_cont c then String b (String c (from_utf8_lossy s2))
            else REPLACEMENT +:+ from_utf8_lossy s1
        | EmptyString => REPLACEMENT
        end
      else if byte_in 224 239 b then
        match s1 with
        | String c s2 =>
            if second_of_three b c then
              match s2 with
              | String d s3 =>
                  if is_cont d then String b (String c (String d (from_utf8_lossy s3)))
                  else REPLACEMENT +:+ from_utf8_lossy s2
              | EmptyString => REPLACEMENT
              end
            else REPLACEMENT +:+ from_utf8_lossy s1
        | EmptyString => REPLACEMENT
        end
      else if byte_in 240 244 b then
        match s1 with
        | String c s2 =>
            if second_of_four b c then
              match s2 with
              | String d s3 =>
                  if is_cont d then
                    match s3 with
                    | String e s4 =>
                        if is_cont e
                        then String b (String c (String d (String e (from_utf8_lossy s4))))
                        else REPLACEMENT +:+ from_utf8_lossy s3
                    | EmptyString => REPLACEMENT
                    end
                  else REPLACEMENT +:+ from_utf8_lossy s2
              | EmptyString => REPLACEMENT
              end
            else REPLACEMENT +:+ from_utf8_lossy s1
        | EmptyString => REPLACEMENT
        end
      else REPLACEMENT +:+ from_utf8_lossy s1
  end.

(** Well-formed UTF-8, as every Rust [String] is: decoding changes nothing. *)
Definition utf8 (s : string) : Prop := from_utf8_lossy s = s.

(** ** Records *)

(** A Kafka header; the value is bytes, and may be absent. *)
Record Header := { h_key : string; h_value : option string }.

(** What [rdkafka::message::Message] gives access to. *)
Record Message := {
  k_topic : string;
  k_partition : Z;
  k_offset : Z;
  k_key : option string;
  k_payload : option string;
  k_headers : option (list Header);
}.

(** [FutureRecord], what the producer is asked to send. *)
Record FutureRecord := {
  fr_topic : string;
  fr_key : option string;
  fr_payload : string;
  fr_headers : list Header;
}.

(** The record as a consumer sees it at the position the broker gave it. *)
Definition delivered (r : FutureRecord) (partition offset : Z) : Message :=
  {| k_topic := fr_topic r; k_partition := partition; k_offset := offset; k_key := fr_key r;
     k_payload := Some (fr_payload r); k_headers := Some (fr_headers r) |}.

(** ** Errors *)

(** [kafkaman_rdkafka::Error]; [RdObserver] is compiled with the observers of
    [Observers] alone. *)
Inductive RdError :=
| RdKafka (text : string)
| RdSqlx (e : Error)
| RdDatabase (e : SqlxError)
| RdSerde (text : string)
| RdDelivery (text : string)
| RdCore (e : CoreError)
| RdTopicAdmin (topic message : string)
| RdObserver (text : string)
| RdMissingPayload
| RdPayloadPanicked (message : string)
| RdMissingIdempotencyKey
| RdInvalidHeader (name message : string)
| RdUnexpectedTopic (expected actual : string)
| RdConsecutiveSkipLimitExceeded (limit : nat) (partition offset : Z).

(** [Error::ingest_failure_kind]: the poison-record policy. *)
Definition ingest_failure_kind (e : RdError) : option ReceivedIngestFailureKind :=
  match e with
  | RdMissingPayload => Some MissingPayload
  | RdPayloadPanicked _ => Some IInvalidPayload
  | RdMissingIdempotencyKey => Some MissingIdempotencyKeyKind
  | RdSerde _ => Some IInvalidPayload
  | RdInvalidHeader _ _ => Some InvalidHeader
  | RdUnexpectedTopic _ _ => Some UnexpectedTopic
  | RdKafka _ | RdSqlx _ | RdDatabase _ | RdDelivery _ | RdCore _ | RdTopicAdmin _ _
  | RdConsecutiveSkipLimitExceeded _ _ _ => None
  | RdObserver _ => None
  end.

Definition rd_problem_type (e : RdError) : string :=
  match e with
  | RdSqlx e => problem_type e
  | RdCore e => core_problem_type e
  | RdKafka _ | RdDatabase _ => INFRASTRUCTURE
  | RdObserver _ => INFRASTRUCTURE
  | RdSerde _ | RdMissingPayload | RdInvalidHeader _ _ => INVALID_PAYLOAD
  | RdPayloadPanicked _ => APPLICATION_PANICKED
  | RdMissingIdempotencyKey => IDEMPOTENCY
  | RdUnexpectedTopic _ _ => MESSAGE_ROUTING
  | RdDelivery _ => PUBLISH
  | RdTopicAdmin _ _ => TOPIC
  | RdConsecutiveSkipLimitExceeded _ _ _ => BREAKER_TRIPPED
  end.

Definition lift_sqlx {A} (r : result Error A) : result RdError A :=
  match r with Ok a => Ok a | Err e => Err (RdSqlx e) end.

(** The [Display] of the one core error a header can raise. *)
Definition bad_key_text (e : CoreError) : string :=
  match e with
  | InvalidIdempotencyKey value reason => "invalid idempotency key `" +:+ value +:+ "`: " +:+ reason
  | _ => ""
  end.

(** ** Third-party text forms *)

Class Formats := {
  uuid_to_string : uuid -> string;
  uuid_parse_str : string -> result string uuid;
  (** [Value::to_string], [serde_json::to_vec] and [serde_json::from_str]. *)
  json_to_string : json -> string;
  json_to_vec : json -> result string string;
  json_from_str : string -> option json;
  (** A JSON value without floating-point numbers. *)
  json_exact : json -> bool;
  (** A JSON object of arrays of strings. *)
  json_object : gmap string (list string) -> json;
  rfc3339_format : instant -> result string string;
  rfc3339_parse : string -> result string instant;
}.

Class FormatLaws `{Formats} : Prop := {
  uuid_text u : uuid_parse_str (uuid_to_string u) = Ok u /\ utf8 (uuid_to_string u);
  json_bytes v : utf8 (json_to_string v) /\ json_to_vec v = Ok (json_to_string v);
  (** What is printed can be read; it is read as it was when no float is in it,
      for the default reader of floats is exact only to the last place. *)
  json_parses v : is_Some (json_from_str (json_to_string v));
  json_text v : json_exact v = true -> json_from_str (json_to_string v) = Some v;
  rfc3339_text t s : rfc3339_format t = Ok s ->
    rfc3339_parse s = Ok t /\ avoids "[" s = true /\ all_bytes (byte_in 0 127) s = true;
}.

(** [rfc9557::render] and [rfc9557::parse]. *)
Definition render `{Formats} (t : instant) : result string string :=
  s ← rfc3339_format t; Ok (s +:+ "[UTC]").

Definition parse_instant `{Formats} (value : string) : result string instant :=
  rfc3339_parse (match split_once "[" value with Some (base, _) => base | None => value end).

(** ** Publishing *)

Definition is_trace_header (key : string) : bool :=
  bool_decide (to_ascii_lowercase key = "traceparent")
  || bool_decide (to_ascii_lowercase key = "tracestate").

(** The entries of a [BTreeMap], in key order. *)
Definition btree_entries (m : gmap string string) : list (string * string) :=
  map (fun k => (k, default "" (m !! k))) (btree_keys m).

Definition opt_header {A} (name : string) (render : A -> string) (o : option A) : list (string * string) :=
  match o with Some a => [(name, render a)] | None => [] end.

Section formats.
Context `{Formats}.

(** [managed_headers]. *)
Definition managed_headers (row : ClaimedOutboxRow) (trace : option TraceContext)
  : result RdError (list (string * string)) :=
  let o := claimed_row row in
  let r := orow_db o in
  at_ ← match render (occurred_at r) with
        | Ok s => Ok s
        | Err text => Err (RdInvalidHeader "kafkaman-occurred-at" text)
        end;
  let trace := match trace with Some t => Some t | None => orow_trace o end in
  Ok ([("kafkaman-message-id", uuid_to_string (message_id r));
       ("kafkaman-correlation-id", uuid_to_string (correlation_id r));
       ("kafkaman-occurred-at", at_)]
      ++ opt_header "kafkaman-idempotency-key" to_hex (orow_idempotency_key o)
      ++ opt_header "kafkaman-idempotency-source" json_to_string (idempotency_source r)
      ++ opt_header "kafkaman-causation-id" uuid_to_string (causation_id r)
      ++ opt_header "traceparent" traceparent trace
      ++ opt_header "tracestate" id (trace ≫= tracestate)).

Definition header_of (kv : string * string) : Header :=
  {| h_key := kv.1; h_value := Some kv.2 |}.

(** The record [publish_row_traced] builds: the user headers without the trace
    keys, then the managed ones. *)
Definition outgoing_record (row : ClaimedOutboxRow) (trace : option TraceContext)
  : result RdError FutureRecord :=
  let r := orow_db (claimed_row row) in
  payload ← match json_to_vec (payload r) with Ok b => Ok b | Err text => Err (RdSerde text) end;
  managed ← managed_headers row trace;
  let user := List.filter (fun kv => negb (is_trace_header kv.1)) (btree_entries (headers r)) in
  Ok {| fr_topic := topic r; fr_key := record_key (claimed_row row); fr_payload := payload;
        fr_headers := map header_of (user ++ managed) |}.

(** [publish_row_traced], the producer's [send] being a parameter. *)
Definition publish_row_traced (send : FutureRecord -> result string (Z * Z))
  (row : ClaimedOutboxRow) (trace : option TraceContext) : result RdError PublishAck :=
  record ← outgoing_record row trace;
  match send record with
  | Ok (partition, offset) =>
      Ok {| ack_topic := topic (orow_db (claimed_row row)); ack_partition := partition;
            ack_offset := offset |}
  | Err text => Err (RdDelivery text)
  end.

(** ** Consuming *)

(** [RecordHeaders]. *)
Record RecordHeaders := {
  user : gmap string string;
  reserved : gmap string string;
  trace_headers : gmap string string;
}.

(** [entry(k).or_insert(v)]. *)
Definition or_insert (k v : string) (m : gmap string string) : gmap string string :=
  match m !! k with Some _ => m | None => <[k := v]> m end.

(** One turn of the loop of [RecordHeaders::of]. *)
Definition add_header (rh : RecordHeaders) (h : Header) : RecordHeaders :=
  match h_value h with
  | None => rh
  | Some value =>
      let value := from_utf8_lossy value in
      let lowercased := to_ascii_lowercase (h_key h) in
      if is_trace_header lowercased then
        {| user := user rh; reserved := reserved rh;
           trace_headers := or_insert lowercased value (trace_headers rh) |}
      else if String.prefix RESERVED_HEADER_PREFIX lowercased then
        {| user := user rh; reserved := or_insert lowercased value (reserved rh);
           trace_headers := trace_headers rh |}
      else
        {| user := <[h_key h := value]> (user rh); reserved := reserved rh;
           trace_headers := trace_headers rh |}
  end.

Definition record_headers_of (m : Message) : RecordHeaders :=
  fold_left add_header (default [] (k_headers m))
    {| user := ∅; reserved := ∅; trace_headers := ∅ |}.

(** [RecordHeaders::trace_context]. *)
Definition trace_context (rh : RecordHeaders) : option TraceContext :=
  from_parts (trace_headers rh !! "traceparent") (trace_headers rh !! "tracestate").

(** [parse_uuid_header] on an optional header. *)
Definition parse_uuid_header (rh : RecordHeaders) (name : string) : result RdError (option uuid) :=
  match reserved rh !! name with
  | None => Ok None
  | Some value =>
      match uuid_parse_str value with
      | Ok u => Ok (Some u)
      | Err text => Err (RdInvalidHeader name text)
      end
  end.

Record DecodedRecord (P : Type) := { dec_envelope : Envelope P; dec_key : option string }.
#[global] Arguments dec_envelope {P} _.
#[global] Arguments dec_key {P} _.

(** [record_envelope]. [from_slice] is the application's [Deserialize] under
    [catch_unwind]; [fresh] and [now] are what [Envelope::new] draws. *)
Definition record_envelope {P} (from_slice : string -> unwinding (result string P))
  (fresh : uuid * uuid) (now : instant) (m : Message) (expected_topic : string) (rh : RecordHeaders)
  : result RdError (DecodedRecord P) :=
  if negb (bool_decide (k_topic m = expected_topic))
  then Err (RdUnexpectedTopic expected_topic (k_topic m))
  else
    bytes ← ok_or RdMissingPayload (k_payload m);
    payload ← match from_slice bytes with
              | Panicked p => Err (RdPayloadPanicked (panic_message p))
              | Returned (Err text) => Err (RdSerde text)
              | Returned (Ok p) => Ok p
              end;
    hex ← ok_or RdMissingIdempotencyKey (reserved rh !! "kafkaman-idempotency-key");
    key ← match from_hex hex with
          | Ok k => Ok k
          | Err e => Err (RdInvalidHeader "kafkaman-idempotency-key" (bad_key_text e))
          end;
    let source := reserved rh !! "kafkaman-idempotency-source" ≫= json_from_str in
    at_ ← match reserved rh !! "kafkaman-occurred-at" with
          | None => Ok now
          | Some value => match parse_instant value with
                          | Ok t => Ok t
                          | Err text => Err (RdInvalidHeader "kafkaman-occurred-at" text)
                          end
          end;
    mid ← parse_uuid_header rh "kafkaman-message-id";
    cid ← parse_uuid_header rh "kafkaman-correlation-id";
    causation ← parse_uuid_header rh "kafkaman-causation-id";
    Ok {| dec_envelope :=
            {| env_message_id := default fresh.1 mid;
               env_idempotency_key := Some {| idem_key := key; idem_source := source |};
               env_correlation_id := default fresh.2 cid; env_causation_id := causation;
               env_headers := user rh; env_payload := payload; env_occurred_at := at_ |};
          dec_key := k_key m |}.

(** ** Quarantine records *)

(** The grouping of [all_headers]: every value of every key, in order. *)
Definition all_headers (hs : option (list Header)) : gmap string (list string) :=
  fold_left (fun grouped h =>
      <[h_key h := default [] (grouped !! h_key h)
                   ++ [from_utf8_lossy (default "" (h_value h))]]> grouped)
    (default [] hs) ∅.

(** [ingest_failure_record]. *)
Definition ingest_failure_record (message_type : string) (m : Message) (expected_topic : string)
  (kind : ReceivedIngestFailureKind) (error : string) : ReceivedIngestFailure :=
  {| if_source_topic := k_topic m; if_source_partition := k_partition m;
     if_source_offset := k_offset m; if_key := k_key m;
     if_headers := json_object (all_headers (k_headers m)); if_payload := k_payload m;
     if_message_type := message_type; if_expected_topic := expected_topic; if_kind := kind;
     if_error := error |}.
End formats.

(** ** Letter case and prefixes *)

Lemma ascii_to_lower_idemp c : ascii_to_lower (ascii_to_lower c) = ascii_to_lower c.
Proof. by destruct c as [[] [] [] [] [] [] [] []]. Qed.

Lemma to_ascii_lowercase_idemp s : to_ascii_lowercase (to_ascii_lowercase s) = to_ascii_lowercase s.
Proof. induction s as [|c s IH]; simpl; [done|]. by rewrite ascii_to_lower_idemp, IH. Qed.

Lemma str_take_S n c s : str_take (S n) (String c s) = String c (str_take n s).
Proof. done. Qed.

Lemma prefix_lower p s :
  Nat.leb (String.length p) (String.length s)
    && bool_decide (to_ascii_lowercase (str_take (String.length p) s) = p)
  = String.prefix p (to_ascii_lowercase s).
Proof.
  revert s. induction p as [|a p IH]; intros s.
  { by destruct s. }
  destruct s as [|c s]; [done|]. cbn [String.length Nat.leb to_ascii_lowercase String.prefix].
  rewrite str_take_S. cbn [to_ascii_lowercase].
  destruct (Ascii.ascii_dec a (ascii_to_lower c)) as [->|Hne].
  - rewrite <- IH. f_equal. apply bool_decide_ext. split; [by intros [= ?]|by intros ->].
  - rewrite bool_decide_false by congruence. apply andb_false_r.
Qed.

Lemma reserved_key_lower k : is_reserved_key k = String.prefix RESERVED_HEADER_PREFIX (to_ascii_lowercase k).
Proof. apply (prefix_lower RESERVED_HEADER_PREFIX). Qed.

Lemma is_trace_lower k : is_trace_header (to_ascii_lowercase k) = is_trace_header k.
Proof. unfold is_trace_header. by rewrite to_ascii_lowercase_idemp. Qed.

Lemma trace_not_reserved k : is_trace_header k = true -> is_reserved_key k = false.
Proof.
  rewrite reserved_key_lower. unfold is_trace_header.
  intros [E|E]%orb_true_iff; apply bool_decide_eq_true in E; by rewrite E.
Qed.

(** ** The three namespaces *)

(** The decoded values of the headers whose key passes a test, in order. *)
Definition values (p : string -> bool) (hs : list Header) : list string :=
  omap (fun h => if p (h_key h) then from_utf8_lossy <$> h_value h else None) hs.

Definition named (n key : string) : bool := bool_decide (to_ascii_lowercase key = n).

Lemma or_insert_lookup k v m n :
  or_insert k v m !! n
  = match m !! n with Some x => Some x | None => if bool_decide (k = n) then Some v else None end.
Proof.
  unfold or_insert. destruct (m !! k) eqn:Hk; case_bool_decide as Hn; subst.
  - by rewrite Hk.
  - by destruct (m !! n).
  - by rewrite lookup_insert_eq, Hk.
  - rewrite lookup_insert_ne by done. by destruct (m !! n).
Qed.

Lemma add_header_reserved rh h n : String.prefix RESERVED_HEADER_PREFIX n = true ->
  reserved (add_header rh h) !! n
  = match reserved rh !! n with Some x => Some x | None => head (values (named n) [h]) end.
Proof.
  intros Hn. unfold add_header, values, named. simpl.
  destruct (h_value h) as [v|]; simpl.
  2: { by destruct (bool_decide _), (reserved rh !! n). }
  destruct (is_trace_header (to_ascii_lowercase (h_key h))) eqn:Ht; simpl.
  { case_bool_decide as E; [|by destruct (reserved rh !! n)].
    rewrite is_trace_lower in Ht. apply trace_not_reserved in Ht.
    rewrite reserved_key_lower, E in Ht. congruence. }
  destruct (String.prefix _ (to_ascii_lowercase (h_key h))) eqn:Hp; simpl.
  - rewrite or_insert_lookup. by case_bool_decide.
  - case_bool_decide as E; [congruence|]. by destruct (reserved rh !! n).
Qed.

Lemma add_header_trace rh h n : is_trace_header n = true -> to_ascii_lowercase n = n ->
  trace_headers (add_header rh h) !! n
  = match trace_headers rh !! n with Some x => Some x | None => head (values (named n) [h]) end.
Proof.
  intros Hn Hl. unfold add_header, values, named. simpl.
  destruct (h_value h) as [v|]; simpl.
  2: { by destruct (bool_decide _), (trace_headers rh !! n). }
  destruct (is_trace_header (to_ascii_lowercase (h_key h))) eqn:Ht; simpl.
  { rewrite or_insert_lookup. by case_bool_decide. }
  case_bool_decide as E; [by rewrite E, Hn in Ht|].
  destruct (String.prefix _ _); simpl; by destruct (trace_headers rh !! n).
Qed.

(** The keys an application may see. *)
Definition is_user_key (k : string) : bool := negb (is_trace_header k) && negb (is_reserved_key k).

Lemma add_header_user rh h k :
  user (add_header rh h) !! k
  = match last (values (fun key => bool_decide (key = k) && is_user_key k) [h]) with
    | Some v => Some v | None => user rh !! k end.
Proof.
  unfold add_header, values. simpl. destruct (h_value h) as [v|]; simpl.
  2: { by destruct (_ && _). }
  rewrite is_trace_lower, <- reserved_key_lower. unfold is_user_key.
  case_bool_decide as E; simpl.
  - subst k. destruct (is_trace_header (h_key h)); simpl; [done|].
    destruct (is_reserved_key (h_key h)); simpl; [done|]. by rewrite lookup_insert_eq.
  - destruct (is_trace_header (h_key h)); simpl; [done|].
    destruct (is_reserved_key (h_key h)); simpl; [done|]. by rewrite lookup_insert_ne.
Qed.

Lemma values_app p hs hs' : values p (hs ++ hs') = values p hs ++ values p hs'.
Proof. apply omap_app. Qed.
Lemma values_cons p h hs : values p (h :: hs) = values p [h] ++ values p hs.
Proof. apply (values_app p [h]). Qed.

Lemma values_guard (p : string -> bool) (b : bool) hs :
  values (fun key => p key && b) hs = if b then values p hs else [].
Proof.
  induction hs as [|h hs IH]; [by destruct b|].
  rewrite (values_cons _ h hs), IH, (values_cons p h hs). unfold values. simpl.
  destruct b; [by rewrite andb_true_r|by rewrite andb_false_r].
Qed.

Lemma head_app_match {A} (l l' : list A) :
  head (l ++ l') = match head l with Some x => Some x | None => head l' end.
Proof. by destruct l. Qed.
Lemma last_app_match {A} (l l' : list A) :
  last (l ++ l') = match last l' with Some x => Some x | None => last l end.
Proof. rewrite last_app. by destruct (last l'). Qed.

Lemma fold_reserved n hs rh : String.prefix RESERVED_HEADER_PREFIX n = true ->
  reserved (fold_left add_header hs rh) !! n
  = match reserved rh !! n with Some x => Some x | None => head (values (named n) hs) end.
Proof.
  intros Hn. revert rh. induction hs as [|h hs IH]; intros rh; [simpl; by destruct (reserved rh !! n)|].
  simpl fold_left. rewrite IH, add_header_reserved, (values_cons _ h hs), head_app_match by done.
  by destruct (reserved rh !! n), (head (values (named n) [h])).
Qed.

Lemma fold_trace n hs rh : is_trace_header n = true -> to_ascii_lowercase n = n ->
  trace_headers (fold_left add_header hs rh) !! n
  = match trace_headers rh !! n with Some x => Some x | None => head (values (named n) hs) end.
Proof.
  intros Hn Hl. revert rh. induction hs as [|h hs IH]; intros rh; [simpl; by destruct (trace_headers rh !! n)|].
  simpl fold_left. rewrite IH, add_header_trace, (values_cons _ h hs), head_app_match by done.
  by destruct (trace_headers rh !! n), (head (values (named n) [h])).
Qed.

Lemma fold_user k hs rh :
  user (fold_left add_header hs rh) !! k
  = match last (values (fun key => bool_decide (key = k) && is_user_key k) hs) with
    | Some v => Some v | None => user rh !! k end.
Proof.
  revert rh. induction hs as [|h hs IH]; intros rh; [done|].
  simpl fold_left. rewrite IH, add_header_user, (values_cons _ h hs), last_app_match.
  by destruct (last (values (fun key => bool_decide (key = k) && is_user_key k) hs)).
Qed.

(** What a record's headers mean. An application sees a header exactly when
    its key is neither in the reserved namespace nor a trace key, in any letter
    case, and then the last value sent; so a record that was accepted never
    fails the reserved-header guard of the insert. kafkaman reads of each
    reserved key and each trace key, in any letter case, the first value sent,
    so no later header can override what the relay wrote. *)
Theorem header_namespaces (m : Message) :
  let rh := record_headers_of m in
  let hs := default [] (k_headers m) in
  (forall k, user rh !! k = if is_user_key k then last (values (fun key => bool_decide (key = k)) hs)
                            else None)
  /\ reserved_header (user rh) = None
  /\ (forall n, String.prefix RESERVED_HEADER_PREFIX n = true ->
        reserved rh !! n = head (values (named n) hs))
  /\ trace_headers rh !! "traceparent" = head (values (named "traceparent") hs)
  /\ trace_headers rh !! "tracestate" = head (values (named "tracestate") hs).
Proof.
  set (hs := default [] (k_headers m)). simpl.
  assert (Hu : forall k, user (record_headers_of m) !! k
    = if is_user_key k then last (values (fun key => bool_decide (key = k)) hs) else None).
  { intros k. unfold record_headers_of. fold hs. rewrite fold_user. simpl. rewrite lookup_empty.
    rewrite values_guard. destruct (is_user_key k); [by destruct (last _)|done]. }
  split_and!; [exact Hu| | | |].
  - destruct (reserved_header _) as [k|] eqn:E; [|done].
    apply find_some in E as [Hin Hr]. apply list_elem_of_In, elem_of_btree_keys in Hin as [v Hv].
    rewrite Hu in Hv. unfold is_user_key in Hv. by rewrite Hr, andb_false_r in Hv.
  - intros n Hn. unfold record_headers_of. fold hs. by rewrite fold_reserved.
  - unfold record_headers_of. fold hs. by rewrite fold_trace.
  - unfold record_headers_of. fold hs. by rewrite fold_trace.
Qed.

(** ** One hop *)

Lemma utf8_ascii s : all_bytes (byte_in 0 127) s = true -> utf8 s.
Proof.
  unfold utf8. induction s as [|c s IH]; [done|]. cbn [all_bytes from_utf8_lossy].
  intros [Hc Hs]%andb_true_iff. by rewrite Hc, IH.
Qed.

Lemma ident_byte_ascii c : ident_byte c = true -> byte_in 0 127 c = true.
Proof. by destruct c as [[] [] [] [] [] [] [] []]. Qed.

Lemma to_hex_utf8 k : utf8 (to_hex k).
Proof.
  apply utf8_ascii. induction k as [|b k IH]; [done|]. cbn [to_hex all_bytes].
  by rewrite !ident_byte_ascii, IH by apply hex_digit_ident.
Qed.

Lemma values_none p l : Forall (fun kv => p kv.1 = false) l -> values p (map header_of l) = [].
Proof.
  induction 1 as [|kv l Hkv _ IH]; [done|]. simpl map. rewrite values_cons, IH, app_nil_r.
  unfold values. simpl. by rewrite Hkv.
Qed.

(** The user half of a record's headers. *)
Definition user_part (h : gmap string string) : list (string * string) :=
  List.filter (fun kv => negb (is_trace_header kv.1)) (btree_entries h).

Lemma btree_keys_NoDup m : NoDup (btree_keys m).
Proof.
  unfold btree_keys. rewrite merge_sort_Permutation. apply (NoDup_fst_map_to_list (M := gmap string)).
Qed.

Lemma user_part_values h k : is_trace_header k = false ->
  values (fun key => bool_decide (key = k)) (map header_of (user_part h))
  = option_list (from_utf8_lossy <$> h !! k).
Proof.
  intros Hk. unfold user_part, btree_entries.
  assert (Hl : forall l, NoDup l ->
    values (fun key => bool_decide (key = k)) (map header_of (List.filter
      (fun kv => negb (is_trace_header kv.1)) (map (fun k => (k, default "" (h !! k))) l)))
    = if bool_decide (k ∈ l) then [from_utf8_lossy (default "" (h !! k))] else []).
  { induction 1 as [|x l Hx _ IH]; [done|]. cbn [map List.filter fst].
    destruct (is_trace_header x) eqn:Hxt; cbn [negb map].
    - rewrite IH. assert (x <> k) by congruence. by rewrite (bool_decide_ext (k ∈ x :: l) (k ∈ l)) by set_solver.
    - rewrite values_cons, IH. unfold values at 1. simpl. destruct (decide (x = k)) as [->|E].
      + rewrite (bool_decide_false (k ∈ l)), (bool_decide_true (k = k)) by done.
        by rewrite bool_decide_true by set_solver.
      + rewrite (bool_decide_false (x = k)) by done.
        by rewrite (bool_decide_ext (k ∈ x :: l) (k ∈ l)) by set_solver. }
  rewrite Hl by apply btree_keys_NoDup. destruct (h !! k) as [v|] eqn:E.
  - rewrite bool_decide_true; [done|]. apply elem_of_btree_keys. by rewrite E.
  - rewrite bool_decide_false; [done|]. rewrite elem_of_btree_keys, E. by intros [].
Qed.

Lemma user_part_keys h kv : kv ∈ user_part h -> is_Some (h !! kv.1) /\ is_trace_header kv.1 = false.
Proof.
  unfold user_part, btree_entries. intros [Hin Ht%negb_true_iff]%elem_of_sfilter. split; [|done].
  apply list_elem_of_In, in_map_iff in Hin as (k & <- & Hk%list_elem_of_In). by apply elem_of_btree_keys.
Qed.

(** No user header is taken for a managed one. *)
Lemma user_part_reserved h n :
  (forall k, is_Some (h !! k) -> is_reserved_key k = true -> k = ENTITY_KEY_HEADER) ->
  String.prefix RESERVED_HEADER_PREFIX n = true -> n <> ENTITY_KEY_HEADER ->
  values (named n) (map header_of (user_part h)) = [].
Proof.
  intros Hr Hp Hn. apply values_none, Forall_forall. intros kv [Hs Ht]%user_part_keys.
  unfold named. apply bool_decide_eq_false. intros E.
  apply Hn. rewrite <- E. rewrite (Hr kv.1 Hs); [done|]. by rewrite reserved_key_lower, E.
Qed.

Lemma user_part_trace h n : is_trace_header n = true -> values (named n) (map header_of (user_part h)) = [].
Proof.
  intros Hn. apply values_none, Forall_forall. intros kv [_ Ht]%user_part_keys.
  unfold named. apply bool_decide_eq_false. intros E. by rewrite <- is_trace_lower, E, Hn in Ht.
Qed.

Lemma values_header p kv l :
  values p (map header_of (kv :: l))
  = (if p kv.1 then [from_utf8_lossy kv.2] else []) ++ values p (map header_of l).
Proof. simpl map. rewrite values_cons. unfold values at 1. simpl. by destruct (p kv.1). Qed.

Lemma values_opt {A} p name (f : A -> string) o :
  values p (map header_of (opt_header name f o))
  = if p name then option_list (from_utf8_lossy ∘ f <$> o) else [].
Proof.
  destruct o as [a|]; [|by destruct (p name)]. cbn [opt_header].
  rewrite (values_header p (name, f a) []). simpl. by destruct (p name).
Qed.

Section hop.
Context `{FormatLaws}.

(** The context a publish writes: the one it was given, or the stored one. *)
Definition sent_trace (row : ClaimedOutboxRow) (trace : option TraceContext) : option TraceContext :=
  match trace with Some t => Some t | None => orow_trace (claimed_row row) end.

Ltac managed_value :=
  repeat first [rewrite values_header | rewrite map_app | rewrite values_app | rewrite values_opt];
  simpl;
  rewrite ?app_nil_r.

Lemma managed_values row trace managed :
  managed_headers row trace = Ok managed ->
  let o := claimed_row row in
  let r := orow_db o in
  let v n := head (values (named n) (map header_of managed)) in
  v "kafkaman-message-id" = Some (from_utf8_lossy (uuid_to_string (message_id r)))
  /\ v "kafkaman-correlation-id" = Some (from_utf8_lossy (uuid_to_string (correlation_id r)))
  /\ (exists at_, render (occurred_at r) = Ok at_ /\ v "kafkaman-occurred-at" = Some (from_utf8_lossy at_))
  /\ v "kafkaman-idempotency-key" = from_utf8_lossy ∘ to_hex <$> orow_idempotency_key o
  /\ v "kafkaman-idempotency-source" = from_utf8_lossy ∘ json_to_string <$> idempotency_source r
  /\ v "kafkaman-causation-id" = from_utf8_lossy ∘ uuid_to_string <$> causation_id r
  /\ v "traceparent" = from_utf8_lossy ∘ traceparent <$> sent_trace row trace
  /\ v "tracestate" = from_utf8_lossy <$> (sent_trace row trace ≫= tracestate)
  /\ Forall (fun kv => is_user_key kv.1 = false) managed.
Proof.
  unfold managed_headers. destruct (render _) as [at_|text]; [|done]. simpl.
  intros [= <-]. fold (sent_trace row trace). split_and!.
  - by managed_value.
  - by managed_value.
  - exists at_. split; [done|]. by managed_value.
  - managed_value. by destruct (orow_idempotency_key _).
  - managed_value. by destruct (idempotency_source _).
  - managed_value. by destruct (causation_id _).
  - managed_value. by destruct (sent_trace row trace).
  - managed_value. destruct (sent_trace row trace) as [t|]; simpl; [by destruct (tracestate t)|done].
  - repeat (apply Forall_cons; split; [done|]). repeat (apply Forall_app; split);
      match goal with |- Forall _ (opt_header _ _ ?o) => destruct o; repeat constructor end.
Qed.

Lemma outgoing_fields row trace record : outgoing_record row trace = Ok record ->
  let o := claimed_row row in
  exists managed, managed_headers row trace = Ok managed
  /\ record = {| fr_topic := topic (orow_db o); fr_key := record_key o;
                 fr_payload := json_to_string (payload (orow_db o));
                 fr_headers := map header_of (user_part (headers (orow_db o)) ++ managed) |}.
Proof.
  unfold outgoing_record. destruct (json_bytes (payload (orow_db (claimed_row row)))) as (_ & ->).
  simpl. destruct (managed_headers row trace) as [managed|]; [|done]. intros [= <-]. eauto.
Qed.

Lemma lookup_user row trace record p q k : outgoing_record row trace = Ok record ->
  user (record_headers_of (delivered record p q)) !! k
  = if is_user_key k then from_utf8_lossy <$> headers (orow_db (claimed_row row)) !! k else None.
Proof.
  intros (managed & Hm & ->)%outgoing_fields.
  apply managed_values in Hm as (_ & _ & _ & _ & _ & _ & _ & _ & Hm).
  unfold record_headers_of, delivered. simpl. rewrite fold_user, values_guard. simpl.
  destruct (is_user_key k) eqn:Hk; [|done].
  rewrite map_app, values_app, user_part_values, (values_none _ managed), app_nil_r.
  - by destruct (headers _ !! k).
  - eapply Forall_impl; [exact Hm|]. intros kv Hkv. apply bool_decide_eq_false. congruence.
  - unfold is_user_key in Hk. apply andb_true_iff in Hk as [Hk _]. by apply negb_true_iff in Hk.
Qed.

Lemma lookup_trace row trace record p q : outgoing_record row trace = Ok record ->
  let rh := record_headers_of (delivered record p q) in
  trace_headers rh !! "traceparent" = from_utf8_lossy ∘ traceparent <$> sent_trace row trace
  /\ trace_headers rh !! "tracestate" = from_utf8_lossy <$> (sent_trace row trace ≫= tracestate).
Proof.
  intros (managed & Hm & ->)%outgoing_fields.
  apply managed_values in Hm as (_ & _ & _ & _ & _ & _ & <- & <- & _).
  unfold record_headers_of, delivered. simpl.
  split; rewrite fold_trace, map_app, values_app, user_part_trace by done; simpl;
    by rewrite lookup_empty.
Qed.

(** A timestamp survives its text. *)
Lemma render_parse t s : render t = Ok s -> parse_instant s = Ok t /\ utf8 s.
Proof.
  unfold render, parse_instant. destruct (rfc3339_format t) as [base|] eqn:E; [|done].
  simpl. intros [= <-]. apply rfc3339_text in E as (Hp & Ha & Hb).
  rewrite (split_once_intro "[" base "UTC]") by done. split; [done|].
  apply utf8_ascii. by rewrite all_bytes_append, Hb.
Qed.

(** A source as its header text is read. *)
Definition reread (source : option json) : option json :=
  source ≫= fun j => json_from_str (json_to_string j).

Lemma reread_exact source :
  (forall j, source = Some j -> json_exact j = true) -> reread source = source.
Proof. destruct source as [j|]; [|done]. intros Hj. by apply json_text, Hj. Qed.

(** What a consumer decodes of a published row. *)
Lemma hop_decodes {P} (from_slice : string -> unwinding (result string P)) (fresh : uuid * uuid)
  now row trace record p q key (v : P) :
  let o := claimed_row row in
  let r := orow_db o in
  outgoing_record row trace = Ok record ->
  (forall k, is_Some (headers r !! k) -> is_reserved_key k = true -> k = ENTITY_KEY_HEADER) ->
  orow_idempotency_key o = Some key -> key_ok key ->
  from_slice (json_to_string (payload r)) = Returned (Ok v) ->
  let m := delivered record p q in
  record_envelope from_slice fresh now m (topic r) (record_headers_of m)
  = Ok {| dec_envelope :=
            {| env_message_id := message_id r;
               env_idempotency_key := Some {| idem_key := key; idem_source := reread (idempotency_source r) |};
               env_correlation_id := correlation_id r; env_causation_id := causation_id r;
               env_headers := user (record_headers_of m); env_payload := v;
               env_occurred_at := occurred_at r |};
          dec_key := record_key o |}.
Proof.
  intros o r Hrec Hres Hkey Hok Hv m.
  destruct (outgoing_fields _ _ _ Hrec) as (managed & Hm & Er).
  assert (Hread : forall n, String.prefix RESERVED_HEADER_PREFIX n = true -> n <> ENTITY_KEY_HEADER ->
    reserved (record_headers_of m) !! n = head (values (named n) (map header_of managed))).
  { intros n Hp Hn. unfold m, record_headers_of, delivered. rewrite Er. simpl.
    rewrite fold_reserved by done. simpl.
    by rewrite lookup_empty, map_app, values_app, user_part_reserved. }
  apply managed_values in Hm as (Vid & Vcorr & (at_ & Hat & Vat) & Vkey & Vsrc & Vcaus & _).
  apply render_parse in Hat as [Hat Huat].
  unfold record_envelope, parse_uuid_header. rewrite !Hread, Vid, Vcorr, Vat, Vkey, Vsrc, Vcaus by done.
  unfold m. rewrite Er. simpl. rewrite bool_decide_true by done. simpl.
  fold o r. rewrite Hv, Hkey. simpl. rewrite to_hex_utf8, from_hex_to_hex, Huat, Hat by done. simpl.
  destruct (uuid_text (message_id r)) as [Hid ->], (uuid_text (correlation_id r)) as [Hcorr ->].
  rewrite Hid, Hcorr. simpl. destruct (causation_id r) as [c|]; simpl.
  - destruct (uuid_text c) as [Hc ->]. rewrite Hc. simpl.
    destruct (idempotency_source r) as [j|]; simpl; [|done]. 
      destruct (json_bytes j) as (-> & _), (json_parses j) as [j' Hj]. by rewrite Hj.
  - destruct (idempotency_source r) as [j|]; simpl; [|done]. 
      destruct (json_bytes j) as (-> & _), (json_parses j) as [j' Hj]. by rewrite Hj.
Qed.
End hop.

(** ** From envelope to envelope *)

(** The row an accepted enqueue stores carries the envelope. *)
Record carries {P} `{KafkaMessage P} (tb : Table) (evt : Envelope P) (idem : IdempotencyIdentity)
  (row : DbRow) : Prop := {
  carried_id : message_id row = env_message_id evt;
  carried_key : idempotency_key row = Some (to_hex (idem_key idem));
  carried_source : idempotency_source row = idem_source idem;
  carried_topic : topic row = desc_topic (tbl_desc tb);
  carried_correlation : correlation_id row = env_correlation_id evt;
  carried_causation : causation_id row = env_causation_id evt;
  carried_time : occurred_at row = timestamptz (env_occurred_at evt);
  carried_payload : to_value (env_payload evt) = Returned (Ok (payload row));
  carried_headers : exists pk ek, headers row = outgoing_headers pk ek (env_headers evt);
}.

Lemma enqueued_row {P} `{KafkaMessage P} cfg now visible (evt : Envelope P) trace ob ob' tb :
  enqueue_inner cfg now visible evt trace ob = (Ok tt, ob') ->
  for_message OutboxKind P cfg = Ok tb ->
  exists idem row, env_idempotency_key evt = Some idem /\ reserved_header (env_headers evt) = None
  /\ row ∈ rows ob' /\ status row = Pending /\ carries tb evt idem row.
Proof.
  unfold enqueue_inner, mbind, eff_bind, lift. intros Hen Htb. rewrite Htb in Hen. simpl in Hen.
  destruct (reserved_header (env_headers evt)) as [h|]; simpl in Hen; [done|].
  destruct (partition_key (env_payload evt)) as [pk|p]; simpl in Hen; [|done].
  destruct (entity_key (env_payload evt)) as [ek|p] eqn:Hek; simpl in Hen; [|done].
  destruct (to_value (env_payload evt)) as [[v|t]|p] eqn:Hv; simpl in Hen; [|done..].
  destruct (env_idempotency_key evt) as [idem|] eqn:Hid.
  - revert Hen. unfold undoing.
    match goal with |- context [insert_outbox_row now ?m Pending None ?ob1] =>
      pose proof (insert_cases now m Pending None ob1) as Hc;
      destruct (insert_outbox_row now m Pending None ob1) as [res ob1'] end.
    destruct Hc as [(e & -> & _)|(-> & row & ((Hob & _) & Hm & Hs & _))]; [done..| |]; simpl;
      intros [= <-].
    exists idem, row. split_and!; [done..|rewrite Hob; apply elem_of_snoc; by right|done|].
    split; rewrite ?Hm; simpl; eauto.
  - revert Hen.
    match goal with |- context [insert_outbox_row now ?m ?s ?l ?ob1] =>
      destruct (insert_outbox_row now m s l ob1) as [[]] end; done.
Qed.

Lemma outgoing_reserved pk ek hs : reserved_header hs = None ->
  forall k, is_Some (outgoing_headers pk ek hs !! k) -> is_reserved_key k = true -> k = ENTITY_KEY_HEADER.
Proof.
  intros Hn k Hs Hr. destruct (decide (k = ENTITY_KEY_HEADER)) as [|Hk]; [done|]. exfalso.
  assert (Hh : is_Some (hs !! k)).
  { unfold outgoing_headers in Hs. destruct (bool_decide _); [done|]. by rewrite lookup_insert_ne in Hs. }
  eapply find_none in Hn; [by rewrite Hr in Hn|]. by apply list_elem_of_In, elem_of_btree_keys.
Qed.

(** The headers an application gets back: its own, without trace keys. *)
Definition kept_headers (hs : gmap string string) : gmap string string :=
  filter (fun kv => is_trace_header kv.1 = false) hs.

(** The envelope as the consumer has it. *)
Definition as_received {P} (evt : Envelope P) : Envelope P :=
  {| env_message_id := env_message_id evt; env_idempotency_key := env_idempotency_key evt;
     env_correlation_id := env_correlation_id evt; env_causation_id := env_causation_id evt;
     env_headers := kept_headers (env_headers evt); env_payload := env_payload evt;
     env_occurred_at := timestamptz (env_occurred_at evt) |}.

Lemma received_headers `{FormatLaws} row trace record p q pk ek hs :
  outgoing_record row trace = Ok record ->
  headers (orow_db (claimed_row row)) = outgoing_headers pk ek hs ->
  reserved_header hs = None -> map_Forall (fun _ v => utf8 v) hs ->
  user (record_headers_of (delivered record p q)) = kept_headers hs.
Proof.
  intros Hrec Hh Hn Hu. apply map_eq. intros k. rewrite (lookup_user _ _ _ _ _ _ Hrec), Hh.
  unfold kept_headers, is_user_key. rewrite map_lookup_filter.
  assert (Hr : is_Some (hs !! k) -> is_reserved_key k = false).
  { intros Hk. eapply find_none in Hn; [exact Hn|]. by apply list_elem_of_In, elem_of_btree_keys. }
  unfold outgoing_headers.
  destruct (is_trace_header k) eqn:Ht; simpl.
  { destruct (hs !! k); simpl; [|done]. case_guard; simpl in *; congruence. }
  destruct (is_reserved_key k) eqn:Hres; simpl.
  { revert Hr. destruct (hs !! k) as [v|]; [|done]. intros Hr.
    by specialize (Hr (mk_is_Some _ _ eq_refl)). }
  assert (Hout : outgoing_headers pk ek hs !! k = hs !! k).
  { unfold outgoing_headers. destruct (bool_decide _); [done|]. apply lookup_insert_ne. by intros <-. }
  unfold outgoing_headers in Hout. rewrite Hout.
  destruct (hs !! k) as [v|] eqn:Hk; simpl; [|done]. rewrite (Hu k v Hk).
  case_guard; simpl in *; congruence.
Qed.

(** C7. A hop over the broker. Take an envelope that was enqueued, whose payload
    and identity source hold no floating-point number, publish the stored row
    under any claim and with any trace context, and decode the record wherever
    the broker put it: the consumer has the envelope that was enqueued (ids,
    identity, payload, headers), except the trace headers, which are protocol
    context and not application data, and what the event time has beyond whole
    microseconds, which the database does not store; the record key is the
    partition key or else the entity key; and the trace context read is the one
    that was sent. *)
Theorem hop_roundtrip `{FormatLaws} {P} `{KafkaMessage P}
  (from_slice : string -> unwinding (result string P)) (fresh : uuid * uuid) (now now' : instant)
  (cfg : ResolvedConfig) (visible : uuid -> bool) (evt : Envelope P) (trace : option TraceContext)
  (ob ob' : Outbox) (tb : Table)
  (Hen : enqueue_inner cfg now visible evt trace ob = (Ok tt, ob'))
  (Htb : for_message OutboxKind P cfg = Ok tb)
  (Hkey : forall idem, env_idempotency_key evt = Some idem -> key_ok (idem_key idem))
  (Hutf8 : map_Forall (fun _ v => utf8 v) (env_headers evt))
  (Htime : is_ok (rfc3339_format (timestamptz (env_occurred_at evt))) = true)
  (Hexact : forall idem j, env_idempotency_key evt = Some idem -> idem_source idem = Some j ->
     json_exact j = true)
  (Hcodec : forall v, to_value (env_payload evt) = Returned (Ok v) ->
     json_exact v = true /\ from_slice (json_to_string v) = Returned (Ok (env_payload evt))) :
  exists row o, row ∈ rows ob' /\ status row = Pending /\ row_from_pg row = Ok o
  /\ forall cid sent partition offset, exists record,
       let claimed := {| claimed_row := o; claimed_id := cid |} in
       let m := delivered record partition offset in
       outgoing_record claimed sent = Ok record
       /\ record_envelope from_slice fresh now' m (desc_topic (tbl_desc tb)) (record_headers_of m)
          = Ok {| dec_envelope := as_received evt; dec_key := record_key o |}
       /\ Z.abs (env_occurred_at (as_received evt) - env_occurred_at evt) < 1000
       /\ (env_occurred_at evt mod 1000 = 0 -> env_occurred_at (as_received evt) = env_occurred_at evt)
       /\ (forall t, sent = Some t -> utf8 (traceparent t) ->
             (forall s, tracestate t = Some s -> utf8 s) ->
             trace_context (record_headers_of m) = from_parts (Some (traceparent t)) (tracestate t)).
Proof.
  destruct (enqueued_row _ _ _ _ _ _ _ _ Hen Htb) as (idem & row & Hid & Hres & Hrow & Hst & Hc).
  specialize (Hkey _ Hid). destruct Hc as [Cid Ckey Csrc Ctop Ccorr Ccaus Ctime Cpay (pk & ek & Ch)].
  exists row, {| orow_idempotency_key := Some (idem_key idem); orow_status := Pending;
                 orow_trace := from_parts (traceparent_col row) (tracestate_col row); orow_db := row |}.
  split_and!; [done..| |].
  { unfold row_from_pg. rewrite Ckey, Hst, from_hex_to_hex by done. done. }
  intros cid sent partition offset.
  set (claimed := {| claimed_id := cid |}).
  destruct (outgoing_record claimed sent) as [record|e] eqn:Hrec.
  2: { exfalso. revert Hrec. unfold outgoing_record, managed_headers, render. simpl.
       destruct (json_bytes (payload row)) as (_ & ->). rewrite Ctime.
       by destruct (rfc3339_format (timestamptz (env_occurred_at evt))). }
  exists record. simpl. split_and!; [done| |apply timestamptz_close|apply timestamptz_whole|].
  - rewrite <- Ctop. change row with (orow_db (claimed_row claimed)) at 1.
    erewrite hop_decodes; [|exact Hrec|simpl; rewrite Ch; by apply outgoing_reserved|done|done|
      simpl; by apply Hcodec].
    simpl. rewrite Cid, Csrc, Ccorr, Ccaus, Ctime. unfold as_received. rewrite Hid.
    rewrite reread_exact by (intros j; by apply Hexact).
    erewrite received_headers; [|done..]. by destruct idem.
  - intros t -> Hu Hs. destruct (lookup_trace _ _ _ partition offset Hrec) as [Ht Hts].
    unfold trace_context. rewrite Ht, Hts. simpl. rewrite Hu.
    destruct (tracestate t) as [s|]; simpl; [by rewrite (Hs s)|done].
Qed.

(** ** The model evaluated *)

Module WSample.
(** Text forms that satisfy the laws: the digits of a value's number. *)
Fixpoint pos_text (p : positive) : string :=
  match p with
  | xH => "."
  | xO p => String "0" (pos_text p)
  | xI p => String "1" (pos_text p)
  end.
Fixpoint pos_parse (s : string) : option positive :=
  match s with
  | EmptyString => None
  | String c s =>
      if Ascii.eqb c "0" then xO <$> pos_parse s
      else if Ascii.eqb c "1" then xI <$> pos_parse s
      else Some xH
  end.

Definition text_of {A} `{Countable A} (a : A) : string := pos_text (encode a).
Definition parse_of {A} `{Countable A} (s : string) : option A := pos_parse s ≫= decode.

Lemma parse_text {A} `{Countable A} (a : A) : parse_of (text_of a) = Some a.
Proof.
  unfold parse_of, text_of.
  assert (E : forall p, pos_parse (pos_text p) = Some p) by (induction p as [p IH|p IH|]; simpl; by rewrite ?IH).
  rewrite E. apply decode_encode.
Qed.

Lemma text_bytes p q : q "0"%char && q "1"%char && q "."%char = true -> all_bytes q (pos_text p) = true.
Proof.
  intros [[H0 H1]%andb_true_iff H2]%andb_true_iff. induction p; simpl; by rewrite ?H0, ?H1, ?H2.
Qed.

#[export] Instance formats : Formats := {|
  uuid_to_string := text_of;
  uuid_parse_str s := ok_or "not a uuid" (parse_of s);
  json_to_string := text_of;
  json_to_vec v := Ok (text_of v);
  json_from_str := parse_of;
  json_exact _ := true;
  json_object := text_of;
  rfc3339_format t := Ok (text_of t);
  rfc3339_parse s := ok_or "not a timestamp" (parse_of s);
|}.

#[export] Instance format_laws : FormatLaws.
Proof.
  split.
  - intros u. simpl. rewrite parse_text. split; [done|]. by apply utf8_ascii, text_bytes.
  - intros v. simpl. split; [|done]. by apply utf8_ascii, text_bytes.
  - intros v. simpl. rewrite parse_text. by eexists.
  - intros v _. simpl. by rewrite parse_text.
  - intros t s [= <-]. simpl. rewrite parse_text. split_and!; [done|by apply text_bytes..].
Qed.

Definition from_slice (bytes : string) : unwinding (result string Sample.order_placed) :=
  match parse_of bytes with
  | Some v => Returned (Ok (None, "o1", v))
  | None => Returned (Err "expected value")
  end.

Definition event : Envelope Sample.order_placed := {|
  env_message_id := 10%N; env_idempotency_key := Some Sample.key; env_correlation_id := 7%N;
  env_causation_id := Some 6%N; env_headers := {["tenant" := "acme"; "TraceParent" := "stale"]};
  env_payload := (None, "o1", "v1"); env_occurred_at := 5 |}.

Definition enqueued : Outbox := snd (enqueue_inner Sample.cfg 1 Sample.all event None empty_outbox).
Definition table : Table :=
  {| tbl_schema := "app"; tbl_name := "outbox_order_placed";
     tbl_desc := {| Registry.message_type := "order_placed"; desc_topic := "dev.orders";
                    topic_spec := compacted |} |}.
End WSample.

#[local] Existing Instance WSample.formats.
#[local] Existing Instance WSample.format_laws.

Lemma hop_roundtrip_witness :
  exists row o, row ∈ rows WSample.enqueued /\ row_from_pg row = Ok o
  /\ exists record,
       outgoing_record {| claimed_row := o; claimed_id := 3%N |} None = Ok record
       /\ record_envelope WSample.from_slice (1%N, 2%N) 9 (delivered record 0 4) "dev.orders"
            (record_headers_of (delivered record 0 4))
          = Ok {| dec_envelope := as_received WSample.event; dec_key := record_key o |}
       /\ env_headers (as_received WSample.event) = {["tenant" := "acme"]}.
Proof.
  destruct (hop_roundtrip WSample.from_slice (1%N, 2%N) 1 9 Sample.cfg Sample.all WSample.event None
              empty_outbox WSample.enqueued WSample.table) as (row & o & Hr & _ & Ho & H).
  - vm_compute. reflexivity.
  - vm_compute. reflexivity.
  - intros idem [= <-]. split; [done|]. apply (bool_decide_unpack _). vm_compute. done.
  - intros k v. unfold WSample.event. simpl. rewrite lookup_insert_Some, lookup_singleton_Some.
    by intros [[_ <-]|[_ [_ <-]]].
  - done.
  - done.
  - intros v [= <-]. split; [done|]. unfold WSample.from_slice. cbn [json_to_string WSample.formats].
    by rewrite WSample.parse_text.
  - exists row, o. split_and!; [done..|]. destruct (H 3%N None 0 4) as (record & Hrec & Hdec & _).
    exists record. split_and!; [exact Hrec|exact Hdec|]. apply (bool_decide_unpack _). vm_compute. done.
Defined.
