(* ===== verification/Ingest.v ===== *)
(** * Ingest: from the broker to the received table

    Models [src/crates/kafkaman-rdkafka/src/consumer.rs] (the
    [internal-hooks] observer is in [Observers], the spans in [IngestSpans]) and [stats.rs] beside it: one
    record is read, stored or quarantined in a database transaction, and only
    then acknowledged; a breaker stops the loop after too many refused records
    in a row.

    The Kafka client is a parameter: an operation to receive the next record and
    one to commit a record's offset, with the documented behaviour of a consumer
    group stated as laws. The database may fail at any statement, and a commit
    whose answer is lost may have taken effect. *)

From S2P Require Import Prelude Text Vocabulary Trace Identity Topics Registry Outbox.
From S2P Require Import OutboxOrder Relay Retry Received Wire.
Open Scope string_scope.
Open Scope list_scope.
Open Scope Z_scope.

(** ** State *)

(** The two tables an ingester writes. The quarantine is keyed by source. *)
Abbreviation Quarantine := (gmap (string * Z * Z) ReceivedIngestFailure) (only parsing).
Record Store := { st_received : Received; st_quarantine : Quarantine }.

(** [StreamConsumer]: [recv] and [commit_message], and what a restarted or
    rebalanced consumer of the group becomes. *)
Record Client (K : Type) := {
  recv : K -> result string Message * K;
  commit_message : Message -> K -> result string unit * K;
  restart : K -> K;
}.
Arguments recv {K} _ _.
Arguments commit_message {K} _ _ _.
Arguments restart {K} _ _.

Definition DEFAULT_MAX_CONSECUTIVE_SKIPS : nat := 10.

(** [RdkafkaConsumer] with the world around it. *)
Record Ingester (K : Type) := {
  ig_store : Store;
  ig_client : K;
  consecutive_skips : nat;
}.
Arguments ig_store {K} _.
Arguments ig_client {K} _.
Arguments consecutive_skips {K} _.

(** [with_max_consecutive_skips]. *)
Definition effective_limit (n : nat) : nat := Nat.max n 1.

Record IngestStats := {
  is_consumed : nat; is_inserted : nat; is_duplicates : nat; is_skipped : nat; is_committed : nat;
  is_partition : Z; is_offset : Z;
}.

(** The statements at which the database can fail. *)
Inductive IStmt := SBeginStore | SInsert | SConflictRow | SCommitStore
                 | SBeginQuarantine | SQuarantineRow | SCommitQuarantine.

(** What a cycle meets: the failures of the database, whether a commit whose
    answer was lost took effect, the clock, the ids [Envelope::new] draws and
    the context of the ingest span. *)
Record Circumstances := {
  fault : IStmt -> option SqlxError;
  lands : IStmt -> bool;
  now_at : instant;
  fresh_ids : uuid * uuid;
  span_trace : option TraceContext;
}.

Section ingest.
Context `{Formats} {P : Type} `{KafkaMessage P} {K : Type} (client : Client K).
Context (from_slice : string -> unwinding (result string P)).
(** The [Display] texts of the two error types. *)
Context (display : Error -> string) (rd_display : RdError -> string).
Context (cfg : ResolvedConfig) (limit : nat) (x : Circumstances).

Abbreviation ingest A := (eff RdError (Ingester K) A).

Definition with_store (w : Ingester K) (s : Store) : Ingester K :=
  {| ig_store := s; ig_client := ig_client w; consecutive_skips := consecutive_skips w |}.
Definition with_skips (w : Ingester K) (n : nat) : Ingester K :=
  {| ig_store := ig_store w; ig_client := ig_client w; consecutive_skips := n |}.
Definition with_client (w : Ingester K) (k : K) : Ingester K :=
  {| ig_store := ig_store w; ig_client := k; consecutive_skips := consecutive_skips w |}.

(** [commit_record]. *)
Definition commit_record (m : Message) : ingest unit := fun w =>
  match commit_message client m (ig_client w) with
  | (Ok _, k) => (Ok tt, with_client w k)
  | (Err text, k) => (Err (RdKafka text), with_client w k)
  end.

(** [count_skip]. *)
Definition count_skip (m : Message) : ingest unit := fun w =>
  let skips := S (consecutive_skips w) in
  (if Nat.leb limit skips
   then Err (RdConsecutiveSkipLimitExceeded limit (k_partition m) (k_offset m))
   else Ok tt, with_skips w skips).

Definition reset_skips : ingest unit := fun w => (Ok tt, with_skips w 0).

(** [BEGIN] and [COMMIT]; what a transaction wrote becomes visible when it
    commits. *)
Definition begin_tx (st : IStmt) : ingest unit := fun w =>
  match fault x st with
  | Some e => (Err (RdDatabase e), w)
  | None => (Ok tt, w)
  end.
Definition commit_tx (st : IStmt) (after : Store) : ingest unit := fun w =>
  match fault x st with
  | Some e => (Err (RdDatabase e), if lands x st then with_store w after else w)
  | None => (Ok tt, with_store w after)
  end.

(** [insert_received_ingest_failure] inside a transaction. *)
Definition quarantine_row (st : IStmt) (f : ReceivedIngestFailure) (s : Store) : result RdError Store :=
  match fault x st with
  | Some e => Err (RdSqlx (ESqlx e))
  | None => Ok {| st_received := st_received s;
                  st_quarantine := snd (insert_received_ingest_failure f (st_quarantine s)) |}
  end.

(** The statistics of one record. *)
Definition stats_of (m : Message) (inserted duplicates skipped : bool) : IngestStats :=
  {| is_consumed := 1; is_inserted := Nat.b2n inserted; is_duplicates := Nat.b2n duplicates;
     is_skipped := Nat.b2n skipped; is_committed := 1; is_partition := k_partition m;
     is_offset := k_offset m |}.

(** [quarantine]. *)
Definition quarantine (m : Message) (kind : ReceivedIngestFailureKind) (error : string)
  : ingest IngestStats :=
  table ← lift (lift_sqlx (for_message ReceivedKind P cfg));
  let failure := ingest_failure_record (MESSAGE_TYPE P) m (desc_topic (tbl_desc table)) kind error in
  _ ← begin_tx SBeginQuarantine;
  before ← gets ig_store;
  after ← lift (quarantine_row SQuarantineRow failure before);
  _ ← commit_tx SCommitQuarantine after;
  _ ← count_skip m;
  _ ← commit_record m;
  mret (stats_of m false false true).

Definition conflict_text (evt : Envelope P) : string :=
  "message_id " +:+ uuid_to_string (env_message_id evt)
  +:+ " conflicts with an existing receive row for another idempotency key".

(** The insert of [store], inside its transaction. *)
Definition insert_row (m : Message) (d : DecodedRecord P) (s : Store)
  : result Error (ReceivedInsertOutcome * Store) :=
  let '(res, t) := insert_received_with_outcome cfg (now_at x) (dec_envelope d) (k_partition m)
                     (k_offset m) (dec_key d) (span_trace x) (st_received s) in
  match res, fault x SInsert with
  | Ok _, Some e => Err (ESqlx e)
  | Ok o, None => Ok (o, {| st_received := t; st_quarantine := st_quarantine s |})
  | Err e, _ => Err e
  end.

(** [store]. *)
Definition store (m : Message) (d : DecodedRecord P) : ingest IngestStats :=
  table ← lift (lift_sqlx (for_message ReceivedKind P cfg));
  _ ← begin_tx SBeginStore;
  before ← gets ig_store;
  match insert_row m d before with
  | Err (EApplicationPanicked _ _ _ as e) => quarantine m IInvalidPayload (display e)
  | Err e => raise (RdSqlx e)
  | Ok (outcome, after) =>
      let conflicted := bool_decide (outcome = MessageIdConflict) in
      after ← lift (if conflicted
                    then quarantine_row SConflictRow
                           (ingest_failure_record (MESSAGE_TYPE P) m (desc_topic (tbl_desc table))
                              MessageIdConflictKind (conflict_text (dec_envelope d))) after
                    else Ok after);
      _ ← commit_tx SCommitStore after;
      _ ← (if conflicted then count_skip m else reset_skips);
      _ ← commit_record m;
      mret (stats_of m (bool_decide (outcome = Inserted))
              (bool_decide (outcome = DuplicateIdempotencyKey)) conflicted)
  end.

(** [ingest_decoded]. *)
Definition ingest_decoded (m : Message) (expected_topic : string) : ingest IngestStats :=
  match record_envelope from_slice (fresh_ids x) (now_at x) m expected_topic (record_headers_of m) with
  | Ok record => store m record
  | Err e =>
      match ingest_failure_kind e with
      | Some kind => quarantine m kind (rd_display e)
      | None => raise e
      end
  end.

(** [ingest_once]. *)
Definition ingest_once : ingest IngestStats :=
  d ← lift (lift_sqlx (descriptor_for P cfg));
  m ← (fun w => match recv client (ig_client w) with
                | (Ok m, k) => (Ok m, with_client w k)
                | (Err text, k) => (Err (RdKafka text), with_client w k)
                end);
  ingest_decoded m (desc_topic d).
End ingest.

(** ** The loop *)

Record IngestLoopStats := {
  ls_cycles : nat; ls_consumed : nat; ls_inserted : nat; ls_duplicates : nat; ls_skipped : nat;
  ls_committed : nat; ls_transient_errors : nat;
}.
Definition loop_start : IngestLoopStats :=
  {| ls_cycles := 0; ls_consumed := 0; ls_inserted := 0; ls_duplicates := 0; ls_skipped := 0;
     ls_committed := 0; ls_transient_errors := 0 |}.

Definition record_cycle (l : IngestLoopStats) (s : IngestStats) : IngestLoopStats :=
  {| ls_cycles := S (ls_cycles l); ls_consumed := ls_consumed l + is_consumed s;
     ls_inserted := ls_inserted l + is_inserted s; ls_duplicates := ls_duplicates l + is_duplicates s;
     ls_skipped := ls_skipped l + is_skipped s; ls_committed := ls_committed l + is_committed s;
     ls_transient_errors := ls_transient_errors l |}.
Definition record_transient (l : IngestLoopStats) : IngestLoopStats :=
  {| ls_cycles := ls_cycles l; ls_consumed := ls_consumed l; ls_inserted := ls_inserted l;
     ls_duplicates := ls_duplicates l; ls_skipped := ls_skipped l; ls_committed := ls_committed l;
     ls_transient_errors := S (ls_transient_errors l) |}.

(** What a turn of the loop meets: the token, the circumstances of the cycle,
    and whether the retry delay elapsed before the token was cancelled. *)
Record Turn := { turn_cancelled : bool; turn_meets : Circumstances; turn_slept : bool }.

Inductive IngestLoop :=
| LoopStopped (r : result RdError IngestLoopStats)
| LoopRunning (s : IngestLoopStats).

Section loop.
Context `{Formats} {P : Type} `{KafkaMessage P} {K : Type} (client : Client K).
Context (from_slice : string -> unwinding (result string P)).
Context (display : Error -> string) (rd_display : RdError -> string).
Context (cfg : ResolvedConfig) (limit : nat).

Abbreviation cycle x w := (ingest_once client from_slice display rd_display cfg limit x w).

Fixpoint ingest_loop (turns : list Turn) (l : IngestLoopStats) (w : Ingester K)
  : IngestLoop * Ingester K :=
  match turns with
  | [] => (LoopRunning l, w)
  | t :: turns =>
      if turn_cancelled t then (LoopStopped (Ok l), w)
      else match cycle (turn_meets t) w with
      | (Ok s, w) => ingest_loop turns (record_cycle l s) w
      | (Err (RdConsecutiveSkipLimitExceeded _ _ _ as e), w) => (LoopStopped (Err e), w)
      | (Err _, w) =>
          let l := record_transient l in
          if turn_slept t then ingest_loop turns l w else (LoopStopped (Ok l), w)
      end
  end.

(** [run_ingester]. *)
Definition run_ingester (turns : list Turn) (w : Ingester K) : IngestLoop * Ingester K :=
  match descriptor_for P cfg with
  | Err e => (LoopStopped (Err (RdSqlx e)), w)
  | Ok _ => ingest_loop turns loop_start w
  end.
End loop.

(** ** Durability *)

Definition place : Type := string * Z.
Definition place_of (m : Message) : place := (k_topic m, k_partition m).
Definition source_of (m : Message) : string * Z * Z := (k_topic m, k_partition m, k_offset m).

(** The key a record carries. *)
Definition wire_key (m : Message) : option IdempotencyKey :=
  reserved (record_headers_of m) !! "kafkaman-idempotency-key"
    ≫= (fun hex => match from_hex hex with Ok k => Some k | Err _ => None end).

(** A record is durable when it is in quarantine, or a received row has its
    idempotency key. *)
Definition durable (s : Store) (m : Message) : Prop :=
  is_Some (st_quarantine s !! source_of m)
  \/ exists k, wire_key m = Some k /\ to_hex k ∈ map rrow_key (st_received s).

(** Nothing that was durable stops being so. *)
Definition extends (s s' : Store) : Prop :=
  (forall src, is_Some (st_quarantine s !! src) -> is_Some (st_quarantine s' !! src))
  /\ (forall k, k ∈ map rrow_key (st_received s) -> k ∈ map rrow_key (st_received s')).

#[global] Instance extends_preorder : PreOrder extends.
Proof. split; [done|]. intros s1 s2 s3 [] []. split; auto. Qed.

Lemma durable_extends s s' m : extends s s' -> durable s m -> durable s' m.
Proof. intros [Hq Hr] [?|(k & ? & ?)]; [left; auto|right; eauto]. Qed.

Lemma quarantine_extends (f : ReceivedIngestFailure) (q : Quarantine) (src : string * Z * Z) :
  is_Some (q !! src) -> is_Some (snd (insert_received_ingest_failure f q) !! src).
Proof.
  intros Hs. unfold insert_received_ingest_failure. destruct (q !! failure_source f); [done|]. simpl.
  destruct (decide (failure_source f = src)) as [->|]; [by rewrite lookup_insert_eq|].
  by rewrite lookup_insert_ne.
Qed.

Lemma quarantine_holds (f : ReceivedIngestFailure) (q : Quarantine) :
  is_Some (snd (insert_received_ingest_failure f q) !! failure_source f).
Proof.
  unfold insert_received_ingest_failure. destruct (q !! failure_source f) eqn:E; simpl; [by rewrite E|].
  by rewrite lookup_insert_eq.
Qed.

Lemma insert_statement_durable m t o t' : insert_statement m t = (Ok o, t') ->
  (forall k, k ∈ map rrow_key t -> k ∈ map rrow_key t')
  /\ (o <> MessageIdConflict -> r_idempotency_key m ∈ map rrow_key t').
Proof.
  unfold insert_statement. destruct (negb _); [done|].
  rewrite existsb_orb, conflict_outcome_spec. pose proof (existsb_has_key (r_idempotency_key m) t) as Hk.
  destruct (existsb (has_key _) t) eqn:Ek, (existsb (has_id _) t) eqn:Ei; simpl; intros [= <- <-];
    (split; [|intros ?]); try done; try (by apply Hk); rewrite ?map_app; set_solver.
Qed.

(** Handling a record adds nothing but that record. *)
Definition adds_only (m : Message) (s s' : Store) : Prop :=
  (forall src, is_Some (st_quarantine s' !! src) -> is_Some (st_quarantine s !! src) \/ src = source_of m)
  /\ (forall key, key ∈ map rrow_key (st_received s') ->
        key ∈ map rrow_key (st_received s) \/ Some key = to_hex <$> wire_key m).
Definition grows (m : Message) (s s' : Store) : Prop := extends s s' /\ adds_only m s s'.

Lemma grows_refl m s : grows m s s.
Proof. split; [done|]. split; auto. Qed.
Lemma grows_trans m s1 s2 s3 : grows m s1 s2 -> grows m s2 s3 -> grows m s1 s3.
Proof.
  intros [He1 [Hq1 Hr1]] [He2 [Hq2 Hr2]]. split; [by etrans|]. split.
  - intros src [?|?]%Hq2; auto.
  - intros key [?|?]%Hr2; auto.
Qed.

Lemma insert_statement_only m t o t' key :
  insert_statement m t = (Ok o, t') -> key ∈ map rrow_key t' -> key ∈ map rrow_key t \/ key = r_idempotency_key m.
Proof.
  unfold insert_statement. destruct (negb _); [done|].
  destruct (existsb _ t); intros [= <- <-]; [auto|]. rewrite map_app, elem_of_app. cbn [map].
  rewrite list_elem_of_singleton. auto.
Qed.

Definition is_breaker (e : RdError) : bool :=
  match e with RdConsecutiveSkipLimitExceeded _ _ _ => true | _ => false end.

(** What can become of a record once it has been received: the cycle failed
    before the acknowledgement; or the record is durable and the breaker tripped
    on it; or the record is durable and was acknowledged, the streak of refusals
    having grown or ended. *)
Inductive handled {K} (client : Client K) (limit : nat) (m : Message) (w : Ingester K)
  : result RdError IngestStats -> Ingester K -> Prop :=
| handled_failed e s : grows m (ig_store w) s -> is_breaker e = false ->
    handled client limit m w (Err e) (with_store w s)
| handled_tripped s : grows m (ig_store w) s -> durable s m ->
    (limit <= S (consecutive_skips w))%nat ->
    handled client limit m w
      (Err (RdConsecutiveSkipLimitExceeded limit (k_partition m) (k_offset m)))
      (with_skips (with_store w s) (S (consecutive_skips w)))
| handled_acked s k answer inserted duplicate (skipped : bool) :
    grows m (ig_store w) s -> durable s m ->
    (skipped = true -> (S (consecutive_skips w) < limit)%nat) ->
    (Nat.b2n inserted + Nat.b2n duplicate + Nat.b2n skipped = 1)%nat ->
    commit_message client m (ig_client w) = (answer, k) ->
    handled client limit m w
      (match answer with
       | Ok _ => Ok (stats_of m inserted duplicate skipped)
       | Err text => Err (RdKafka text)
       end)
      {| ig_store := s; ig_client := k;
         consecutive_skips := if skipped then S (consecutive_skips w) else 0 |}.

Section handling.
Context `{Formats} {P : Type} `{KafkaMessage P} {K : Type} (client : Client K).
Context (from_slice : string -> unwinding (result string P)).
Context (display : Error -> string) (rd_display : RdError -> string).
Context (cfg : ResolvedConfig) (limit : nat) (x : Circumstances).

Abbreviation handled_by m w r := (handled client limit m w r.1 r.2).

(** The tail both paths share: the skip is counted, then the offset committed. *)
Lemma ack_skipped m w s :
  grows m (ig_store w) s -> durable s m ->
  handled_by m w ((_ ← count_skip limit m; _ ← commit_record client m;
                   mret (stats_of m false false true)) (with_store w s)).
Proof.
  intros He Hd. unfold mbind, eff_bind, count_skip, commit_record. simpl.
  destruct (Nat.leb_spec limit (S (consecutive_skips w))) as [Hl|Hl]; simpl.
  - by apply handled_tripped.
  - destruct (commit_message client m (ig_client w)) as [answer k] eqn:Ec.
    pose proof (handled_acked client limit m w s k answer false false true He Hd (fun _ => Hl) eq_refl Ec) as Ha.
    by destruct answer as [[]|text].
Qed.

Lemma ack_stored m w s inserted :
  grows m (ig_store w) s -> durable s m ->
  handled_by m w ((_ ← reset_skips; _ ← commit_record client m;
                   mret (stats_of m inserted (negb inserted) false)) (with_store w s)).
Proof.
  intros He Hd. unfold mbind, eff_bind, reset_skips, commit_record. simpl.
  destruct (commit_message client m (ig_client w)) as [answer k] eqn:Ec.
  pose proof (handled_acked client limit m w s k answer inserted (negb inserted) false He Hd) as Ha.
  assert (Hsum : (Nat.b2n inserted + Nat.b2n (negb inserted) + Nat.b2n false = 1)%nat) by (by destruct inserted).
  specialize (Ha ltac:(done) Hsum Ec). by destruct answer as [[]|text].
Qed.

Lemma handled_same m w e : is_breaker e = false -> handled client limit m w (Err e) w.
Proof.
  intros He. replace w with (with_store w (ig_store w)) at 2 by (by destruct w).
  apply handled_failed; [apply grows_refl|done].
Qed.

(** A commit: refused, lost, or done. *)
Lemma commit_handled m w st s (rest : eff RdError (Ingester K) IngestStats) :
  grows m (ig_store w) s -> handled_by m w (rest (with_store w s)) ->
  handled_by m w ((_ ← commit_tx x st s; rest) w).
Proof.
  intros He Hrest. unfold mbind, eff_bind, commit_tx. destruct (fault x st) as [e|]; simpl; [|done].
  destruct (lands x st); [by apply handled_failed|by apply handled_same].
Qed.

Lemma quarantine_row_effect st m mt topic kind text s s' :
  quarantine_row x st (ingest_failure_record mt m topic kind text) s = Ok s' ->
  grows m s s' /\ durable s' m /\ st_received s' = st_received s.
Proof.
  unfold quarantine_row. destruct (fault x st); [done|]. intros [= <-]. split_and!; [split; split|left|done]; simpl.
  - intros src. apply quarantine_extends.
  - done.
  - intros src. unfold insert_received_ingest_failure.
    change (failure_source (ingest_failure_record mt m topic kind text)) with (source_of m).
    destruct (st_quarantine s !! source_of m); simpl; [auto|].
    destruct (decide (source_of m = src)) as [->|]; [auto|]. rewrite lookup_insert_ne by done. auto.
  - auto.
  - apply (quarantine_holds (ingest_failure_record mt m topic kind text)).
Qed.

Lemma quarantine_handled m w kind text :
  handled_by m w (quarantine (P := P) client cfg limit x m kind text w).
Proof.
  unfold quarantine. destruct (for_message ReceivedKind P cfg) as [tb|e]; simpl; [|by apply handled_same].
  cbv [mbind eff_bind lift gets begin_tx].
  destruct (fault x SBeginQuarantine) as [e|]; simpl; [by apply handled_same|].
  destruct (quarantine_row _ _ _ _) as [s|e] eqn:Eq; simpl.
  - apply quarantine_row_effect in Eq as (He & Hd & _).
    apply (commit_handled m w SCommitQuarantine s); [done|]. by apply ack_skipped.
  - apply handled_same. unfold quarantine_row in Eq. destruct (fault x SQuarantineRow); by simplify_eq.
Qed.

(** A record that decodes carries the key it decodes to. *)
Lemma decoded_key ids at_ m topic (d : DecodedRecord P) :
  record_envelope from_slice ids at_ m topic (record_headers_of m) = Ok d ->
  exists idem, env_idempotency_key (dec_envelope d) = Some idem /\ wire_key m = Some (idem_key idem).
Proof.
  unfold record_envelope, wire_key. destruct (negb _); [done|].
  intros (bytes & _ & (v & _ & (hex & Hhex & (key & Hkey & (at' & _ & (i1 & _ & (i2 & _ & (i3 & _ &
    Hd)%bind_Ok)%bind_Ok)%bind_Ok)%bind_Ok)%bind_Ok)%bind_Ok)%bind_Ok)%bind_Ok.
  injection Hd as <-. eexists. split; [done|]. simpl.
  destruct (reserved _ !! _) as [h|]; [|done]. injection Hhex as ->. simpl.
  by destruct (from_hex hex); simplify_eq.
Qed.

Lemma insert_row_effect m d s o s' idem :
  insert_row cfg x m d s = Ok (o, s') -> env_idempotency_key (dec_envelope d) = Some idem ->
  wire_key m = Some (idem_key idem) ->
  grows m s s' /\ (o <> MessageIdConflict -> durable s' m) /\ st_quarantine s' = st_quarantine s.
Proof.
  unfold insert_row, insert_received_with_outcome. intros Hi Hid Hw. rewrite Hid in Hi.
  cbv [mbind eff_bind lift ok_or] in Hi.
  destruct (for_message ReceivedKind P cfg) as [tb|]; [|done].
  destruct (reserved_header _); [done|].
  destruct (catch_application_panic _ _ (to_value _)) as [[v|]|]; [|done..].
  destruct (catch_application_panic _ _ (entity_key _)) as [ek|]; [|done].
  match type of Hi with context [insert_statement ?rm ?t] =>
    destruct (insert_statement rm t) as [[o'|e] t'] eqn:Ei end; [|done].
  destruct (fault x SInsert); [done|]. injection Hi as <- <-.
  pose proof (fun key => insert_statement_only _ _ _ _ key Ei) as Hadds.
  apply insert_statement_durable in Ei as [Hk Hd]. split_and!; [split; [by split|split; [auto|]]|intros Ho; right|done].
  { intros key [?| ->]%Hadds; [auto|]. right. by rewrite Hw. }
  exists (idem_key idem). split; [done|]. by apply Hd.
Qed.

Lemma insert_row_error m d s e : insert_row cfg x m d s = Err e -> is_breaker (RdSqlx e) = false.
Proof. done. Qed.

Lemma store_handled m w d ids at_ topic :
  record_envelope from_slice ids at_ m topic (record_headers_of m) = Ok d ->
  handled_by m w (store client display cfg limit x m d w).
Proof.
  intros (idem & Hid & Hw)%decoded_key. unfold store.
  destruct (for_message ReceivedKind P cfg) as [tb|e]; simpl; [|by apply handled_same].
  cbv [mbind eff_bind lift gets begin_tx].
  destruct (fault x SBeginStore) as [e|]; simpl; [by apply handled_same|].
  destruct (insert_row _ _ _ _ _) as [[o s]|e] eqn:Ei.
  2: { destruct e; try (by apply handled_same); apply quarantine_handled. }
  destruct (insert_row_effect _ _ _ _ _ _ Ei Hid Hw) as (He & Hd & Hq).
  case_bool_decide as Ho; simpl.
  - destruct (quarantine_row _ _ _ _) as [s'|e] eqn:Eq.
    + apply quarantine_row_effect in Eq as (He' & Hd' & _).
      subst o. apply (commit_handled m w SCommitStore s'); [by eapply grows_trans|].
      apply ack_skipped; [by eapply grows_trans|done].
    + apply handled_same. unfold quarantine_row in Eq. destruct (fault x SConflictRow); by simplify_eq.
  - apply (commit_handled m w SCommitStore s); [done|].
    destruct o; [|..|done]; [apply (ack_stored m w s true)|apply (ack_stored m w s false)]; auto.
Qed.

(** Whatever is wrong with a record is a property of the record. *)
Lemma uuid_header_error rh name e : parse_uuid_header rh name = Err e -> is_Some (ingest_failure_kind e).
Proof.
  unfold parse_uuid_header. destruct (reserved rh !! name) as [v|]; [|done].
  destruct (uuid_parse_str v); [done|]. intros [= <-]. by eexists.
Qed.

Lemma envelope_error ids at_ m topic rh e :
  record_envelope from_slice ids at_ m topic rh = Err e -> is_Some (ingest_failure_kind e).
Proof.
  unfold record_envelope. destruct (negb _); [intros [= <-]; by eexists|].
  destruct (k_payload m) as [b|]; simpl; [|intros [= <-]; by eexists].
  destruct (from_slice b) as [[v|text]|p]; simpl; [|intros [= <-]; by eexists..].
  destruct (reserved rh !! "kafkaman-idempotency-key") as [hex|]; simpl; [|intros [= <-]; by eexists].
  destruct (from_hex hex); simpl; [|intros [= <-]; by eexists].
  destruct (match reserved rh !! "kafkaman-occurred-at" with Some _ => _ | None => _ end) eqn:Ea; simpl.
  2: { intros [= <-]. destruct (reserved rh !! "kafkaman-occurred-at") as [v'|]; [|done].
       destruct (parse_instant v'); simplify_eq. by eexists. }
  destruct (parse_uuid_header rh "kafkaman-message-id") eqn:E1; simpl;
    [|intros [= <-]; by eapply uuid_header_error].
  destruct (parse_uuid_header rh "kafkaman-correlation-id") eqn:E2; simpl;
    [|intros [= <-]; by eapply uuid_header_error].
  destruct (parse_uuid_header rh "kafkaman-causation-id") eqn:E3; simpl;
    [done|intros [= <-]; by eapply uuid_header_error].
Qed.

(** A cycle that received a record. *)
Lemma decoded_handled m w topic :
  handled_by m w (ingest_decoded client from_slice display rd_display cfg limit x m topic w).
Proof.
  unfold ingest_decoded. destruct (record_envelope _ _ _ _ _ _) as [d|e] eqn:Ed; [by eapply store_handled|].
  destruct (envelope_error _ _ _ _ _ _ Ed) as [kind ->]. apply quarantine_handled.
Qed.
End handling.

(** ** A consumer group *)

(** The documented behaviour of a consumer: [log] is what the partitions hold,
    [position] the next offset the consumer will read, [committed] the group's
    offsets. Receiving moves the position past the record, whatever becomes of
    it; committing a record sets the group's offset behind it, and a commit that
    fails may have taken effect; a restarted consumer resumes at the group's
    offsets. A compacted partition has gaps. *)
Class ClientLaws {K} (client : Client K) (log : place -> Z -> option Message)
  (position committed : K -> place -> Z) : Prop := {
  recv_next k m k' : recv client k = (Ok m, k') ->
    log (place_of m) (k_offset m) = Some m /\ position k (place_of m) <= k_offset m
    /\ (forall o, position k (place_of m) <= o < k_offset m -> log (place_of m) o = None)
    /\ (forall p, position k' p = if decide (p = place_of m) then k_offset m + 1 else position k p)
    /\ (forall p, committed k' p = committed k p);
  recv_failed k text k' p : recv client k = (Err text, k') ->
    position k' p = position k p /\ committed k' p = committed k p;
  commit_answer m k a k' : commit_message client m k = (a, k') ->
    (forall p, position k' p = position k p)
    /\ ((forall p, committed k' p = if decide (p = place_of m) then k_offset m + 1 else committed k p)
        \/ (is_ok a = false /\ forall p, committed k' p = committed k p));
  restart_resumes k p : position (restart client k) p = committed k p
    /\ committed (restart client k) p = committed k p;
}.

Definition restarted {K} (client : Client K) (w : Ingester K) : Ingester K :=
  {| ig_store := ig_store w; ig_client := restart client (ig_client w); consecutive_skips := 0 |}.

Section group.
Context `{Formats} {P : Type} `{KafkaMessage P} {K : Type} (client : Client K).
Context (log : place -> Z -> option Message) (position committed : K -> place -> Z).
Context `{!ClientLaws client log position committed}.
Context (from_slice : string -> unwinding (result string P)).
Context (display : Error -> string) (rd_display : RdError -> string).
Context (cfg : ResolvedConfig) (limit : nat).

Abbreviation cycle x w := (ingest_once client from_slice display rd_display cfg limit x w).

(** A cycle that received nothing, and one that received a record. *)
Lemma cycle_cases x w res w' : cycle x w = (res, w') ->
  (exists e, res = Err e /\ is_breaker e = false /\ ig_store w' = ig_store w
     /\ consecutive_skips w' = consecutive_skips w
     /\ forall p, position (ig_client w') p = position (ig_client w) p
                 /\ committed (ig_client w') p = committed (ig_client w) p)
  \/ exists m k, recv client (ig_client w) = (Ok m, k) /\ handled client limit m (with_client w k) res w'.
Proof.
  unfold ingest_once. cbv [mbind eff_bind lift].
  destruct (descriptor_for P cfg) as [d|e]; simpl; [|intros [= <- <-]; left; eauto 10].
  destruct (recv client (ig_client w)) as [[m|text] k] eqn:Er.
  - intros E. right. exists m, k. split; [done|].
    pose proof (decoded_handled client from_slice display rd_display cfg limit x m (with_client w k)
                  (desc_topic d)) as Hd.
    by rewrite E in Hd.
  - intros [= <- <-]. left. eexists. split_and!; [done..|]. intros p. by eapply recv_failed.
Qed.

Lemma cycle_received d m k x w res w' :
  descriptor_for P cfg = Ok d -> recv client (ig_client w) = (Ok m, k) -> cycle x w = (res, w') ->
  handled client limit m (with_client w k) res w'.
Proof.
  intros Hd Hr. unfold ingest_once. cbv [mbind eff_bind lift]. rewrite Hd. cbn [lift_sqlx]. rewrite Hr. intros E.
  pose proof (decoded_handled client from_slice display rd_display cfg limit x m (with_client w k) (desc_topic d)) as Hh.
  by rewrite E in Hh.
Qed.

(** What a received record does to the positions of the group. *)
Lemma handled_offsets m w k res w' :
  recv client (ig_client w) = (Ok m, k) -> handled client limit m (with_client w k) res w' ->
  grows m (ig_store w) (ig_store w')
  /\ (forall p, position (ig_client w') p
               = if decide (p = place_of m) then k_offset m + 1 else position (ig_client w) p)
  /\ ((is_ok res = false /\ forall p, committed (ig_client w') p = committed (ig_client w) p)
      \/ (durable (ig_store w') m /\ forall p, committed (ig_client w') p
            = if decide (p = place_of m) then k_offset m + 1 else committed (ig_client w) p)).
Proof.
  intros (_ & _ & _ & Hpos & Hcom)%recv_next Hh.
  destruct Hh as [e s He Hb|s He Hd Hl|s k' answer i d sk He Hd Hsk Hsum Hc]; simpl in *.
  - split_and!; [done..|left]. done.
  - split_and!; [done..|left]. done.
  - apply commit_answer in Hc as [Hp' Hc']. split_and!; [done|by intros p; rewrite Hp'|].
    destruct Hc' as [Hc'|[Ha Hc']].
    + right. split; [done|]. intros p. rewrite Hc'. destruct (decide _); [done|apply Hcom].
    + left. split; [by destruct answer|]. intros p. by rewrite Hc'.
Qed.

(** C17. An offset is acknowledged only behind a durable record. Whatever the
    database and the broker do, one cycle leaves every stored row and every
    quarantined record in place, and either no offset of the group moves, or the
    offset of one partition moves right behind a record that is stored or
    quarantined by then. A cycle that reports success has received a record,
    made it durable, acknowledged it and counted it once. *)
Theorem acknowledged_is_durable (x : Circumstances) (w w' : Ingester K) (res : result RdError IngestStats)
  (Hc : cycle x w = (res, w')) :
  extends (ig_store w) (ig_store w')
  /\ ((forall p, committed (ig_client w') p = committed (ig_client w) p)
      \/ exists m, log (place_of m) (k_offset m) = Some m /\ durable (ig_store w') m
         /\ forall p, committed (ig_client w') p
                     = if decide (p = place_of m) then k_offset m + 1 else committed (ig_client w) p)
  /\ (forall s, res = Ok s -> exists m, log (place_of m) (k_offset m) = Some m
        /\ durable (ig_store w') m /\ committed (ig_client w') (place_of m) = k_offset m + 1
        /\ is_partition s = k_partition m /\ is_offset s = k_offset m
        /\ (is_inserted s + is_duplicates s + is_skipped s = 1)%nat).
Proof.
  destruct (cycle_cases _ _ _ _ Hc) as [(e & -> & _ & Hs & _ & Hp)|(m & k & Hr & Hh)].
  { rewrite Hs. split_and!; [done| |done]. left. intros p. apply Hp. }
  destruct (handled_offsets _ _ _ _ _ Hr Hh) as ([He _] & _ & Hoff).
  pose proof (recv_next _ _ _ Hr) as (Hlog & _). split_and!; [done| |].
  - destruct Hoff as [[_ ?]|[Hd Hoff]]; [by left|]. right. eauto.
  - intros s ->. destruct Hoff as [[? _]|[Hd Hoff]]; [done|].
    exists m. split; [done|]. split; [done|]. split; [by rewrite Hoff, decide_True|].
    inversion Hh as [| |? ? answer i d sk _ _ _ Hsum _ Hres]; destruct answer; by simplify_eq.
Qed.

(** The refusal breaker. A stored record ends the streak; a refused one
    extends it, and is acknowledged only while the streak stays below the limit;
    the record that reaches the limit stops the loop with an error that names
    its position, is durable, and leaves every offset of the group where it was,
    so a fixed service reads it again. *)
Theorem refusal_breaker (x : Circumstances) (w w' : Ingester K) (res : result RdError IngestStats)
  (Hc : cycle x w = (res, w')) :
  match res with
  | Ok s => (is_skipped s = 0 /\ consecutive_skips w' = 0)%nat
            \/ (is_skipped s = 1 /\ consecutive_skips w' = S (consecutive_skips w)
                /\ consecutive_skips w' < limit)%nat
  | Err (RdConsecutiveSkipLimitExceeded l p o) =>
      l = limit /\ (limit <= S (consecutive_skips w))%nat
      /\ (exists m, log (place_of m) o = Some m /\ k_partition m = p /\ durable (ig_store w') m)
      /\ (forall q, committed (ig_client w') q = committed (ig_client w) q)
  | Err _ => (consecutive_skips w' <= S (consecutive_skips w))%nat
  end.
Proof.
  destruct (cycle_cases _ _ _ _ Hc) as [(e & -> & Hb & _ & Hs & _)|(m & k & Hr & Hh)].
  { destruct e; [..|done]; lia. }
  destruct (recv_next _ _ _ Hr) as (Hlog & _ & _ & _ & Hcom).
  destruct Hh as [e s He Hb|s He Hd Hl|s k' answer i d sk He Hd Hsk Hsum _]; simpl in *.
  - destruct e; [..|done]; simpl; lia.
  - split_and!; [done..|by exists m|done].
  - destruct answer; simpl; [|destruct sk; lia]. destruct sk; simpl; [right; auto|by left].
Qed.

(** ** Runs *)

(** An ingester that is restarted whenever a cycle fails, among other
    transactions that only add to the tables or change rows in place. *)
Inductive ingest_step (w w' : Ingester K) : Prop :=
| step_success x s : cycle x w = (Ok s, w') -> ingest_step w w'
| step_failure x e w1 : cycle x w = (Err e, w1) -> w' = restarted client w1 -> ingest_step w w'
| step_others s : extends (ig_store w) s -> w' = with_store w s -> ingest_step w w'.

(** Everything between [base] and the positions is durable. *)
Definition caught_up (base : place -> Z) (w : Ingester K) : Prop :=
  (forall p, committed (ig_client w) p <= position (ig_client w) p)
  /\ forall p o m, log p o = Some m -> base p <= o < position (ig_client w) p -> durable (ig_store w) m.

Lemma caught_up_extends base w s : caught_up base w -> extends (ig_store w) s -> caught_up base (with_store w s).
Proof. intros [Hc Hd] He. split; [done|]. intros p o m Hl Ho. by eapply durable_extends, Hd. Qed.

(** A record that was received and made durable. *)
Lemma caught_up_received base m k (w w' : Ingester K) :
  caught_up base w -> recv client (ig_client w) = (Ok m, k) -> extends (ig_store w) (ig_store w') ->
  durable (ig_store w') m ->
  forall p o m', log p o = Some m' ->
    base p <= o < (if decide (p = place_of m) then k_offset m + 1 else position (ig_client w) p) ->
    durable (ig_store w') m'.
Proof.
  intros [_ Hd] (Hlog & _ & Hgap & _)%recv_next He Hm p o m' Hl.
  destruct (decide (p = place_of m)) as [->|Hne]; intros Ho; [|by eapply durable_extends, Hd].
  destruct (decide (o < position (ig_client w) (place_of m))); [eapply durable_extends, Hd; eauto; lia|].
  destruct (decide (o = k_offset m)) as [->|]; [congruence|].
  rewrite Hgap in Hl; [done|lia].
Qed.

Lemma step_caught_up base w w' : ingest_step w w' -> caught_up base w -> caught_up base w'.
Proof.
  intros [x s Hc|x e w1 Hc ->|s He ->] Hw; [| |by apply caught_up_extends].
  - destruct (cycle_cases _ _ _ _ Hc) as [(e & [=] & _)|(m & k & Hr & Hh)].
    destruct (handled_offsets _ _ _ _ _ Hr Hh) as ([He _] & Hpos & [[? _]|[Hd Hcom]]); [done|].
    split; [|intros p o m'; rewrite Hpos; by apply (caught_up_received base m k)].
    intros p. rewrite Hpos, Hcom. destruct Hw as [Hle _]. destruct (decide _); [lia|apply Hle].
  - assert (Hsafe : extends (ig_store w) (ig_store w1) /\ forall p o m, log p o = Some m ->
        base p <= o < committed (ig_client w1) p -> durable (ig_store w1) m).
    { destruct Hw as [Hle Hd].
      destruct (cycle_cases _ _ _ _ Hc) as [(e' & _ & _ & Hs & _ & Hp)|(m & k & Hr & Hh)].
      { rewrite Hs. split; [done|]. intros p o m Hl Ho. apply (Hd p o m Hl).
        destruct (Hp p) as [_ Hp']. rewrite Hp' in Ho. specialize (Hle p). lia. }
      destruct (handled_offsets _ _ _ _ _ Hr Hh) as ([He _] & _ & [[_ Hcom]|[Hdm Hcom]]); (split; [done|]).
      - intros p o m' Hl. rewrite Hcom. intros Ho. eapply durable_extends, (Hd p o m' Hl); [done|].
        specialize (Hle p). lia.
      - intros p o m' Hl Ho. eapply (caught_up_received base m k w w1); try done.
        rewrite Hcom in Ho. specialize (Hle p). destruct (decide _); lia. }
    destruct Hsafe as [He Hsafe]. split; simpl.
    + intros p. destruct (restart_resumes (ig_client w1) p) as [-> ->]. lia.
    + intros p o m Hl. destruct (restart_resumes (ig_client w1) p) as [-> _]. by apply Hsafe.
Qed.

Lemma runs_caught_up base w w' : rtc ingest_step w w' -> caught_up base w -> caught_up base w'.
Proof. induction 1; [done|]. intros Hw. eauto using step_caught_up. Qed.

(** ** Without a restart *)

(** The consumer has passed a record that nothing has kept. *)
Definition passed_over (m : Message) (w : Ingester K) : Prop :=
  k_offset m < position (ig_client w) (place_of m) /\ ~ durable (ig_store w) m.

(** No other record of the log carries the record's idempotency key. *)
Definition sole_key (m : Message) : Prop :=
  forall p o m', log p o = Some m' -> is_Some (wire_key m) -> to_hex <$> wire_key m' = to_hex <$> wire_key m ->
    source_of m' = source_of m.

Lemma passed_over_cycle m x w res w' :
  sole_key m -> cycle x w = (res, w') -> passed_over m w -> passed_over m w'.
Proof.
  intros Hsole Hc [Hpos Hnd].
  destruct (cycle_cases _ _ _ _ Hc) as [(e & _ & _ & Hs & _ & Hp)|(m' & k & Hr & Hh)].
  { split; [by destruct (Hp (place_of m)) as [-> _]|by rewrite Hs]. }
  destruct (handled_offsets _ _ _ _ _ Hr Hh) as ([_ [Hq Hk]] & Hpos' & _).
  destruct (recv_next _ _ _ Hr) as (Hlog & Hle & _).
  assert (Hother : source_of m' <> source_of m).
  { intros E. unfold source_of, place_of in *. injection E as Et Ep Eo. rewrite Et, Ep in Hle. lia. }
  split.
  - rewrite Hpos'. destruct (decide _) as [E|]; [|done]. rewrite <- E in Hle. lia.
  - intros [Hsrc|(key & Hkey & Hin)]; apply Hnd.
    + destruct (Hq _ Hsrc) as [?|?]; [by left|by destruct Hother].
    + destruct (Hk _ Hin) as [?|E]; [right; eauto|]. destruct Hother. eapply Hsole; [done|by rewrite Hkey|].
      by rewrite <- E, Hkey.
Qed.

Lemma passed_over_loop m turns : forall l w,
  sole_key m -> passed_over m w ->
  passed_over m (ingest_loop client from_slice display rd_display cfg limit turns l w).2.
Proof.
  induction turns as [|t turns IH]; intros l w Hsole Hw; [done|]. cbn [ingest_loop].
  destruct (turn_cancelled t); [done|]. destruct (cycle (turn_meets t) w) as [res w'] eqn:Hc.
  pose proof (passed_over_cycle _ _ _ _ _ Hsole Hc Hw) as Hw'.
  destruct res as [st|e]; [by apply IH|]. destruct e; try (destruct (turn_slept t); [by apply IH|done]). done.
Qed.

(** The loop goes on after a cycle that failed without tripping the breaker. *)
Lemma ingest_loop_transient t turns l w e w' :
  turn_cancelled t = false -> turn_slept t = true -> cycle (turn_meets t) w = (Err e, w') -> is_breaker e = false ->
  ingest_loop client from_slice display rd_display cfg limit (t :: turns) l w
  = ingest_loop client from_slice display rd_display cfg limit turns (record_transient l) w'.
Proof. intros Hcan Hsl Hc Hb. cbn [ingest_loop]. rewrite Hcan, Hc, Hsl. by destruct e. Qed.

(** C35. A transient failure without a restart loses a record. Take any cycle that
    received a record and failed, short of the breaker, without making it
    durable. The loop answers by sleeping and receiving again, and the consumer's
    position is already past the record: whatever the later turns meet, the
    record is neither stored nor quarantined, unless another record carries its
    idempotency key. As soon as a later record of the partition is acknowledged
    the group's offset is past the lost one too, and not even a restart brings it
    back. *)
Theorem transient_failure_loses_record (m : Message) (k : K) (t : Turn) (turns : list Turn) (w w1 : Ingester K)
  (e : RdError) (d : MessageDescriptor) (Hd : descriptor_for P cfg = Ok d)
  (Hrecv : recv client (ig_client w) = (Ok m, k)) (Hsole : sole_key m)
  (Hturn : turn_cancelled t = false /\ turn_slept t = true)
  (Hfail : cycle (turn_meets t) w = (Err e, w1)) (Htransient : is_breaker e = false)
  (Hlost : ~ durable (ig_store w1) m) :
  let '(loop, w2) := run_ingester client from_slice display rd_display cfg limit (t :: turns) w in
  (loop, w2) = ingest_loop client from_slice display rd_display cfg limit turns (record_transient loop_start) w1
  /\ ~ durable (ig_store w2) m
  /\ forall x m' k' stats w3, recv client (ig_client w2) = (Ok m', k') -> place_of m' = place_of m ->
       cycle x w2 = (Ok stats, w3) ->
       ~ durable (ig_store w3) m
       /\ k_offset m < committed (ig_client w3) (place_of m)
       /\ k_offset m < position (restart client (ig_client w3)) (place_of m).
Proof.
  unfold run_ingester. rewrite Hd, (ingest_loop_transient _ _ _ _ _ _ (proj1 Hturn) (proj2 Hturn) Hfail Htransient).
  assert (Hpast : passed_over m w1).
  { split; [|done]. pose proof (cycle_received _ _ _ _ _ _ _ Hd Hrecv Hfail) as Hh.
    destruct (handled_offsets _ _ _ _ _ Hrecv Hh) as (_ & -> & _). rewrite decide_True by done. lia. }
  pose proof (passed_over_loop m turns (record_transient loop_start) w1 Hsole Hpast) as Hend.
  destruct (ingest_loop _ _ _ _ _ _ turns _ w1) as [loop w2]. cbn [snd] in Hend.
  split; [done|]. split; [apply Hend|]. intros x m' k' stats w3 Hr Hplace Hc.
  split; [by apply (passed_over_cycle m x w2 (Ok stats) w3)|].
  pose proof (cycle_received _ _ _ _ _ _ _ Hd Hr Hc) as Hh.
  destruct (handled_offsets _ _ _ _ _ Hr Hh) as (_ & _ & [[? _]|[_ Hcom]]); [done|].
  destruct (recv_next _ _ _ Hr) as (_ & Hle & _). rewrite Hplace in *.
  assert (Hgt : k_offset m < committed (ig_client w3) (place_of m)).
  { rewrite Hcom, decide_True by done. destruct Hend as [? _]. lia. }
  split; [done|]. by destruct (restart_resumes (ig_client w3) (place_of m)) as [-> _].
Qed.

(** C6. No record is lost, as long as a cycle that failed is followed by a
    restart of the consumer: in every such run, however records fail to decode,
    the database fails, answers are lost and other workers write, each record
    between the group's offsets at the start and its offsets now is stored or
    quarantined. *)
Theorem at_least_once (w0 w : Ingester K)
  (Hstart : forall p, position (ig_client w0) p = committed (ig_client w0) p)
  (Hrun : rtc ingest_step w0 w) (p : place) (o : Z) (m : Message) (Hlog : log p o = Some m)
  (Ho : committed (ig_client w0) p <= o < committed (ig_client w) p) :
  durable (ig_store w) m.
Proof.
  assert (Hc : caught_up (committed (ig_client w0)) w0).
  { split; intros q; rewrite Hstart; [done|]. intros; lia. }
  destruct (runs_caught_up _ _ _ Hrun Hc) as [Hle Hd]. apply (Hd p o m Hlog).
  specialize (Hle p). lia.
Qed.
End group.

(** ** The model evaluated *)

Module ISample.
#[export] Existing Instance WSample.formats.

Definition orders : place := ("dev.orders", 0).
Definition msg (o key : Z) (payload : option string) : Message :=
  {| k_topic := "dev.orders"; k_partition := 0; k_offset := o; k_key := Some "o1";
     k_payload := WSample.text_of <$> payload;
     k_headers := Some [ {| h_key := "kafkaman-idempotency-key";
                            h_value := Some (to_hex (repeat key 32)) |} ] |}.

(** A partition of three records, the last of which has no payload. *)
Definition first : Message := msg 0 1 (Some "v1").
Definition records : list Message := [first; msg 1 2 (Some "v2"); msg 2 3 None].

(** A consumer of that partition. *)
Record Broker := { b_position : place -> Z; b_committed : place -> Z }.
Definition moved (f : place -> Z) (m : Message) (p : place) : Z :=
  if decide (p = place_of m) then k_offset m + 1 else f p.
Definition client : Client Broker := {|
  recv k := match records !! Z.to_nat (b_position k orders) with
            | Some m => (Ok m, {| b_position := moved (b_position k) m; b_committed := b_committed k |})
            | None => (Err "no record", k)
            end;
  commit_message m k :=
    (Ok tt, {| b_position := b_position k; b_committed := moved (b_committed k) m |});
  restart k := {| b_position := b_committed k; b_committed := b_committed k |};
|}.

Definition log (p : place) (o : Z) : option Message :=
  if decide (p = orders /\ 0 <= o) then records !! Z.to_nat o else None.

Lemma records_at i m : records !! i = Some m -> place_of m = orders /\ k_offset m = Z.of_nat i.
Proof. destruct i as [|[|[|i]]]; [intros [= <-]; done..|done]. Qed.

#[export] Instance client_laws : ClientLaws client log b_position b_committed.
Proof.
  split.
  - intros k m k'. simpl. destruct (records !! _) as [m'|] eqn:Hm; [|done]. intros [= <- <-].
    destruct (records_at _ _ Hm) as [Hp Ho]. rewrite Hp. unfold log.
    rewrite decide_True by (split; [done|lia]). split_and!; simpl; try done.
    + by rewrite Ho, Nat2Z.id.
    + lia.
    + intros o Hr. rewrite decide_False; [done|]. lia.
    + intros p. unfold moved. by rewrite Hp.
  - intros k text k' p. simpl. by destruct (records !! _); intros [= _ <-].
  - intros m k a k'. simpl. intros [= <- <-]. split; [done|]. by left.
  - done.
Qed.

Definition up (ids : uuid * uuid) : Circumstances :=
  {| fault := fun _ => None; lands := fun _ => true; now_at := 1; fresh_ids := ids; span_trace := None |}.
(** The pool gives no connection. *)
Definition down : Circumstances :=
  {| fault := fun _ => Some (SqlxOther "pool timed out"); lands := fun _ => false; now_at := 1;
     fresh_ids := (1%N, 1%N); span_trace := None |}.

Definition show : Error -> string := fun _ => "error".
Definition rd_show : RdError -> string := fun _ => "error".
Definition start : Ingester Broker :=
  {| ig_store := {| st_received := []; st_quarantine := ∅ |};
     ig_client := {| b_position := fun _ => 0; b_committed := fun _ => 0 |}; consecutive_skips := 0 |}.

Definition cycle (limit : nat) : Circumstances -> Ingester Broker -> result RdError IngestStats * Ingester Broker :=
  ingest_once client WSample.from_slice show rd_show Sample.cfg limit.
Definition run (turns : list Turn) : IngestLoop * Ingester Broker :=
  run_ingester client WSample.from_slice show rd_show Sample.cfg 10 turns start.
Definition turn (x : Circumstances) : Turn :=
  {| turn_cancelled := false; turn_meets := x; turn_slept := true |}.

(** The states after one, two and three undisturbed cycles. *)
Definition one : Ingester Broker := snd (cycle 2 (up (10, 7)%N) start).
Definition two : Ingester Broker := snd (cycle 2 (up (11, 7)%N) one).
Definition three : Ingester Broker := snd (cycle 2 (up (12, 7)%N) two).

Example undisturbed :
  map rrow_key (st_received (ig_store three)) = [to_hex (repeat 1 32); to_hex (repeat 2 32)]
  /\ is_Some (st_quarantine (ig_store three) !! ("dev.orders", 0, 2))
  /\ b_committed (ig_client three) orders = 3.
Proof. vm_compute. split_and!; [reflexivity|by eexists|reflexivity]. Qed.
End ISample.

#[local] Existing Instance WSample.formats.
#[local] Existing Instance ISample.client_laws.

(** The pool gives no connection to the first cycle: the record is never stored,
    and the next acknowledgement puts it behind the group's offset. *)
Lemma lost_first : ~ durable (ig_store ISample.start) ISample.first.
Proof.
  intros [[f Hf]|(k & _ & Hin)]; [by vm_compute in Hf|]. by apply elem_of_nil in Hin.
Qed.

Lemma first_sole : sole_key ISample.log ISample.first.
Proof.
  intros p o m' Hl _. unfold ISample.log in Hl. destruct (decide _) as [[_ _]|]; [|done]. revert Hl.
  destruct (Z.to_nat o) as [|[|[|i]]]; cbn; intros [= <-]; [done|vm_compute; done..].
Qed.

Lemma transient_failure_loses_record_witness :
  let w1 := (ISample.cycle 10 ISample.down ISample.start).2 in
  let w3 := (ISample.cycle 10 (ISample.up (11, 7)%N) w1).2 in
  ~ durable (ig_store w1) ISample.first /\ ~ durable (ig_store w3) ISample.first
  /\ 0 < ISample.b_committed (ig_client w3) ISample.orders.
Proof.
  cbv zeta. destruct (ISample.cycle 10 ISample.down ISample.start) as [res w1] eqn:E1. cbn [snd].
  assert (Hs : ig_store w1 = ig_store ISample.start /\ exists e, res = Err e /\ is_breaker e = false)
    by (vm_compute in E1; injection E1 as <- <-; split; [reflexivity|by eexists]).
  destruct Hs as [Hs (e & -> & Hb)].
  assert (Hnot : ~ durable (ig_store w1) ISample.first) by (rewrite Hs; exact lost_first).
  assert (Hd : is_ok (descriptor_for Sample.order_placed Sample.cfg) = true) by (vm_compute; reflexivity).
  destruct (descriptor_for Sample.order_placed Sample.cfg) as [d|] eqn:Ed; [|discriminate Hd].
  pose proof (transient_failure_loses_record ISample.client ISample.log ISample.b_position ISample.b_committed
    WSample.from_slice ISample.show ISample.rd_show Sample.cfg 10 ISample.first _ (ISample.turn ISample.down) []
    ISample.start w1 e d Ed eq_refl first_sole (conj eq_refl eq_refl) E1 Hb Hnot) as H.
  destruct (run_ingester _ _ _ _ _ _ _ _) as [loop w2]. destruct H as (Hloop & _ & Hnext).
  cbn [ingest_loop] in Hloop. injection Hloop as _ ->. split; [exact Hnot|].
  destruct (ISample.cycle 10 (ISample.up (11, 7)%N) w1) as [res3 w3] eqn:E3.
  assert (Hok : is_ok res3 = true) by (vm_compute in E1; injection E1 as _ <-; vm_compute in E3; by injection E3 as <- _).
  destruct res3 as [stats|]; [|discriminate Hok]. cbn [snd].
  assert (Hr : exists k', recv ISample.client (ig_client w1) = (Ok (ISample.msg 1 2 (Some "v2")), k'))
    by (vm_compute in E1; injection E1 as _ <-; eexists; reflexivity).
  destruct Hr as [k' Hr]. destruct (Hnext _ _ _ _ _ Hr eq_refl E3) as (H1 & H2 & _). exact (conj H1 H2).
Defined.

Lemma acknowledged_is_durable_witness :
  extends (ig_store ISample.start) (ig_store ISample.one)
  /\ exists m, durable (ig_store ISample.one) m /\ k_offset m = 0
     /\ ISample.b_committed (ig_client ISample.one) (place_of m) = 1.
Proof.
  destruct (acknowledged_is_durable ISample.client ISample.log ISample.b_position ISample.b_committed
              WSample.from_slice ISample.show ISample.rd_show Sample.cfg 2 (ISample.up (10, 7)%N)
              ISample.start ISample.one _ (surjective_pairing _)) as (He & _ & Hok).
  destruct (Hok (stats_of ISample.first true false false)) as (m & _ & Hd & Hc & _ & Ho & _);
    [vm_compute; reflexivity|].
  split; [exact He|]. exists m. simpl in Ho. rewrite <- Ho in Hc. by rewrite <- Ho.
Defined.

Lemma refusal_breaker_witness :
  fst (ISample.cycle 1 (ISample.up (12, 7)%N) ISample.two)
    = Err (RdConsecutiveSkipLimitExceeded 1 0 2)
  /\ exists m, ISample.log (place_of m) 2 = Some m
     /\ durable (ig_store (snd (ISample.cycle 1 (ISample.up (12, 7)%N) ISample.two))) m.
Proof.
  assert (E : fst (ISample.cycle 1 (ISample.up (12, 7)%N) ISample.two)
              = Err (RdConsecutiveSkipLimitExceeded 1 0 2)) by (vm_compute; reflexivity).
  split; [exact E|].
  pose proof (refusal_breaker ISample.client ISample.log ISample.b_position ISample.b_committed
                WSample.from_slice ISample.show ISample.rd_show Sample.cfg 1 (ISample.up (12, 7)%N)
                ISample.two _ _ (surjective_pairing _)) as H.
  fold (ISample.cycle 1) in H. rewrite E in H. destruct H as (_ & _ & (m & Hm & _ & Hd) & _). eauto.
Defined.

Lemma at_least_once_witness : durable (ig_store ISample.three) ISample.first.
Proof.
  apply (at_least_once ISample.client ISample.log ISample.b_position ISample.b_committed
           WSample.from_slice ISample.show ISample.rd_show Sample.cfg 2 ISample.start ISample.three
           (fun _ => eq_refl)) with (p := ISample.orders) (o := 0).
  - apply (rtc_l _ _ ISample.one); [|apply (rtc_l _ _ ISample.two); [|apply rtc_once]].
    + by apply step_success with (x := ISample.up (10, 7)%N) (s := stats_of ISample.first true false false).
    + by apply step_success with (x := ISample.up (11, 7)%N)
        (s := stats_of (ISample.msg 1 2 None) true false false).
    + by apply step_success with (x := ISample.up (12, 7)%N)
        (s := stats_of (ISample.msg 2 3 None) false false true).
  - done.
  - vm_compute. split; [discriminate|done].
Defined.
