(* ===== verification/Decimal.v ===== *)
(** * Decimal: numbers as decimal text

    The texts [format!] and [str::parse] give and take for integers: the digits
    of a number ([pretty] of stdpp is the [Display] form), their value, and the
    round trip between the two. *)

From stdpp Require Export pretty.
From S2P Require Import Prelude Text.
Open Scope string_scope.
Open Scope list_scope.
Open Scope Z_scope.

#[local] Arguments String.append !_ _ : simpl nomatch.

Definition is_digit : ascii -> bool := byte_in 48 57.
Definition digit_value (c : ascii) : Z := byte_val c - 48.

(** The value of a run of digits, most significant first. *)
Fixpoint digits_value (acc : Z) (s : string) : Z :=
  match s with
  | EmptyString => acc
  | String c s => digits_value (acc * 10 + digit_value c) s
  end.

Lemma pretty_N_char_digit n :
  (n < 10)%N -> is_digit (pretty_N_char n) = true /\ digit_value (pretty_N_char n) = Z.of_N n.
Proof.
  intros Hn. set (ok k := is_digit (pretty_N_char (N.of_nat k)) = true
                          /\ digit_value (pretty_N_char (N.of_nat k)) = Z.of_N (N.of_nat k)).
  assert (Hall : Forall ok (seq 0 10)) by (repeat (apply Forall_cons; split; [by vm_compute|]); apply Forall_nil_2).
  rewrite Forall_forall in Hall. specialize (Hall (N.to_nat n)). unfold ok in Hall. rewrite N2Nat.id in Hall.
  apply Hall, elem_of_seq. lia.
Qed.

Lemma digits_value_app acc s t : digits_value acc (s +:+ t) = digits_value (digits_value acc s) t.
Proof. revert acc. induction s as [|c s IH]; intros acc; [done|]. simpl. apply IH. Qed.

(** The digits a number contributes in front of a text. *)
Lemma pretty_N_go_spec n : forall s,
  exists t, pretty_N_go n s = t +:+ s /\ all_bytes is_digit t = true
    /\ forall acc, acc = 0 -> digits_value acc t = Z.of_N n.
Proof.
  induction (N.lt_wf_0 n) as [n _ IH]; intros s.
  destruct (decide (n = 0)%N) as [->|Hn].
  { exists "". split_and!; [done..|]. by intros acc ->. }
  rewrite pretty_N_go_step by lia.
  destruct (IH (n `div` 10)%N ltac:(apply N.div_lt; lia) (String (pretty_N_char (n `mod` 10)) s))
    as (t & -> & Hd & Hv).
  destruct (pretty_N_char_digit (n `mod` 10)) as [Hc Hcv]; [by apply N.mod_lt|].
  exists (t +:+ String (pretty_N_char (n `mod` 10)) ""). split_and!.
  - by rewrite append_assoc.
  - rewrite all_bytes_append, Hd. simpl. by rewrite Hc.
  - intros acc Hacc. rewrite digits_value_app, (Hv acc Hacc). simpl. rewrite Hcv.
    rewrite (N.div_mod n 10) at 3 by done. lia.
Qed.

Lemma pretty_N_spec (n : N) :
  all_bytes is_digit (pretty n) = true /\ digits_value 0 (pretty n) = Z.of_N n /\ pretty n <> "".
Proof.
  unfold pretty, pretty_N. case_decide as Hn; [by subst|].
  destruct (pretty_N_go_spec n "") as (t & E & Hd & Hv). rewrite E, append_nil_r. split_and!; [done|by apply Hv|].
  intros ->. specialize (Hv 0 eq_refl). simpl in Hv. lia.
Qed.

(** The [Display] form of a non-negative number is its digits, and their value
    is the number. *)
Lemma pretty_Z_nonneg z :
  0 <= z -> all_bytes is_digit (pretty z) = true /\ digits_value 0 (pretty z) = z /\ pretty z <> "".
Proof.
  destruct z as [|p|p]; [done| |lia]. intros _.
  change (pretty (Z.pos p)) with (pretty (N.pos p)). apply pretty_N_spec.
Qed.

Lemma all_bytes_impl (p q : ascii -> bool) s :
  (forall c, p c = true -> q c = true) -> all_bytes p s = true -> all_bytes q s = true.
Proof.
  intros H. induction s as [|c s IH]; [done|]. simpl. intros [Hc Hs]%andb_true_iff.
  by rewrite (H c Hc), IH.
Qed.

(** A number never holds a separator. *)
Lemma pretty_Z_avoids c (z : Z) :
  is_digit c = false -> c <> "-"%char -> avoids c (pretty z) = true.
Proof.
  intros Hc Hd.
  assert (Hn : forall n : N, avoids c (pretty n) = true).
  { intros n. destruct (pretty_N_spec n) as [H _]. eapply all_bytes_impl; [|exact H].
    intros a Ha. destruct (Ascii.eqb_spec a c); [congruence|done]. }
  destruct z as [|p|p].
  - exact (Hn 0%N).
  - exact (Hn (N.pos p)).
  - change (pretty (Z.neg p)) with ("-" +:+ pretty (N.pos p)). unfold avoids.
    rewrite all_bytes_append. fold (avoids c (pretty (N.pos p))). rewrite (Hn (N.pos p)).
    cbn [all_bytes]. destruct (Ascii.eqb_spec "-"%char c); [congruence|done].
Qed.
