(* ===== verification/Schema.v ===== *)
(** * Schema: the statements that create the tables

    Models [src/crates/kafkaman-sqlx/src/schema_sql.rs]: the text of every
    [CREATE] and [ALTER] statement, the literals in them, and what the one
    statement that rewrites rows (the outbox upgrade of slot 1) does to a table
    written by an older build. Executing a text is PostgreSQL's part. *)

From S2P Require Import Prelude Text Vocabulary Trace Identity Topics Registry Outbox OutboxOrder.
Open Scope string_scope.
Open Scope list_scope.
Open Scope Z_scope.

#[local] Arguments String.append !_ _ : simpl nomatch.

(** ** Literals and names *)

Definition squote : ascii := "'"%char.

(** [value.replace('\'', "''")] of one quote by two. *)
Fixpoint double_quotes (s : string) : string :=
  match s with
  | EmptyString => EmptyString
  | String c s => if Ascii.eqb c squote then String c (String c (double_quotes s))
                  else String c (double_quotes s)
  end.

Definition sql_string_literal (value : string) : string := "'" +:+ double_quotes value +:+ "'".

(** [tables::qualified_name]. *)
Definition qualified (schema name : SqlIdentifier) : string := quoted schema +:+ "." +:+ quoted name.

(** [OutboxTable::index_name] and [ReceivedTable::index_name]. *)
Definition index_name (table : Table) (suffix : string) : SqlIdentifier :=
  bounded_index_name (tbl_name table) suffix.

Definition sequence_name (table : Table) : string :=
  qualified (tbl_schema table) (index_name table "_enqueue_order_seq").

(** The terminal outbox statuses, as the retention index lists them. *)
Definition terminal_outbox_status_literals : string :=
  str_join ", " (map sql_literal [Published; Superseded; OFailed]).

Definition received_status_constraint_name (table : Table) : SqlIdentifier :=
  index_name table "_status_check".

Definition received_failure_kind_sql_literal_list : string :=
  str_join ", " (map (fun k : ReceivedFailureKind => sql_string_literal (enum_str k)) enum_ALL).

(** ** Template versions *)

Definition OUTBOX_TEMPLATE_VERSION : Z := 1.
Definition RECEIVED_TEMPLATE_VERSION : Z := 0.
Definition CACHE_TEMPLATE_VERSION : Z := 0.

(** ** The statements *)

(** The outbox template, slot 0. *)
Definition create_outbox_table_sql (table : Table) : string :=
  "CREATE TABLE IF NOT EXISTS "
  +:+ qualified_name table
  +:+ " (
            message_id UUID PRIMARY KEY,
            idempotency_key TEXT,
            idempotency_source JSONB,
            status TEXT NOT NULL DEFAULT "
  +:+ sql_literal Pending
  +:+ ",
            attempts INT NOT NULL DEFAULT 0,
            next_attempt_at TIMESTAMPTZ NOT NULL DEFAULT now(),
            last_error TEXT,
            claim_id UUID,
            claimed_by TEXT,
            claim_expires_at TIMESTAMPTZ,
            topic TEXT NOT NULL,
            partition_key TEXT,
            entity_key TEXT,
            correlation_id UUID NOT NULL,
            causation_id UUID,
            traceparent TEXT,
            tracestate TEXT,
            headers JSONB NOT NULL DEFAULT '{}',
            payload JSONB NOT NULL,
            occurred_at TIMESTAMPTZ NOT NULL,
            created_at TIMESTAMPTZ NOT NULL DEFAULT now(),
            published_at TIMESTAMPTZ,
            CHECK (status IN ("
  +:+ sql_literal_list (A := OutboxStatus)
  +:+ ")),
            CHECK (idempotency_key IS NULL OR idempotency_key ~ '^[0-9a-f]{64}$')
        )".

Definition create_outbox_state_index_sql (table : Table) : string :=
  "CREATE INDEX IF NOT EXISTS "
  +:+ quoted (index_name table "_state")
  +:+ " ON "
  +:+ qualified_name table
  +:+ " (status, next_attempt_at, claim_expires_at, created_at)".

(** The outbox upgrade, slot 1. *)
Definition add_outbox_enqueue_order_sql (table : Table) : string :=
  "DO $migration$ BEGIN
            LOCK TABLE "
  +:+ qualified_name table
  +:+ " IN ACCESS EXCLUSIVE MODE;
            IF NOT EXISTS (SELECT FROM pg_attribute
                WHERE attrelid = "
  +:+ sql_string_literal (qualified_name table)
  +:+ "::regclass
                  AND attname = 'enqueue_order' AND NOT attisdropped) THEN
                ALTER TABLE "
  +:+ qualified_name table
  +:+ " ADD COLUMN enqueue_order BIGINT;
                CREATE SEQUENCE "
  +:+ sequence_name table
  +:+ " AS BIGINT CACHE 1 OWNED BY "
  +:+ qualified_name table
  +:+ ".enqueue_order;
                UPDATE "
  +:+ qualified_name table
  +:+ " AS target SET enqueue_order = ranked.ordinal
                FROM (SELECT message_id, row_number() OVER (ORDER BY created_at, message_id) AS ordinal
                      FROM "
  +:+ qualified_name table
  +:+ ") AS ranked
                WHERE target.message_id = ranked.message_id;
                PERFORM setval("
  +:+ sql_string_literal (sequence_name table)
  +:+ "::regclass,
                    COALESCE((SELECT max(enqueue_order) FROM "
  +:+ qualified_name table
  +:+ "), 1),
                    EXISTS(SELECT FROM "
  +:+ qualified_name table
  +:+ "));
                ALTER TABLE "
  +:+ qualified_name table
  +:+ " ALTER COLUMN enqueue_order SET DEFAULT nextval("
  +:+ sql_string_literal (sequence_name table)
  +:+ "::regclass),
                    ALTER COLUMN enqueue_order SET NOT NULL;
                DROP INDEX "
  +:+ qualified (tbl_schema table) (index_name table "_entity_state")
  +:+ ";
                CREATE INDEX "
  +:+ quoted (index_name table "_entity_state")
  +:+ " ON "
  +:+ qualified_name table
  +:+ " (entity_key, status, enqueue_order)
                    WHERE entity_key IS NOT NULL;
            END IF;
        END $migration$".

Definition create_outbox_entity_state_index_sql (table : Table) : string :=
  "CREATE INDEX IF NOT EXISTS "
  +:+ quoted (index_name table "_entity_state")
  +:+ " ON "
  +:+ qualified_name table
  +:+ " (entity_key, status, created_at) WHERE entity_key IS NOT NULL".

Definition create_outbox_retention_index_sql (table : Table) : string :=
  "CREATE INDEX IF NOT EXISTS "
  +:+ quoted (index_name table "_retention")
  +:+ " ON "
  +:+ qualified_name table
  +:+ " (created_at) WHERE status IN ("
  +:+ terminal_outbox_status_literals
  +:+ ")".

(** The received template. *)
Definition create_received_table_sql (table : Table) : string :=
  "CREATE TABLE IF NOT EXISTS "
  +:+ qualified_name table
  +:+ " (
            message_id UUID PRIMARY KEY,
            idempotency_key TEXT NOT NULL CHECK (idempotency_key ~ '^[0-9a-f]{64}$'),
            idempotency_source JSONB,
            status TEXT NOT NULL DEFAULT "
  +:+ sql_literal RPending
  +:+ ",
            attempts INTEGER NOT NULL DEFAULT 0 CHECK (attempts >= 0),
            next_attempt_at TIMESTAMPTZ,
            errors JSONB NOT NULL DEFAULT '[]'::jsonb,
            last_failed_at TIMESTAMPTZ,
            last_failure_kind TEXT CHECK (last_failure_kind IN ("
  +:+ received_failure_kind_sql_literal_list
  +:+ ")),
            source_topic TEXT NOT NULL,
            source_partition INTEGER NOT NULL,
            source_offset BIGINT NOT NULL,
            key BYTEA,
            entity_key TEXT,
            message_type TEXT NOT NULL,
            message_version INTEGER NOT NULL DEFAULT 1 CHECK (message_version >= 1),
            headers JSONB NOT NULL DEFAULT '{}'::jsonb,
            payload JSONB NOT NULL,
            correlation_id UUID,
            causation_id UUID,
            traceparent TEXT,
            tracestate TEXT,
            occurred_at TIMESTAMPTZ NOT NULL,
            created_at TIMESTAMPTZ NOT NULL DEFAULT now(),
            processed_at TIMESTAMPTZ,
            CONSTRAINT "
  +:+ quoted (received_status_constraint_name table)
  +:+ " CHECK (status IN ("
  +:+ sql_literal_list (A := ReceiveStatus)
  +:+ "))
        )".

Definition create_received_idempotency_index_sql (table : Table) : string :=
  "CREATE UNIQUE INDEX IF NOT EXISTS "
  +:+ quoted (index_name table "_idempotency")
  +:+ " ON "
  +:+ qualified_name table
  +:+ " (idempotency_key)".

Definition create_received_state_index_sql (table : Table) : string :=
  "CREATE INDEX IF NOT EXISTS "
  +:+ quoted (index_name table "_state")
  +:+ " ON "
  +:+ qualified_name table
  +:+ " (status, next_attempt_at, created_at)".

Definition create_received_failed_index_sql (table : Table) : string :=
  "CREATE INDEX IF NOT EXISTS "
  +:+ quoted (index_name table "_failed")
  +:+ " ON "
  +:+ qualified_name table
  +:+ " (last_failed_at, created_at, message_id, last_failure_kind) WHERE status = "
  +:+ sql_literal Failed.

(** The cache template. *)
Definition create_cache_table_sql (table : Table) : string :=
  "CREATE TABLE IF NOT EXISTS "
  +:+ qualified_name table
  +:+ " (
            entity_key TEXT PRIMARY KEY,
            payload JSONB NOT NULL,
            applied_topic TEXT NOT NULL,
            applied_partition INTEGER NOT NULL,
            applied_offset BIGINT NOT NULL,
            deleted BOOLEAN NOT NULL DEFAULT false,
            updated_at TIMESTAMPTZ NOT NULL DEFAULT now()
        )".

Definition received_ingest_failures_table_name (cfg : ResolvedConfig) : result Error string :=
  name ← lift_core (identifier_new "received_ingest_failures");
  Ok (qualified (schema cfg) name).

Definition create_received_ingest_failures_table_sql (cfg : ResolvedConfig) : result Error string :=
  name ← received_ingest_failures_table_name cfg;
  Ok ("CREATE TABLE IF NOT EXISTS "
  +:+ name
  +:+ " (
            source_topic TEXT NOT NULL,
            source_partition INT NOT NULL,
            source_offset BIGINT NOT NULL,
            key BYTEA,
            headers JSONB NOT NULL,
            payload BYTEA,
            message_type TEXT NOT NULL,
            expected_topic TEXT NOT NULL,
            failure_kind TEXT NOT NULL,
            error TEXT NOT NULL,
            created_at TIMESTAMPTZ NOT NULL DEFAULT now(),
            PRIMARY KEY (source_topic, source_partition, source_offset)
        )").

(** ** Reading a literal back *)

(** How PostgreSQL reads the rest of a standard string literal: a doubled quote
    is a quote, a single one ends the literal. *)
Fixpoint read_quoted (s : string) : option (string * string) :=
  match s with
  | EmptyString => None
  | String c s =>
      if Ascii.eqb c squote then
        match s with
        | String c' s' =>
            if Ascii.eqb c' squote then '(v, rest) ← read_quoted s'; Some (String c v, rest)
            else Some ("", s)
        | EmptyString => Some ("", s)
        end
      else '(v, rest) ← read_quoted s; Some (String c v, rest)
  end.

Definition read_literal (s : string) : option (string * string) :=
  match s with
  | String c s => if Ascii.eqb c squote then read_quoted s else None
  | EmptyString => None
  end.

(** What may follow a literal without becoming part of it. *)
Definition ends_literal (rest : string) : Prop := forall t, rest <> String squote t.

Lemma read_quoted_doubled v rest :
  ends_literal rest -> read_quoted (double_quotes v +:+ String squote rest) = Some (v, rest).
Proof.
  intros Hr. induction v as [|c v IH]; simpl.
  - destruct rest as [|c rest]; [done|].
    destruct (Ascii.eqb_spec c squote) as [->|]; [by destruct (Hr rest)|done].
  - destruct (Ascii.eqb_spec c squote) as [->|Hc]; simpl.
    + by rewrite IH.
    + apply Ascii.eqb_neq in Hc. rewrite Hc. by rewrite IH.
Qed.

Lemma read_sql_string_literal v rest :
  ends_literal rest -> read_literal (sql_string_literal v +:+ rest) = Some (v, rest).
Proof.
  intros Hr. unfold sql_string_literal, read_literal. rewrite !append_assoc. simpl.
  by apply read_quoted_doubled.
Qed.

(** The texts of a comma-separated list of literals. *)
Fixpoint read_literals (fuel : nat) (s : string) : option (list string) :=
  match fuel with
  | O => None
  | S fuel =>
      '(v, rest) ← read_literal s;
      if is_empty rest then Some [v]
      else rest ← strip_prefix ", " rest; vs ← read_literals fuel rest; Some (v :: vs)
  end.

Lemma read_join vs fuel :
  vs <> [] -> (length vs <= fuel)%nat ->
  read_literals fuel (str_join ", " (map sql_string_literal vs)) = Some vs.
Proof.
  revert fuel. induction vs as [|v vs IH]; intros [|fuel] Hne Hf; try done; simpl in Hf; [lia|].
  destruct vs as [|v' vs].
  - cbn [map str_join read_literals]. rewrite <- (append_nil_r (sql_string_literal v)).
    by rewrite read_sql_string_literal.
  - specialize (IH fuel ltac:(done) ltac:(simpl in *; lia)).
    remember (v' :: vs) as ws eqn:Ews.
    assert (E : str_join ", " (map sql_string_literal (v :: ws))
                = sql_string_literal v +:+ ", " +:+ str_join ", " (map sql_string_literal ws)) by (by subst ws).
    rewrite E. cbn [read_literals].
    rewrite read_sql_string_literal by (intros t; by destruct (str_join _ _)).
    simpl. by rewrite IH.
Qed.

(** ** The status checks *)

(** [CHECK (col IN (list))] as PostgreSQL evaluates it on a non-null text. *)
Definition check_admits (literals value : string) : Prop :=
  exists vs, read_literals (String.length literals) literals = Some vs /\ value ∈ vs.

Lemma double_quotes_avoids s : avoids squote s = true -> double_quotes s = s.
Proof.
  induction s as [|c s IH]; [done|]. unfold avoids in *. simpl. intros [Hc Hs]%andb_true_iff.
  destruct (Ascii.eqb c squote); [done|]. f_equal. by apply IH.
Qed.

Lemma length_join_literals vs : (length vs <= String.length (str_join ", " (map sql_string_literal vs)))%nat.
Proof.
  induction vs as [|v vs IH]; [done|]. destruct vs as [|v' vs].
  - unfold sql_string_literal. simpl. lia.
  - remember (v' :: vs) as ws eqn:Ews.
    assert (E : str_join ", " (map sql_string_literal (v :: ws))
                = sql_string_literal v +:+ ", " +:+ str_join ", " (map sql_string_literal ws)) by (by subst ws).
    rewrite E. unfold sql_string_literal at 1. rewrite !length_append. simpl in *. lia.
Qed.

Lemma check_admits_join vs s :
  vs <> [] -> check_admits (str_join ", " (map sql_string_literal vs)) s <-> s ∈ vs.
Proof.
  intros Hne. unfold check_admits. rewrite read_join by (done || apply length_join_literals). naive_solver.
Qed.

Section status_checks.
Context {A : Type} `{Hen : NamedEnum A}.

(** Spellings without a quote are written by both literal functions alike. *)
Lemma check_admits_spellings s :
  forallb (fun a : A => avoids squote (enum_str a)) enum_ALL = true ->
  enum_ALL <> ([] : list A) ->
  check_admits (sql_literal_list (A := A)) s <-> exists a : A, enum_str a = s.
Proof.
  intros Hq Hne. unfold sql_literal_list.
  assert (E : map sql_literal enum_ALL = map sql_string_literal (map enum_str (enum_ALL : list A))).
  { rewrite map_map. apply map_ext_in. intros a Ha. unfold sql_literal, sql_string_literal.
    rewrite forallb_forall in Hq. by rewrite double_quotes_avoids by auto. }
  rewrite E, check_admits_join by (by destruct enum_ALL). rewrite list_elem_of_In, in_map_iff.
  split; [intros (a & Ha & _); eauto|].
  intros [a Ha]. exists a. split; [done|]. apply list_elem_of_In, enum_complete.
Qed.
End status_checks.

(** C36. The generated CHECK constraints and the Rust types cannot drift: read
    the way PostgreSQL reads them, the literal lists of the outbox status, the
    received status and the failure kind admit a text exactly when it is the
    stored spelling of a variant; and the texts of the retention index are
    exactly the spellings of the terminal outbox statuses. *)
Theorem check_constraints_match_types (s : string) :
  (check_admits (sql_literal_list (A := OutboxStatus)) s <-> exists st : OutboxStatus, enum_str st = s)
  /\ (check_admits (sql_literal_list (A := ReceiveStatus)) s <-> exists st : ReceiveStatus, enum_str st = s)
  /\ (check_admits received_failure_kind_sql_literal_list s
      <-> exists k : ReceivedFailureKind, enum_str k = s)
  /\ (check_admits terminal_outbox_status_literals s
      <-> exists st : OutboxStatus, outbox_is_terminal st = true /\ enum_str st = s).
Proof.
  split_and!.
  - by apply check_admits_spellings.
  - by apply check_admits_spellings.
  - unfold received_failure_kind_sql_literal_list.
    rewrite <- map_map, check_admits_join by done. rewrite list_elem_of_In, in_map_iff.
    split; [intros (k & Hk & _); eauto|]. intros [k Hk]. exists k. split; [done|]. apply list_elem_of_In, enum_complete.
  - change terminal_outbox_status_literals
      with (str_join ", " (map sql_string_literal (map enum_str [Published; Superseded; OFailed]))).
    rewrite check_admits_join by done. cbn [map]. split.
    + rewrite !elem_of_cons, elem_of_nil. intros [->|[->|[->|[]]]];
        [exists Published|exists Superseded|exists OFailed]; done.
    + intros (st & Ht & <-). destruct st; try discriminate Ht; set_solver.
Qed.

(** A quoted literal is read back as the very text it was made from,
    whatever the text holds, and what follows it stays outside: a name that
    reaches a statement through [sql_string_literal] cannot end the literal
    early or swallow what comes after it. *)
Theorem literal_reads_back (v rest : string) (Hr : ends_literal rest) :
  read_literal (sql_string_literal v +:+ rest) = Some (v, rest).
Proof. by apply read_sql_string_literal. Qed.

Lemma literal_reads_back_witness :
  read_literal (sql_string_literal "it's '' quoted'" +:+ "::regclass") = Some ("it's '' quoted'", "::regclass").
Proof. apply (literal_reads_back "it's '' quoted'" "::regclass"). discriminate. Defined.

(** ** The outbox upgrade *)

(** The row with its ordinal; a table of the older build has no such column, so
    the order its rows carry before the upgrade means nothing. *)
Definition set_order (r : DbRow) (n : Z) : DbRow :=
  {| msg := {| message_id := message_id r; idempotency_key := idempotency_key r;
               idempotency_source := idempotency_source r; topic := topic r;
               partition_col := partition_col r; entity_col := entity_col r;
               correlation_id := correlation_id r; causation_id := causation_id r;
               traceparent_col := traceparent_col r; tracestate_col := tracestate_col r;
               headers := headers r; payload := payload r; occurred_at := occurred_at r;
               created_at := created_at r; enqueue_order := n |};
     status := status r; attempts := attempts r; next_attempt_at := next_attempt_at r;
     last_error := last_error r; claim_id := claim_id r; claimed_by := claimed_by r;
     claim_expires_at := claim_expires_at r; published_at := published_at r |}.

(** [row_number() OVER (ORDER BY created_at, message_id)]. *)
Definition legacy_key (r : DbRow) : list Z := [created_at r; Z.of_N (message_id r)].
Definition ranked (t : list DbRow) : list DbRow :=
  imap (fun i r => set_order r (Z.of_nat i + 1)) (sql_order_by_lex legacy_key t).

(** The [DO] block: nothing when the column exists, else the backfill and the
    sequence positioned after the greatest ordinal. *)
Definition add_outbox_enqueue_order (has_column : bool) (t : Outbox) : Outbox :=
  if has_column then t
  else {| rows := ranked (rows t); next_order := Z.of_nat (length (rows t)) + 1 |}.

(** The order the older build used among the rows of one entity: the newest row
    is the one created last, ties broken by identifier. *)
Definition legacy_before (a b : DbRow) : Prop := lex_leb (legacy_key a) (legacy_key b) = true /\ a <> b.

(** What a table of the older build satisfies: distinct identifiers, checked
    keys, and at most one row of an entity in flight, older than its pending rows. *)
Record legacy_inv (t : list DbRow) : Prop := {
  leg_ids : NoDup (map row_id t);
  leg_keys : forall r : DbRow, r ∈ t -> check_idempotency_key (idempotency_key r) = true;
  leg_inflight : forall r1 r2 : DbRow, r1 ∈ t -> r2 ∈ t -> status r1 = Publishing -> live r2 = true ->
    same_entity r1 r2 = true -> r2 = r1 \/ (status r2 = Pending /\ legacy_before r1 r2);
}.

Lemma legacy_key_inj a b : legacy_key a = legacy_key b -> row_id a = row_id b.
Proof. unfold legacy_key, row_id. intros [= _ H]. by apply N2Z.inj. Qed.

Lemma lex_leb_antisym a b : length a = length b -> lex_leb a b = true -> lex_leb b a = true -> a = b.
Proof.
  revert b. induction a as [|x a IH]; intros [|y b] Hl H1 H2; simpl in *; try done.
  apply orb_true_iff in H1, H2. rewrite andb_true_iff, Z.ltb_lt, Z.eqb_eq in H1, H2.
  destruct H1 as [H1|[-> H1]], H2 as [H2|[H2e H2]]; try lia. f_equal. apply IH; [lia|done..].
Qed.

(** Ordinals of the sorted table, from any start. *)
Lemma orders_of_imap (l : list DbRow) k :
  map row_order (imap (fun i r => set_order r (Z.of_nat (k + i) + 1)) l) = map (fun i => Z.of_nat i + 1) (seq k (length l)).
Proof.
  revert k. induction l as [|r l IH]; intros k; [done|]. simpl. f_equal.
  - unfold row_order. simpl. lia.
  - rewrite <- (IH (S k)). f_equal. apply imap_ext. intros i x _. simpl. f_equal. lia.
Qed.

Lemma ranked_orders t : map row_order (ranked t) = map (fun i => Z.of_nat i + 1) (seq 0 (length t)).
Proof.
  unfold ranked. rewrite <- (Permutation_length (merge_sort_Permutation (lex_le legacy_key) t)).
  apply (orders_of_imap _ 0).
Qed.

Lemma seq_orders_sorted k n : StronglySorted Z.lt (map (fun i => Z.of_nat i + 1) (seq k n)).
Proof.
  revert k. induction n as [|n IH]; intros k; simpl; constructor; [apply IH|].
  apply Forall_forall. intros z (i & <- & Hi)%list_elem_of_In%in_map_iff. apply in_seq in Hi. lia.
Qed.

Lemma ranked_lookup t r' :
  r' ∈ ranked t <-> exists i r, sql_order_by_lex legacy_key t !! i = Some r /\ r' = set_order r (Z.of_nat i + 1).
Proof.
  unfold ranked. rewrite list_elem_of_lookup. setoid_rewrite list_lookup_imap_Some. naive_solver.
Qed.

Lemma ranked_ids t : map row_id (ranked t) = map row_id (sql_order_by_lex legacy_key t).
Proof.
  unfold ranked. generalize (sql_order_by_lex legacy_key t) as l. intros l.
  apply list_eq. intros i. rewrite !list_lookup_fmap, list_lookup_imap. by destruct (l !! i).
Qed.

Lemma ranked_member t i r : sql_order_by_lex legacy_key t !! i = Some r -> r ∈ t.
Proof. intros H%list_elem_of_lookup_2. by apply elem_of_order_by_lex in H. Qed.

(** Earlier in the legacy order means a smaller ordinal. *)
Lemma ranked_before t i j a b :
  NoDup (map row_id t) -> sql_order_by_lex legacy_key t !! i = Some a ->
  sql_order_by_lex legacy_key t !! j = Some b -> legacy_before a b -> (i < j)%nat.
Proof.
  intros Hnd Ha Hb [Hle Hne]. destruct (decide (i < j)%nat) as [|Hij]; [done|]. exfalso.
  destruct (decide (i = j)) as [->|]; [congruence|].
  pose proof (order_by_lex_sorted legacy_key t) as Hs.
  assert (lex_le legacy_key b a) as Hba.
  { eapply (sorted_lookup _ _ j i); [done..|lia]. }
  apply Hne. eapply (NoDup_key_inj row_id t); eauto using ranked_member.
  apply legacy_key_inj. by apply lex_leb_antisym.
Qed.

(** The outbox upgrade brings a table of the older build into the shape every
    later statement relies on: ordinals are distinct and follow the legacy order
    of creation, the sequence continues after the greatest, and the invariant of
    the outbox table holds, so that ordering is guaranteed across the upgrade;
    a second execution changes nothing. *)
Theorem enqueue_order_upgrade (t : Outbox) (Hleg : legacy_inv (rows t)) :
  let t' := add_outbox_enqueue_order false t in
  outbox_inv t'
  /\ map row_id (rows t') ≡ₚ map row_id (rows t)
  /\ (forall a b, a ∈ rows t -> b ∈ rows t -> legacy_before a b ->
       exists m n, set_order a m ∈ rows t' /\ set_order b n ∈ rows t' /\ m < n)
  /\ add_outbox_enqueue_order true t' = t'.
Proof.
  destruct Hleg as [Hids Hkeys Hin]. simpl.
  pose proof (ranked_ids (rows t)) as Hid.
  assert (Hperm : map row_id (ranked (rows t)) ≡ₚ map row_id (rows t)).
  { rewrite Hid. apply Permutation_map, merge_sort_Permutation. }
  split_and!; [constructor; simpl| exact Hperm | | done].
  - rewrite ranked_orders. apply seq_orders_sorted.
  - by rewrite Hperm.
  - intros r Hr. assert (Ho : row_order r ∈ map row_order (ranked (rows t))).
    { apply list_elem_of_In, in_map_iff. exists r. by rewrite <- list_elem_of_In. }
    rewrite ranked_orders in Ho. apply list_elem_of_In, in_map_iff in Ho as (i & <- & Hi%in_seq). lia.
  - intros r1 r2 (i & a & Ha & ->)%ranked_lookup (j & b & Hb & ->)%ranked_lookup Hs Hl He.
    destruct (Hin a b) as [->|[Hp Hb']]; eauto using ranked_member.
    + left. f_equal. assert (i = j) as ->; [|done].
      eapply (NoDup_lookup (map row_id (sql_order_by_lex legacy_key (rows t)))).
      { rewrite <- Hid. by rewrite Hperm. }
      { rewrite list_lookup_fmap, Ha. reflexivity. }
      { by rewrite list_lookup_fmap, Hb. }
    + right. split; [done|]. unfold row_order. simpl.
      pose proof (ranked_before _ i j a b Hids Ha Hb Hb'). lia.
  - intros r (i & a & Ha & ->)%ranked_lookup. simpl. eauto using ranked_member.
  - intros a b Ha Hb Hab.
    apply (elem_of_order_by_lex legacy_key) in Ha as [i Ha]%list_elem_of_lookup.
    apply (elem_of_order_by_lex legacy_key) in Hb as [j Hb]%list_elem_of_lookup.
    exists (Z.of_nat i + 1), (Z.of_nat j + 1).
    split_and!; [apply ranked_lookup; eauto..|].
    pose proof (ranked_before _ i j a b Hids Ha Hb Hab). lia.
Qed.

Definition legacy_sample (id : uuid) (created : Z) (st : OutboxStatus) : DbRow :=
  {| msg := {| message_id := id; idempotency_key := None; idempotency_source := None; topic := "t";
               partition_col := None; entity_col := Some "e"; correlation_id := 1%N;
               causation_id := None; traceparent_col := None; tracestate_col := None;
               headers := ∅; payload := "1"; occurred_at := 0; created_at := created;
               enqueue_order := 0 |};
     status := st; attempts := 0; next_attempt_at := 0; last_error := None; claim_id := None;
     claimed_by := None; claim_expires_at := None; published_at := None |}.

Lemma enqueue_order_upgrade_witness :
  let t := {| rows := [legacy_sample 7 20 Pending; legacy_sample 3 10 Publishing]; next_order := 0 |} in
  outbox_inv (add_outbox_enqueue_order false t).
Proof.
  refine (proj1 (enqueue_order_upgrade
    {| rows := [legacy_sample 7 20 Pending; legacy_sample 3 10 Publishing]; next_order := 0 |} _)).
  constructor.
  - apply (bool_decide_unpack _). vm_compute. done.
  - intros r Hr. simpl in Hr. set_solver.
  - intros r1 r2 H1 H2. simpl in H1, H2. rewrite !elem_of_cons, elem_of_nil in H1, H2.
    destruct H1 as [->|[->|[]]], H2 as [->|[->|[]]]; intros Hs _ _; try discriminate Hs; [right|by left].
    split; [done|split; [vm_compute; done|discriminate]].
Defined.
