(* ===== verification/Changelog.v ===== *)
(** * Changelog: versioned schema changes and the changelog derived from tables

    Models [src/crates/kafkaman-sqlx/src/changeset.rs] (the trait, its defaults
    and its checksum), [changesets.rs] (the five changesets of the library),
    [changelog.rs] (the order check) and [generated_changelog.rs] (band
    allocation and the changelog derived from a set of tables). SHA-256 is the
    class [Sha256], of which only the width of a byte is assumed. *)


From S2P Require Import Prelude Text Decimal Vocabulary Trace Identity Topics Registry Outbox Schema.
Open Scope string_scope.
Open Scope list_scope.
Open Scope Z_scope.

#[local] Arguments String.append !_ _ : simpl nomatch.

(** The digest of a byte string ([sha2::Sha256]), as its bytes. *)
Class Sha256 := {
  sha256 : string -> list Z;
  sha256_bytes : forall s, Forall (fun b => 0 <= b < 256) (sha256 s);
}.

(** ** Changesets *)

(** [ChangeBuilder]: the statements a changeset contributes, in order. *)
Abbreviation ChangeBuilder := (list string) (only parsing).
Definition push (b : ChangeBuilder) (sql : string) : ChangeBuilder := b ++ [sql].

(** The trait: [D] is the database a replay count is estimated against. The
    defaulted methods are fields, and [with_defaults] below fills them in. *)
Record Changeset (D : Type) := {
  cs_version : Z;
  cs_name : string;
  cs_build : ResolvedConfig -> result Error ChangeBuilder;
  cs_material : string;
  cs_contexts : list string;
  cs_preview : ResolvedConfig -> result Error string;
  cs_estimate : ResolvedConfig -> D -> result Error (option Z);
}.
Arguments Build_Changeset {D}.
Arguments cs_version {D}.
Arguments cs_name {D}.
Arguments cs_build {D}.
Arguments cs_material {D}.
Arguments cs_contexts {D}.
Arguments cs_preview {D}.
Arguments cs_estimate {D}.

Definition newline : string := String "010"%char "".

(** The default [checksum_material], [dry_run_preview] and
    [estimate_replay_count]. *)
Definition default_material (version : Z) (name : string) : string := pretty version +:+ ":" +:+ name.
Definition default_preview (build : ResolvedConfig -> result Error ChangeBuilder)
  (cfg : ResolvedConfig) : result Error string :=
  statements ← build cfg; Ok (str_join newline statements).
Definition default_estimate {D} (_ : ResolvedConfig) (_ : D) : result Error (option Z) := Ok None.

Definition with_defaults {D} (version : Z) (name : string)
  (build : ResolvedConfig -> result Error ChangeBuilder) (material : string) : Changeset D :=
  {| cs_version := version; cs_name := name; cs_build := build; cs_material := material;
     cs_contexts := []; cs_preview := default_preview build; cs_estimate := default_estimate |}.

(** [stable_checksum]; the loop over the digest writes two digits per byte. *)
Definition stable_checksum `{Sha256} (material : string) : string :=
  "sha256:" +:+ to_hex (sha256 ("changeset:" +:+ material)).

Definition cs_checksum `{Sha256} {D} (cs : Changeset D) : string := stable_checksum (cs_material cs).

(** ** The order check *)

Fixpoint assert_order (versions : gset Z) (previous : option Z) (vs : list Z) : result Error unit :=
  match vs with
  | [] => Ok tt
  | version :: vs =>
      if decide (version ∈ versions) then Err (EDuplicateChangesetVersion version)
      else match previous with
           | Some previous =>
               if version <=? previous then Err (EDisorderedChangesetVersion previous version)
               else assert_order ({[version]} ∪ versions) (Some version) vs
           | None => assert_order ({[version]} ∪ versions) (Some version) vs
           end
  end.

Definition assert_changelog_order {D} (changesets : list (Changeset D)) : result Error unit :=
  assert_order ∅ None (map cs_version changesets).

(** [try_changelog!]; [changelog!] panics with the same error. *)
Definition try_changelog {D} (changesets : list (Changeset D)) : result Error (list (Changeset D)) :=
  _ ← assert_changelog_order changesets; Ok changesets.

(** ** The changesets of the library *)

Inductive LibraryChangeset :=
| InitSchema
| CreateOutboxTable (version : Z) (d : MessageDescriptor)
| AddOutboxEnqueueOrder (version : Z) (d : MessageDescriptor)
| CreateReceivedTable (version : Z) (d : MessageDescriptor)
| CreateCacheTable (version : Z) (d : MessageDescriptor).
#[global] Instance LibraryChangeset_eq_dec : EqDecision LibraryChangeset.
Proof. solve_decision. Defined.

Definition lib_version (c : LibraryChangeset) : Z :=
  match c with
  | InitSchema => 1
  | CreateOutboxTable v _ | AddOutboxEnqueueOrder v _ | CreateReceivedTable v _ | CreateCacheTable v _ => v
  end.

Definition lib_name (c : LibraryChangeset) : string :=
  match c with
  | InitSchema => "init_schema"
  | CreateOutboxTable _ _ => "create_outbox_table"
  | AddOutboxEnqueueOrder _ _ => "add_outbox_enqueue_order"
  | CreateReceivedTable _ _ => "create_received_table"
  | CreateCacheTable _ _ => "create_cache_table"
  end.

Definition lib_build (c : LibraryChangeset) (cfg : ResolvedConfig) : result Error ChangeBuilder :=
  match c with
  | InitSchema => Ok []
  | CreateOutboxTable _ d =>
      table ← table_new OutboxKind (schema cfg) d;
      Ok (push (push (push (push [] (create_outbox_table_sql table))
        (create_outbox_state_index_sql table))
        (create_outbox_entity_state_index_sql table))
        (create_outbox_retention_index_sql table))
  | AddOutboxEnqueueOrder _ d =>
      table ← table_new OutboxKind (schema cfg) d;
      Ok (push [] (add_outbox_enqueue_order_sql table))
  | CreateReceivedTable _ d =>
      table ← table_new ReceivedKind (schema cfg) d;
      Ok (push (push (push (push [] (create_received_table_sql table))
        (create_received_idempotency_index_sql table))
        (create_received_state_index_sql table))
        (create_received_failed_index_sql table))
  | CreateCacheTable _ d =>
      table ← table_new CacheKind (schema cfg) d;
      Ok (push [] (create_cache_table_sql table))
  end.

(** The material of a changeset that targets one message type. *)
Definition descriptor_material (version : Z) (name : string) (d : MessageDescriptor) : string :=
  "version=" +:+ pretty version +:+ ";name=" +:+ name +:+ ";message_type=" +:+ message_type d
  +:+ ";topic=" +:+ desc_topic d.

Definition lib_material (c : LibraryChangeset) : string :=
  match c with
  | InitSchema => "version=" +:+ pretty (lib_version c) +:+ ";name=" +:+ lib_name c
  | CreateOutboxTable _ d | AddOutboxEnqueueOrder _ d | CreateReceivedTable _ d | CreateCacheTable _ d =>
      descriptor_material (lib_version c) (lib_name c) d
  end.

(** The trait object. *)
Definition lib_changeset {D} (c : LibraryChangeset) : Changeset D :=
  with_defaults (lib_version c) (lib_name c) (lib_build c) (lib_material c).

(** ** Generated versions *)

Definition RESERVED_CEILING : Z := 1000.
Definition BAND_WIDTH : Z := 1024.
Definition BAND_BITS : Z := 40.
Definition BAND_DOMAIN : string := "kafkaman:changeset-band:v1" +:+ String "000"%char "".

(** [TableKind::CONSUMED], [band_name] and [template_version]. *)
Definition CONSUMED : list TableKind := [ReceivedKind; CacheKind].
Definition band_name (k : TableKind) : string :=
  match k with OutboxKind => "outbox" | ReceivedKind => "received" | CacheKind => "cache" end.
Definition template_version (k : TableKind) : Z :=
  match k with
  | OutboxKind => OUTBOX_TEMPLATE_VERSION
  | ReceivedKind => RECEIVED_TEMPLATE_VERSION
  | CacheKind => CACHE_TEMPLATE_VERSION
  end.

(** [raw = (raw << 8) | byte] on [u64], over the leading bytes. *)
Definition be_bytes (bytes : list Z) : Z :=
  fold_left (fun raw byte => Z.lor (wrap 64 (Z.shiftl raw 8)) byte) bytes 0.

Section generated.
Context `{Sha256}.

Definition band (kind : TableKind) (message_type : string) : Z :=
  let digest := sha256 (BAND_DOMAIN +:+ band_name kind +:+ String "000"%char message_type) in
  let raw := be_bytes (take 8 digest) in
  let masked := Z.shiftr raw (64 - BAND_BITS) in
  if masked <=? i64_max then masked else 0.

Definition changeset_version (kind : TableKind) (message_type : string) (slot : Z) : Z :=
  RESERVED_CEILING + band kind message_type * BAND_WIDTH + slot.

(** [/] on [i64] truncates towards zero. *)
Definition band_of (version : Z) : Z := Z.quot (version - RESERVED_CEILING) BAND_WIDTH.

Definition upgrades (kind : TableKind) (d : MessageDescriptor) : list LibraryChangeset :=
  match kind with
  | OutboxKind => [AddOutboxEnqueueOrder (changeset_version kind (message_type d) 1) d]
  | ReceivedKind | CacheKind => []
  end.

Definition create (kind : TableKind) (d : MessageDescriptor) (band : Z) : LibraryChangeset :=
  let version := RESERVED_CEILING + band * BAND_WIDTH in
  match kind with
  | OutboxKind => CreateOutboxTable version d
  | ReceivedKind => CreateReceivedTable version d
  | CacheKind => CreateCacheTable version d
  end.

Definition changesets_for (kind : TableKind) (d : MessageDescriptor) (band : Z) : list LibraryChangeset :=
  create kind d band :: upgrades kind d.

(** The loop of [build_changelog_with_bands]: [owners] remembers who took a band. *)
Fixpoint generate (band_of_table : TableKind -> string -> Z) (owners : gmap Z (TableKind * string))
  (tables : list (TableKind * MessageDescriptor)) : result Error (list LibraryChangeset) :=
  match tables with
  | [] => Ok []
  | (kind, d) :: tables =>
      let mt := message_type d in
      let claimed := band_of_table kind mt in
      match owners !! claimed with
      | Some (other_kind, other_type) =>
          if decide ((other_kind, other_type) <> (kind, mt))
          then Err (EChangesetBandCollision claimed (band_name other_kind +:+ "/" +:+ other_type)
                                            (band_name kind +:+ "/" +:+ mt))
          else generate band_of_table owners tables
      | None =>
          rest ← generate band_of_table (<[claimed := (kind, mt)]> owners) tables;
          Ok (changesets_for kind d claimed ++ rest)
      end
  end.

Definition build_changelog_with_bands (band_of_table : TableKind -> string -> Z)
  (tables : list (TableKind * MessageDescriptor)) : result Error (list LibraryChangeset) :=
  generated ← generate band_of_table ∅ tables;
  let changelog := InitSchema :: sql_order_by lib_version generated in
  _ ← assert_order ∅ None (map lib_version changelog);
  Ok changelog.

Definition build_changelog (tables : list (TableKind * MessageDescriptor))
  : result Error (list LibraryChangeset) :=
  build_changelog_with_bands band tables.
End generated.

(** ** The order check accepts exactly the ascending lists *)

Definition above (previous : option Z) (v : Z) : Prop :=
  match previous with Some p => p < v | None => True end.

Lemma assert_order_iff vs : forall (seen : gset Z) prev,
  (forall w, w ∈ seen -> match prev with Some p => w <= p | None => False end) ->
  assert_order seen prev vs = Ok tt <-> Forall (above prev) vs /\ StronglySorted Z.lt vs.
Proof.
  induction vs as [|v vs IH]; intros seen prev Hseen; simpl.
  { split; [intros _; split; constructor|done]. }
  assert (Hrec : above prev v -> assert_order ({[v]} ∪ seen) (Some v) vs = Ok tt
                 <-> Forall (above prev) (v :: vs) /\ StronglySorted Z.lt (v :: vs)).
  { intros Hv. rewrite IH.
    - rewrite StronglySorted_cons, Forall_cons. split.
      + intros [Hf Hs]. split_and!; try done. eapply Forall_impl; [exact Hf|].
        intros w Hw. destruct prev; simpl in *; [lia|done].
      + intros [_ [Hf Hs]]. done.
    - intros w [->%elem_of_singleton|Hw]%elem_of_union; [lia|].
      specialize (Hseen w Hw). destruct prev as [p|]; [simpl in Hv; lia|done]. }
  case_decide as Hv.
  { split; [done|]. intros [[Hp _]%Forall_cons _]. specialize (Hseen v Hv).
    destruct prev; simpl in *; [lia|done]. }
  destruct prev as [p|]; [|by apply Hrec].
  destruct (Z.leb_spec v p) as [Hle|Hlt]; [|by apply Hrec].
  split; [done|]. intros [[Hp _]%Forall_cons _]. simpl in Hp. lia.
Qed.

Lemma assert_order_Ok vs : assert_order ∅ None vs = Ok tt <-> StronglySorted Z.lt vs.
Proof.
  rewrite assert_order_iff by set_solver. split; [by intros [_ ?]|].
  intros H. split; [|done]. apply Forall_forall. done.
Qed.

(** Where the check stops: after an ascending prefix, at a version that is
    already in it, or at a new one that is not above its last. *)
Lemma assert_order_Err vs : forall (seen : gset Z) prev pre e,
  (forall w, w ∈ seen <-> w ∈ pre) -> last pre = prev -> StronglySorted Z.lt pre ->
  assert_order seen prev vs = Err e ->
  exists good v post, vs = good ++ v :: post /\ StronglySorted Z.lt (pre ++ good)
    /\ ((v ∈ pre ++ good /\ e = EDuplicateChangesetVersion v)
        \/ (v ∉ pre ++ good /\ exists p, last (pre ++ good) = Some p /\ v < p
                                   /\ e = EDisorderedChangesetVersion p v)).
Proof.
  induction vs as [|v vs IH]; intros seen prev pre e Hseen Hlast Hs; [done|]. simpl.
  case_decide as Hin.
  { intros [=<-]. exists [], v, vs. rewrite app_nil_r. split_and!; [done..|]. left.
    by rewrite <- Hseen. }
  rewrite Hseen in Hin.
  assert (Hstep : above prev v -> assert_order ({[v]} ∪ seen) (Some v) vs = Err e ->
    exists good w post, v :: vs = good ++ w :: post /\ StronglySorted Z.lt (pre ++ good)
    /\ ((w ∈ pre ++ good /\ e = EDuplicateChangesetVersion w)
        \/ (w ∉ pre ++ good /\ exists p, last (pre ++ good) = Some p /\ w < p
                                   /\ e = EDisorderedChangesetVersion p w))).
  { intros Hv He. destruct (IH ({[v]} ∪ seen) (Some v) (pre ++ [v]) e) as (good & w & post & -> & Hg).
    - intros w. rewrite elem_of_union, elem_of_singleton, Hseen, elem_of_app, list_elem_of_singleton. tauto.
    - by rewrite last_snoc.
    - apply StronglySorted_app. split_and!; [|done|repeat constructor].
      intros a b Ha Hb. apply list_elem_of_singleton in Hb as ->. subst prev.
      destruct (last pre) as [p|] eqn:El; simpl in Hv.
      + apply last_Some in El as [pre' ->]. apply StronglySorted_app in Hs as (Hlt & _ & _).
        apply elem_of_app in Ha as [Ha|Ha]; [|apply list_elem_of_singleton in Ha as ->; done].
        specialize (Hlt a p Ha ltac:(set_solver)). lia.
      + apply last_None in El as ->. by apply elem_of_nil in Ha.
    - done.
    - rewrite <- app_assoc in Hg. exists (v :: good), w, post. done. }
  destruct prev as [p|]; [|by apply Hstep].
  destruct (Z.leb_spec v p) as [Hle|]; [|by apply Hstep].
  intros [=<-]. exists [], v, vs. rewrite app_nil_r. split_and!; [done..|]. right. split; [done|].
  exists p. split_and!; [done| |done]. assert (v <> p); [|lia].
  intros ->. apply Hin. apply last_Some in Hlast as [l ->]. set_solver.
Qed.

(** The order check accepts exactly the strictly ascending changelogs, and
    says what is wrong with any other: it walks the longest ascending prefix
    and reports either a version already in that prefix, or a new version
    together with the last of the prefix, which it falls below. *)
Theorem changelog_order_check {D} (changesets : list (Changeset D)) :
  match assert_changelog_order changesets with
  | Ok _ => StronglySorted Z.lt (map cs_version changesets)
  | Err e => exists good v post, map cs_version changesets = good ++ v :: post
      /\ StronglySorted Z.lt good
      /\ ((v ∈ good /\ e = EDuplicateChangesetVersion v)
          \/ (v ∉ good /\ exists p, last good = Some p /\ v < p /\ e = EDisorderedChangesetVersion p v))
  end.
Proof.
  unfold assert_changelog_order. destruct (assert_order _ _ _) as [[]|e] eqn:E.
  - by apply assert_order_Ok.
  - apply (assert_order_Err _ _ _ []) in E; [exact E|set_solver|done|constructor].
Qed.

(** ** Bounds of generated versions *)

Lemma lor_range w a b : 0 <= w -> 0 <= a < 2 ^ w -> 0 <= b < 2 ^ w -> 0 <= Z.lor a b < 2 ^ w.
Proof.
  intros Hw Ha Hb. assert (Hn : 0 <= Z.lor a b) by (apply Z.lor_nonneg; lia). split; [done|].
  destruct (decide (Z.lor a b = 0)) as [->|]; [lia|]. apply Z.log2_lt_pow2; [lia|].
  rewrite Z.log2_lor by lia.
  destruct (decide (a = 0)) as [->|], (decide (b = 0)) as [->|]; simpl; try done;
    repeat match goal with |- context [Z.log2 ?x] => lazymatch x with 0 => change (Z.log2 0) with 0 | _ => pose proof (Z.log2_nonneg x); assert (Z.log2 x < w) by (apply Z.log2_lt_pow2; lia); generalize dependent (Z.log2 x); intros end end; lia.
Qed.

Lemma be_bytes_range bytes :
  Forall (fun b => 0 <= b < 256) bytes -> 0 <= be_bytes bytes < 2 ^ 64.
Proof.
  intros Hb. unfold be_bytes.
  assert (Hg : forall raw, 0 <= raw < 2 ^ 64 ->
    0 <= fold_left (fun raw byte => Z.lor (wrap 64 (Z.shiftl raw 8)) byte) bytes raw < 2 ^ 64).
  { induction Hb as [|b bytes Hb _ IH]; intros raw Hr; [done|].
    simpl. apply IH. apply lor_range; [lia|by apply wrap_range|]. lia. }
  apply Hg. lia.
Qed.

Section bounds.
Context `{Sha256}.

Lemma band_range k mt : 0 <= band k mt < 2 ^ 40.
Proof.
  unfold band. set (raw := be_bytes _).
  assert (Hr : 0 <= raw < 2 ^ 64) by (apply be_bytes_range, Forall_take, sha256_bytes).
  rewrite Z.shiftr_div_pow2 by (unfold BAND_BITS; lia). change (64 - BAND_BITS) with 24.
  assert (Hd : 0 <= raw / 2 ^ 24 < 2 ^ 40).
  { split; [apply Z.div_pos; lia|]. apply Z.div_lt_upper_bound; lia. }
  destruct (Z.leb_spec (raw / 2 ^ 24) i64_max); lia.
Qed.

Lemma band_of_version b slot : 0 <= b -> 0 <= slot < BAND_WIDTH ->
  band_of (RESERVED_CEILING + b * BAND_WIDTH + slot) = b.
Proof.
  unfold band_of, RESERVED_CEILING, BAND_WIDTH. intros Hb Hs.
  rewrite Z.quot_div_nonneg by lia. symmetry. apply Z.div_unique with slot; lia.
Qed.

Lemma template_slot k : 0 <= template_version k < BAND_WIDTH.
Proof. by destruct k. Qed.
End bounds.

(** Generated versions fit where they are stored and determine where they
    came from: for every table and every template slot the version lies above
    the reserved range and below [2^51] (inside the [BIGINT] key, so no step of
    its computation leaves [i64]), [band_of] recovers the band, and versions of
    different bands or different slots differ; slot order is version order. *)
Theorem version_allocation `{Sha256} (k k' : TableKind) (mt mt' : string) (slot slot' : Z)
  (Hs : 0 <= slot < BAND_WIDTH) (Hs' : 0 <= slot' < BAND_WIDTH) :
  RESERVED_CEILING <= changeset_version k mt slot < 2 ^ 51
  /\ 0 <= band k mt * BAND_WIDTH <= i64_max
  /\ band_of (changeset_version k mt slot) = band k mt
  /\ (changeset_version k mt slot = changeset_version k' mt' slot' <->
      band k mt = band k' mt' /\ slot = slot')
  /\ (slot < slot' <-> changeset_version k mt slot < changeset_version k mt slot').
Proof.
  pose proof (band_range k mt) as Hb. pose proof (band_range k' mt') as Hb'.
  assert (Hof : band_of (changeset_version k mt slot) = band k mt) by (apply band_of_version; lia).
  unfold changeset_version, RESERVED_CEILING, BAND_WIDTH, i64_max in *. split_and!; lia.
Qed.

(** A digest for examples: the byte [b] everywhere, for the first byte of the text. *)
Definition sample_digest (s : string) : list Z :=
  replicate 32 ((Z.of_nat (String.length s) * 7 + match String.get 27 s with Some c => byte_val c | None => 0 end) mod 256).
#[local] Instance sample_sha : Sha256.
Proof.
  refine {| sha256 := sample_digest |}.
  intros s. apply Forall_replicate. apply Z.mod_pos_bound. lia.
Defined.

Lemma version_allocation_witness :
  changeset_version OutboxKind "purchase" 0 < changeset_version OutboxKind "purchase" 1 < 2 ^ 51.
Proof.
  pose proof (version_allocation OutboxKind OutboxKind "purchase" "order" 0 1
    ltac:(unfold BAND_WIDTH; lia) ltac:(unfold BAND_WIDTH; lia)) as (_ & _ & _ & _ & Hlt).
  pose proof (version_allocation OutboxKind OutboxKind "purchase" "order" 1 0
    ltac:(unfold BAND_WIDTH; lia) ltac:(unfold BAND_WIDTH; lia)) as ([_ Hb] & _).
  split; [apply Hlt; lia|exact Hb].
Defined.

#[local] Arguments band : simpl never.
#[local] Arguments changesets_for : simpl never.
#[local] Arguments changeset_version : simpl never.

(** ** The derived changelog *)

Section derived.
Context `{Sha256}.
Abbreviation tables_t := (list (TableKind * MessageDescriptor)) (only parsing).

Definition table_id (t : TableKind * MessageDescriptor) : TableKind * string := (t.1, message_type t.2).

(** A table as often declared as it likes counts once, as first declared. *)
Fixpoint distinct_tables (seen : list (TableKind * string)) (ts : tables_t) : tables_t :=
  match ts with
  | [] => []
  | t :: ts => if decide (table_id t ∈ seen) then distinct_tables seen ts
               else t :: distinct_tables (table_id t :: seen) ts
  end.

(** The changesets of one table, under its own band. *)
Definition table_changesets (t : TableKind * MessageDescriptor) : list LibraryChangeset :=
  changesets_for t.1 t.2 (band t.1 (message_type t.2)).

Definition collides (a b : TableKind * string) : Prop := a <> b /\ band a.1 a.2 = band b.1 b.2.

Lemma elem_of_shift {A} (x y : A) l1 l2 : y ∈ l1 ++ x :: l2 <-> y ∈ (x :: l1) ++ l2.
Proof. rewrite !elem_of_app, !elem_of_cons. tauto. Qed.

Lemma generate_spec ts : forall owners seen,
  (forall b o, owners !! b = Some o <-> o ∈ seen /\ b = band o.1 o.2) ->
  match generate band owners ts with
  | Ok gs => gs = flat_map table_changesets (distinct_tables seen ts)
             /\ (forall a b, a ∈ seen ++ map table_id ts -> b ∈ seen ++ map table_id ts ->
                   (a ∈ seen -> b ∈ seen -> ~ collides a b) -> ~ collides a b)
  | Err e => exists a b, a ∈ seen ++ map table_id ts /\ b ∈ map table_id ts /\ collides a b
             /\ e = EChangesetBandCollision (band b.1 b.2) (band_name a.1 +:+ "/" +:+ a.2)
                      (band_name b.1 +:+ "/" +:+ b.2)
  end.
Proof.
  induction ts as [|[k d] ts IH]; intros owners seen Hown;
    cbn [generate distinct_tables flat_map map].
  { split; [done|]. rewrite app_nil_r. auto. }
  set (mt := (message_type d : string)). set (c := band k mt).
  assert (Htid : table_id (k, d) = (k, mt)) by reflexivity. rewrite Htid. clear Htid.
  destruct (owners !! c) as [[ok ot]|] eqn:Eo.
  - apply Hown in Eo as [Hin Hc]. simpl in Hc. case_decide as Hd.
    + exists (ok, ot), (k, mt). split_and!; [set_solver|set_solver|done|done].
    + destruct (decide ((ok, ot) = (k, mt))) as [E|]; [|tauto]. simplify_eq.
      specialize (IH owners seen Hown). rewrite decide_True by done.
      destruct (generate band owners ts) as [gs|e].
      * destruct IH as [-> IH]. split; [done|]. intros a b Ha Hb. apply IH; set_solver.
      * destruct IH as (a & b & ? & ? & ? & ?). exists a, b. split_and!; try done; set_solver.
  - assert (Hno : forall o, o ∈ seen -> c <> band o.1 o.2).
    { intros o Ho Hc. pose proof (proj2 (Hown c o) (conj Ho Hc)) as E.
      pose proof (eq_trans (eq_sym Eo) E) as [=]. }
    assert (Hn : (k, mt) ∉ seen) by (intros Hin; by apply (Hno (k, mt))).
    assert (Hown' : forall b o, <[c := (k, mt)]> owners !! b = Some o <-> o ∈ (k, mt) :: seen /\ b = band o.1 o.2).
    { intros b o. rewrite lookup_insert_Some, elem_of_cons, Hown. split.
      - intros [[<- <-]|[Hne [Ho ->]]]; auto.
      - intros [[->|Ho] ->]; [by left|]. right. split; [by apply Hno|done]. }
    specialize (IH _ _ Hown'). rewrite decide_False by done.
    destruct (generate band _ ts) as [gs|e]; simpl.
    + destruct IH as [-> IH]. split; [done|].
      intros a b Ha%elem_of_shift Hb%elem_of_shift Hs. apply IH; [done..|].
      intros [->|Ha']%elem_of_cons [->|Hb']%elem_of_cons [Hne Hbd]; [done| | |by apply Hs].
      * by apply (Hno b).
      * by apply (Hno a).
    + destruct IH as (a & b & Ha & Hb & ? & ?). exists a, b.
      split_and!; [by apply elem_of_shift|by apply elem_of_cons; right|done..].
Qed.

Lemma distinct_tables_spec ts : forall seen,
  NoDup (map table_id (distinct_tables seen ts))
  /\ (forall t, t ∈ distinct_tables seen ts -> t ∈ ts /\ table_id t ∉ seen)
  /\ (forall t, t ∈ ts -> table_id t ∈ seen \/ exists t', t' ∈ distinct_tables seen ts /\ table_id t' = table_id t).
Proof.
  induction ts as [|t ts IH]; intros seen; simpl.
  { split_and!; [constructor|by intros ? []%elem_of_nil..]. }
  case_decide as Hd.
  - destruct (IH seen) as (Hn & Hs & Ha). split_and!; [done| |].
    + intros x Hx. split; [right; by apply Hs|by apply Hs].
    + intros x [->|Hx]%elem_of_cons; [by left|auto].
  - destruct (IH (table_id t :: seen)) as (Hn & Hs & Ha). split_and!; simpl.
    + apply NoDup_cons. split; [|done]. intros (x & E & Hx)%list_elem_of_In%in_map_iff.
      apply list_elem_of_In, Hs in Hx as [_ Hx]. apply Hx. rewrite E. left.
    + intros x [->|Hx]%elem_of_cons; [by split; [left|]|]. apply Hs in Hx as [? Hx].
      split; [by right|]. intros ?. apply Hx. by right.
    + intros x [->|Hx]%elem_of_cons; [right; exists t; split; [left|done]|].
      destruct (Ha x Hx) as [[E|Hi]%elem_of_cons|(t' & Ht' & E)]; [|by left|].
      * right. exists t. split; [left|done].
      * right. exists t'. split; [by right|done].
Qed.

(** Every version of a table is in its band. *)
Lemma table_changesets_versions t v :
  v ∈ map lib_version (table_changesets t) ->
  band_of v = band t.1 (message_type t.2) /\ RESERVED_CEILING <= v.
Proof.
  destruct t as [k d]. unfold table_changesets, changesets_for. cbn [fst snd].
  pose proof (band_range k (message_type d)) as Hb. intros Hv.
  assert (exists slot, 0 <= slot < BAND_WIDTH /\ v = RESERVED_CEILING + band k (message_type d) * BAND_WIDTH + slot)
    as (slot & Hs & ->).
  { destruct k; cbn [map create upgrades lib_version] in Hv;
      rewrite ?elem_of_cons, elem_of_nil in Hv; unfold changeset_version in Hv.
    - destruct Hv as [->|[->|[]]]; [exists 0|exists 1]; unfold BAND_WIDTH; lia.
    - destruct Hv as [->|[]]. exists 0. unfold BAND_WIDTH; lia.
    - destruct Hv as [->|[]]. exists 0. unfold BAND_WIDTH; lia. }
  split; [by apply band_of_version; [lia|]|]. unfold BAND_WIDTH in *. lia.
Qed.

Lemma table_changesets_NoDup t : NoDup (map lib_version (table_changesets t)).
Proof.
  destruct t as [[] d]; unfold table_changesets, changesets_for;
    cbn [fst snd map create upgrades lib_version]; unfold changeset_version;
    repeat (apply NoDup_cons; split; [rewrite ?elem_of_cons, elem_of_nil; intros Hin; lia|]); constructor.
Qed.

Lemma flat_versions_NoDup ts :
  NoDup (map table_id ts) ->
  (forall a b, a ∈ map table_id ts -> b ∈ map table_id ts -> ~ collides a b) ->
  NoDup (map lib_version (flat_map table_changesets ts)).
Proof.
  induction ts as [|t ts IH]; intros Hnd Hno; [constructor|].
  cbn [flat_map map] in *. apply NoDup_cons in Hnd as [Ht Hnd].
  rewrite map_app. apply NoDup_app. split_and!; [apply table_changesets_NoDup| |].
  - intros v [Hv _]%table_changesets_versions (c & <- & Hc)%list_elem_of_In%in_map_iff.
    apply in_flat_map in Hc as (t' & Ht' & Hc).
    assert (Hv' : lib_version c ∈ map lib_version (table_changesets t')).
    { apply list_elem_of_In, in_map. done. }
    apply table_changesets_versions in Hv' as [Hv' _].
    assert (Hin : table_id t' ∈ map table_id ts) by (apply list_elem_of_In, in_map; done).
    apply (Hno (table_id t) (table_id t')); [left|by right|]. split; [|simpl in *; congruence].
    intros E. apply Ht. by rewrite E.
  - apply IH; [done|]. intros a b Ha Hb. apply Hno; by right.
Qed.

Lemma sort_versions_strict gs :
  NoDup (map lib_version gs) -> StronglySorted Z.lt (map lib_version (sql_order_by lib_version gs)).
Proof.
  intros Hn. pose proof (order_by_sorted lib_version gs) as Hs.
  assert (Hn' : NoDup (map lib_version (sql_order_by lib_version gs))).
  { unfold sql_order_by. by rewrite merge_sort_Permutation. }
  induction Hs as [|g gs' Hs IH Hf]; simpl in *; constructor.
  - apply IH. by apply NoDup_cons in Hn' as [_ ?].
  - apply NoDup_cons in Hn' as [Hg _]. apply Forall_forall.
    intros v (c & <- & Hc)%list_elem_of_In%in_map_iff. rewrite Forall_forall in Hf.
    specialize (Hf c ltac:(by apply list_elem_of_In)). unfold key_le in Hf.
    assert (lib_version g <> lib_version c); [|lia]. intros E. apply Hg.
    rewrite E. apply list_elem_of_In, in_map. done.
Qed.

Lemma build_changelog_cases (ts : tables_t) :
  match build_changelog ts with
  | Ok cl => exists gs, cl = InitSchema :: gs
      /\ gs ≡ₚ flat_map table_changesets (distinct_tables [] ts)
      /\ StronglySorted Z.lt (map lib_version cl)
      /\ (forall a b, a ∈ map table_id ts -> b ∈ map table_id ts -> ~ collides a b)
  | Err e => exists a b, a ∈ map table_id ts /\ b ∈ map table_id ts /\ collides a b
      /\ e = EChangesetBandCollision (band b.1 b.2) (band_name a.1 +:+ "/" +:+ a.2)
               (band_name b.1 +:+ "/" +:+ b.2)
  end.
Proof.
  unfold build_changelog, build_changelog_with_bands.
  pose proof (generate_spec ts ∅ []) as Hg. cbn [app] in Hg.
  destruct (generate band ∅ ts) as [gs|e] eqn:Eg; cbn [mbind result_bind].
  2: { apply Hg. intros b o. rewrite lookup_empty, elem_of_nil. naive_solver. }
  destruct Hg as [-> Hno].
  { intros b o. rewrite lookup_empty, elem_of_nil. naive_solver. }
  assert (Hno' : forall a b, a ∈ map table_id ts -> b ∈ map table_id ts -> ~ collides a b).
  { intros a b Ha Hb. apply Hno; [done..|]. by intros []%elem_of_nil. }
  destruct (distinct_tables_spec ts []) as (Hnd & Hsub & _).
  set (gs := flat_map table_changesets (distinct_tables [] ts)).
  assert (Hv : StronglySorted Z.lt (map lib_version (InitSchema :: sql_order_by lib_version gs))).
  { cbn [map]. constructor.
    - apply sort_versions_strict, flat_versions_NoDup; [done|].
      intros a b (t & <- & Ht)%list_elem_of_In%in_map_iff (t' & <- & Ht')%list_elem_of_In%in_map_iff.
      apply Hno'; apply list_elem_of_In, in_map, list_elem_of_In, Hsub, list_elem_of_In; done.
    - apply Forall_forall. intros v (c & <- & Hc)%list_elem_of_In%in_map_iff.
      apply list_elem_of_In, elem_of_order_by, list_elem_of_In, in_flat_map in Hc as (t & _ & Hc).
      destruct (table_changesets_versions t (lib_version c)) as [_ Hge].
      { apply list_elem_of_In, in_map. done. }
      unfold RESERVED_CEILING in Hge. simpl. lia. }
  rewrite (proj2 (assert_order_Ok _) Hv). cbn [mbind result_bind].
  exists (sql_order_by lib_version gs). split_and!; [done| |done|done].
  apply merge_sort_Permutation.
Qed.
End derived.

(** Deriving a changelog never fails for a reason of its own: for any set of
    tables it either returns the baseline followed by exactly the changesets of
    each distinct table, strictly ascending by version, or names two different
    tables whose bands collide; a duplicate or disordered version is never
    reported. *)
Theorem derived_changelog `{Sha256} (tables : list (TableKind * MessageDescriptor)) :
  match build_changelog tables with
  | Ok changelog => exists generated, changelog = InitSchema :: generated
      /\ generated ≡ₚ flat_map table_changesets (distinct_tables [] tables)
      /\ StronglySorted Z.lt (map lib_version changelog)
      /\ assert_changelog_order (D := unit) (map lib_changeset changelog) = Ok tt
  | Err e => exists a b, a ∈ map table_id tables /\ b ∈ map table_id tables
      /\ a <> b /\ band a.1 a.2 = band b.1 b.2
      /\ e = EChangesetBandCollision (band b.1 b.2) (band_name a.1 +:+ "/" +:+ a.2)
               (band_name b.1 +:+ "/" +:+ b.2)
  end.
Proof.
  pose proof (build_changelog_cases tables) as Hc. destruct (build_changelog tables) as [cl|e].
  - destruct Hc as (gs & -> & Hp & Hs & _). exists gs. split_and!; try done.
    unfold assert_changelog_order. rewrite map_map. by apply assert_order_Ok.
  - destruct Hc as (a & b & Ha & Hb & [Hne E] & ->). eauto 10.
Qed.

Lemma sorted_versions_unique (l1 l2 : list LibraryChangeset) :
  StronglySorted Z.lt (map lib_version l1) -> StronglySorted Z.lt (map lib_version l2) ->
  l1 ≡ₚ l2 -> l1 = l2.
Proof.
  intros H1 H2 Hp. set (R := fun a b => lib_version a < lib_version b).
  assert (Hf : forall l, StronglySorted Z.lt (map lib_version l) -> StronglySorted R l).
  { induction l as [|c l IH]; intros Hs; [constructor|].
    apply StronglySorted_cons in Hs as [Hf Hs]. constructor; [by apply IH|].
    apply Forall_forall. intros x Hx. rewrite Forall_forall in Hf. apply Hf.
    apply list_elem_of_In, in_map, list_elem_of_In, Hx. }
  assert (AntiSymm (=) R) by (intros a b Hab Hba; unfold R in *; lia).
  eapply (StronglySorted_unique R); eauto.
Qed.

Lemma distinct_tables_id `{Sha256} ts :
  (forall a b, a ∈ ts -> b ∈ ts -> table_id a = table_id b -> a = b) ->
  NoDup (distinct_tables [] ts) /\ forall t, t ∈ distinct_tables [] ts <-> t ∈ ts.
Proof.
  intros Hf. destruct (distinct_tables_spec ts []) as (Hn & Hs & Ha).
  split; [by eapply NoDup_fmap_1|]. intros t. split; [apply Hs|]. intros Ht.
  destruct (Ha t Ht) as [[]%elem_of_nil|(t' & Ht' & E)].
  by rewrite <- (Hf t' t ltac:(by apply Hs) Ht E).
Qed.

Lemma build_changelog_same `{Sha256} (ts ts' : list (TableKind * MessageDescriptor)) :
  (forall a b, a ∈ ts -> b ∈ ts -> table_id a = table_id b -> a = b) ->
  (forall t, t ∈ ts <-> t ∈ ts') ->
  match build_changelog ts, build_changelog ts' with
  | Ok cl, Ok cl' => cl = cl'
  | Err _, Err _ => True
  | _, _ => False
  end.
Proof.
  intros Hf Hsame.
  assert (Hf' : forall a b, a ∈ ts' -> b ∈ ts' -> table_id a = table_id b -> a = b).
  { intros a b Ha%Hsame Hb%Hsame. by apply Hf. }
  assert (Hids : forall i, i ∈ map table_id ts <-> i ∈ map table_id ts').
  { intros i. rewrite !list_elem_of_In, !in_map_iff. setoid_rewrite <- list_elem_of_In.
    by setoid_rewrite Hsame. }
  pose proof (build_changelog_cases ts) as Hc. pose proof (build_changelog_cases ts') as Hc'.
  destruct (build_changelog ts) as [cl|e], (build_changelog ts') as [cl'|e']; [|..|done].
  - destruct Hc as (gs & -> & Hp & Hs & _), Hc' as (gs' & -> & Hp' & Hs' & _).
    apply sorted_versions_unique; [done..|]. apply Permutation_skip. rewrite Hp, Hp'.
    assert (Hd : distinct_tables [] ts ≡ₚ distinct_tables [] ts').
    { apply NoDup_Permutation; [by apply distinct_tables_id..|]. intros t.
      rewrite (proj2 (distinct_tables_id ts Hf)), (proj2 (distinct_tables_id ts' Hf')). apply Hsame. }
    by rewrite Hd.
  - destruct Hc as (gs & _ & _ & _ & Hno), Hc' as (a & b & Ha%Hids & Hb%Hids & Hcol & _).
    by apply (Hno a b).
  - destruct Hc' as (gs & _ & _ & _ & Hno), Hc as (a & b & Ha%Hids & Hb%Hids & Hcol & _).
    by apply (Hno a b).
Qed.

(** The changelog depends on what a service declares, not on the order it
    declares it in: two declarations of the same tables (each message type with
    its one descriptor) in any order and with any repetition both fail or give
    the same changelog. *)
Theorem changelog_order_independent `{Sha256} (ts ts' : list (TableKind * MessageDescriptor))
  (Hf : forall a b, a ∈ ts -> b ∈ ts -> table_id a = table_id b -> a = b)
  (Hsame : forall t, t ∈ ts <-> t ∈ ts') :
  match build_changelog ts, build_changelog ts' with
  | Ok cl, Ok cl' => cl = cl'
  | Err _, Err _ => True
  | _, _ => False
  end.
Proof. by apply build_changelog_same. Qed.

Definition sample_d (mt : string) : MessageDescriptor := Build_MessageDescriptor mt ("t." +:+ mt) compacted.

Lemma changelog_order_independent_witness :
  let ts := [(OutboxKind, sample_d "purchase"); (CacheKind, sample_d "product")] in
  let ts' := [(CacheKind, sample_d "product"); (OutboxKind, sample_d "purchase"); (CacheKind, sample_d "product")] in
  is_ok (build_changelog ts) = true
  /\ match build_changelog ts, build_changelog ts' with
     | Ok cl, Ok cl' => cl = cl' | Err _, Err _ => True | _, _ => False
     end.
Proof.
  split; [vm_compute; reflexivity|].
  apply (changelog_order_independent
    [(OutboxKind, sample_d "purchase"); (CacheKind, sample_d "product")]
    [(CacheKind, sample_d "product"); (OutboxKind, sample_d "purchase"); (CacheKind, sample_d "product")]).
  - intros a b Ha Hb. rewrite !elem_of_cons, elem_of_nil in Ha, Hb.
    destruct Ha as [->|[->|[]]], Hb as [->|[->|[]]]; done.
  - intros t. rewrite !elem_of_cons, elem_of_nil. tauto.
Defined.

(** ** What a checksum covers *)

(** The identity of a changeset in the ledger. *)
Definition lib_identity (c : LibraryChangeset) : Z * string * option (string * string) :=
  (lib_version c, lib_name c,
   match c with
   | InitSchema => None
   | CreateOutboxTable _ d | AddOutboxEnqueueOrder _ d | CreateReceivedTable _ d | CreateCacheTable _ d =>
       Some (message_type d, desc_topic d)
   end).

Definition lib_descriptor (c : LibraryChangeset) : option MessageDescriptor :=
  match c with
  | InitSchema => None
  | CreateOutboxTable _ d | AddOutboxEnqueueOrder _ d | CreateReceivedTable _ d | CreateCacheTable _ d => Some d
  end.

Definition semi : ascii := ";"%char.

(** A text cut at its first semicolon is cut where the writer meant. *)
Lemma cut_at_semi l l' r r' :
  avoids semi l = true -> avoids semi l' = true ->
  l +:+ String semi r = l' +:+ String semi r' -> l = l' /\ r = r'.
Proof.
  intros Hl Hl' E. apply (f_equal (split_once semi)) in E.
  rewrite !split_once_intro in E by done. by simplify_eq.
Qed.

Lemma identifier_avoids_semi v : identifier_new v = Ok v -> avoids semi v = true.
Proof.
  intros Hi%identifier_bytes. eapply all_bytes_impl; [|exact Hi].
  intros c Hc. destruct (Ascii.eqb_spec c semi) as [->|]; [by vm_compute in Hc|done].
Qed.

Lemma avoids_append c s t : avoids c (s +:+ t) = avoids c s && avoids c t.
Proof. apply all_bytes_append. Qed.

Lemma avoids_head c r : avoids c (String c r) = false.
Proof. unfold avoids. cbn [all_bytes]. by rewrite Ascii.eqb_refl. Qed.

Lemma lib_name_avoids c : avoids semi (lib_name c) = true.
Proof. by destruct c. Qed.

(** The material as fields cut at semicolons. *)
Lemma lib_material_shape c :
  lib_material c = ("version=" +:+ pretty (lib_version c)) +:+ String semi
    (match lib_descriptor c with
     | None => "name=" +:+ lib_name c
     | Some d => ("name=" +:+ lib_name c) +:+ String semi
                   (("message_type=" +:+ message_type d) +:+ String semi ("topic=" +:+ desc_topic d))
     end).
Proof.
  destruct c; unfold lib_material, descriptor_material, lib_descriptor; by rewrite !append_assoc.
Qed.

(** The checksum material of the library's changesets identifies them: two
    changesets with the same material agree in version, name, message type and
    topic, so a ledger row whose checksum matches was written by the same
    changeset as long as the digest is collision-free, and no field can be
    shifted into its neighbour. *)
Theorem checksum_material_identifies (c c' : LibraryChangeset)
  (Hc : forall d, lib_descriptor c = Some d -> identifier_new (message_type d) = Ok (message_type d))
  (Hc' : forall d, lib_descriptor c' = Some d -> identifier_new (message_type d) = Ok (message_type d))
  (E : lib_material c = lib_material c') :
  lib_identity c = lib_identity c'.
Proof.
  rewrite !lib_material_shape in E.
  assert (Hv : forall z : Z, avoids semi ("version=" +:+ pretty z) = true).
  { intros z. rewrite avoids_append. by rewrite (pretty_Z_avoids semi z). }
  assert (Hn : forall c, avoids semi ("name=" +:+ lib_name c) = true).
  { intros x. by rewrite avoids_append, lib_name_avoids. }
  apply cut_at_semi in E as [Ev E]; [|apply Hv..].
  apply (inj (String.append _)), (inj pretty) in Ev.
  assert (Hid : forall x, lib_identity x = (lib_version x, lib_name x,
    (fun d => (message_type d : string, desc_topic d)) <$> lib_descriptor x)) by (by intros []).
  rewrite !Hid, Ev.
  destruct (lib_descriptor c) as [d|], (lib_descriptor c') as [d'|].
  - apply cut_at_semi in E as [En E]; [|apply Hn..]. apply (inj (String.append _)) in En. rewrite En.
    apply cut_at_semi in E as [Em E].
    + apply (inj (String.append _)) in Em, E. simpl. by rewrite Em, E.
    + rewrite avoids_append, (identifier_avoids_semi (message_type d)); [done|by apply Hc].
    + rewrite avoids_append, (identifier_avoids_semi (message_type d')); [done|by apply Hc'].
  - pose proof (Hn c') as H. rewrite <- E, avoids_append, avoids_head, andb_false_r in H. done.
  - pose proof (Hn c) as H. rewrite E, avoids_append, avoids_head, andb_false_r in H. done.
  - apply (inj (String.append _)) in E. by rewrite E.
Qed.

Lemma checksum_material_identifies_witness :
  lib_identity (CreateOutboxTable 1000 (sample_d "purchase")) = lib_identity (CreateOutboxTable 1000 (sample_d "purchase")).
Proof.
  apply (checksum_material_identifies (CreateOutboxTable 1000 (sample_d "purchase"))
    (CreateOutboxTable 1000 (sample_d "purchase"))); [| |reflexivity];
    intros d [= <-]; vm_compute; reflexivity.
Defined.
