(* ===== verification/Migrations.v ===== *)
(** * Migrations: applying a changelog

    Models [src/crates/kafkaman-sqlx/src/migration_runner.rs] and the context
    and report types of [changeset.rs]. The database a changeset works on is the
    parameter [Catalog] with [exec], what PostgreSQL makes of a statement; the
    history table is part of the model. The connection may fail at every
    statement, and a commit whose answer is lost may have taken effect. The
    schema lock makes the runs of all replicas follow one another, so a history
    of runs is a sequence. *)

From S2P Require Import Prelude Text Decimal Vocabulary Trace Identity Topics Registry Outbox Schema Changelog.
Open Scope string_scope.
Open Scope list_scope.
Open Scope Z_scope.

#[local] Arguments String.append !_ _ : simpl nomatch.

(** ** Context and report *)

Record MigrationContext := { contexts : gset string; applied_by : string }.

Definition context_new : MigrationContext := {| contexts := ∅; applied_by := "unknown" |}.

(** [MigrationContext::from_env]. *)
Definition context_from_env (env : string -> option string) : MigrationContext :=
  {| contexts :=
       match env "KAFKAMAN_CONTEXTS" with
       | Some value => list_to_set (List.filter (fun v => negb (is_empty v)) (map trim (split_on "," value)))
       | None => contexts context_new
       end;
     applied_by :=
       match env "KAFKAMAN_APPLIED_BY" with
       | Some value => if is_empty (trim value) then applied_by context_new else trim value
       | None => applied_by context_new
       end |}.

Definition with_context (ctx : MigrationContext) (c : string) : MigrationContext :=
  {| contexts := {[c]} ∪ contexts ctx; applied_by := applied_by ctx |}.
Definition with_applied_by (ctx : MigrationContext) (who : string) : MigrationContext :=
  {| contexts := contexts ctx; applied_by := who |}.

Definition matches (ctx : MigrationContext) (required : list string) : bool :=
  bool_decide (required = []) || existsb (fun r => bool_decide (r ∈ contexts ctx)) required.

Inductive MigrationAction :=
| Applied
| SkippedAlreadyApplied
| SkippedContext
| WouldApply
| ActionChecksumMismatch (stored current : string).
#[global] Instance MigrationAction_eq_dec : EqDecision MigrationAction.
Proof. solve_decision. Defined.

Record MigrationStepReport := {
  step_version : Z;
  step_name : string;
  step_action : MigrationAction;
  step_preview : option string;
}.

(** [MigrationReport]: its steps, in order. *)
Abbreviation MigrationReport := (list MigrationStepReport) (only parsing).

Definition is_applied (s : MigrationStepReport) : bool := bool_decide (step_action s = Applied).
Definition applied_count (r : MigrationReport) : nat := length (List.filter is_applied r).

Definition step_new {D} (cs : Changeset D) (a : MigrationAction) : MigrationStepReport :=
  {| step_version := cs_version cs; step_name := cs_name cs; step_action := a; step_preview := None |}.
Definition with_preview (s : MigrationStepReport) (preview : string) : MigrationStepReport :=
  {| step_version := step_version s; step_name := step_name s; step_action := step_action s;
     step_preview := Some preview |}.

Definition context_skip {D} (cs : Changeset D) (ctx : MigrationContext) : option MigrationStepReport :=
  if matches ctx (cs_contexts cs) then None
  else Some (with_preview (step_new cs SkippedContext)
               ("requires one of contexts: " +:+ str_join "," (cs_contexts cs))).

(** [str::replace] with a non-empty pattern; [skip] counts the bytes of a match
    still to be passed over. *)
Fixpoint str_replace_from (skip : nat) (pat new s : string) : string :=
  match s with
  | EmptyString => EmptyString
  | String c rest =>
      match skip with
      | S skip => str_replace_from skip pat new rest
      | O => match Text.strip_prefix pat s with
             | Some _ => new +:+ str_replace_from (String.length pat - 1) pat new rest
             | None => String c (str_replace_from 0 pat new rest)
             end
      end
  end.
Definition str_replace (pat new s : string) : string := str_replace_from 0 pat new s.

(** ** The database *)

Record HistoryRow := {
  h_name : string;
  h_checksum : string;
  h_applied_by : string;
  h_applied_at : instant;
}.

(** What the three bootstrap statements create, and the rest of the schema. *)
Record Db (Catalog : Type) := {
  has_schema : bool;
  history : option (gmap Z HistoryRow);
  has_ingest_failures : bool;
  catalog : Catalog;
}.
Arguments Build_Db {Catalog}.
Arguments has_schema {Catalog}.
Arguments history {Catalog}.
Arguments has_ingest_failures {Catalog}.
Arguments catalog {Catalog}.

(** What a run meets: a failure at any call on the connection, whether the
    failed commit of a version had taken effect, and the database clock. *)
Record Weather := {
  lock_fault : option SqlxError;
  acquire_fault : option SqlxError;
  release_fault : option SqlxError;
  bootstrap_fault : nat -> option SqlxError;
  begin_fault : Z -> option SqlxError;
  read_fault : Z -> option SqlxError;
  insert_fault : Z -> option SqlxError;
  commit_fault : Z -> option (SqlxError * bool);
  lock_free : bool;
  clock : Z -> instant;
}.

Definition fault {E A} (e : option SqlxError) (k : result Error A * E) (db : E) : result Error A * E :=
  match e with Some e => (Err (ESqlx e), db) | None => k end.

Definition history_table_name (cfg : ResolvedConfig) : result Error string :=
  name ← lift_core (identifier_new "changelog_history"); Ok (qualified (schema cfg) name).

Section runner.
Context `{Sha256} {Catalog : Type} (exec : string -> Catalog -> result SqlxError Catalog).
Abbreviation db_t := (Db Catalog) (only parsing).
Abbreviation changeset_t := (Changeset (Db Catalog)) (only parsing).

(** The statements of a changeset, in order, inside its transaction. *)
Fixpoint exec_all (statements : list string) (c : Catalog) : result Error Catalog :=
  match statements with
  | [] => Ok c
  | sql :: rest =>
      match exec sql c with
      | Ok c => exec_all rest c
      | Err e => Err (ESqlx e)
      end
  end.

(** [bootstrap_history]: three statements, each of which creates only what is
    missing. Outside a transaction what came before a failure stays. *)
Definition bootstrap_history (cfg : ResolvedConfig) (w : Weather) (db : db_t) : result Error unit * db_t :=
  fault (bootstrap_fault w 0) (
    let db := {| has_schema := true; history := history db;
                 has_ingest_failures := has_ingest_failures db; catalog := catalog db |} in
    match history_table_name cfg with
    | Err e => (Err e, db)
    | Ok _ =>
        match create_received_ingest_failures_table_sql cfg with
        | Err e => (Err e, db)
        | Ok _ =>
            fault (bootstrap_fault w 1) (
              let db := {| has_schema := has_schema db; history := Some (default ∅ (history db));
                           has_ingest_failures := has_ingest_failures db; catalog := catalog db |} in
              fault (bootstrap_fault w 2)
                (Ok tt, {| has_schema := has_schema db; history := history db;
                           has_ingest_failures := true; catalog := catalog db |}) db) db
        end
    end) db.

(** [history_row]: a missing history table is an undefined-table error. *)
Definition history_row (w : Weather) (db : db_t) (version : Z) : result Error (option HistoryRow) :=
  match read_fault w version with
  | Some e => Err (ESqlx e)
  | None => match history db with
            | Some h => Ok (h !! version)
            | None => Err (sql_error "42P01" "relation changelog_history does not exist")
            end
  end.

(** [insert_history], refused for a version that is there (the primary key). *)
Definition insert_history (w : Weather) (ctx : MigrationContext) (cs : changeset_t) (checksum : string)
  (db : db_t) : result Error db_t :=
  match insert_fault w (cs_version cs), history db with
  | Some e, _ => Err (ESqlx e)
  | None, None => Err (sql_error "42P01" "relation changelog_history does not exist")
  | None, Some h =>
      match h !! cs_version cs with
      | Some _ => Err (ESqlx (SqlxDatabase UniqueViolation (Some "23505") "changelog_history primary key"))
      | None =>
          Ok {| has_schema := has_schema db;
                history := Some (<[cs_version cs := {| h_name := cs_name cs; h_checksum := checksum;
                     h_applied_by := applied_by ctx; h_applied_at := clock w (cs_version cs) |}]> h);
                has_ingest_failures := has_ingest_failures db; catalog := catalog db |}
      end
  end.

Definition set_catalog (db : db_t) (c : Catalog) : db_t :=
  {| has_schema := has_schema db; history := history db;
     has_ingest_failures := has_ingest_failures db; catalog := c |}.

(** What the transaction of a changeset writes: its statements and its row. *)
Definition apply_changeset (cfg : ResolvedConfig) (w : Weather) (ctx : MigrationContext)
  (cs : changeset_t) (checksum : string) (db : db_t) : result Error db_t :=
  statements ← cs_build cs cfg;
  c ← exec_all statements (catalog db);
  insert_history w ctx cs checksum (set_catalog db c).

(** One turn of the loop of [run_migrations]; leaving it early drops the
    transaction, which rolls back. *)
Definition run_changeset (cfg : ResolvedConfig) (w : Weather) (ctx : MigrationContext)
  (cs : changeset_t) (db : db_t) : result Error MigrationStepReport * db_t :=
  match context_skip cs ctx with
  | Some skipped => (Ok skipped, db)
  | None =>
      let checksum := cs_checksum cs in
      let v := cs_version cs in
      fault (begin_fault w v) (
        match history_row w db v with
        | Err e => (Err e, db)
        | Ok (Some h) =>
            if bool_decide (h_checksum h <> checksum)
            then (Err (EChecksumMismatch v (h_checksum h) checksum), db)
            else match commit_fault w v with
                 | Some (e, _) => (Err (ESqlx e), db)
                 | None => (Ok (step_new cs SkippedAlreadyApplied), db)
                 end
        | Ok None =>
            match apply_changeset cfg w ctx cs checksum db with
            | Err e => (Err e, db)
            | Ok db' =>
                match commit_fault w v with
                | Some (e, lost) => (Err (ESqlx e), if lost then db' else db)
                | None => (Ok (step_new cs Applied), db')
                end
            end
        end) db
  end.

Fixpoint run_changesets (cfg : ResolvedConfig) (w : Weather) (ctx : MigrationContext)
  (changesets : list changeset_t) (db : db_t) : result Error MigrationReport * db_t :=
  match changesets with
  | [] => (Ok [], db)
  | cs :: changesets =>
      match run_changeset cfg w ctx cs db with
      | (Err e, db) => (Err e, db)
      | (Ok step, db) =>
          match run_changesets cfg w ctx changesets db with
          | (Err e, db) => (Err e, db)
          | (Ok report, db) => (Ok (step :: report), db)
          end
      end
  end.

Definition run_migrations (cfg : ResolvedConfig) (w : Weather) (ctx : MigrationContext)
  (changesets : list changeset_t) (db : db_t) : result Error MigrationReport * db_t :=
  match bootstrap_history cfg w db with
  | (Err e, db) => (Err e, db)
  | (Ok _, db) => run_changesets cfg w ctx changesets db
  end.

(** [SchemaLock::release]: the run's own error is the one reported. *)
Definition release {A} (w : Weather) (r : result Error A) : result Error A :=
  match r, release_fault w with
  | Err e, _ => Err e
  | Ok _, Some e => Err (ESqlx e)
  | Ok a, None => Ok a
  end.

Definition migrate (max_connections : Z) (cfg : ResolvedConfig) (w : Weather) (ctx : MigrationContext)
  (changesets : list changeset_t) (db : db_t) : result Error MigrationReport * db_t :=
  match assert_changelog_order changesets with
  | Err e => (Err e, db)
  | Ok _ =>
      if max_connections <? 2 then (Err (EMigrationPoolTooSmall max_connections), db)
      else fault (lock_fault w) (fault (acquire_fault w) (
        let '(r, db') := run_migrations cfg w ctx changesets db in (release w r, db')) db) db
  end.

(** ** The dry run *)

Definition preview_of (cfg : ResolvedConfig) (cs : changeset_t) (db : db_t) : result Error string :=
  estimate ← cs_estimate cs cfg db;
  match estimate with
  | Some count => preview ← cs_preview cs cfg; Ok (str_replace "~N" ("~" +:+ pretty count) preview)
  | None => cs_preview cs cfg
  end.

Definition dry_run_changeset (cfg : ResolvedConfig) (w : Weather) (ctx : MigrationContext)
  (db : db_t) (cs : changeset_t) : result Error MigrationStepReport :=
  match context_skip cs ctx with
  | Some skipped => Ok skipped
  | None =>
      let checksum := cs_checksum cs in
      row ← history_row w db (cs_version cs);
      match row with
      | Some h =>
          Ok (step_new cs (if bool_decide (h_checksum h = checksum) then SkippedAlreadyApplied
                           else ActionChecksumMismatch (h_checksum h) checksum))
      | None => preview ← preview_of cfg cs db; Ok (with_preview (step_new cs WouldApply) preview)
      end
  end.

Fixpoint dry_run_changesets (cfg : ResolvedConfig) (w : Weather) (ctx : MigrationContext)
  (db : db_t) (changesets : list changeset_t) : result Error MigrationReport :=
  match changesets with
  | [] => Ok []
  | cs :: changesets =>
      step ← dry_run_changeset cfg w ctx db cs;
      report ← dry_run_changesets cfg w ctx db changesets;
      Ok (step :: report)
  end.

(** [migrate_dry_run]: the transaction's writes (the bootstrap) are undone
    whatever happens, so the database comes back as it was. *)
Definition migrate_dry_run (cfg : ResolvedConfig) (w : Weather) (ctx : MigrationContext)
  (changesets : list changeset_t) (db : db_t) : result Error MigrationReport * db_t :=
  match assert_changelog_order changesets with
  | Err e => (Err e, db)
  | Ok _ =>
      fault (lock_fault w) (
        if negb (lock_free w) then (Err EMigrationLockBusy, db)
        else (release w (match bootstrap_history cfg w db with
                         | (Err e, _) => Err e
                         | (Ok _, tx) => dry_run_changesets cfg w ctx tx changesets
                         end), db)) db
  end.
End runner.

(** ** The specification: a ledger and its replay *)

(** An application: which changeset, by whom, when. *)
Record Entry (D : Type) := { e_cs : Changeset D; e_by : string; e_at : instant }.
Arguments Build_Entry {D}.
Arguments e_cs {D}.
Arguments e_by {D}.
Arguments e_at {D}.

Section specification.
Context `{Sha256} {Catalog : Type} (exec : string -> Catalog -> result SqlxError Catalog).
Abbreviation db_t := (Db Catalog) (only parsing).
Abbreviation changeset_t := (Changeset (Db Catalog)) (only parsing).
Abbreviation entry_t := (Entry (Db Catalog)) (only parsing).

Definition e_version (e : entry_t) : Z := cs_version (e_cs e).

(** The catalog a sequence of changesets makes of [base]. *)
Fixpoint replay (cfg : ResolvedConfig) (base : Catalog) (l : list changeset_t) : result Error Catalog :=
  match l with
  | [] => Ok base
  | cs :: l => statements ← cs_build cs cfg; c ← exec_all exec statements base; replay cfg c l
  end.

Definition entry_row (e : entry_t) : HistoryRow :=
  {| h_name := cs_name (e_cs e); h_checksum := cs_checksum (e_cs e);
     h_applied_by := e_by e; h_applied_at := e_at e |}.

Definition ledger (l : list entry_t) : gmap Z HistoryRow :=
  fold_left (fun h e => <[e_version e := entry_row e]> h) l ∅.

(** The database [db] is [base] with the applications [l], in order, each once,
    and its history table is their ledger. *)
Record represents (cfg : ResolvedConfig) (base : Catalog) (l : list entry_t) (db : db_t) : Prop := {
  rep_catalog : replay cfg base (map e_cs l) = Ok (catalog db);
  rep_history : default ∅ (history db) = ledger l;
  rep_once : NoDup (map e_version l);
}.

(** What a run of [cl] has left to do. *)
Definition wanted (ctx : MigrationContext) (cs : changeset_t) : bool := matches ctx (cs_contexts cs).
Definition pending (ctx : MigrationContext) (l : list entry_t) (cl : list changeset_t) : list changeset_t :=
  List.filter (fun cs => wanted ctx cs && negb (bool_decide (cs_version cs ∈ map e_version l))) cl.

Lemma replay_app cfg base l1 l2 : replay cfg base (l1 ++ l2) = (c ← replay cfg base l1; replay cfg c l2).
Proof.
  revert base. induction l1 as [|cs l1 IH]; intros base; [done|]. simpl.
  destruct (cs_build cs cfg) as [st|]; [|done]. simpl.
  destruct (exec_all exec st base) as [c|]; [|done]. simpl. apply IH.
Qed.

Lemma ledger_snoc l e : ledger (l ++ [e]) = <[e_version e := entry_row e]> (ledger l).
Proof. unfold ledger. by rewrite fold_left_app. Qed.

Lemma ledger_lookup l v : is_Some (ledger l !! v) <-> v ∈ map e_version l.
Proof.
  induction l as [|e l IH] using rev_ind.
  { unfold ledger. simpl. rewrite lookup_empty, elem_of_nil. split; [by intros []|done]. }
  rewrite ledger_snoc, map_app. cbn [map].
  rewrite elem_of_app, list_elem_of_singleton, lookup_insert_is_Some, IH.
  destruct (decide (e_version e = v)); naive_solver.
Qed.

Lemma represents_snoc cfg base l db cs w ctx db' :
  represents cfg base l db -> history db <> None -> cs_version cs ∉ map e_version l ->
  apply_changeset exec cfg w ctx cs (cs_checksum cs) db = Ok db' ->
  represents cfg base (l ++ [Build_Entry cs (applied_by ctx) (clock w (cs_version cs))]) db'
  /\ history db' <> None.
Proof.
  intros [Hc Hh Hn] Hsome Hv Ha. unfold apply_changeset in Ha.
  apply bind_Ok in Ha as (st & Hst & Ha). apply bind_Ok in Ha as (c & Hex & Ha).
  unfold insert_history in Ha. destruct (insert_fault w (cs_version cs)); [done|]. simpl in Ha.
  destruct (history db) as [h|] eqn:Eh; [|done]. destruct (h !! cs_version cs); [done|].
  simplify_eq. simpl in Hh. subst h. split; [|done]. constructor; simpl.
  - rewrite map_app, replay_app, Hc. simpl. rewrite Hst. simpl. by rewrite Hex.
  - rewrite ledger_snoc. done.
  - rewrite map_app. apply NoDup_app. split_and!; [done| |apply NoDup_singleton].
    intros x Hx Hx'. apply list_elem_of_singleton in Hx' as ->. done.
Qed.

(** One changeset: a run that answers has applied it exactly if it was pending;
    one that fails has applied it or nothing. *)
Lemma run_changeset_refines cfg base l db cs w ctx r db' :
  represents cfg base l db -> history db <> None ->
  run_changeset exec cfg w ctx cs db = (r, db') ->
  exists new, represents cfg base (l ++ new) db' /\ history db' <> None
    /\ map e_cs new `prefix_of` pending ctx l [cs]
    /\ forall step, r = Ok step ->
         map e_cs new = pending ctx l [cs] /\ is_applied step = bool_decide (new <> []).
Proof.
  intros Hr Hs. unfold run_changeset, context_skip, pending, wanted. cbn [List.filter].
  assert (Hsame : represents cfg base (l ++ []) db) by (by rewrite app_nil_r).
  destruct (matches ctx (cs_contexts cs)) eqn:Em; cbn [andb].
  2: { intros [= <- <-]. exists []. split_and!; [done..|]. intros step [= <-]. done. }
  unfold fault. destruct (begin_fault w (cs_version cs)).
  { intros [= <- <-]. exists []. split_and!; [done|done|apply prefix_nil|done]. }
  unfold history_row. destruct (read_fault w (cs_version cs)).
  { intros [= <- <-]. exists []. split_and!; [done|done|apply prefix_nil|done]. }
  pose proof (rep_history _ _ _ _ Hr) as Hh.
  destruct (history db) as [h|] eqn:Eh; [|done]. simpl in Hh. subst h.
  destruct (ledger l !! cs_version cs) as [row|] eqn:El.
  - assert (Hin : cs_version cs ∈ map e_version l) by (apply ledger_lookup; eauto).
    rewrite (bool_decide_eq_true_2 _ Hin). cbn [negb].
    case_bool_decide as Hck.
    { intros [= <- <-]. exists []. rewrite Eh. split_and!; done. }
    destruct (commit_fault w (cs_version cs)) as [[e lost]|]; intros [= <- <-]; exists []; rewrite Eh.
    + split_and!; done.
    + split_and!; [done..|]. intros step [= <-]. done.
  - assert (Hnin : cs_version cs ∉ map e_version l).
    { intros Hin%ledger_lookup. rewrite El in Hin. by destruct Hin. }
    rewrite (bool_decide_eq_false_2 _ Hnin). cbn [negb].
    destruct (apply_changeset exec cfg w ctx cs (cs_checksum cs) db) as [db1|e] eqn:Ea.
    2: { intros [= <- <-]. exists []. rewrite Eh. split_and!; [done|done|apply prefix_nil|done]. }
    destruct (represents_snoc cfg base l db cs w ctx db1 Hr ltac:(by rewrite Eh) Hnin Ea) as [Hrep Hsome].
    destruct (commit_fault w (cs_version cs)) as [[e []]|]; intros [= <- <-].
    + eexists [_]. split_and!; [exact Hrep|done|by cbn|done].
    + exists []. rewrite Eh. split_and!; [done|done|apply prefix_nil|done].
    + eexists [_]. split_and!; [exact Hrep|done|by cbn|]. by intros step [= <-].
Qed.

Lemma run_changeset_version cfg w ctx cs db step db' :
  run_changeset exec cfg w ctx cs db = (Ok step, db') ->
  step_version step = cs_version cs /\ step_name step = cs_name cs.
Proof.
  unfold run_changeset, context_skip, fault. destruct (matches _ _); [|by intros [= <- <-]].
  destruct (begin_fault _ _); [done|]. destruct (history_row _ _ _) as [[h|]|]; [| |done].
  - case_bool_decide; [done|]. destruct (commit_fault _ _) as [[]|]; [done|]. by intros [= <- <-].
  - destruct (apply_changeset _ _ _ _ _ _ _); [|done].
    destruct (commit_fault _ _) as [[]|]; [done|]. by intros [= <- <-].
Qed.

Lemma pending_cons ctx l cs cl : pending ctx l (cs :: cl) = pending ctx l [cs] ++ pending ctx l cl.
Proof. unfold pending. simpl. by destruct (_ && _). Qed.

Lemma pending_cs ctx l cs x : x ∈ pending ctx l [cs] -> x = cs.
Proof. unfold pending. simpl. destruct (_ && _); set_solver. Qed.

(** Applying a changeset does not change what is left of those after it. *)
Lemma pending_rest ctx l new cs cl :
  cs_version cs ∉ map cs_version cl -> map e_cs new `prefix_of` pending ctx l [cs] ->
  pending ctx (l ++ new) cl = pending ctx l cl.
Proof.
  intros Hv [k Hk]. unfold pending. apply List.filter_ext_in. intros x Hx. f_equal. f_equal.
  apply bool_decide_ext. rewrite map_app, elem_of_app. split; [|tauto]. intros [|Hn]; [done|].
  exfalso. apply list_elem_of_In, in_map_iff in Hn as (e & He & Hin). unfold e_version in He.
  assert (e_cs e = cs) as Ec.
  { apply (pending_cs ctx l). rewrite Hk. apply elem_of_app. left.
    apply list_elem_of_In, in_map. done. }
  apply Hv. rewrite <- Ec, He. apply list_elem_of_In, in_map. done.
Qed.

Lemma applied_count_cons step report :
  applied_count (step :: report) = ((if is_applied step then 1 else 0) + applied_count report)%nat.
Proof. unfold applied_count. simpl. by destruct (is_applied step). Qed.

Lemma run_changesets_refines cfg base w ctx cl : forall l db r db',
  NoDup (map cs_version cl) -> represents cfg base l db -> history db <> None ->
  run_changesets exec cfg w ctx cl db = (r, db') ->
  exists new, represents cfg base (l ++ new) db'
    /\ map e_cs new `prefix_of` pending ctx l cl
    /\ forall report, r = Ok report ->
         map e_cs new = pending ctx l cl /\ applied_count report = length new
         /\ map step_version report = map cs_version cl.
Proof.
  induction cl as [|cs cl IH]; intros l db r db' Hnd Hrep Hs Hrun.
  { simpl in Hrun. simplify_eq. exists []. rewrite app_nil_r. split_and!; [done..|].
    intros report [= <-]. done. }
  cbn [map] in Hnd. apply NoDup_cons in Hnd as [Hv Hnd]. cbn [run_changesets] in Hrun.
  destruct (run_changeset exec cfg w ctx cs db) as [r1 db1] eqn:E1.
  pose proof (run_changeset_refines _ _ _ _ _ _ _ _ _ Hrep Hs E1) as (new1 & Hrep1 & Hs1 & Hp1 & Hok1).
  rewrite pending_cons. destruct r1 as [step|e].
  2: { simplify_eq. exists new1. split_and!; [done| |done]. by apply prefix_app_r. }
  destruct (Hok1 step eq_refl) as [Hn1 Ha1].
  destruct (run_changesets exec cfg w ctx cl db1) as [r2 db2] eqn:E2.
  destruct (IH _ _ _ _ Hnd Hrep1 Hs1 E2) as (new2 & Hrep2 & Hp2 & Hok2).
  rewrite (pending_rest ctx l new1 cs cl Hv Hp1) in Hp2, Hok2.
  exists (new1 ++ new2). rewrite app_assoc, map_app, Hn1.
  assert (Hdb : db' = db2) by (destruct r2; by simplify_eq). subst db'.
  split_and!; [done|by apply prefix_app|]. intros report ->.
  destruct r2 as [report2|]; simplify_eq. destruct (Hok2 report2 eq_refl) as (-> & Hc2 & Hv2).
  split_and!; [done| |].
  - rewrite applied_count_cons, Hc2, Ha1, length_app. f_equal.
    assert (Hl1 : (length new1 <= 1)%nat).
    { rewrite <- (length_map e_cs), Hn1. unfold pending. simpl. destruct (_ && _); simpl; lia. }
    by destruct new1 as [|? [|]]; simpl in *; try lia.
  - cbn [map]. rewrite Hv2. f_equal. eapply run_changeset_version; exact E1.
Qed.

Lemma bootstrap_represents cfg base w l db r db' :
  represents cfg base l db -> bootstrap_history cfg w db = (r, db') ->
  represents cfg base l db' /\ (r = Ok tt -> history db' <> None).
Proof.
  intros [Hc Hh Hn]. unfold bootstrap_history, fault.
  assert (Hk : forall a h i, default ∅ h = default ∅ (history db) ->
    represents cfg base l (Build_Db a h i (catalog db))).
  { intros a h i E. constructor; simpl; [done|by rewrite E|done]. }
  destruct (bootstrap_fault w 0); [intros [= <- <-]; split; [by destruct db|done]|].
  destruct (history_table_name cfg); [|intros [= <- <-]; split; [by apply Hk|done]].
  destruct (create_received_ingest_failures_table_sql cfg);
    [|intros [= <- <-]; split; [by apply Hk|done]].
  destruct (bootstrap_fault w 1); [intros [= <- <-]; split; [by apply Hk|done]|].
  destruct (bootstrap_fault w 2); intros [= <- <-]; (split; [by apply Hk|done]).
Qed.

Lemma migrate_refines_aux max cfg base w ctx cl l db r db' :
  represents cfg base l db -> migrate exec max cfg w ctx cl db = (r, db') ->
  exists new, represents cfg base (l ++ new) db'
    /\ map e_cs new `prefix_of` pending ctx l cl
    /\ forall report, r = Ok report ->
         map e_cs new = pending ctx l cl /\ applied_count report = length new
         /\ map step_version report = map cs_version cl.
Proof.
  intros Hrep. unfold migrate.
  assert (Hsame : represents cfg base (l ++ []) db) by (by rewrite app_nil_r).
  assert (Hnone : forall e, (Err e, db) = (r, db') -> exists new, represents cfg base (l ++ new) db'
    /\ map e_cs new `prefix_of` pending ctx l cl
    /\ forall report, r = Ok report ->
         map e_cs new = pending ctx l cl /\ applied_count report = length new
         /\ map step_version report = map cs_version cl).
  { intros e [= <- <-]. exists []. split_and!; [done|apply prefix_nil|done]. }
  destruct (assert_changelog_order cl) as [[]|e] eqn:Eo; [|apply Hnone].
  apply assert_order_Ok, StronglySorted_Zlt_NoDup in Eo.
  destruct (max <? 2); [apply Hnone|]. unfold fault.
  destruct (lock_fault w); [apply Hnone|]. destruct (acquire_fault w); [apply Hnone|].
  clear Hnone. unfold run_migrations. destruct (bootstrap_history cfg w db) as [r0 db0] eqn:E0.
  destruct (bootstrap_represents _ _ _ _ _ _ _ Hrep E0) as [Hrep0 Hs0].
  destruct r0 as [[]|e0].
  2: { intros [= <- <-]. exists []. rewrite app_nil_r. split_and!; [done|apply prefix_nil|done]. }
  destruct (run_changesets exec cfg w ctx cl db0) as [r1 db1] eqn:E1. intros [= <- <-].
  destruct (run_changesets_refines _ _ _ _ _ _ _ _ _ Eo Hrep0 (Hs0 eq_refl) E1) as (new & H1 & H2 & H3).
  exists new. split_and!; [done..|]. intros report. unfold release.
  destruct r1 as [report1|]; [|done]. destruct (release_fault w); [done|]. intros [= <-]. by apply H3.
Qed.

(** ** Attempts by any number of replicas *)

(** Replicas take the schema lock in turn; each attempt may be cut short. *)
Fixpoint attempts (cfg : ResolvedConfig) (ctx : MigrationContext) (cl : list changeset_t)
  (ws : list (Z * Weather)) (db : db_t) : db_t :=
  match ws with
  | [] => db
  | (max, w) :: ws => attempts cfg ctx cl ws (migrate exec max cfg w ctx cl db).2
  end.

Lemma pending_prefix ctx l cl rest :
  NoDup (map cs_version cl) -> List.filter (wanted ctx) cl = map e_cs l ++ rest ->
  pending ctx l cl = rest.
Proof.
  intros Hnd E.
  assert (Hf : pending ctx l cl
    = List.filter (fun cs => negb (bool_decide (cs_version cs ∈ map e_version l))) (List.filter (wanted ctx) cl)).
  { unfold pending. clear. induction cl as [|cs cl IH]; [done|]. simpl.
    destruct (wanted ctx cs); simpl; [|done]. destruct (negb _); by rewrite IH. }
  assert (Hn : NoDup (map cs_version (map e_cs l ++ rest))) by (rewrite <- E; by apply NoDup_key_filter).
  rewrite map_app, map_map in Hn. apply NoDup_app in Hn as (_ & Hdis & _).
  rewrite Hf, E, List.filter_app, sfilter_none, sfilter_all; [done| |].
  - intros cs Hcs. apply negb_true_iff, bool_decide_eq_false. intros Hin. apply (Hdis _ Hin).
    apply list_elem_of_In, in_map, list_elem_of_In, Hcs.
  - intros cs (e & <- & He)%list_elem_of_In%in_map_iff. apply negb_false_iff, bool_decide_eq_true.
    apply list_elem_of_In, in_map_iff. eauto.
Qed.
Lemma attempts_prefix cfg base ctx cl ws : forall l db,
  NoDup (map cs_version cl) -> represents cfg base l db ->
  map e_cs l `prefix_of` List.filter (wanted ctx) cl ->
  exists l', represents cfg base l' (attempts cfg ctx cl ws db)
    /\ map e_cs l' `prefix_of` List.filter (wanted ctx) cl.
Proof.
  induction ws as [|[max w] ws IH]; intros l db Hnd Hrep Hp; [by exists l|]. cbn [attempts].
  destruct (migrate exec max cfg w ctx cl db) as [r db1] eqn:E. cbn [snd].
  destruct (migrate_refines_aux _ _ _ _ _ _ _ _ _ _ Hrep E) as (new & Hrep1 & Hp1 & _).
  apply (IH (l ++ new)); [done..|]. destruct Hp as [rest Hrest].
  rewrite (pending_prefix ctx l cl rest Hnd Hrest) in Hp1.
  rewrite map_app, Hrest. by apply prefix_app.
Qed.
End specification.

(** ** The refinement theorem *)

Section theorems.
Context `{Sha256} {Catalog : Type} (exec : string -> Catalog -> result SqlxError Catalog).
Abbreviation db_t := (Db Catalog) (only parsing).
Abbreviation changeset_t := (Changeset (Db Catalog)) (only parsing).

(** C8. The migration runner implements its specification, a ledger of applied
    changesets whose replay is the schema: whatever fails and wherever, a run
    moves a database that represents a ledger to one that represents the ledger
    extended by a prefix of what was pending, in changelog order; the history
    row and the statements it records are never one without the other. A run
    that reports success has applied all that was pending, nothing else, and
    counts it. *)
Theorem migrate_refines (max : Z) (cfg : ResolvedConfig) (base : Catalog) (w : Weather)
  (ctx : MigrationContext) (cl : list changeset_t) (l : list (Entry (Db Catalog))) (db : db_t)
  (Hrep : represents exec cfg base l db) :
  let '(r, db') := migrate exec max cfg w ctx cl db in
  exists new, represents exec cfg base (l ++ new) db'
    /\ map e_cs new `prefix_of` pending ctx l cl
    /\ forall report, r = Ok report ->
         map e_cs new = pending ctx l cl /\ applied_count report = length new
         /\ map step_version report = map cs_version cl.
Proof.
  destruct (migrate exec max cfg w ctx cl db) as [r db'] eqn:E. eapply migrate_refines_aux; eauto.
Qed.

Lemma settled_ledger (cfg : ResolvedConfig) (base : Catalog) (ctx : MigrationContext)
  (cl : list changeset_t) (ws : list (Z * Weather)) (db db' : db_t) max w report :
  represents exec cfg base [] db ->
  migrate exec max cfg w ctx cl (attempts exec cfg ctx cl ws db) = (Ok report, db') ->
  exists l, represents exec cfg base l db' /\ map e_cs l = List.filter (wanted ctx) cl
    /\ replay exec cfg base (List.filter (wanted ctx) cl) = Ok (catalog db').
Proof.
  intros Hfresh Hok.
  assert (Hnd : NoDup (map cs_version cl)).
  { unfold migrate in Hok. destruct (assert_changelog_order cl) as [[]|] eqn:Eo; [|done].
    by apply assert_order_Ok, StronglySorted_Zlt_NoDup in Eo. }
  destruct (attempts_prefix exec cfg base ctx cl ws [] db Hnd Hfresh ltac:(apply prefix_nil))
    as (l & Hrep & rest & Hrest).
  destruct (migrate_refines_aux exec _ _ _ _ _ _ _ _ _ _ Hrep Hok) as (new & Hrep' & _ & Hall).
  destruct (Hall report eq_refl) as (Hnew & _ & _).
  rewrite (pending_prefix ctx l cl rest Hnd Hrest) in Hnew.
  assert (E : map e_cs (l ++ new) = List.filter (wanted ctx) cl) by (by rewrite map_app, Hnew).
  exists (l ++ new). split_and!; [done..|]. rewrite <- E. apply Hrep'.
Qed.

(** Interrupted deployments converge: after any number of attempts by any
    replicas, cut short anywhere, one that reports success leaves every
    changeset of the context applied exactly once and in changelog order; the
    schema is the one an undisturbed run makes of the same base. *)
Theorem migrations_converge (cfg : ResolvedConfig) (base : Catalog) (ctx : MigrationContext)
  (cl : list changeset_t) (ws : list (Z * Weather)) (db db' : db_t) (max : Z) (w : Weather)
  (report : MigrationReport)
  (Hfresh : represents exec cfg base [] db)
  (Hok : migrate exec max cfg w ctx cl (attempts exec cfg ctx cl ws db) = (Ok report, db')) :
  exists l, represents exec cfg base l db' /\ map e_cs l = List.filter (wanted ctx) cl
    /\ replay exec cfg base (List.filter (wanted ctx) cl) = Ok (catalog db').
Proof.
  by eapply settled_ledger.
Qed.

(** ** Runs in fair weather *)

Record fair (w : Weather) : Prop := {
  fair_lock : lock_fault w = None;
  fair_acquire : acquire_fault w = None;
  fair_release : release_fault w = None;
  fair_bootstrap : forall n, bootstrap_fault w n = None;
  fair_begin : forall v, begin_fault w v = None;
  fair_read : forall v, read_fault w v = None;
  fair_insert : forall v, insert_fault w v = None;
  fair_commit : forall v, commit_fault w v = None;
  fair_free : lock_free w = true;
}.

(** A changeset that is in the history table with its own checksum. *)
Definition recorded (db : db_t) (cs : changeset_t) : Prop :=
  exists h row, history db = Some h /\ h !! cs_version cs = Some row /\ h_checksum row = cs_checksum cs.

Lemma run_changeset_records cfg w ctx cs db step db' :
  run_changeset exec cfg w ctx cs db = (Ok step, db') ->
  (wanted ctx cs = true -> recorded db' cs) /\ (forall cs', recorded db cs' -> recorded db' cs').
Proof.
  unfold run_changeset, context_skip, fault, wanted. destruct (matches _ _); [|by intros [= <- <-]].
  destruct (begin_fault _ _); [done|]. unfold history_row. destruct (read_fault _ _); [done|].
  destruct (history db) as [h|] eqn:Eh; [|done].
  destruct (h !! cs_version cs) as [row|] eqn:Er.
  - case_bool_decide as Hc; [done|]. destruct (commit_fault _ _) as [[]|]; [done|].
    intros [= <- <-]. split; [|done]. intros _. exists h, row. split_and!; [done..|].
    by destruct (decide (h_checksum row = cs_checksum cs)).
  - destruct (apply_changeset _ _ _ _ _ _ _) as [db1|] eqn:Ea; [|done].
    destruct (commit_fault _ _) as [[]|]; [done|]. intros [= <- <-].
    unfold apply_changeset in Ea. apply bind_Ok in Ea as (st & _ & Ea).
    apply bind_Ok in Ea as (c & _ & Ea). unfold insert_history in Ea. simpl in Ea. rewrite Eh, Er in Ea.
    destruct (insert_fault _ _); [done|]. simplify_eq. split.
    + intros _. eexists _, _. split; [done|]. by rewrite lookup_insert_eq.
    + intros cs' (h' & row & Eh' & Er' & Hc). rewrite Eh in Eh'. simplify_eq.
      eexists _, row. split; [done|]. split; [|done]. rewrite lookup_insert_ne; [done|congruence].
Qed.

Lemma run_changesets_records cfg w ctx cl : forall db report db',
  run_changesets exec cfg w ctx cl db = (Ok report, db') ->
  (forall cs, cs ∈ cl -> wanted ctx cs = true -> recorded db' cs)
  /\ (forall cs', recorded db cs' -> recorded db' cs').
Proof.
  induction cl as [|cs cl IH]; intros db report db' Hrun; cbn [run_changesets] in Hrun.
  { simplify_eq. split; [|done]. by intros cs []%elem_of_nil. }
  destruct (run_changeset exec cfg w ctx cs db) as [[step|] db1] eqn:E1; [|done].
  destruct (run_changesets exec cfg w ctx cl db1) as [[rep|] db2] eqn:E2; [|done]. simplify_eq.
  apply run_changeset_records in E1 as [Hcs Hk1]. destruct (IH _ _ _ E2) as [Hcl Hk2].
  split; [|auto]. intros x [->|Hx]%elem_of_cons Hw; auto.
Qed.

(** Nothing is left to do: every turn is a skip and the database stays. *)
Lemma run_recorded cfg w ctx cl db :
  fair w -> history db <> None -> (forall cs, cs ∈ cl -> wanted ctx cs = true -> recorded db cs) ->
  exists report, run_changesets exec cfg w ctx cl db = (Ok report, db) /\ applied_count report = 0%nat.
Proof.
  intros Hw Hs. induction cl as [|cs cl IH]; intros Hall; [by exists []|].
  destruct IH as (report & Hrun & Hn). { intros x Hx. apply Hall. by right. }
  cbn [run_changesets].
  assert (Hone : exists step, run_changeset exec cfg w ctx cs db = (Ok step, db) /\ is_applied step = false).
  { unfold run_changeset, context_skip, fault. specialize (Hall cs ltac:(left)). unfold wanted in Hall.
    destruct (matches ctx (cs_contexts cs)); [|eauto]. rewrite (fair_begin _ Hw).
    destruct (Hall eq_refl) as (h & row & Eh & Er & Ec). unfold history_row.
    rewrite (fair_read _ Hw), Eh, Er, Ec, bool_decide_eq_false_2 by tauto.
    rewrite (fair_commit _ Hw). eauto. }
  destruct Hone as (step & -> & Ha). rewrite Hrun. exists (step :: report).
  by rewrite applied_count_cons, Ha, Hn.
Qed.

Lemma bootstrap_fixed cfg w w' (db db1 : db_t) :
  fair w' -> bootstrap_history cfg w db = (Ok tt, db1) ->
  forall db2 : db_t, has_schema db2 = has_schema db1 -> has_ingest_failures db2 = has_ingest_failures db1 ->
    history db2 <> None -> bootstrap_history cfg w' db2 = (Ok tt, db2).
Proof.
  intros Hw Hb db2 Hsch Hing Hs. revert Hb. unfold bootstrap_history, fault.
  rewrite !(fair_bootstrap _ Hw). destruct (bootstrap_fault w 0); [done|].
  destruct (history_table_name cfg); [|done].
  destruct (create_received_ingest_failures_table_sql cfg); [|done].
  destruct (bootstrap_fault w 1), (bootstrap_fault w 2); try done. intros [= <-].
  destruct db2 as [sch [hist|] ing cat]; simpl in *; by subst.
Qed.

(** The flags of the bootstrap are none of a changeset's business. *)
Definition same_frame (db db' : db_t) : Prop :=
  has_schema db' = has_schema db /\ has_ingest_failures db' = has_ingest_failures db
  /\ (history db <> None -> history db' <> None).

Lemma run_changeset_frame cfg w ctx cs db r db' :
  run_changeset exec cfg w ctx cs db = (r, db') -> same_frame db db'.
Proof.
  unfold run_changeset, fault, same_frame. destruct (context_skip cs ctx); [by intros [= <- <-]|].
  destruct (begin_fault _ _); [by intros [= <- <-]|].
  destruct (history_row w db _) as [[h|]|]; [| |by intros [= <- <-]].
  - case_bool_decide; [by intros [= <- <-]|]. by destruct (commit_fault _ _) as [[]|]; intros [= <- <-].
  - destruct (apply_changeset _ _ _ _ _ _ _) as [db1|] eqn:Ea; [|by intros [= <- <-]].
    assert (Hf : same_frame db db1).
    { unfold apply_changeset in Ea. apply bind_Ok in Ea as (st & _ & Ea).
      apply bind_Ok in Ea as (c & _ & Ea). unfold insert_history in Ea. simpl in Ea.
      destruct (insert_fault _ _); [done|]. destruct (history db) as [h|]; [|done].
      destruct (h !! _); [done|]. by simplify_eq. }
    by destruct (commit_fault _ _) as [[e []]|]; intros [= <- <-].
Qed.

Lemma run_changesets_frame cfg w ctx cl : forall db r db',
  run_changesets exec cfg w ctx cl db = (r, db') -> same_frame db db'.
Proof.
  induction cl as [|cs cl IH]; intros db r db' Hrun; cbn [run_changesets] in Hrun.
  { by simplify_eq. }
  destruct (run_changeset exec cfg w ctx cs db) as [r1 db1] eqn:E1. apply run_changeset_frame in E1 as (H1 & H2 & H3).
  destruct r1 as [step|]; [|by simplify_eq].
  destruct (run_changesets exec cfg w ctx cl db1) as [r2 db2] eqn:E2. apply IH in E2 as (H4 & H5 & H6).
  assert (db' = db2) as -> by (destruct r2; by simplify_eq). split_and!; [congruence..|auto].
Qed.

(** What a successful run went through. *)
Lemma migrate_Ok max cfg w ctx cl db report db' :
  migrate exec max cfg w ctx cl db = (Ok report, db') ->
  assert_changelog_order cl = Ok tt /\ 2 <= max /\
  exists db0, bootstrap_history cfg w db = (Ok tt, db0)
    /\ run_changesets exec cfg w ctx cl db0 = (Ok report, db').
Proof.
  unfold migrate, fault. destruct (assert_changelog_order cl) as [[]|]; [|done].
  destruct (Z.ltb_spec max 2); [done|]. destruct (lock_fault w); [done|]. destruct (acquire_fault w); [done|].
  unfold run_migrations. destruct (bootstrap_history cfg w db) as [[[]|] db0]; [|done].
  destruct (run_changesets exec cfg w ctx cl db0) as [[rep|] db1] eqn:E; [|done].
  simpl. destruct (release_fault w); [done|]. intros [= <- <-]. eauto.
Qed.

Lemma migrate_fair max cfg w ctx cl db db0 r db' :
  fair w -> 2 <= max -> assert_changelog_order cl = Ok tt ->
  bootstrap_history cfg w db = (Ok tt, db0) -> run_changesets exec cfg w ctx cl db0 = (r, db') ->
  migrate exec max cfg w ctx cl db = (r, db').
Proof.
  intros Hw Hm Ho Hb Hr. unfold migrate, fault, run_migrations.
  rewrite Ho, (fair_lock _ Hw), (fair_acquire _ Hw), Hb, Hr.
  destruct (Z.ltb_spec max 2); [lia|]. unfold release. rewrite (fair_release _ Hw). by destruct r.
Qed.

(** Migrating twice is migrating once: after a run that reported success,
    the next undisturbed run of the same changelog and contexts succeeds, applies
    nothing and leaves the database exactly as it is. *)
Theorem migrate_idempotent (max max' : Z) (cfg : ResolvedConfig) (w w' : Weather)
  (ctx ctx' : MigrationContext) (cl : list changeset_t) (db db' : db_t) (report : MigrationReport)
  (Hok : migrate exec max cfg w ctx cl db = (Ok report, db'))
  (Hctx : contexts ctx' = contexts ctx) (Hfair : fair w') (Hmax : 2 <= max') :
  exists report', migrate exec max' cfg w' ctx' cl db' = (Ok report', db') /\ applied_count report' = 0%nat.
Proof.
  apply migrate_Ok in Hok as (Ho & _ & db0 & Hb & Hrun).
  assert (Hs0 : history db0 <> None).
  { revert Hb. unfold bootstrap_history, fault. repeat (case_match; try done). by intros [= <-]. }
  destruct (run_changesets_frame _ _ _ _ _ _ _ Hrun) as (H1 & H2 & H3).
  apply run_changesets_records in Hrun as [Hall _].
  assert (Hw : forall cs : changeset_t, wanted ctx' cs = wanted ctx cs).
  { intros cs. unfold wanted, matches. by rewrite Hctx. }
  destruct (run_recorded cfg w' ctx' cl db' Hfair (H3 Hs0)) as (report' & Hrun' & Hn).
  { intros cs Hcs. rewrite Hw. by apply Hall. }
  exists report'. split; [|done].
  eapply migrate_fair; [done..| |exact Hrun']. eapply bootstrap_fixed; eauto.
Qed.

(** ** The dry run predicts the run *)

(** A changeset with the default preview and no replay to estimate. *)
Definition plain (cs : changeset_t) : Prop :=
  (forall cfg, cs_preview cs cfg = default_preview (cs_build cs) cfg)
  /\ (forall cfg d, cs_estimate cs cfg d = Ok None).

(** The report of the run a predicted step stands for. *)
Definition settle (s : MigrationStepReport) : MigrationStepReport :=
  match step_action s with
  | WouldApply => {| step_version := step_version s; step_name := step_name s;
                     step_action := Applied; step_preview := None |}
  | _ => s
  end.

Definition mismatch (s : MigrationStepReport) : bool :=
  match step_action s with ActionChecksumMismatch _ _ => true | _ => false end.

(** The database error a predicted run may still meet: one of its statements. *)
Definition statement_failed (e : Error) : Prop := exists x, e = ESqlx x.

Lemma exec_all_Err st : forall c e, exec_all exec st c = Err e -> statement_failed e.
Proof.
  induction st as [|sql st IH]; intros c e He; [done|]. simpl in He.
  destruct (exec sql c); [by eapply IH|]. simplify_eq. by eexists.
Qed.

Lemma dry_run_step cfg w w' ctx cs (db tx : db_t) h h' :
  fair w -> fair w' -> plain cs -> history db = Some h -> history tx = Some h' ->
  h !! cs_version cs = h' !! cs_version cs ->
  match dry_run_changeset cfg w' ctx tx cs, run_changeset exec cfg w ctx cs db with
  | Ok p, (Ok s, _) => s = settle p /\ mismatch p = false
  | Ok p, (Err e, _) => if mismatch p then exists v a b, e = EChecksumMismatch v a b else statement_failed e
  | Err _, (Ok _, _) => False
  | Err _, (Err _, _) => True
  end.
Proof.
  intros Hw Hw' [Hprev Hest] Eh Eh' Hv. unfold dry_run_changeset, run_changeset, fault, history_row.
  destruct (context_skip cs ctx) as [skip|] eqn:Es.
  { unfold context_skip in Es. destruct (matches _ _); [done|]. by simplify_eq. }
  rewrite (fair_begin _ Hw), (fair_read _ Hw), (fair_read _ Hw'), Eh, Eh', Hv. simpl.
  destruct (h' !! cs_version cs) as [row|] eqn:Er.
  - rewrite (fair_commit _ Hw). destruct (decide (h_checksum row = cs_checksum cs)) as [E|E].
    + rewrite (bool_decide_eq_true_2 _ E).
      rewrite (bool_decide_eq_false_2 (h_checksum row <> cs_checksum cs)) by (by intros []). done.
    + rewrite (bool_decide_eq_false_2 _ E), (bool_decide_eq_true_2 _ E). simpl. eauto.
  - unfold preview_of. rewrite Hest. simpl. rewrite Hprev. unfold default_preview, apply_changeset.
    destruct (cs_build cs cfg) as [st|e]; [|done]. simpl.
    destruct (exec_all exec st (catalog db)) as [c|e] eqn:Ex; simpl; [|by eapply exec_all_Err].
    unfold insert_history. simpl. rewrite (fair_insert _ Hw), Eh, Hv, (fair_commit _ Hw). done.
Qed.

(** The history after a changeset differs at its own version only. *)
Lemma run_changeset_history cfg w ctx cs (db : db_t) h r db' :
  history db = Some h -> run_changeset exec cfg w ctx cs db = (r, db') ->
  exists h', history db' = Some h' /\ forall v, v <> cs_version cs -> h' !! v = h !! v.
Proof.
  intros Eh. unfold run_changeset, fault. destruct (context_skip cs ctx); [intros [= <- <-]; eauto|].
  destruct (begin_fault _ _); [intros [= <- <-]; eauto|].
  destruct (history_row w db _) as [[row|]|]; [| |intros [= <- <-]; eauto].
  - case_bool_decide; [intros [= <- <-]; eauto|]. destruct (commit_fault _ _) as [[]|]; intros [= <- <-]; eauto.
  - destruct (apply_changeset _ _ _ _ _ _ _) as [db1|] eqn:Ea; [|intros [= <- <-]; eauto].
    assert (Hf : exists h', history db1 = Some h' /\ forall v, v <> cs_version cs -> h' !! v = h !! v).
    { unfold apply_changeset in Ea. apply bind_Ok in Ea as (st & _ & Ea).
      apply bind_Ok in Ea as (c & _ & Ea). unfold insert_history in Ea. simpl in Ea.
      destruct (insert_fault _ _); [done|]. rewrite Eh in Ea.
      destruct (h !! _); [done|]. simplify_eq. eexists. split; [done|]. intros v Hv. by apply lookup_insert_ne. }
    destruct (commit_fault _ _) as [[e []]|]; intros [= <- <-]; eauto.
Qed.

Lemma dry_run_agrees cfg w w' ctx cl (tx : db_t) h' : forall (db : db_t) h,
  fair w -> fair w' -> Forall plain cl -> NoDup (map cs_version cl) ->
  history db = Some h -> history tx = Some h' ->
  (forall v, v ∈ map cs_version cl -> h !! v = h' !! v) ->
  match dry_run_changesets cfg w' ctx tx cl, run_changesets exec cfg w ctx cl db with
  | Ok predicted, (Ok report, _) => report = map settle predicted /\ existsb mismatch predicted = false
  | Ok predicted, (Err e, _) =>
      existsb mismatch predicted = true \/ statement_failed e
  | Err _, (Ok _, _) => False
  | Err _, (Err _, _) => True
  end.
Proof.
  intros db h Hw Hw' Hpl. revert db h. induction Hpl as [|cs cl Hp Hpl IH]; intros db h Hnd Eh Eh' Hv; [done|].
  cbn [map] in Hnd, Hv. apply NoDup_cons in Hnd as [Hn Hnd]. cbn [dry_run_changesets run_changesets].
  pose proof (dry_run_step cfg w w' ctx cs db tx h h' Hw Hw' Hp Eh Eh' (Hv _ ltac:(left))) as Hstep.
  destruct (run_changeset exec cfg w ctx cs db) as [r1 db1] eqn:E1.
  destruct (run_changeset_history _ _ _ _ _ _ _ _ Eh E1) as (h1 & Eh1 & Hh1).
  assert (Hrest : forall v, v ∈ map cs_version cl -> h1 !! v = h' !! v).
  { intros v Hin. rewrite Hh1 by (intros ->; done). apply Hv. by right. }
  specialize (IH db1 h1 Hnd Eh1 Eh' Hrest).
  destruct (dry_run_changeset cfg w' ctx tx cs) as [p|e]; simpl.
  2: { destruct r1; [done|]. done. }
  destruct r1 as [step|e].
  - destruct Hstep as [-> Hm].
    destruct (run_changesets exec cfg w ctx cl db1) as [[report|e] db2],
             (dry_run_changesets cfg w' ctx tx cl) as [predicted|e']; simpl; try done; rewrite Hm.
    + by destruct IH as [-> ->].
    + done.
  - destruct (dry_run_changesets cfg w' ctx tx cl) as [predicted|e']; simpl; [|done].
    destruct (mismatch p); [by left|]. by right.
Qed.

Lemma bootstrap_weather cfg w w' (db : db_t) :
  fair w -> fair w' -> bootstrap_history cfg w db = bootstrap_history cfg w' db.
Proof. intros Hw Hw'. unfold bootstrap_history. by rewrite !(fair_bootstrap _ Hw), !(fair_bootstrap _ Hw'). Qed.

(** A dry run predicts the run and changes nothing: on an undisturbed
    connection, when the migration succeeds the dry run succeeded too and its
    report, with "would apply" read as "applied", is the report of the run, no
    mismatch among it; when the dry run answered and the migration fails, then
    the dry run had reported a checksum mismatch or a statement of the migration
    failed in the database. *)
Theorem dry_run_predicts (max : Z) (cfg : ResolvedConfig) (w w' : Weather) (ctx : MigrationContext)
  (cl : list changeset_t) (db : db_t)
  (Hw : fair w) (Hw' : fair w') (Hplain : Forall plain cl) (Hmax : 2 <= max) :
  (migrate_dry_run cfg w' ctx cl db).2 = db
  /\ match (migrate_dry_run cfg w' ctx cl db).1, (migrate exec max cfg w ctx cl db).1 with
     | Ok predicted, Ok report => report = map settle predicted /\ existsb mismatch predicted = false
     | Ok predicted, Err e => existsb mismatch predicted = true \/ statement_failed e
     | Err _, Ok _ => False
     | Err _, Err _ => True
     end.
Proof.
  unfold migrate_dry_run, migrate, fault.
  destruct (assert_changelog_order cl) as [[]|e] eqn:Eo; [|done].
  apply assert_order_Ok, StronglySorted_Zlt_NoDup in Eo.
  rewrite (fair_lock _ Hw), (fair_lock _ Hw'), (fair_acquire _ Hw), (fair_free _ Hw').
  destruct (Z.ltb_spec max 2); [lia|]. cbn [negb fst snd]. split; [done|].
  unfold run_migrations. rewrite (bootstrap_weather cfg w w' db Hw Hw').
  destruct (bootstrap_history cfg w' db) as [[[]|e] db0] eqn:Eb; [|done].
  assert (exists h, history db0 = Some h) as [h Eh].
  { revert Eb. unfold bootstrap_history, fault. repeat (case_match; try done). intros [= <-]. simpl. eauto. }
  pose proof (dry_run_agrees cfg w w' ctx cl db0 h db0 h Hw Hw' Hplain Eo Eh Eh ltac:(done)) as Ha.
  unfold release. rewrite (fair_release _ Hw), (fair_release _ Hw').
  destruct (dry_run_changesets cfg w' ctx db0 cl), (run_changesets exec cfg w ctx cl db0) as [[|] ?]; done.
Qed.
End theorems.

(** ** A concrete run *)

Module MSample.
#[local] Existing Instance sample_sha.

(** A database that remembers the statements it executed. *)
Definition record_sql (sql : string) (c : list string) : result SqlxError (list string) := Ok (c ++ [sql]).

Definition calm : Weather :=
  {| lock_fault := None; acquire_fault := None; release_fault := None; bootstrap_fault _ := None;
     begin_fault _ := None; read_fault _ := None; insert_fault _ := None; commit_fault _ := None;
     lock_free := true; clock _ := 0 |}.

(** The commit of one version is lost on the way back, after taking effect. *)
Definition broken_commit (v : Z) : Weather :=
  {| lock_fault := None; acquire_fault := None; release_fault := None; bootstrap_fault _ := None;
     begin_fault _ := None; read_fault _ := None; insert_fault _ := None;
     commit_fault v' := if Z.eqb v v' then Some (SqlxOther "connection reset", true) else None;
     lock_free := true; clock _ := 0 |}.

Definition cfg : ResolvedConfig := Build_ResolvedConfig "kafkaman" "" [].
Definition fresh : Db (list string) := Build_Db false None false [].
Definition plain_cs (v : Z) (sql : string) : Changeset (Db (list string)) :=
  with_defaults v ("step_" +:+ sql) (fun _ => Ok [sql]) (default_material v sql).
Definition cl : list (Changeset (Db (list string))) :=
  [lib_changeset InitSchema; plain_cs 2 "a"; plain_cs 3 "b"].

Lemma calm_fair : fair calm.
Proof. by constructor. Qed.

Lemma fresh_represents : represents record_sql cfg [] [] fresh.
Proof. constructor; [reflexivity|reflexivity|constructor]. Qed.

Lemma migrate_refines_witness :
  exists new, represents record_sql cfg [] ([] ++ new)
                (migrate record_sql 5 cfg (broken_commit 2) context_new cl fresh).2
    /\ map e_cs new `prefix_of` pending context_new [] cl.
Proof.
  pose proof (migrate_refines record_sql 5 cfg [] (broken_commit 2) context_new cl [] fresh fresh_represents) as Hm.
  destruct (migrate record_sql 5 cfg (broken_commit 2) context_new cl fresh) as [r db'].
  destruct Hm as (new & H1 & H2 & _). exists new. split; [exact H1|exact H2].
Defined.

(** The end of a deployment whose first attempt lost a commit and whose second
    had too small a pool. *)
Definition settled : result Error MigrationReport * Db (list string) :=
  migrate record_sql 5 cfg calm context_new cl
    (attempts record_sql cfg context_new cl [(5, broken_commit 2); (1, calm)] fresh).
Definition settled_report : MigrationReport := match settled.1 with Ok r => r | Err _ => [] end.

Lemma migrations_converge_witness :
  exists l, map e_cs l = List.filter (wanted context_new) cl
    /\ replay record_sql cfg [] (List.filter (wanted context_new) cl) = Ok ["a"; "b"].
Proof.
  destruct (migrations_converge record_sql cfg [] context_new cl [(5, broken_commit 2); (1, calm)] fresh
    settled.2 5 calm settled_report fresh_represents) as (l & _ & H1 & H2).
  - vm_compute. reflexivity.
  - exists l. split; [exact H1|exact H2].
Defined.

Lemma migrate_idempotent_witness :
  exists report', migrate record_sql 2 cfg calm context_new cl settled.2 = (Ok report', settled.2)
    /\ applied_count report' = 0%nat.
Proof.
  apply (migrate_idempotent record_sql 5 2 cfg calm calm context_new context_new cl
    (attempts record_sql cfg context_new cl [(5, broken_commit 2); (1, calm)] fresh) settled.2 settled_report).
  - vm_compute. reflexivity.
  - reflexivity.
  - exact calm_fair.
  - lia.
Defined.

Lemma dry_run_predicts_witness :
  match (migrate_dry_run cfg calm context_new cl fresh).1, (migrate record_sql 5 cfg calm context_new cl fresh).1 with
  | Ok predicted, Ok report => report = map settle predicted /\ existsb mismatch predicted = false
  | Ok predicted, Err e => existsb mismatch predicted = true \/ statement_failed e
  | Err _, Ok _ => False
  | Err _, Err _ => True
  end.
Proof.
  refine (proj2 (dry_run_predicts record_sql 5 cfg calm calm context_new cl fresh calm_fair calm_fair _ _)); [|lia].
  repeat constructor.
Defined.
End MSample.
