(* ===== verification/ReplayChangeset.v ===== *)
(** * ReplayChangeset: a redrive in the changelog

    Models the [Changeset] implementation of [Replay] in
    [src/crates/kafkaman-sqlx/src/replay.rs] and the SQL fragments it takes from
    [queries.rs]: the statement of a redrive as text, its checksum material, its
    preview and its estimate. It composes the redrive of [Received] with the
    runner of [Migrations]. *)

From S2P Require Import Prelude Text Vocabulary Trace Identity Topics Registry Retry Outbox Received Decimal Schema Changelog Migrations.
Open Scope string_scope.
Open Scope list_scope.
Open Scope Z_scope.

(** ** Building a replay *)

Definition since (after : instant) (r : Replay) : Replay :=
  {| replay_version := replay_version r; replay_descriptor := replay_descriptor r; occurred_after := Some after;
     max_rows := max_rows r; replay_contexts := replay_contexts r; replay_failure_kind := replay_failure_kind r;
     clear_history := clear_history r |}.
Definition with_max_rows (cap : Z) (r : Replay) : Replay :=
  {| replay_version := replay_version r; replay_descriptor := replay_descriptor r; occurred_after := occurred_after r;
     max_rows := Some cap; replay_contexts := replay_contexts r; replay_failure_kind := replay_failure_kind r;
     clear_history := clear_history r |}.
Definition with_contexts (cs : list string) (r : Replay) : Replay :=
  {| replay_version := replay_version r; replay_descriptor := replay_descriptor r; occurred_after := occurred_after r;
     max_rows := max_rows r; replay_contexts := cs; replay_failure_kind := replay_failure_kind r;
     clear_history := clear_history r |}.
Definition with_failure_kind (k : ReceivedFailureKind) (r : Replay) : Replay :=
  {| replay_version := replay_version r; replay_descriptor := replay_descriptor r; occurred_after := occurred_after r;
     max_rows := max_rows r; replay_contexts := replay_contexts r; replay_failure_kind := Some k;
     clear_history := clear_history r |}.
Definition with_clear_history (r : Replay) : Replay :=
  {| replay_version := replay_version r; replay_descriptor := replay_descriptor r; occurred_after := occurred_after r;
     max_rows := max_rows r; replay_contexts := replay_contexts r; replay_failure_kind := replay_failure_kind r;
     clear_history := true |}.

(** ** The statements *)

Definition latest_failure_time_sql : string := "last_failed_at".
Definition received_failure_order_sql : string := "last_failed_at, created_at, message_id".
Definition latest_failure_kind_clause (k : ReceivedFailureKind) : string :=
  " AND last_failure_kind = " +:+ sql_string_literal (enum_str k).

Section statements.
(** The RFC 3339 form of a timestamp, which may be refused, and its [Display]. *)
Context (rfc3339 : instant -> result string string) (display : instant -> string).

Definition replay_received_filter_sql (r : Replay) : result Error string :=
  time ← match occurred_after r with
         | None => Ok ""
         | Some after =>
             match rfc3339 after with
             | Ok text => Ok (" AND " +:+ latest_failure_time_sql +:+ " >= " +:+ sql_string_literal text +:+ "::timestamptz")
             | Err text => Err (EInvalidReplay (replay_version r) text)
             end
         end;
  Ok ("status = " +:+ sql_literal Failed +:+ time
      +:+ match replay_failure_kind r with Some k => latest_failure_kind_clause k | None => "" end).

Definition history_reset (r : Replay) : string :=
  if clear_history r then
    ",
            attempts = 0,
            errors = '[]'::jsonb,
            last_failed_at = NULL,
            last_failure_kind = NULL"
  else "".

Definition replay_received_update_sql (table : Table) (r : Replay) : result Error string :=
  n ← max_rows_or_error r;
  filter ← replay_received_filter_sql r;
  Ok ("WITH candidates AS (
         SELECT message_id FROM " +:+ qualified_name table +:+ "
         WHERE " +:+ filter +:+ "
         ORDER BY " +:+ received_failure_order_sql +:+ "
         LIMIT " +:+ pretty n +:+ "
         FOR UPDATE SKIP LOCKED
        )
        UPDATE " +:+ qualified_name table +:+ "
        SET status = " +:+ sql_literal RPending +:+ ",
            next_attempt_at = NULL,
            processed_at = NULL" +:+ history_reset r +:+ "
        WHERE message_id IN (SELECT message_id FROM candidates)
          AND " +:+ filter).

Definition replay_received_count_sql (table : Table) (r : Replay) : result Error string :=
  n ← max_rows_or_error r;
  filter ← replay_received_filter_sql r;
  Ok ("SELECT count(" +:+ "*" +:+ ") FROM (
         SELECT message_id FROM " +:+ qualified_name table +:+ "
         WHERE " +:+ filter +:+ "
         ORDER BY " +:+ received_failure_order_sql +:+ "
         LIMIT " +:+ pretty n +:+ "
         ) candidates").

(** ** The changeset *)

Definition received_table_of (cfg : ResolvedConfig) (r : Replay) : result Error Table :=
  table_new ReceivedKind (schema cfg) (replay_descriptor r).

Definition replay_build (r : Replay) (cfg : ResolvedConfig) : result Error ChangeBuilder :=
  table ← received_table_of cfg r; sql ← replay_received_update_sql table r; Ok (push [] sql).

Definition none_or {A} (text : A -> string) (x : option A) : string :=
  match x with Some a => text a | None => "none" end.

Definition replay_material (r : Replay) : string :=
  "version=" +:+ pretty (replay_version r) +:+ ";name=replay_received;message_type="
  +:+ message_type (replay_descriptor r) +:+ ";topic=" +:+ desc_topic (replay_descriptor r)
  +:+ ";occurred_after="
  +:+ none_or (fun at_ => match rfc3339 at_ with Ok text => text | Err _ => display at_ end) (occurred_after r)
  +:+ ";max_rows=" +:+ none_or pretty (max_rows r)
  +:+ ";contexts=" +:+ str_join "," (replay_contexts r)
  +:+ ";failure_kind=" +:+ none_or enum_str (replay_failure_kind r)
  +:+ ";clear_history=" +:+ (if clear_history r then "true" else "false").

Definition replay_preview (r : Replay) (cfg : ResolvedConfig) : result Error string :=
  table ← received_table_of cfg r; Ok ("would requeue ~N received rows in " +:+ qualified_name table).

(** [scalar] answers a counting query inside the dry run's transaction. *)
Definition replay_estimate {D} (scalar : string -> D -> result SqlxError Z) (r : Replay) (cfg : ResolvedConfig) (d : D)
  : result Error (option Z) :=
  table ← received_table_of cfg r;
  sql ← replay_received_count_sql table r;
  match scalar sql d with Ok n => Ok (Some n) | Err e => Err (ESqlx e) end.

Definition replay_changeset {D} (scalar : string -> D -> result SqlxError Z) (r : Replay) : Changeset D :=
  {| cs_version := replay_version r; cs_name := "replay_received"; cs_build := replay_build r;
     cs_material := replay_material r; cs_contexts := replay_contexts r; cs_preview := replay_preview r;
     cs_estimate := replay_estimate scalar r |}.
End statements.

(** ** The estimate *)

Lemma length_limit {R} (n : Z) (l : list R) : length (sql_limit n l) = Nat.min (Z.to_nat n) (length l).
Proof. apply length_take. Qed.

Lemma length_order_by_lex {R} (key : R -> list Z) (l : list R) : length (sql_order_by_lex key l) = length l.
Proof. unfold sql_order_by_lex. by rewrite merge_sort_Permutation. Qed.

(** The number of rows a redrive selects. *)
Lemma candidates_count locked n r (t : Received) :
  length (replay_candidates locked n r t)
  = Nat.min (Z.to_nat n) (length (List.filter (fun x : RRow => replay_filter r x && negb (locked (r_message_id x))) t)).
Proof. unfold replay_candidates. by rewrite length_limit, length_order_by_lex. Qed.

Lemma filter_weaker {R} (p q : R -> bool) (l : list R) :
  (forall x, p x = true -> q x = true) -> (length (List.filter p l) <= length (List.filter q l))%nat.
Proof.
  intros Hpq. induction l as [|x l IH]; [done|]. simpl. pose proof (Hpq x). destruct (p x), (q x); simpl; lia || naive_solver.
Qed.

Section law.
Context (rfc3339 : instant -> result string string) (display : instant -> string).
(** The received tables by qualified name; [locked] are the rows others hold. *)
Abbreviation tables := (gmap string Received).
Context (exec : string -> tables -> result SqlxError tables) (locked : uuid -> bool).
Context (scalar : string -> Db tables -> result SqlxError Z).

(** What PostgreSQL does with the two statements of a replay on its table: the update
    is the one [redrive_received] sends, and the count is taken over the same
    selection without locks. *)
Record ReplayStatements (s : SqlIdentifier) (r : Replay) (table : Table) : Prop := {
  update_redrives : forall sql (c : tables) (t : Received),
    replay_received_update_sql rfc3339 table r = Ok sql -> c !! qualified_name table = Some t ->
    exec sql c = Ok (<[qualified_name table := (redrive_received locked s r t).2]> c);
  count_estimates : forall sql (d : Db tables) (t : Received) (n : nat),
    replay_received_count_sql rfc3339 table r = Ok sql -> catalog d !! qualified_name table = Some t ->
    estimate_replay_count s r t = Ok n -> scalar sql d = Ok (Z.of_nat n);
}.

Lemma received_table_Ok cfg r table :
  received_table_of cfg r = Ok table -> table_new ReceivedKind (schema cfg) (replay_descriptor r) = Ok table.
Proof. done. Qed.

(** The estimate of a dry run is what the replay would do: when the dry run
    answers, it answers the number of rows the redrive moves if no other
    transaction holds one, and a number it cannot exceed in any case. *)
Theorem replay_estimate_exact (cfg : ResolvedConfig) (r : Replay) (d : Db tables) (table : Table)
  (Hlaw : ReplayStatements (schema cfg) r table)
  (t : Received) (n : Z) (moved : nat) (t' : Received)
  (Htable : received_table_of cfg r = Ok table) (Ht : catalog d !! qualified_name table = Some t)
  (Hinv : received_inv t)
  (Hest : cs_estimate (replay_changeset rfc3339 display scalar r) cfg d = Ok (Some n))
  (Hmove : redrive_received locked (schema cfg) r t = (Ok moved, t')) :
  Z.of_nat moved <= n /\ ((forall x, x ∈ t -> locked (rrow_id x) = false) -> Z.of_nat moved = n).
Proof.
  destruct (redrive_moves _ _ _ _ _ _ Hinv Hmove) as (bound & Hmax & Hpos & _ & _ & ms & Hms & Hlen & _).
  assert (Hn : max_rows_or_error r = Ok bound) by (unfold max_rows_or_error; rewrite Hmax; by destruct (Z.ltb_spec 0 bound); [|lia]).
  set (k := Nat.min (Z.to_nat bound) (length (List.filter (replay_filter r) t))).
  assert (Hk : estimate_replay_count (schema cfg) r t = Ok k).
  { unfold estimate_replay_count. apply received_table_Ok in Htable. rewrite Htable, Hn. cbn [mbind result_bind].
    by rewrite length_limit, length_order_by_lex. }
  cbn [cs_estimate replay_changeset] in Hest. unfold replay_estimate in Hest. rewrite Htable in Hest. cbn [mbind result_bind] in Hest.
  apply bind_Ok in Hest as (sql & Hsql & Hest).
  rewrite (count_estimates _ _ _ Hlaw _ _ _ _ Hsql Ht Hk) in Hest. injection Hest as <-.
  rewrite <- Hlen, Hms, candidates_count. unfold k. split.
  - apply Nat2Z.inj_le, Nat.min_le_compat_l, filter_weaker. intros x [? _]%andb_true_iff. done.
  - intros Hfree. do 3 f_equal. apply List.filter_ext_in. intros x Hx%list_elem_of_In.
    change (r_message_id x) with (rrow_id x). rewrite (Hfree x Hx). by rewrite andb_true_r.
Qed.

(** ** Exactly once *)

(** Changesets that leave a table alone. *)
Definition leaves {D} (cfg : ResolvedConfig) (name : string) (cs : Changeset D) : Prop :=
  forall statements c c', cs_build cs cfg = Ok statements -> exec_all exec statements c = Ok c' -> c' !! name = c !! name.

(** A deployment: what other transactions did to the tables since the one before,
    the size of its pool, and what its run of the changelog meets. *)
Record Deployment := { dp_meanwhile : tables -> tables; dp_max : Z; dp_weather : Weather }.

Section deployments.
Context `{Sha256} (cfg : ResolvedConfig) (ctx : MigrationContext).
Context (before after : list (Changeset (Db tables))) (r : Replay) (table : Table).
Hypothesis Hlaw : ReplayStatements (schema cfg) r table.
Hypothesis Htable : received_table_of cfg r = Ok table.
Hypothesis Hwanted : matches ctx (replay_contexts r) = true.

Abbreviation name := (qualified_name table).
Abbreviation cs := (replay_changeset rfc3339 display scalar r).
Abbreviation cl := (before ++ cs :: after).

(** What a deployment finds, and what it answers and leaves. *)
Definition found (d : Deployment) (db : Db tables) : Db tables := set_catalog db (dp_meanwhile d (catalog db)).
Definition deploy (d : Deployment) (db : Db tables) : result Error MigrationReport * Db tables :=
  migrate exec (dp_max d) cfg (dp_weather d) ctx cl (found d db).
Fixpoint deployments (ds : list Deployment) (db : Db tables) : list (Db tables * Db tables) :=
  match ds with
  | [] => []
  | d :: ds => (found d db, (deploy d db).2) :: deployments ds (deploy d db).2
  end.

Definition recorded_version (v : Z) (db : Db tables) : Prop := is_Some (default ∅ (history db) !! v).
Definition keeps (db db' : Db tables) : Prop := forall v, recorded_version v db -> recorded_version v db'.
Definition unrecorded (db : Db tables) : Prop := default ∅ (history db) !! replay_version r = None.

(** A run that has not moved the table, and one that has. *)
Definition idle (db db' : Db tables) : Prop :=
  catalog db' !! name = catalog db !! name
  /\ default ∅ (history db') !! replay_version r = default ∅ (history db) !! replay_version r /\ keeps db db'.
Definition moved (db db' : Db tables) : Prop :=
  unrecorded db /\ recorded_version (replay_version r) db' /\ keeps db db'
  /\ exists t, catalog db !! name = Some t
     /\ catalog db' !! name = Some (redrive_received locked (schema cfg) r t).2.

Lemma idle_refl db : idle db db.
Proof. unfold idle, keeps. by split_and!. Qed.
Lemma idle_trans db1 db2 db3 : idle db1 db2 -> idle db2 db3 -> idle db1 db3.
Proof.
  intros (H1 & H2 & H3) (G1 & G2 & G3). unfold idle. split_and!; [congruence|congruence|unfold keeps in *; eauto].
Qed.
Lemma idle_moved db1 db2 db3 : idle db1 db2 -> moved db2 db3 -> moved db1 db3.
Proof.
  intros (H1 & H2 & H3) (G1 & G2 & G3 & t & G4 & G5). unfold moved, unrecorded in *.
  split_and!; [congruence|done|unfold keeps in *; eauto|]. exists t. split; congruence.
Qed.
Lemma moved_idle db1 db2 db3 : moved db1 db2 -> idle db2 db3 -> moved db1 db3.
Proof.
  intros (G1 & G2 & G3 & t & G4 & G5) (H1 & H2 & H3). unfold moved, unrecorded in *.
  split_and!; [done|auto|unfold keeps in *; eauto|]. exists t. split; congruence.
Qed.

(** What a changeset's transaction writes. *)
Lemma apply_writes w x db db' :
  apply_changeset exec cfg w ctx x (cs_checksum x) db = Ok db' ->
  (exists st, cs_build x cfg = Ok st /\ exec_all exec st (catalog db) = Ok (catalog db'))
  /\ (exists row, default ∅ (history db') = <[cs_version x := row]> (default ∅ (history db)))
  /\ default ∅ (history db) !! cs_version x = None.
Proof.
  unfold apply_changeset. intros (st & Hst & (c & Hc & Hi)%bind_Ok)%bind_Ok. revert Hi. unfold insert_history.
  destruct (insert_fault w (cs_version x)); [done|]. cbn [history set_catalog].
  destruct (history db) as [h|]; [|done]. destruct (h !! cs_version x) eqn:E; [done|]. intros [= <-].
  split_and!; [by exists st|by eexists|done].
Qed.

Lemma insert_keeps db db' v row :
  default ∅ (history db') = <[v := row]> (default ∅ (history db)) -> keeps db db' /\ recorded_version v db'.
Proof.
  intros E. unfold keeps, recorded_version. rewrite E. split; [|rewrite lookup_insert_eq; by eexists].
  intros u Hu. apply lookup_insert_is_Some. destruct (decide (v = u)); auto.
Qed.

(** One turn of the loop either changes nothing or is the whole transaction. *)
Lemma run_changeset_writes w x db res db' :
  run_changeset exec cfg w ctx x db = (res, db') ->
  (db' = db /\ (forall step, res = Ok step -> wanted ctx x = true -> recorded_version (cs_version x) db))
  \/ apply_changeset exec cfg w ctx x (cs_checksum x) db = Ok db'.
Proof.
  unfold run_changeset, context_skip, wanted. destruct (matches ctx (cs_contexts x)); [|by intros [= <- <-]; left].
  unfold fault. destruct (begin_fault w (cs_version x)); [by intros [= <- <-]; left|].
  unfold history_row. destruct (read_fault w (cs_version x)); [by intros [= <- <-]; left|].
  unfold recorded_version. destruct (history db) as [h|] eqn:Eh; [|by intros [= <- <-]; left]. cbn [default].
  destruct (h !! cs_version x) as [row|] eqn:Er.
  - intros Hrun. left. assert (db' = db) as -> by (repeat case_match; congruence).
    split; [done|]. intros. exists row. exact Er.
  - destruct (apply_changeset _ _ _ _ _ _ db) as [db1|e] eqn:Ea; [|by intros [= <- <-]; left].
    destruct (commit_fault w (cs_version x)) as [[e []]|]; intros [= <- <-]; [by right|by left|by right].
Qed.

Lemma run_other w x db res db' :
  cs_version x <> replay_version r -> (recorded_version (cs_version x) db \/ leaves cfg name x) ->
  run_changeset exec cfg w ctx x db = (res, db') -> idle db db'.
Proof.
  intros Hv Hx Hrun. destruct (run_changeset_writes _ _ _ _ _ Hrun) as [[-> _]|Ha]; [apply idle_refl|].
  destruct (apply_writes _ _ _ _ Ha) as ((st & Hst & Hc) & (row & Hh) & Hnone).
  destruct Hx as [Hx|Hx]; [unfold recorded_version in Hx; rewrite Hnone in Hx; by destruct Hx|].
  unfold idle. split_and!; [by eapply Hx|by rewrite Hh, lookup_insert_ne|by eapply insert_keeps].
Qed.

Lemma run_others w l : forall db res db',
  (forall x, x ∈ l -> cs_version x <> replay_version r /\ (recorded_version (cs_version x) db \/ leaves cfg name x)) ->
  run_changesets exec cfg w ctx l db = (res, db') -> idle db db'.
Proof.
  induction l as [|x l IH]; intros db res db' Hl Hrun; cbn [run_changesets] in Hrun.
  { injection Hrun as _ <-. apply idle_refl. }
  destruct (run_changeset exec cfg w ctx x db) as [res1 db1] eqn:Hx.
  assert (Hidle : idle db db1) by (eapply run_other; [apply Hl; by left..|exact Hx]).
  destruct res1 as [step|e]; [|by injection Hrun as _ <-].
  destruct (run_changesets exec cfg w ctx l db1) as [res2 db2] eqn:Hl'.
  assert (Hrest : idle db1 db2).
  { eapply IH; [|exact Hl']. intros y Hy. destruct (Hl y ltac:(by right)) as [? [?|?]]; split; auto.
    left. by apply Hidle. }
  destruct res2; injection Hrun as _ <-; by eapply idle_trans.
Qed.

(** The replay's own turn. *)
Lemma run_replay w db res db' :
  is_Some (catalog db !! name) -> run_changeset exec cfg w ctx cs db = (res, db') ->
  (idle db db' /\ (forall step, res = Ok step -> recorded_version (replay_version r) db)) \/ moved db db'.
Proof.
  intros [t Ht] Hrun. destruct (run_changeset_writes _ _ _ _ _ Hrun) as [[-> Hok]|Ha].
  { left. split; [apply idle_refl|]. intros step Hs. by apply (Hok step). }
  right. destruct (apply_writes _ _ _ _ Ha) as ((st & Hst & Hc) & (row & Hh) & Hnone).
  destruct (insert_keeps _ _ _ _ Hh) as [Hk Hr]. unfold moved. split_and!; [done|done|done|]. exists t. split; [done|].
  cbn [cs_build replay_changeset] in Hst. unfold replay_build in Hst. rewrite Htable in Hst. cbn [mbind result_bind] in Hst.
  apply bind_Ok in Hst as (sql & Hsql & [= <-]). cbn [push app exec_all] in Hc.
  rewrite (update_redrives _ _ _ Hlaw _ _ _ Hsql Ht) in Hc. injection Hc as <-. apply lookup_insert_eq.
Qed.

Lemma run_changesets_app w l1 l2 db :
  run_changesets exec cfg w ctx (l1 ++ l2) db =
  match run_changesets exec cfg w ctx l1 db with
  | (Err e, db) => (Err e, db)
  | (Ok rep1, db) => match run_changesets exec cfg w ctx l2 db with
                     | (Err e, db) => (Err e, db) | (Ok rep2, db) => (Ok (rep1 ++ rep2), db) end
  end.
Proof.
  revert db. induction l1 as [|x l1 IH]; intros db; cbn [app run_changesets].
  { by destruct (run_changesets exec cfg w ctx l2 db) as [[]]. }
  destruct (run_changeset exec cfg w ctx x db) as [[step|e] db1]; [|done]. rewrite IH.
  destruct (run_changesets exec cfg w ctx l1 db1) as [[rep1|e] db2]; [|done].
  by destruct (run_changesets exec cfg w ctx l2 db2) as [[]].
Qed.

(** The other changesets of the log are recorded already, or leave the table. *)
Definition others_settled (db : Db tables) : Prop :=
  forall x, x ∈ before ++ after -> recorded_version (cs_version x) db \/ leaves cfg name x.

Lemma others_keep db db' : keeps db db' -> others_settled db -> others_settled db'.
Proof. intros Hk Ho x Hx. destruct (Ho x Hx); auto. Qed.

(** A run of the changelog moves the table or does not touch it, and moves it
    when the replay was missing and the run answers success. *)
Lemma run_log w db res db' :
  StronglySorted Z.lt (map cs_version cl) -> others_settled db -> is_Some (catalog db !! name) ->
  run_changesets exec cfg w ctx cl db = (res, db') ->
  (idle db db' /\ (forall rep, res = Ok rep -> recorded_version (replay_version r) db)) \/ moved db db'.
Proof.
  intros Hs Ho Ht. rewrite map_app in Hs. cbn [map] in Hs. apply StronglySorted_app in Hs as (Hlt & _ & Hs).
  apply StronglySorted_cons in Hs as [Hgt _]. rewrite Forall_forall in Hgt.
  assert (Hb : forall x, x ∈ before -> cs_version x <> replay_version r).
  { intros x Hx E. specialize (Hlt (cs_version x) (replay_version r)).
    enough (cs_version x < replay_version r) by lia. apply Hlt; [apply list_elem_of_fmap; eauto|by left]. }
  assert (Ha : forall x, x ∈ after -> cs_version x <> replay_version r).
  { intros x Hx E. enough (replay_version r < cs_version x) by lia. apply Hgt, list_elem_of_fmap. eauto. }
  rewrite run_changesets_app. destruct (run_changesets exec cfg w ctx before db) as [res1 db1] eqn:H1.
  assert (Hi1 : idle db db1).
  { eapply run_others; [|exact H1]. intros x Hx. split; [auto|]. apply Ho, elem_of_app. by left. }
  destruct res1 as [rep1|e]; [|intros [= <- <-]; left; by split].
  pose proof Hi1 as (Hc1 & Hv1 & Hk1). cbn [run_changesets].
  destruct (run_changeset exec cfg w ctx cs db1) as [res2 db2] eqn:H2.
  pose proof (run_replay w db1 res2 db2 ltac:(by rewrite Hc1) H2) as Hstep.
  destruct res2 as [step|e].
  2: { intros [= <- <-]. destruct Hstep as [[Hi2 _]|Hm]; [left|right; by eapply idle_moved].
       split; [by eapply idle_trans|done]. }
  destruct (run_changesets exec cfg w ctx after db2) as [res3 db3] eqn:H3.
  assert (Hi3 : idle db2 db3).
  { eapply run_others; [|exact H3]. intros x Hx. split; [auto|].
    assert (Hk2 : keeps db1 db2) by (destruct Hstep as [[Hi2 _]|Hm]; [apply Hi2|apply Hm]).
    apply (others_keep db db2); [unfold keeps in *; eauto|done|apply elem_of_app; by right]. }
  intros Hres. assert (db' = db3) as -> by (by destruct res3; injection Hres as _ <-).
  destruct Hstep as [[Hi2 Hok]|Hm].
  - left. split; [eapply idle_trans; [done|by eapply idle_trans]|]. intros rep _. specialize (Hok step eq_refl).
    unfold recorded_version in *. by rewrite <- Hv1.
  - right. by eapply idle_moved, moved_idle.
Qed.

Lemma bootstrap_idle w db res db' : bootstrap_history cfg w db = (res, db') -> idle db db'.
Proof.
  unfold bootstrap_history, fault, idle, keeps, recorded_version.
  repeat case_match; intros [= <- <-]; by split_and!.
Qed.

Lemma deploy_moves d db res db' :
  others_settled db -> is_Some (catalog (found d db) !! name) -> deploy d db = (res, db') ->
  (idle (found d db) db' /\ (forall rep, res = Ok rep -> recorded_version (replay_version r) (found d db)))
  \/ moved (found d db) db'.
Proof.
  intros Ho Ht. assert (Ho' : others_settled (found d db)) by exact Ho.
  unfold deploy, migrate. generalize dependent (found d db). intros db0 Ht Ho'.
  destruct (assert_changelog_order cl) as [[]|e] eqn:Hord; [|intros [= <- <-]; left; by split; [apply idle_refl|]].
  apply assert_order_Ok in Hord.
  destruct (_ <? 2); [intros [= <- <-]; left; by split; [apply idle_refl|]|].
  unfold fault. destruct (lock_fault _); [intros [= <- <-]; left; by split; [apply idle_refl|]|].
  destruct (acquire_fault _); [intros [= <- <-]; left; by split; [apply idle_refl|]|].
  unfold run_migrations. destruct (bootstrap_history cfg (dp_weather d) db0) as [res1 db1] eqn:Hb.
  assert (Hi1 : idle db0 db1) by (by eapply bootstrap_idle).
  destruct res1 as [[]|e]; [|intros [= <- <-]; left; by split].
  destruct (run_changesets exec cfg (dp_weather d) ctx cl db1) as [res2 db2] eqn:Hrun.
  pose proof Hi1 as (Hc1 & Hv1 & Hk1).
  destruct (run_log _ _ _ _ Hord (others_keep _ _ Hk1 Ho') ltac:(by rewrite Hc1) Hrun) as [[Hi2 Hok]|Hm].
  - intros [= <- <-]. left. split; [by eapply idle_trans|]. intros rep Hrel. unfold release in Hrel.
    destruct res2 as [rep2|e]; [|done]. specialize (Hok rep2 eq_refl). unfold recorded_version in *. by rewrite <- Hv1.
  - intros [= _ <-]. right. by eapply idle_moved.
Qed.

(** The deployments of a sequence, against the version's row: before it is
    written a deployment may move the table, after it none does. *)
Definition still (x : Db tables * Db tables) : Prop := catalog x.2 !! name = catalog x.1 !! name.

Lemma recorded_still ds : forall db,
  (forall d c, d ∈ ds -> is_Some (c !! name) -> is_Some (dp_meanwhile d c !! name)) ->
  others_settled db -> is_Some (catalog db !! name) -> recorded_version (replay_version r) db ->
  Forall still (deployments ds db).
Proof.
  induction ds as [|d ds IH]; intros db Hmw Ho Ht Hr; cbn [deployments]; [constructor|].
  destruct (deploy d db) as [res db'] eqn:Hd. cbn [snd].
  assert (Ht' : is_Some (catalog (found d db) !! name)) by (apply Hmw; [by left|done]).
  destruct (deploy_moves _ _ _ _ Ho Ht' Hd) as [[(Hc & Hv & Hk) _]|(Hu & _)].
  - constructor; [done|]. apply IH; [intros d' c Hd'; apply Hmw; by right| | |by apply Hk].
    + by eapply others_keep.
    + by rewrite Hc.
  - unfold unrecorded in Hu. unfold recorded_version in Hr. change (history (found d db)) with (history db) in Hu.
    rewrite Hu in Hr. by destruct Hr.
Qed.

Lemma deployments_moves ds : forall db,
  (forall d c, d ∈ ds -> is_Some (c !! name) -> is_Some (dp_meanwhile d c !! name)) ->
  others_settled db -> is_Some (catalog db !! name) -> unrecorded db ->
  (exists d ds' rep, last ds = Some d /\ ds = ds' ++ [d]
     /\ (deploy d (match last (deployments ds' db) with Some x => x.2 | None => db end)).1 = Ok rep) ->
  exists l1 pre post l2 t, deployments ds db = l1 ++ (pre, post) :: l2
    /\ Forall still l1 /\ Forall still l2
    /\ catalog pre !! name = Some t /\ catalog post !! name = Some (redrive_received locked (schema cfg) r t).2.
Proof.
  induction ds as [|d ds IH]; intros db Hmw Ho Ht Hu Hlast; [by destruct Hlast as (? & ? & ? & ? & _)|].
  cbn [deployments]. destruct (deploy d db) as [res db'] eqn:Hd. cbn [snd].
  assert (Ht' : is_Some (catalog (found d db) !! name)) by (apply Hmw; [by left|done]).
  assert (Hmw' : forall d' c, d' ∈ ds -> is_Some (c !! name) -> is_Some (dp_meanwhile d' c !! name))
    by (intros d' c Hd'; apply Hmw; by right).
  destruct (deploy_moves _ _ _ _ Ho Ht' Hd) as [[(Hc & Hv & Hk) Hok]|(_ & Hr & Hk & t & Hp & Hq)].
  - destruct Hlast as (dl & ds' & rep & Hl & Happ & Hrep). destruct ds' as [|d0 ds'].
    { injection Happ as -> ->. cbn in Hrep. rewrite Hd in Hrep. cbn in Hrep. subst res.
      destruct (Hok rep eq_refl) as [row Hrow]. change (history (found dl db)) with (history db) in Hrow.
      unfold unrecorded in Hu. by rewrite Hu in Hrow. }
    injection Happ as <- ->. destruct (IH db') as (l1 & pre & post & l2 & t & E & H1 & H2 & H3).
    + done.
    + by eapply others_keep.
    + by rewrite Hc.
    + unfold unrecorded in *. rewrite Hv. exact Hu.
    + exists dl, ds', rep. split; [by rewrite last_snoc|]. split; [done|]. revert Hrep. cbn [deployments last].
      rewrite Hd. cbn [snd]. destruct (deployments ds' db') as [|y ys]; [done|].
      change (last ((found d db, db') :: y :: ys)) with (last (y :: ys)).
      destruct (last (y :: ys)) eqn:El; [done|by apply last_None in El].
    + exists ((found d db, db') :: l1), pre, post, l2, t. rewrite E. split; [done|]. split; [by constructor|]. done.
  - exists [], (found d db), db', (deployments ds db'), t. split; [done|]. split; [constructor|]. split; [|done].
    apply recorded_still; [done|by eapply others_keep|by rewrite Hq|done].
Qed.
End deployments.

(** C34. A redrive written into the changelog happens exactly once. Start from any
    database whose history does not have the redrive yet and whose received table
    exists, the other changesets of the log being recorded already or leaving
    that table alone, and let other transactions do what they like to the rows
    between two deployments, short of dropping the table. However many
    deployments were cut short on the way, once the last one reports success
    there is exactly one deployment that moved rows: it left the table a single
    redrive makes of the rows it found, and every other deployment, before and
    after, left the table as it found it. Rows are not moved twice by a retried
    deployment, and not zero times by a lost commit. *)
Theorem replay_applied_once `{Sha256} (cfg : ResolvedConfig) (ctx : MigrationContext)
  (before after : list (Changeset (Db tables))) (r : Replay) (table : Table)
  (ds : list Deployment) (d : Deployment) (db : Db tables) (report : MigrationReport)
  (Hlaw : ReplayStatements (schema cfg) r table)
  (Htable : received_table_of cfg r = Ok table)
  (Hwanted : matches ctx (replay_contexts r) = true)
  (Hnew : default ∅ (history db) !! replay_version r = None)
  (Hexists : is_Some (catalog db !! qualified_name table))
  (Hothers : forall x, x ∈ before ++ after ->
     is_Some (default ∅ (history db) !! cs_version x) \/ leaves cfg (qualified_name table) x)
  (Hmeanwhile : forall d' c, d' ∈ ds ++ [d] -> is_Some (c !! qualified_name table) ->
     is_Some (dp_meanwhile d' c !! qualified_name table))
  (Hok : let run := deployments cfg ctx before after r ds db in
         (deploy cfg ctx before after r d (match last run with Some x => x.2 | None => db end)).1 = Ok report) :
  exists l1 pre post l2 t, deployments cfg ctx before after r (ds ++ [d]) db = l1 ++ (pre, post) :: l2
    /\ Forall (still table) l1 /\ Forall (still table) l2
    /\ catalog pre !! qualified_name table = Some t
    /\ catalog post !! qualified_name table = Some (redrive_received locked (schema cfg) r t).2.
Proof.
  apply (deployments_moves cfg ctx before after r table Hlaw Htable Hwanted); [done..|].
  exists d, ds, report. split; [by rewrite last_snoc|]. by split.
Qed.
End law.

(** ** Example: a deployment that loses a commit *)

Module RcSample.
#[local] Existing Instance sample_sha.
Definition utc (_ : instant) : result string string := Ok "2026-01-01T00:00:00Z".
Definition r : Replay := with_max_rows 1 (replay_received_descriptor 7 RSample.descriptor).
Definition cfg : ResolvedConfig := Build_ResolvedConfig "kafkaman" "" [].
Definition table : Table := {| tbl_schema := "kafkaman"; tbl_name := "received_order_placed"; tbl_desc := RSample.descriptor |}.
Definition update_text : string := match replay_received_update_sql utc table r with Ok s => s | Err _ => "" end.
Definition count_text : string := match replay_received_count_sql utc table r with Ok s => s | Err _ => "" end.

(** A database that knows the two statements. *)
Definition exec (sql : string) (c : gmap string Received) : result SqlxError (gmap string Received) :=
  match c !! qualified_name table with
  | Some t => if bool_decide (sql = update_text)
              then Ok (<[qualified_name table := (redrive_received RSample.unlocked "kafkaman" r t).2]> c) else Ok c
  | None => Err (SqlxOther "undefined table")
  end.
Definition scalar (sql : string) (d : Db (gmap string Received)) : result SqlxError Z :=
  match catalog d !! qualified_name table with
  | Some t => match estimate_replay_count "kafkaman" r t with
              | Ok n => if bool_decide (sql = count_text) then Ok (Z.of_nat n) else Err (SqlxOther "syntax error")
              | Err _ => Err (SqlxOther "syntax error")
              end
  | None => Err (SqlxOther "undefined table")
  end.

Lemma statements : ReplayStatements utc exec RSample.unlocked scalar "kafkaman" r table.
Proof.
  split.
  - intros sql c t Hsql Ht. unfold exec. rewrite Ht. unfold update_text. rewrite Hsql. by rewrite bool_decide_true.
  - intros sql d t n Hsql Ht Hn. unfold scalar. rewrite Ht, Hn. unfold count_text. rewrite Hsql. by rewrite bool_decide_true.
Qed.

(** The table was created by an earlier deployment, which the history has; the
    changelog now ends in the redrive. *)
Definition creation : Changeset (Db (gmap string Received)) :=
  with_defaults 1 "create_received" (fun _ => Ok ["CREATE TABLE"]) "create".
Definition base : gmap string Received := {[ qualified_name table := RSample.t ]}.
Definition db : Db (gmap string Received) :=
  Build_Db true (Some {[ 1 := {| h_name := cs_name creation; h_checksum := cs_checksum creation;
                                 h_applied_by := "ci"; h_applied_at := 0 |} ]}) true base.

(** The first deployment loses the answer of its commit; before the second the
    dispatcher has processed the pending rows. *)
Definition dispatched (c : gmap string Received) : gmap string Received :=
  sql_update (fun x : RRow => bool_decide (r_status x = RPending)) (processed_row 60) <$> c.
Definition lost : Deployment := {| dp_meanwhile c := c; dp_max := 5; dp_weather := MSample.broken_commit 7 |}.
Definition calm : Deployment := {| dp_meanwhile := dispatched; dp_max := 5; dp_weather := MSample.calm |}.

Definition run : list (Db (gmap string Received) * Db (gmap string Received)) :=
  deployments utc (fun _ => "") exec scalar cfg context_new [creation] [] r [lost; calm] db.
Definition statuses (d : Db (gmap string Received)) : option (list ReceiveStatus) :=
  map r_status <$> catalog d !! qualified_name table.

Definition last_answer : result Error MigrationReport :=
  (deploy utc (fun _ => "") exec scalar cfg context_new [creation] [] r calm
     (match last (deployments utc (fun _ => "") exec scalar cfg context_new [creation] [] r [lost] db) with
      | Some x => x.2 | None => db end)).1.
Definition last_report : MigrationReport := match last_answer with Ok x => x | Err _ => [] end.

Lemma replay_applied_once_witness :
  map (fun x => statuses x.2) run = [Some [RPending; Failed; RPending]; Some [Processed; Failed; Processed]]
  /\ exists l1 pre post l2 t, run = l1 ++ (pre, post) :: l2
     /\ Forall (still table) l1 /\ Forall (still table) l2
     /\ catalog pre !! qualified_name table = Some t
     /\ catalog post !! qualified_name table = Some (redrive_received RSample.unlocked "kafkaman" r t).2.
Proof.
  split; [vm_compute; reflexivity|].
  apply (replay_applied_once utc (fun _ => "") exec RSample.unlocked scalar cfg context_new [creation] [] r table
           [lost] calm db last_report statements).
  - vm_compute. reflexivity.
  - reflexivity.
  - vm_compute. reflexivity.
  - exists RSample.t. apply lookup_singleton_eq.
  - intros x Hx. apply elem_of_cons in Hx as [->|Hx]; [left; eexists; apply lookup_singleton_eq|by apply elem_of_nil in Hx].
  - intros d' c Hd' [t Ht]. apply elem_of_cons in Hd' as [->|[->|Hd']%elem_of_cons]; [by exists t| |by apply elem_of_nil in Hd'].
    refine (ex_intro _ (sql_update (fun x : RRow => bool_decide (r_status x = RPending)) (processed_row 60) t) _).
    transitivity (sql_update (fun x : RRow => bool_decide (r_status x = RPending)) (processed_row 60) <$> c !! qualified_name table);
      [apply lookup_fmap|]. exact (f_equal _ Ht).
  - vm_compute. reflexivity.
Defined.

Lemma replay_estimate_exact_witness :
  cs_estimate (replay_changeset utc (fun _ => "") scalar r) cfg db = Ok (Some 1)
  /\ fst (redrive_received RSample.unlocked "kafkaman" r RSample.t) = Ok 1%nat.
Proof.
  assert (He : cs_estimate (replay_changeset utc (fun _ => "") scalar r) cfg db = Ok (Some 1)) by (vm_compute; reflexivity).
  split; [exact He|]. destruct (redrive_received RSample.unlocked "kafkaman" r RSample.t) as [[n|e] t'] eqn:E.
  - destruct (replay_estimate_exact utc (fun _ => "") exec RSample.unlocked scalar cfg r db table statements RSample.t 1 n t'
      ltac:(vm_compute; reflexivity) (lookup_singleton_eq _ _) RSample.t_inv He E) as [_ Hn].
    simpl. f_equal. specialize (Hn (fun _ _ => eq_refl)). lia.
  - vm_compute in E. discriminate E.
Defined.
End RcSample.
