(* ===== verification/Roles.v ===== *)
(** * Roles: what a service declares, and what follows from it

    Models [src/crates/kafkaman-sqlx/src/roles.rs]: the registry of declared
    roles, its conflict rules, and the tables and the changelog derived from it.
    The registry's [BTreeMap] is a finite map read in the order of its keys. *)

From S2P Require Import Prelude Text Vocabulary Identity Topics Registry Outbox Schema Changelog.
Open Scope string_scope.
Open Scope list_scope.
Open Scope Z_scope.

Inductive Role := Publish | Cache | Handle | HandleBefore.
#[global] Instance Role_eq_dec : EqDecision Role.
Proof. solve_decision. Defined.

Definition role_str (r : Role) : string :=
  match r with Publish => "publish" | Cache => "cache" | Handle => "handle" | HandleBefore => "handle_before" end.

Definition role_consumes (r : Role) : bool :=
  match r with Publish => false | Cache | Handle | HandleBefore => true end.

Record RoleEntry := {
  entry_descriptor : MessageDescriptor;
  e_publish : bool;
  e_cache : bool;
  e_handle : bool;
  e_handle_before : bool;
}.

Definition entry_new (d : MessageDescriptor) : RoleEntry :=
  {| entry_descriptor := d; e_publish := false; e_cache := false; e_handle := false; e_handle_before := false |}.

Definition entry_consumes (e : RoleEntry) : bool := e_cache e || e_handle e || e_handle_before e.

Definition consuming_role (e : RoleEntry) : option Role :=
  if e_cache e then Some Cache else if e_handle e then Some Handle
  else if e_handle_before e then Some HandleBefore else None.

(** The registry; [entries.values()] runs in key order. *)
Abbreviation RoleRegistry := (gmap string RoleEntry) (only parsing).

Definition values (reg : RoleRegistry) : list RoleEntry := map snd (btree_items reg).

Definition registry_is_empty (reg : RoleRegistry) : bool := bool_decide (reg = ∅).

Definition conflict (message_type : string) (existing added : Role) : Error :=
  EConflictingRole message_type (role_str existing) (role_str added).

(** The role's own check on the entry, and the flag it sets. *)
Definition mark_role (mt : string) (e : RoleEntry) (r : Role) : result Error RoleEntry :=
  match r with
  | Publish =>
      Ok {| entry_descriptor := entry_descriptor e; e_publish := true; e_cache := e_cache e;
            e_handle := e_handle e; e_handle_before := e_handle_before e |}
  | Cache =>
      _ ← match consuming_role e with
          | Some existing => if decide (existing <> Cache) then Err (conflict mt existing Cache) else Ok tt
          | None => Ok tt
          end;
      Ok {| entry_descriptor := entry_descriptor e; e_publish := e_publish e; e_cache := true;
            e_handle := e_handle e; e_handle_before := e_handle_before e |}
  | Handle =>
      if e_cache e then Err (conflict mt Cache Handle)
      else if e_handle e then Err (conflict mt Handle Handle)
      else Ok {| entry_descriptor := entry_descriptor e; e_publish := e_publish e; e_cache := e_cache e;
                 e_handle := true; e_handle_before := e_handle_before e |}
  | HandleBefore =>
      if e_cache e then Err (conflict mt Cache HandleBefore)
      else if e_handle_before e then Err (conflict mt HandleBefore HandleBefore)
      else Ok {| entry_descriptor := entry_descriptor e; e_publish := e_publish e; e_cache := e_cache e;
                 e_handle := e_handle e; e_handle_before := true |}
  end.

(** [RoleRegistry::declare]; a refused declaration leaves the registry alone. *)
Definition declare (reg : RoleRegistry) (d : MessageDescriptor) (r : Role) : result Error RoleRegistry :=
  let mt := message_type d in
  entry ← match reg !! mt with
          | Some entry =>
              if bool_decide (desc_topic (entry_descriptor entry) <> desc_topic d)
              then Err (EConflictingMessageType mt (desc_topic (entry_descriptor entry)) (desc_topic d))
              else Ok entry
          | None => Ok (entry_new d)
          end;
  entry ← mark_role mt entry r;
  Ok (<[mt := entry]> reg).

Definition descriptors (reg : RoleRegistry) : list MessageDescriptor := map entry_descriptor (values reg).
Definition published (reg : RoleRegistry) : list MessageDescriptor :=
  map entry_descriptor (List.filter e_publish (values reg)).
Definition consumed (reg : RoleRegistry) : list MessageDescriptor :=
  map entry_descriptor (List.filter entry_consumes (values reg)).
Definition has_application_handler (reg : RoleRegistry) (mt : string) : bool :=
  match reg !! mt with Some e => e_handle e || e_handle_before e | None => false end.

Definition entry_tables (e : RoleEntry) : list (TableKind * MessageDescriptor) :=
  (if e_publish e then [(OutboxKind, entry_descriptor e)] else [])
  ++ (if entry_consumes e then map (fun kind => (kind, entry_descriptor e)) CONSUMED else []).

Definition tables (reg : RoleRegistry) : list (TableKind * MessageDescriptor) :=
  flat_map entry_tables (values reg).

Definition changelog `{Sha256} (reg : RoleRegistry) : result Error (list LibraryChangeset) :=
  build_changelog (tables reg).

(** A service's declarations, in order, up to the first refusal. *)
Fixpoint declare_all (reg : RoleRegistry) (ds : list (MessageDescriptor * Role)) : result Error RoleRegistry :=
  match ds with
  | [] => Ok reg
  | (d, r) :: ds => reg ← declare reg d r; declare_all reg ds
  end.

(** ** The rule of the conflicts *)

(** Two roles that may stand side by side for one message type. *)
Definition compatible_roles (a b : Role) : bool :=
  match a, b with
  | Publish, _ | _, Publish => true
  | Cache, Cache => true
  | Handle, HandleBefore | HandleBefore, Handle => true
  | _, _ => false
  end.

Definition compatible (a b : MessageDescriptor * Role) : Prop :=
  message_type a.1 = message_type b.1 ->
  desc_topic a.1 = desc_topic b.1 /\ compatible_roles a.2 b.2 = true.

Definition flag (r : Role) (e : RoleEntry) : bool :=
  match r with Publish => e_publish e | Cache => e_cache e | Handle => e_handle e | HandleBefore => e_handle_before e end.

(** What the registry remembers of the declarations made so far. *)
Record remembers (reg : RoleRegistry) (done : list (MessageDescriptor * Role)) : Prop := {
  rem_entry : forall mt e, reg !! mt = Some e ->
    message_type (entry_descriptor e) = mt
    /\ (exists r, (entry_descriptor e, r) ∈ done)
    /\ (forall d r, (d, r) ∈ done -> message_type d = mt -> desc_topic d = desc_topic (entry_descriptor e))
    /\ (forall r, flag r e = true <-> exists d, (d, r) ∈ done /\ message_type d = mt);
  rem_all : forall d r, (d, r) ∈ done -> is_Some (reg !! (message_type d));
}.

Lemma mark_role_Ok mt e r e' :
  mark_role mt e r = Ok e' ->
  entry_descriptor e' = entry_descriptor e /\ forall r', flag r' e' = bool_decide (r' = r) || flag r' e.
Proof.
  destruct e as [d p c h hb], r; simpl.
  - intros [= <-]. split; [done|]. by intros [].
  - destruct c, h, hb; simpl; try done; intros [= <-]; (split; [done|]); by intros [].
  - destruct c, h; simpl; try done; intros [= <-]; (split; [done|]); by intros [].
  - destruct c, hb; simpl; try done; intros [= <-]; (split; [done|]); by intros [].
Qed.

(** A role is refused exactly by an incompatible one already there, given that
    the roles there are compatible with one another. *)
Lemma mark_role_accepts mt e r :
  (e_cache e = true -> e_handle e = false /\ e_handle_before e = false) ->
  is_ok (mark_role mt e r) = true <-> forall r', flag r' e = true -> compatible_roles r' r = true.
Proof.
  destruct e as [d p c h hb]; simpl. intros Hc. split.
  - intros Hok r' Hf.
    destruct c, h, hb, r, r'; simpl in *; try done; by destruct (Hc eq_refl).
  - intros Hall. pose proof (Hall Cache) as H1. pose proof (Hall Handle) as H2.
    pose proof (Hall HandleBefore) as H3. simpl in *.
    destruct r, c, h, hb; simpl in *; try done; naive_solver.
Qed.

Lemma pairwise_lookup {A} (R : A -> A -> Prop) (l : list A) x y :
  (forall a b, R a b -> R b a) -> StronglySorted R l -> x ∈ l -> y ∈ l -> x = y \/ R x y.
Proof.
  intros Hsym. induction 1 as [|a l Hs IH Hf]; intros Hx Hy; [by apply elem_of_nil in Hx|].
  rewrite Forall_forall in Hf.
  apply elem_of_cons in Hx as [->|Hx], Hy as [->|Hy]; auto.
Qed.

Lemma compatible_roles_sym a b : compatible_roles a b = compatible_roles b a.
Proof. by destruct a, b. Qed.
Lemma compatible_sym a b : compatible a b -> compatible b a.
Proof. unfold compatible. rewrite (compatible_roles_sym b.2). intros Hc E. by destruct (Hc (eq_sym E)). Qed.

(** The entry of compatible declarations never mixes a cache with handlers. *)
Lemma remembered_cache reg done mt e :
  remembers reg done -> StronglySorted compatible done -> reg !! mt = Some e ->
  e_cache e = true -> e_handle e = false /\ e_handle_before e = false.
Proof.
  intros Hr Hs He Hc. destruct (rem_entry _ _ Hr mt e He) as (_ & _ & _ & Hf).
  destruct (proj1 (Hf Cache) Hc) as (d & Hd & Hmt).
  assert (Hno : forall r, compatible_roles Cache r = false -> r <> Cache -> flag r e = false).
  { intros r Hinc Hne. apply not_true_iff_false. intros (d' & Hd' & Hmt')%Hf.
    destruct (pairwise_lookup compatible done (d, Cache) (d', r) compatible_sym Hs Hd Hd') as [[=]|Hcomp];
      [congruence|]. destruct Hcomp as [_ Hcomp]; [simpl; congruence|]. cbn [snd] in Hcomp. congruence. }
  split; [by apply (Hno Handle)|by apply (Hno HandleBefore)].
Qed.

Lemma remembers_insert reg done d r e e' :
  remembers reg done ->
  (reg !! (message_type d) = Some e \/ (reg !! (message_type d) = None /\ e = entry_new d)) ->
  desc_topic (entry_descriptor e) = desc_topic d ->
  mark_role (message_type d) e r = Ok e' ->
  remembers (<[message_type d := e']> reg) (done ++ [(d, r)]).
Proof.
  intros Hr He Ht Hm. apply mark_role_Ok in Hm as [Hd Hf].
  constructor.
  - intros mt x [[<- <-]|[Hne Hx]]%lookup_insert_Some.
    + rewrite Hd. destruct He as [He|[He ->]].
      * destruct (rem_entry _ _ Hr _ _ He) as (H1 & [r0 H2] & H3 & H4). split_and!; [done| | |].
        -- exists r0. set_solver.
        -- intros d' r' [Hin|Hin]%elem_of_app Hmt; [by eapply H3|].
           apply list_elem_of_singleton in Hin. by simplify_eq.
        -- intros r'. rewrite Hf, orb_true_iff, bool_decide_eq_true, H4.
           setoid_rewrite elem_of_app. setoid_rewrite list_elem_of_singleton. split.
           ++ intros [->|(d' & ? & ?)]; [exists d; by split; [right|]|exists d'; by split; [left|]].
           ++ intros (d' & [Hin|[= -> ->]] & Hmt); [right; eauto|by left].
      * assert (Hnone : forall d' r', (d', r') ∈ done -> message_type d' <> message_type d).
        { intros d' r' Hin Hmt. destruct (rem_all _ _ Hr _ _ Hin) as [x Hx]. rewrite Hmt, He in Hx. done. }
        simpl. split_and!; [done| | |].
        -- exists r. set_solver.
        -- intros d' r' [Hin|Hin]%elem_of_app Hmt; [by destruct (Hnone _ _ Hin)|].
           apply list_elem_of_singleton in Hin. by simplify_eq.
        -- intros r'. rewrite Hf, orb_true_iff, bool_decide_eq_true.
           setoid_rewrite elem_of_app. setoid_rewrite list_elem_of_singleton. split.
           ++ intros [->|Hfl]; [exists d; by split; [right|]|by destruct r'].
           ++ intros (d' & [Hin|[= -> ->]] & Hmt); [by destruct (Hnone _ _ Hin)|by left].
    + destruct (rem_entry _ _ Hr _ _ Hx) as (H1 & [r0 H2] & H3 & H4). split_and!; [done| | |].
      * exists r0. set_solver.
      * intros d' r' [Hin|Hin]%elem_of_app Hmt; [by eapply H3|].
        apply list_elem_of_singleton in Hin. by simplify_eq.
      * intros r'. rewrite H4. setoid_rewrite elem_of_app. setoid_rewrite list_elem_of_singleton.
        split; [intros (d' & ? & ?); exists d'; by split; [left|]|].
        intros (d' & [Hin|[= -> ->]] & Hmt); [eauto|done].
  - intros d' r' [Hin|Hin]%elem_of_app.
    + apply lookup_insert_is_Some. destruct (decide (message_type d = message_type d')); [by left|right].
      split; [done|]. by eapply rem_all.
    + apply list_elem_of_singleton in Hin. simplify_eq. rewrite lookup_insert_eq. by eexists.
Qed.

Lemma declare_step reg done d r :
  remembers reg done -> StronglySorted compatible done ->
  match declare reg d r with
  | Ok reg' => remembers reg' (done ++ [(d, r)]) /\ forall x, x ∈ done -> compatible x (d, r)
  | Err _ => exists x, x ∈ done /\ ~ compatible x (d, r)
  end.
Proof.
  intros Hr Hs. unfold declare. destruct (reg !! (message_type d)) as [e|] eqn:He.
  - destruct (rem_entry _ _ Hr _ _ He) as (H1 & [r0 H2] & H3 & H4).
    case_bool_decide as Ht; simpl.
    { exists (entry_descriptor e, r0). split; [done|]. intros Hc. by destruct (Hc H1). }
    assert (Ht' : desc_topic (entry_descriptor e) = desc_topic d) 
      by (by destruct (decide (desc_topic (entry_descriptor e) = desc_topic d))).
    pose proof (mark_role_accepts (message_type d) e r (remembered_cache _ _ _ _ Hr Hs He)) as Ha.
    destruct (mark_role (message_type d) e r) as [e'|err] eqn:Em; simpl in *.
    + split; [eapply remembers_insert; eauto|]. intros [d' r'] Hin Hmt. simpl in *. split.
      * rewrite <- Ht'. by eapply H3.
      * apply Ha; [done|]. apply H4. eauto.
    + destruct (decide (Forall (fun r' => flag r' e = true -> compatible_roles r' r = true)
                          [Publish; Cache; Handle; HandleBefore])) as [Hall|Hn].
      * exfalso. assert (false = true); [apply Ha|done]. rewrite Forall_forall in Hall.
        intros r' Hf. apply Hall; [|done]. destruct r'; set_solver.
      * apply not_Forall_Exists in Hn; [|apply _]. apply Exists_exists in Hn as (r' & _ & Hn).
        destruct (flag r' e) eqn:Hf; [|exfalso; apply Hn; congruence]. apply H4 in Hf as (d' & Hin & Hmt).
        exists (d', r'). split; [done|]. intros Hc. destruct (Hc Hmt) as [_ Hc']. by apply Hn.
  - cbn [mbind result_bind].
    destruct (mark_role (message_type d) (entry_new d) r) as [e'|err] eqn:Em; cbn [mbind result_bind].
    + split; [eapply remembers_insert; eauto|]. intros [d' r'] Hin Hmt. simpl in *.
      destruct (rem_all _ _ Hr _ _ Hin) as [x Hx]. rewrite Hmt, He in Hx. done.
    + by destruct r.
Qed.

Lemma declare_all_spec ds : forall reg done,
  remembers reg done -> StronglySorted compatible done ->
  match declare_all reg ds with
  | Ok reg' => remembers reg' (done ++ ds) /\ StronglySorted compatible (done ++ ds)
  | Err _ => ~ StronglySorted compatible (done ++ ds)
  end.
Proof.
  induction ds as [|[d r] ds IH]; intros reg done Hr Hs; cbn [declare_all].
  { by rewrite app_nil_r. }
  pose proof (declare_step reg done d r Hr Hs) as Hd.
  destruct (declare reg d r) as [reg'|err]; cbn [mbind result_bind].
  - destruct Hd as [Hr' Hc].
    assert (E : done ++ (d, r) :: ds = (done ++ [(d, r)]) ++ ds) by (by rewrite <- app_assoc).
    rewrite E. apply IH; [done|]. apply StronglySorted_app. split_and!; [|done|repeat constructor].
    intros a b Ha Hb. apply list_elem_of_singleton in Hb as ->. by apply Hc.
  - destruct Hd as (x & Hx & Hn). intros Hss. apply Hn.
    eapply (StronglySorted_app_1_elem_of _ done); [exact Hss|done|left].
Qed.

Lemma remembers_empty : remembers ∅ [].
Proof. constructor; [intros mt e; by rewrite lookup_empty|by intros d r []%elem_of_nil]. Qed.

(** The conflict rules are exactly a symmetric pairwise condition: a
    sequence of declarations is accepted if and only if any two of them for one
    message type name the same topic and are compatible roles (publishing goes
    with everything, a repeated cache is one cache, one handler before and one
    after the cache may stand together), so acceptance does not depend on the
    order of the declarations. *)
Theorem declarations_accepted (ds : list (MessageDescriptor * Role)) :
  (is_ok (declare_all ∅ ds) = true <-> StronglySorted compatible ds)
  /\ (forall ds', ds ≡ₚ ds' -> is_ok (declare_all ∅ ds') = is_ok (declare_all ∅ ds)).
Proof.
  assert (Hok : forall ds, is_ok (declare_all ∅ ds) = true <-> StronglySorted compatible ds).
  { intros l. pose proof (declare_all_spec l ∅ [] remembers_empty ltac:(constructor)) as Hd. simpl in Hd.
    destruct (declare_all ∅ l); simpl; [|by split]. by destruct Hd. }
  split; [apply Hok|]. intros ds' Hp. apply eq_true_iff_eq. rewrite !Hok. clear Hok.
  assert (Hperm : forall l l', l ≡ₚ l' -> StronglySorted compatible l -> StronglySorted compatible l').
  { induction 1 as [|x l l' Hp' IH|x y l|l1 l2 l3 _ IH1 _ IH2]; [done| | |auto].
    - rewrite !StronglySorted_cons, !Forall_forall. intros [Hf Hs]. split; [|auto].
      intros a Ha. apply Hf. by rewrite Hp'.
    - rewrite !StronglySorted_cons, !Forall_cons. intros ((Hyx & Hy) & Hx & Hs).
      split_and!; [by apply compatible_sym|done..]. }
  split; by apply Hperm.
Qed.

(** ** Tables and changelog *)

Lemma elem_of_values reg e : e ∈ values reg <-> exists mt, reg !! mt = Some e.
Proof.
  unfold values. rewrite list_elem_of_In, in_map_iff. setoid_rewrite <- list_elem_of_In. split.
  - intros ([mt x] & <- & Hin). exists mt. by apply elem_of_btree_items.
  - intros [mt Hmt]. exists (mt, e). split; [done|]. by apply elem_of_btree_items.
Qed.

Definition kind_wanted (k : TableKind) (r : Role) : bool :=
  match k with OutboxKind => bool_decide (r = Publish) | _ => role_consumes r end.

Lemma consuming_flag r e :
  flag r e = true -> role_consumes r = true -> e_cache e || e_handle e || e_handle_before e = true.
Proof. destruct r; simpl; try done; intros -> _; by rewrite ?orb_true_r. Qed.

Lemma entry_tables_spec e k d :
  (k, d) ∈ entry_tables e <-> d = entry_descriptor e /\ exists r, flag r e = true /\ kind_wanted k r = true.
Proof.
  unfold entry_tables, CONSUMED, entry_consumes. rewrite elem_of_app. split.
  - intros [Hin|Hin].
    + destruct (e_publish e) eqn:Ep; [|by apply elem_of_nil in Hin].
      apply list_elem_of_singleton in Hin. simplify_eq. split; [done|]. by exists Publish.
    + destruct (e_cache e || e_handle e || e_handle_before e) eqn:Ec; [|by apply elem_of_nil in Hin].
      assert (exists r, flag r e = true /\ role_consumes r = true) as (r & Hf & Hr).
      { apply orb_true_iff in Ec as [[?|?]%orb_true_iff|?]; [by exists Cache|by exists Handle|by exists HandleBefore]. }
      simpl in Hin. rewrite !elem_of_cons, elem_of_nil in Hin.
      destruct Hin as [[= -> ->]|[[= -> ->]|[]]]; split; eauto.
  - intros [-> (r & Hf & Hk)]. destruct k; simpl in Hk.
    + apply bool_decide_eq_true in Hk as ->. simpl in Hf. rewrite Hf. left. by left.
    + right. rewrite (consuming_flag r e) by done. simpl. set_solver.
    + right. rewrite (consuming_flag r e) by done. simpl. set_solver.
Qed.

(** One descriptor per message type, as the types' own [descriptor()] gives it. *)
Definition one_descriptor (ds : list (MessageDescriptor * Role)) : Prop :=
  forall d d' r r', (d, r) ∈ ds -> (d', r') ∈ ds -> message_type d = message_type d' -> d = d'.

Lemma tables_spec reg ds k d :
  remembers reg ds -> one_descriptor ds ->
  (k, d) ∈ tables reg <-> exists r, (d, r) ∈ ds /\ kind_wanted k r = true.
Proof.
  intros Hr Hone. unfold tables. rewrite list_elem_of_In, in_flat_map. split.
  - intros (e & He & Hin). apply list_elem_of_In, elem_of_values in He as [mt He].
    apply list_elem_of_In, entry_tables_spec in Hin as [-> (r & Hf & Hk)].
    destruct (rem_entry _ _ Hr _ _ He) as (H1 & [r0 H2] & _ & H4).
    apply H4 in Hf as (d' & Hin & Hmt). exists r. split; [|done].
    rewrite (Hone (entry_descriptor e) d' r0 r); [done..|congruence].
  - intros (r & Hin & Hk). destruct (rem_all _ _ Hr _ _ Hin) as [e He].
    destruct (rem_entry _ _ Hr _ _ He) as (H1 & [r0 H2] & _ & H4).
    exists e. split; [apply list_elem_of_In, elem_of_values; eauto|].
    apply list_elem_of_In, entry_tables_spec. split; [by eapply Hone|].
    exists r. split; [|done]. apply H4. eauto.
Qed.

Lemma changelog_same `{Sha256} reg reg' ds ds' :
  remembers reg ds -> remembers reg' ds' -> one_descriptor ds -> one_descriptor ds' ->
  (forall k d, (exists r, (d, r) ∈ ds /\ kind_wanted k r = true)
               <-> exists r, (d, r) ∈ ds' /\ kind_wanted k r = true) ->
  match changelog reg, changelog reg' with
  | Ok cl, Ok cl' => cl = cl'
  | Err _, Err _ => True
  | _, _ => False
  end.
Proof.
  intros Hr Hr' Hone Hone' Hsame. apply build_changelog_same.
  - intros [k d] [k' d'] Hin Hin' [= -> Hmt].
    apply (tables_spec _ _ _ _ Hr Hone) in Hin as (r & Hin & _).
    apply (tables_spec _ _ _ _ Hr Hone) in Hin' as (r' & Hin' & _). f_equal. by eapply Hone.
  - intros [k d]. rewrite (tables_spec _ _ _ _ Hr Hone), (tables_spec _ _ _ _ Hr' Hone'). apply Hsame.
Qed.

(** The schema follows from what is published and what is consumed, and from
    nothing else: two accepted sets of declarations that publish the same types
    and consume the same types, in any order, with any repetition and with any
    of the three consuming roles, derive the same changelog (or both meet a band
    collision). Turning a cached type into a handled one is no schema change. *)
Theorem changelog_follows_roles `{Sha256} (ds ds' : list (MessageDescriptor * Role)) (reg reg' : RoleRegistry)
  (Hreg : declare_all ∅ ds = Ok reg) (Hreg' : declare_all ∅ ds' = Ok reg')
  (Hone : one_descriptor ds) (Hone' : one_descriptor ds')
  (Hpub : forall d, (d, Publish) ∈ ds <-> (d, Publish) ∈ ds')
  (Hcon : forall d, (exists r, role_consumes r = true /\ (d, r) ∈ ds)
                    <-> (exists r, role_consumes r = true /\ (d, r) ∈ ds')) :
  match changelog reg, changelog reg' with
  | Ok cl, Ok cl' => cl = cl'
  | Err _, Err _ => True
  | _, _ => False
  end.
Proof.
  pose proof (declare_all_spec ds ∅ [] remembers_empty ltac:(constructor)) as Hd.
  pose proof (declare_all_spec ds' ∅ [] remembers_empty ltac:(constructor)) as Hd'.
  rewrite Hreg in Hd. rewrite Hreg' in Hd'. destruct Hd as [Hr _], Hd' as [Hr' _].
  apply (changelog_same reg reg' ds ds' Hr Hr' Hone Hone'). intros k d. destruct k; simpl.
  - setoid_rewrite bool_decide_eq_true. specialize (Hpub d). naive_solver.
  - specialize (Hcon d). naive_solver.
  - specialize (Hcon d). naive_solver.
Qed.

(** An accepted set of declarations gives each message type exactly the
    tables its roles need (an outbox exactly when it is published, a received
    and a cache table exactly when it is consumed in any way), finds an
    application handler exactly where one was declared, and keeps the registry
    well-formed: every entry under its own message type, and no type cached and
    handled at once. *)
Theorem roles_imply_tables (ds : list (MessageDescriptor * Role)) (reg : RoleRegistry)
  (Hreg : declare_all ∅ ds = Ok reg) (Hone : one_descriptor ds) :
  (forall k d, (k, d) ∈ tables reg <-> exists r, (d, r) ∈ ds /\ kind_wanted k r = true)
  /\ (forall mt, has_application_handler reg mt = true <->
        exists d r, (d, r) ∈ ds /\ message_type d = mt /\ (r = Handle \/ r = HandleBefore))
  /\ (forall mt e, reg !! mt = Some e -> message_type (entry_descriptor e) = mt
        /\ (e_cache e = true -> e_handle e = false /\ e_handle_before e = false)).
Proof.
  pose proof (declare_all_spec ds ∅ [] remembers_empty ltac:(constructor)) as Hd.
  rewrite Hreg in Hd. destruct Hd as [Hr Hs]. simpl in Hr, Hs. split_and!.
  - intros k d. by apply tables_spec.
  - intros mt. unfold has_application_handler. destruct (reg !! mt) as [e|] eqn:He.
    + destruct (rem_entry _ _ Hr _ _ He) as (_ & _ & _ & H4).
      rewrite orb_true_iff. rewrite (H4 Handle), (H4 HandleBefore). naive_solver.
    + split; [done|]. intros (d & r & Hin & <- & _). destruct (rem_all _ _ Hr _ _ Hin) as [x Hx].
      pose proof (eq_trans (eq_sym He) Hx) as [=].
  - intros mt e He. split; [by destruct (rem_entry _ _ Hr _ _ He)|]. by eapply remembered_cache.
Qed.

Module RSample.
#[local] Existing Instance sample_sha.
Definition before : list (MessageDescriptor * Role) :=
  [(sample_d "purchase", Publish); (sample_d "product", Cache)].
Definition after : list (MessageDescriptor * Role) :=
  [(sample_d "product", HandleBefore); (sample_d "purchase", Publish); (sample_d "product", Handle)].
Definition registry_of (ds : list (MessageDescriptor * Role)) : RoleRegistry :=
  match declare_all ∅ ds with Ok r => r | Err _ => ∅ end.

Lemma one_sample ds : Forall (fun x => x.1 = sample_d (message_type x.1)) ds -> one_descriptor ds.
Proof.
  intros Hf d d' r r' Hin Hin' E. rewrite Forall_forall in Hf.
  pose proof (Hf _ Hin) as H1. pose proof (Hf _ Hin') as H2. simpl in H1, H2. by rewrite H1, H2, E.
Qed.

Lemma changelog_follows_roles_witness :
  match changelog (registry_of before), changelog (registry_of after) with
  | Ok cl, Ok cl' => cl = cl'
  | Err _, Err _ => True
  | _, _ => False
  end.
Proof.
  apply (changelog_follows_roles before after (registry_of before) (registry_of after)).
  - vm_compute. reflexivity.
  - vm_compute. reflexivity.
  - apply one_sample. repeat constructor.
  - apply one_sample. repeat constructor.
  - intros d. unfold before, after. rewrite !elem_of_cons, elem_of_nil. naive_solver.
  - intros d. unfold before, after. setoid_rewrite elem_of_cons. setoid_rewrite elem_of_cons.
    setoid_rewrite elem_of_cons. setoid_rewrite elem_of_nil. split.
    + intros (r & Hr & Hin). exists Handle. split; [done|]. naive_solver.
    + intros (r & Hr & Hin). exists Cache. split; [done|]. naive_solver.
Defined.

Lemma roles_imply_tables_witness :
  (OutboxKind, sample_d "purchase") ∈ tables (registry_of after)
  /\ has_application_handler (registry_of after) "product" = true.
Proof.
  destruct (roles_imply_tables after (registry_of after)) as (H1 & H2 & _).
  - vm_compute. reflexivity.
  - apply one_sample. repeat constructor.
  - split.
    + apply H1. exists Publish. split; [unfold after; set_solver|reflexivity].
    + apply H2. exists (sample_d "product"), Handle. split; [unfold after; set_solver|auto].
Defined.
End RSample.
