(* ===== verification/Config.v ===== *)
(** * Config: the configuration file and its resolution

    Models kafkaman-config ([duration.rs], [error.rs], [schema.rs], [config.rs],
    [sections.rs], [observability.rs], [serde_enum.rs]) and
    [ResolvedConfig::from_config] of [kafkaman-sqlx/src/resolved_config.rs].
    Reading TOML text and decoding a section into its struct are the work of the
    [toml] and [serde] crates, so they are the class [Decoders]; the texts of
    other crates' errors are the class [Texts]. *)

From Stdlib Require Import SpecFloat.
From S2P Require Import Prelude Text Decimal Vocabulary Identity Topics Registry Outbox Lifecycle Relay Retry Worker.
Open Scope string_scope.
Open Scope list_scope.
Open Scope Z_scope.

#[local] Arguments String.append !_ _ : simpl nomatch.

(** ** Issues *)

(** [ConfigIssue]: the key and the message. *)
Abbreviation ConfigIssue := (string * string)%type (only parsing).

Inductive ConfigError :=
| CfgIo (path source : string)
| CfgParse (text : string)
| MissingKey (key : string)
| WrongType (key expected found : string)
| InvalidValue (key message : string).

(** [impl From<ConfigError> for ConfigIssue]. *)
Definition issue_of (e : ConfigError) : ConfigIssue :=
  match e with
  | CfgIo path source => (path, "failed to read config: " +:+ source)
  | CfgParse text => ("toml", text)
  | MissingKey key => (key, "missing required key")
  | WrongType key expected found => (key, "expected " +:+ expected +:+ ", found " +:+ found)
  | InvalidValue key message => (key, message)
  end.

(** [Display for ConfigErrors]. *)
Definition display_issues (issues : list ConfigIssue) : string :=
  str_join "; " (map (fun i : ConfigIssue => i.1 +:+ ": " +:+ i.2) issues).

(** ** Durations *)

Definition UNITS : list (string * Z) :=
  [("ms", 1); ("s", 1000); ("m", 60000); ("h", 3600000); ("d", 86400000)].

Definition u128_max : Z := 2 ^ 128 - 1.
Definition MILLI : Z := 1000000.

(** [split_at(find(|ch| !ch.is_ascii_digit()))]: the leading digits and the rest. *)
Fixpoint span_digits (s : string) : string * string :=
  match s with
  | String c rest =>
      if is_digit c then let '(n, u) := span_digits rest in (String c n, u) else ("", s)
  | EmptyString => ("", "")
  end.

(** [parse_duration], in nanoseconds. *)
Definition parse_duration (input : string) : result string interval :=
  let trimmed := trim input in
  if is_empty trimmed then Err "duration must not be empty"
  else
    let '(number, unit) := span_digits trimmed in
    if is_empty unit then Err "duration must include a unit (ms, s, m, h, d)"
    else if is_empty number
    then Err "duration must start with an unsigned integer, e.g. `250ms` or `30s`"
    else
      let amount := digits_value 0 number in
      if u128_max <? amount then Err "duration amount is too large"
      else
        millis_per_unit ← ok_or "duration unit must be one of ms, s, m, h, d"
          (snd <$> List.find (fun u => bool_decide (u.1 = unit)) UNITS);
        let millis := amount * millis_per_unit in
        if u128_max <? millis then Err "duration overflows milliseconds"
        else if u64_max <? millis then Err "duration overflows Duration"
        else Ok (millis * MILLI).

(** ** Values and keys *)

(** [toml::Value]; a table is read by key. *)
Inductive toml :=
| TString (s : string)
| TInteger (z : Z)
| TFloat (f : f64)
| TBoolean (b : bool)
| TDatetime (text : string)
| TArray (items : list toml)
| TTable (entries : list (string * toml)).

Definition value_type (v : toml) : string :=
  match v with
  | TString _ => "string" | TInteger _ => "integer" | TFloat _ => "float" | TBoolean _ => "boolean"
  | TDatetime _ => "datetime" | TArray _ => "array" | TTable _ => "table"
  end.

Definition table_get (entries : list (string * toml)) (key : string) : option toml :=
  snd <$> List.find (fun e => bool_decide (e.1 = key)) entries.

(** [Config]: the parsed table. *)
Abbreviation Config := (list (string * toml)) (only parsing).

Fixpoint descend (value : toml) (parts : list string) : option toml :=
  match parts with
  | [] => Some value
  | part :: parts =>
      match value with
      | TTable entries => v ← table_get entries part; descend v parts
      | _ => None
      end
  end.

Definition value_at (cfg : Config) (key : string) : option toml :=
  match split_on "." key with
  | [] => None
  | first :: parts => v ← table_get cfg first; descend v parts
  end.

Definition contains (cfg : Config) (key : string) : bool :=
  match value_at cfg key with Some _ => true | None => false end.

(** [FromConfigValue]: the scalars a key may hold. *)
Class FromConfigValue (A : Type) := {
  EXPECTED : string;
  from_config_value : string -> toml -> result ConfigError A;
}.
Arguments EXPECTED A {_}.

Definition wrong_type (expected key : string) (v : toml) : ConfigError := WrongType key expected (value_type v).

#[global] Instance string_value : FromConfigValue string := {|
  EXPECTED := "string";
  from_config_value key v := match v with TString s => Ok s | _ => Err (wrong_type "string" key v) end;
|}.

(** A [Duration] has a type of its own here, so that its reader can be told
    from that of an integer. *)
Record DurationValue := { nanos : interval }.
#[global] Instance duration_value : FromConfigValue DurationValue := {|
  EXPECTED := "duration string";
  from_config_value key v :=
    match v with
    | TString text => match parse_duration text with
                      | Ok d => Ok {| nanos := d |}
                      | Err message => Err (InvalidValue key message)
                      end
    | _ => Err (wrong_type "duration string" key v)
    end;
|}.

#[global] Instance i64_value : FromConfigValue Z := {|
  EXPECTED := "integer";
  from_config_value key v := match v with TInteger z => Ok z | _ => Err (wrong_type "integer" key v) end;
|}.

Definition EXACT_LIMIT : Z := Z.shiftl 1 53.
#[global] Instance f64_value : FromConfigValue f64 := {|
  EXPECTED := "float or integer";
  from_config_value key v :=
    match v with
    | TFloat f => Ok f
    | TInteger z =>
        if negb ((- EXACT_LIMIT <=? z) && (z <=? EXACT_LIMIT))
        then Err (InvalidValue key ("integer " +:+ pretty z +:+ " cannot be represented exactly as a float"))
        else Ok (f64_of_Z z)
    | _ => Err (wrong_type "float or integer" key v)
    end;
|}.

#[global] Instance bool_value : FromConfigValue bool := {|
  EXPECTED := "boolean";
  from_config_value key v := match v with TBoolean b => Ok b | _ => Err (wrong_type "boolean" key v) end;
|}.

Definition config_get (A : Type) `{FromConfigValue A} (cfg : Config) (key : string) : result ConfigError A :=
  match value_at cfg key with
  | Some v => from_config_value key v
  | None => Err (MissingKey key)
  end.

Definition config_get_opt (A : Type) `{FromConfigValue A} (cfg : Config) (key : string)
  : result ConfigError (option A) :=
  match value_at cfg key with
  | Some v => Some <$> from_config_value key v
  | None => Ok None
  end.

(** ** [ConfigSchema] *)

Record RequiredKey := {
  rk_key : string;
  rk_expected : string;
  rk_validate : string -> toml -> result ConfigError unit;
}.
Abbreviation ConfigSchema := (list RequiredKey) (only parsing).

Definition require (A : Type) `{FromConfigValue A} (s : ConfigSchema) (key : string) : ConfigSchema :=
  s ++ [{| rk_key := key; rk_expected := EXPECTED A;
           rk_validate k v := (fun _ => tt) <$> (from_config_value k v : result ConfigError A) |}].

Definition check_key (lookup : string -> option toml) (r : RequiredKey) : list ConfigIssue :=
  match lookup (rk_key r) with
  | Some v => match rk_validate r (rk_key r) v with Ok _ => [] | Err e => [issue_of e] end
  | None => [(rk_key r, "missing required key; expected " +:+ rk_expected r)]
  end.

Definition schema_check (s : ConfigSchema) (lookup : string -> option toml) : result (list ConfigIssue) unit :=
  let issues := flat_map (check_key lookup) s in
  if bool_decide (issues = []) then Ok tt else Err issues.

Definition config_validate (cfg : Config) (s : ConfigSchema) : result (list ConfigIssue) unit :=
  schema_check s (value_at cfg).

(** ** Observability policies *)

Inductive ObservabilityLevel := LevelError | LevelWarn | LevelInfo | LevelDebug | LevelTrace.
Inductive LifecycleLogging := LogSummary | LogPerMessage.
Inductive PayloadLogging := PayloadOff | PayloadRedacted | PayloadSampled | PayloadFull.
Inductive HeaderLogging := HeadersOff | HeadersKafkamanOnly | HeadersAll.
Inductive KafkaTraceHandoff := Linked | Parented.
#[global] Instance LifecycleLogging_eq_dec : EqDecision LifecycleLogging.
Proof. solve_decision. Defined.

(** [string_enum]: the error carries what was found and the legal values, which
    serde words. *)
Definition string_enum {A} (expected : string) (parse : string -> option A) (value : string)
  : result (string * string) A :=
  ok_or (value, expected) (parse value).

Definition parse_level : string -> result (string * string) ObservabilityLevel :=
  string_enum "error, warn, info, debug, or trace" (fun v =>
    if bool_decide (v = "error") then Some LevelError
    else if bool_decide (v = "warn") then Some LevelWarn
    else if bool_decide (v = "info") then Some LevelInfo
    else if bool_decide (v = "debug") then Some LevelDebug
    else if bool_decide (v = "trace") then Some LevelTrace else None).

Definition parse_lifecycle : string -> result (string * string) LifecycleLogging :=
  string_enum "summary or per-message" (fun v =>
    if bool_decide (v = "summary") then Some LogSummary
    else if bool_decide (v = "per-message") then Some LogPerMessage else None).

Definition parse_payload : string -> result (string * string) PayloadLogging :=
  string_enum "off, redacted, sampled, or full" (fun v =>
    if bool_decide (v = "off") then Some PayloadOff
    else if bool_decide (v = "redacted") then Some PayloadRedacted
    else if bool_decide (v = "sampled") then Some PayloadSampled
    else if bool_decide (v = "full") then Some PayloadFull else None).

Definition parse_headers : string -> result (string * string) HeaderLogging :=
  string_enum "off, kafkaman-only, or all" (fun v =>
    if bool_decide (v = "off") then Some HeadersOff
    else if bool_decide (v = "kafkaman-only") then Some HeadersKafkamanOnly
    else if bool_decide (v = "all") then Some HeadersAll else None).

Definition parse_handoff : string -> result (string * string) KafkaTraceHandoff :=
  string_enum "linked or parented" (fun v =>
    if bool_decide (v = "linked") then Some Linked
    else if bool_decide (v = "parented") then Some Parented else None).

Record ObservabilityPolicy := {
  op_level : ObservabilityLevel;
  op_lifecycle : LifecycleLogging;
  op_payload : PayloadLogging;
  op_headers : HeaderLogging;
  op_handoff : KafkaTraceHandoff;
  op_sample : f64;
  op_stuck_after : interval;
  op_max_queue_age : interval;
}.

Definition lifecycle_emission (p : ObservabilityPolicy) : LifecycleEmission :=
  {| per_message := bool_decide (op_lifecycle p = LogPerMessage); sample_success := op_sample p |}.

Definition observability_default : ObservabilityPolicy :=
  {| op_level := LevelWarn; op_lifecycle := LogSummary; op_payload := PayloadOff;
     op_headers := HeadersKafkamanOnly; op_handoff := Linked; op_sample := f64_of_Z 0;
     op_stuck_after := 60 * NANOS; op_max_queue_age := 300 * NANOS |}.

Record ObservabilityPolicyOverride := {
  oo_level : option ObservabilityLevel;
  oo_lifecycle : option LifecycleLogging;
  oo_payload : option PayloadLogging;
  oo_headers : option HeaderLogging;
  oo_handoff : option KafkaTraceHandoff;
  oo_sample : option f64;
  oo_stuck_after : option interval;
  oo_max_queue_age : option interval;
}.

Definition no_override : ObservabilityPolicyOverride :=
  {| oo_level := None; oo_lifecycle := None; oo_payload := None; oo_headers := None;
     oo_handoff := None; oo_sample := None; oo_stuck_after := None; oo_max_queue_age := None |}.

Definition observability_apply_to (o : ObservabilityPolicyOverride) (base : ObservabilityPolicy)
  : ObservabilityPolicy :=
  {| op_level := default (op_level base) (oo_level o);
     op_lifecycle := default (op_lifecycle base) (oo_lifecycle o);
     op_payload := default (op_payload base) (oo_payload o);
     op_headers := default (op_headers base) (oo_headers o);
     op_handoff := default (op_handoff base) (oo_handoff o);
     op_sample := default (op_sample base) (oo_sample o);
     op_stuck_after := default (op_stuck_after base) (oo_stuck_after o);
     op_max_queue_age := default (op_max_queue_age base) (oo_max_queue_age o) |}.

Record ObservabilityConfig := {
  ob_defaults : ObservabilityPolicy;
  ob_overrides : gmap string ObservabilityPolicyOverride;
}.

Definition observability_policy_for (cfg : ObservabilityConfig) (mt : string) : ObservabilityPolicy :=
  match ob_overrides cfg !! mt with
  | Some o => observability_apply_to o (ob_defaults cfg)
  | None => ob_defaults cfg
  end.

Definition check_sample_success (path : string) (x : f64) : list ConfigIssue :=
  if negb (f64_is_finite x) || negb (SFleb (f64_of_Z 0) x && SFleb x (f64_of_Z 1))
  then [(path +:+ ".sample_success", "must be finite and between 0.0 and 1.0")] else [].

Definition check_positive_duration (path field : string) (d : interval) : list ConfigIssue :=
  if d =? 0 then [(path +:+ "." +:+ field, "must be greater than zero")] else [].

Definition validate_observability_policy (path : string) (p : ObservabilityPolicy) : list ConfigIssue :=
  check_sample_success path (op_sample p)
  ++ check_positive_duration path "stuck_after" (op_stuck_after p)
  ++ check_positive_duration path "max_queue_age" (op_max_queue_age p).

Definition validate_observability_override (path : string) (o : ObservabilityPolicyOverride) : list ConfigIssue :=
  match oo_sample o with Some x => check_sample_success path x | None => [] end
  ++ match oo_stuck_after o with Some d => check_positive_duration path "stuck_after" d | None => [] end
  ++ match oo_max_queue_age o with Some d => check_positive_duration path "max_queue_age" d | None => [] end.

(** ** Sections *)

(** The texts of errors of other crates that end up in an issue. *)
Class Texts := { core_text : CoreError -> string }.

Record RelaySection := {
  sec_worker_id : string;
  sec_batch_limit : Z;
  sec_lease_for : interval;
  sec_retry_after : interval;
  sec_poll_interval : interval;
}.

Definition emission_default : LifecycleEmission := {| per_message := false; sample_success := f64_of_Z 0 |}.

Definition validated {C} `{Texts} (validate : C -> result CoreError unit) (cfg : C) : result string C :=
  match validate cfg with Ok _ => Ok cfg | Err e => Err (core_text e) end.

Definition into_relay_config `{Texts} (s : RelaySection) : result string RelayConfig :=
  validated relay_validate
    {| worker_id := sec_worker_id s; batch_limit := sec_batch_limit s; lease_for := sec_lease_for s;
       retry_after := sec_retry_after s; relay_poll_interval := sec_poll_interval s;
       relay_lifecycle := emission_default |}.

Record RetentionSection := {
  ret_outbox_after : interval;
  ret_batch_size : Z;
  ret_poll_interval : interval;
  ret_include_failed : bool;
}.

Definition into_purge_config `{Texts} (s : RetentionSection) : result string PurgeConfig :=
  validated purge_validate
    {| older_than := ret_outbox_after s; batch_size := ret_batch_size s;
       purge_poll_interval := ret_poll_interval s; include_failed := ret_include_failed s |}.

Record DispatcherSection := {
  dis_poll_interval : option interval;
  dis_max_panicking : option nat;
}.
Definition dispatcher_section_default : DispatcherSection :=
  {| dis_poll_interval := None; dis_max_panicking := None |}.

Definition dispatcher_default : DispatcherConfig :=
  {| dispatcher_poll_interval := 250 * MILLI; dispatcher_lifecycle := emission_default;
     max_consecutive_panicking_rows := 10 |}.

Definition into_dispatcher_config `{Texts} (s : DispatcherSection) (lifecycle : LifecycleEmission)
  (relay_poll : interval) : result string DispatcherConfig :=
  validated dispatcher_validate
    {| dispatcher_poll_interval := default relay_poll (dis_poll_interval s);
       dispatcher_lifecycle := lifecycle;
       max_consecutive_panicking_rows :=
         default (max_consecutive_panicking_rows dispatcher_default) (dis_max_panicking s) |}.

Record RetrySection := {
  rsec_defaults : RetryPolicy;
  rsec_messages : gmap string RetryPolicyOverride;
}.

Definition unregistered (prefix : string) (registered : gset string) (mt : string) : list ConfigIssue :=
  if decide (mt ∈ registered) then [] else [(prefix +:+ mt, "message type is not registered")].

(** [RetrySection::resolve]. *)
Definition retry_resolve (s : RetrySection) (registered : gset string) : result (list ConfigIssue) RetryConfig :=
  let issues :=
    validate_policy "retry.defaults" (rsec_defaults s)
    ++ flat_map (fun '(mt, o) =>
         unregistered "retry.messages." registered mt
         ++ validate_policy ("retry.messages." +:+ mt) (apply_to o (rsec_defaults s)))
       (btree_items (rsec_messages s)) in
  if bool_decide (issues = [])
  then Ok {| defaults := rsec_defaults s; overrides := rsec_messages s |}
  else Err issues.

Record TopicsSection := { ts_mode : TopicMode; ts_prefix : string }.
Definition topics_section_default : TopicsSection := {| ts_mode := Verify; ts_prefix := "" |}.

Definition prefix_first (c : ascii) : bool := is_ascii_lowercase c || is_ascii_digit c.
Definition prefix_byte (c : ascii) : bool :=
  is_ascii_lowercase c || is_ascii_digit c || Ascii.eqb c "."%char || Ascii.eqb c "-"%char.
Fixpoint last_byte (s : string) : option ascii :=
  match s with EmptyString => None | String c EmptyString => Some c | String _ s => last_byte s end.

(** [TopicsSection::validate_prefix]. *)
Definition validate_prefix (prefix : string) : result string unit :=
  match prefix with
  | EmptyString => Ok tt
  | String first _ =>
      if negb (prefix_first first) || negb (all_bytes prefix_byte prefix)
      then Err ("topic prefix `" +:+ prefix +:+ "` must match [a-z0-9][a-z0-9.-]*")
      else match last_byte prefix with
           | Some c => if Ascii.eqb c "."%char || Ascii.eqb c "-"%char then Ok tt
                       else Err ("topic prefix `" +:+ prefix +:+ "` must end in `.` or `-`")
           | None => Err ("topic prefix `" +:+ prefix +:+ "` must end in `.` or `-`")
           end
  end.

Record ObservabilitySection := {
  osec_defaults : ObservabilityPolicyOverride;
  osec_messages : gmap string ObservabilityPolicyOverride;
}.
Definition observability_section_default : ObservabilitySection :=
  {| osec_defaults := no_override; osec_messages := ∅ |}.

(** [ObservabilitySection::resolve]. *)
Definition observability_resolve (s : ObservabilitySection) (registered : gset string)
  : result (list ConfigIssue) ObservabilityConfig :=
  let ds := observability_apply_to (osec_defaults s) observability_default in
  let issues :=
    validate_observability_policy "observability.defaults" ds
    ++ flat_map (fun '(mt, o) =>
         unregistered "observability.messages." registered mt
         ++ validate_observability_override ("observability.messages." +:+ mt) o)
       (btree_items (osec_messages s)) in
  if bool_decide (issues = [])
  then Ok {| ob_defaults := ds; ob_overrides := osec_messages s |}
  else Err issues.

(** ** Reading the file *)

(** [toml] and [serde]: a text as a table, a value as the struct of a section. *)
Class Decoders := {
  parse_toml : string -> result string Config;
  decode_relay : toml -> result string RelaySection;
  decode_retention : toml -> result string RetentionSection;
  decode_dispatcher : toml -> result string DispatcherSection;
  decode_retry : toml -> result string RetrySection;
  decode_topics : toml -> result string TopicsSection;
  decode_observability : toml -> result string ObservabilitySection;
}.

Section reading.
Context `{Decoders} `{Texts}.

(** [Config::parse]; [from_path] adds the read. *)
Definition config_parse (text : string) : result ConfigError Config :=
  match parse_toml text with Ok t => Ok t | Err e => Err (CfgParse e) end.
Definition config_from_path (path : string) (read : result string string) : result ConfigError Config :=
  match read with Ok content => config_parse content | Err source => Err (CfgIo path source) end.

(** What stands at a candidate path. *)
Inductive Probe := IsFile (read : result string string) | IsOther | IsAbsent.

(** [Config::discover]: [dirs] are the candidates from the working directory up
    to the root, each with what stands there. *)
Fixpoint discover_from (dirs : list (string * Probe)) : result ConfigError (option Config) :=
  match dirs with
  | [] => Ok None
  | (candidate, probe) :: dirs =>
      match probe with
      | IsFile read => Some <$> config_from_path candidate read
      | IsOther => Err (CfgIo candidate "kafkaman.toml exists but is not a regular file")
      | IsAbsent => discover_from dirs
      end
  end.
Definition discover (cwd : result string (list (string * Probe))) : result ConfigError (option Config) :=
  match cwd with Err source => Err (CfgIo "." source) | Ok dirs => discover_from dirs end.

Definition section {A} (decode : toml -> result string A) (cfg : Config) (key : string)
  : result ConfigError (option A) :=
  match value_at cfg key with
  | None => Ok None
  | Some v => match decode v with Ok a => Ok (Some a) | Err text => Err (InvalidValue key text) end
  end.

Definition required_section {A} (decode : toml -> result string A) (cfg : Config) (key : string)
  : result ConfigError A :=
  s ← section decode cfg key; ok_or (MissingKey key) s.

Definition config_relay (cfg : Config) : result ConfigError RelaySection := required_section decode_relay cfg "relay".
Definition config_retention (cfg : Config) : result ConfigError (option RetentionSection) :=
  section decode_retention cfg "retention".
Definition config_dispatcher (cfg : Config) : result ConfigError DispatcherSection :=
  s ← section decode_dispatcher cfg "dispatcher"; Ok (default dispatcher_section_default s).
Definition config_retry (cfg : Config) : result ConfigError RetrySection := required_section decode_retry cfg "retry".
Definition config_topics (cfg : Config) : result ConfigError TopicsSection :=
  s ← section decode_topics cfg "topics"; Ok (default topics_section_default s).
Definition config_observability (cfg : Config) : result ConfigError (option ObservabilitySection) :=
  section decode_observability cfg "observability".

Definition retry_config (cfg : Config) (registered : list string) : result (list ConfigIssue) RetryConfig :=
  match config_retry cfg with
  | Ok retry => retry_resolve retry (list_to_set registered)
  | Err e => Err [issue_of e]
  end.

Definition observability_config (cfg : Config) (registered : list string)
  : result (list ConfigIssue) ObservabilityConfig :=
  match config_observability cfg with
  | Ok o => observability_resolve (default observability_section_default o) (list_to_set registered)
  | Err e => Err [issue_of e]
  end.

(** ** [ResolvedConfig::from_config] *)

(** [ResolvedConfig] in full: [base] is the part the storage layer reads. *)
Record Resolved := {
  base : ResolvedConfig;
  rc_relay : RelayConfig;
  rc_dispatcher : DispatcherConfig;
  rc_retry : RetryConfig;
  rc_observability : ObservabilityConfig;
  rc_topics : TopicMode;
}.

Definition retry_config_default : RetryConfig := {| defaults := retry_default; overrides := ∅ |}.
Definition observability_config_default : ObservabilityConfig :=
  {| ob_defaults := observability_default; ob_overrides := ∅ |}.

(** [ResolvedConfig::new]; the default worker identifier is random. *)
Definition resolved_new (worker : string) (s : SqlIdentifier) : Resolved :=
  {| base := {| schema := s; topic_prefix := ""; messages := [] |};
     rc_relay := {| worker_id := worker; batch_limit := 100; lease_for := 30 * NANOS;
                    retry_after := NANOS; relay_poll_interval := 250 * MILLI;
                    relay_lifecycle := emission_default |};
     rc_dispatcher := dispatcher_default; rc_retry := retry_config_default;
     rc_observability := observability_config_default; rc_topics := Verify |}.

Definition TOPICS_PREFIX_ENV : string := "KAFKAMAN_TOPICS_PREFIX".

Definition required_keys : ConfigSchema :=
  require DurationValue (require DurationValue (require DurationValue (require Z (require string
    (require string [] "database.schema") "relay.worker_id") "relay.batch_limit")
    "relay.lease_for") "relay.retry_after") "relay.poll_interval".

(** What one part of the file yields: its issues, and its value if it has one. *)
Definition Part (A : Type) : Type := list ConfigIssue * option A.

Definition schema_part (cfg : Config) : Part string :=
  match config_get string cfg "database.schema" with
  | Ok s => ([], Some s) | Err e => ([issue_of e], None)
  end.

Definition relay_part (cfg : Config) : Part RelayConfig :=
  match config_relay cfg with
  | Ok s => match into_relay_config s with
            | Ok r => ([], Some r) | Err message => ([("relay", message)], None)
            end
  | Err e => ([issue_of e], None)
  end.

Definition retry_part (cfg : Config) (registered : list string) : Part RetryConfig :=
  if contains cfg "retry" then
    match retry_config cfg registered with
    | Ok r => ([], Some r) | Err issues => (issues, None)
    end
  else ([], Some retry_config_default).

Definition dispatcher_part (cfg : Config) (relay : option RelayConfig) : Part DispatcherConfig :=
  match config_dispatcher cfg, relay with
  | Ok s, Some r =>
      match into_dispatcher_config s (relay_lifecycle r) (relay_poll_interval r) with
      | Ok d => ([], Some d) | Err reason => ([("dispatcher", reason)], None)
      end
  | Err e, _ => ([issue_of e], None)
  | Ok _, None => ([], None)
  end.

Definition topics_part (cfg : Config) (prefix_env : option string) : Part TopicMode * option string :=
  match config_topics cfg with
  | Ok s =>
      let env := match prefix_env with
                 | Some v => if is_empty (trim v) then None else Some (trim v)
                 | None => None
                 end in
      let '(key, prefix) := match env with
                            | Some v => (TOPICS_PREFIX_ENV, v)
                            | None => ("topics.prefix", ts_prefix s)
                            end in
      match validate_prefix prefix with
      | Ok _ => (([], Some (ts_mode s)), Some prefix)
      | Err reason => (([(key, reason)], Some (ts_mode s)), None)
      end
  | Err e => (([issue_of e], None), None)
  end.

Definition observability_part (cfg : Config) (registered : list string) : Part ObservabilityConfig :=
  match observability_config cfg registered with
  | Ok o => ([], Some o) | Err issues => (issues, None)
  end.

Definition config_errors (issues : list ConfigIssue) : Error := EConfigErrors (display_issues issues).

Definition missing (key : string) : Error :=
  config_errors [(key, "internal error: value missing after validation reported no issues")].

(** Every issue of the file, in the order the parts are read. *)
Definition all_issues (cfg : Config) (ms : list MessageDescriptor) (prefix_env : option string)
  : list ConfigIssue :=
  match config_validate cfg required_keys with Ok _ => [] | Err issues => issues end
  ++ (schema_part cfg).1 ++ (relay_part cfg).1 ++ (retry_part cfg (map message_type ms)).1
  ++ (dispatcher_part cfg (relay_part cfg).2).1 ++ (topics_part cfg prefix_env).1.1
  ++ (observability_part cfg (map message_type ms)).1.

(** [ResolvedConfig::from_config_with_prefix_env]. *)
Definition from_config (worker : string) (cfg : option Config) (ms : list MessageDescriptor)
  (prefix_env : option string) : result Error Resolved :=
  match cfg with
  | None =>
      if bool_decide (ms = []) then Ok (resolved_new worker "kafkaman")
      else Err (config_errors [("kafkaman.toml", "missing config file for registered kafkaman features")])
  | Some cfg =>
      let issues := all_issues cfg ms prefix_env in
      if negb (bool_decide (issues = [])) then Err (config_errors issues)
      else
        let registered := map message_type ms in
        text ← ok_or (missing "database.schema") (schema_part cfg).2;
        s ← lift_core (identifier_new text);
        relay ← ok_or (missing "relay") (relay_part cfg).2;
        dispatcher ← ok_or (missing "dispatcher") (dispatcher_part cfg (relay_part cfg).2).2;
        retry ← ok_or (missing "retry") (retry_part cfg registered).2;
        observability ← ok_or (missing "observability") (observability_part cfg registered).2;
        topics ← ok_or (missing "topics") (topics_part cfg prefix_env).1.2;
        prefix ← ok_or (missing "topics.prefix") (topics_part cfg prefix_env).2;
        b ← register_all {| schema := s; topic_prefix := prefix; messages := [] |} ms;
        Ok {| base := b; rc_relay := relay; rc_dispatcher := dispatcher; rc_retry := retry;
              rc_observability := observability; rc_topics := topics |}
  end.
End reading.

(** ** The grammar of durations *)

Definition is_graphic : ascii -> bool := byte_in 33 126.

Lemma white_space_not_graphic :
  Forall (fun w => match w with String a _ => is_graphic a = false | EmptyString => False end) white_space.
Proof. repeat constructor. Qed.

Lemma strip_ws_graphic c s : is_graphic c = true -> strip_ws (String c s) = None.
Proof.
  intros Hc. unfold strip_ws. induction white_space_not_graphic as [|w ws Hw _ IH]; [done|].
  simpl. rewrite IH. destruct w as [|a w]; [done|]. simpl.
  destruct (Ascii.eqb_spec a c) as [->|]; [congruence|done].
Qed.

(** A text of visible ASCII has nothing to trim. *)
Lemma trim_graphic s : all_bytes is_graphic s = true -> trim s = s.
Proof.
  assert (Hstart : forall t, all_bytes is_graphic t = true -> trim_start t = t).
  { intros [|c t] Ht; [done|]. simpl in Ht. apply andb_true_iff in Ht as [Hc _].
    unfold trim_start. simpl. by rewrite strip_ws_graphic. }
  intros Hs. unfold trim. rewrite (Hstart s Hs). induction s as [|c s IH]; [done|].
  cbn [trim_end]. rewrite (Hstart _ Hs). simpl. simpl in Hs. apply andb_true_iff in Hs as [_ Hs].
  by rewrite (IH Hs).
Qed.

Lemma span_digits_spec s :
  let '(n, u) := span_digits s in
  s = n +:+ u /\ all_bytes is_digit n = true /\ (forall c r, u = String c r -> is_digit c = false).
Proof.
  induction s as [|c s IH]; simpl; [done|]. destruct (is_digit c) eqn:Hc.
  - destruct (span_digits s) as [n u]. destruct IH as (-> & Hn & Hu). simpl. by rewrite Hc.
  - split_and!; [done..|]. by intros c' r [= <- <-].
Qed.

Lemma span_digits_app n u :
  all_bytes is_digit n = true -> (forall c r, u = String c r -> is_digit c = false) ->
  span_digits (n +:+ u) = (n, u).
Proof.
  intros Hn Hu. induction n as [|c n IH]; simpl in *.
  - destruct u as [|c u]; [done|]. simpl. by rewrite (Hu c u eq_refl).
  - apply andb_true_iff in Hn as [-> Hn]. by rewrite (IH Hn).
Qed.

Lemma digits_value_nonneg s : forall acc, 0 <= acc -> all_bytes is_digit s = true -> 0 <= digits_value acc s.
Proof.
  induction s as [|c s IH]; intros acc Ha Hs; [done|]. simpl in *. apply andb_true_iff in Hs as [Hc Hs].
  apply IH; [|done]. unfold is_digit, byte_in in Hc. unfold digit_value. reflect_bools. lia.
Qed.

Lemma unit_found unit ms :
  snd <$> List.find (fun u => bool_decide (u.1 = unit)) UNITS = Some ms <-> (unit, ms) ∈ UNITS.
Proof.
  split.
  - destruct (List.find _ UNITS) as [[u m]|] eqn:E; [|done]. simpl. intros [= <-].
    apply find_some in E as [Hin E]. apply bool_decide_eq_true in E. simpl in E. subst. by apply list_elem_of_In.
  - unfold UNITS. rewrite !elem_of_cons, elem_of_nil. intros Hc. destruct_or! Hc; try done; by simplify_eq.
Qed.

Lemma unit_facts unit ms : (unit, ms) ∈ UNITS ->
  1 <= ms /\ unit <> "" /\ (forall c r, unit = String c r -> is_digit c = false) /\ all_bytes is_graphic unit = true.
Proof.
  unfold UNITS. rewrite !elem_of_cons, elem_of_nil. intros Hc.
  destruct_or! Hc; try done; simplify_eq; (split; [lia|]); (split; [done|]); (split; [|done]);
    intros c r [= <- <-]; done.
Qed.

Lemma parse_duration_iff s d :
  parse_duration s = Ok d <->
  exists number unit ms, trim s = number +:+ unit /\ number <> "" /\ all_bytes is_digit number = true
    /\ (unit, ms) ∈ UNITS /\ digits_value 0 number * ms <= u64_max
    /\ d = digits_value 0 number * ms * MILLI.
Proof.
  unfold parse_duration. pose proof (span_digits_spec (trim s)) as Hspan. split.
  - destruct (is_empty (trim s)); [done|]. destruct (span_digits (trim s)) as [n u].
    destruct Hspan as (E & Hn & _). destruct (is_empty u) eqn:Eu; [done|].
    destruct (is_empty n) eqn:En; [done|]. destruct (Z.ltb_spec u128_max (digits_value 0 n)); [done|].
    destruct (snd <$> _) as [ms|] eqn:Em; [|done]. simpl. apply unit_found in Em.
    destruct (Z.ltb_spec u128_max (digits_value 0 n * ms)); [done|].
    destruct (Z.ltb_spec u64_max (digits_value 0 n * ms)); [done|]. intros [= <-].
    exists n, u, ms. split_and!; try done. by intros ->.
  - intros (n & u & ms & E & Hne & Hn & Hu & Hle & ->).
    destruct (unit_facts u ms Hu) as (Hms & Hun & Hud & _).
    rewrite E, (span_digits_app n u Hn Hud).
    destruct n as [|c n]; [done|]. destruct u as [|cu u]; [done|]. cbn [is_empty String.append].
    pose proof (digits_value_nonneg (String c n) 0 ltac:(lia) Hn) as Hv.
    assert (Hb : digits_value 0 (String c n) <= u64_max) by nia.
    unfold u128_max, u64_max in *.
    destruct (Z.ltb_spec (2 ^ 128 - 1) (digits_value 0 (String c n))); [lia|].
    rewrite (proj2 (unit_found _ _) Hu). cbn [ok_or mbind result_bind].
    destruct (Z.ltb_spec (2 ^ 128 - 1) (digits_value 0 (String c n) * ms)); [lia|].
    destruct (Z.ltb_spec (2 ^ 64 - 1) (digits_value 0 (String c n) * ms)); [lia|done].
Qed.

(** The durations a configuration may hold are exactly a whole number and a
    unit, with white space around them: a text is accepted, as its number of
    milliseconds times the unit, if and only if it is digits followed by one of
    the five units and the product fits 64 bits of milliseconds; every number
    written with a unit is read back as itself or refused for its size. *)
Theorem duration_grammar (s : string) (d : interval) :
  (parse_duration s = Ok d <->
   exists number unit ms, trim s = number +:+ unit /\ number <> "" /\ all_bytes is_digit number = true
     /\ (unit, ms) ∈ UNITS /\ digits_value 0 number * ms <= u64_max
     /\ d = digits_value 0 number * ms * MILLI)
  /\ (parse_duration s = Ok d -> 0 <= d <= u64_max * MILLI)
  /\ (forall n unit ms, 0 <= n -> (unit, ms) ∈ UNITS ->
       parse_duration (pretty n +:+ unit) = Ok (n * ms * MILLI) <-> n * ms <= u64_max).
Proof.
  split; [apply parse_duration_iff|]. split.
  - intros (n & u & ms & _ & _ & Hn & Hu & Hle & ->)%parse_duration_iff.
    destruct (unit_facts u ms Hu) as (Hms & _).
    pose proof (digits_value_nonneg n 0 ltac:(lia) Hn). unfold MILLI. nia.
  - intros n u ms Hn0 Hu. destruct (pretty_Z_nonneg n Hn0) as (Hdig & Hval & Hne).
    destruct (unit_facts u ms Hu) as (Hms & _ & Hud & Hug).
    assert (Htrim : trim (pretty n +:+ u) = pretty n +:+ u).
    { apply trim_graphic. rewrite all_bytes_append, Hug, andb_true_r.
      eapply all_bytes_impl; [|exact Hdig]. intros c. unfold is_digit, is_graphic, byte_in. intros. reflect_bools.
      apply andb_true_iff. split; apply Z.leb_le; lia. }
    rewrite parse_duration_iff. split.
    + intros (n' & u' & ms' & E & _ & Hn' & Hu' & Hle & Heq). rewrite Htrim in E.
      destruct (unit_facts u' ms' Hu') as (_ & _ & Hud' & _).
      apply (f_equal span_digits) in E. rewrite !span_digits_app in E by done. simplify_eq.
      rewrite Hval in *. unfold MILLI in Heq. lia.
    + intros Hle. exists (pretty n), u, ms. rewrite Hval. done.
Qed.

(** ** Accumulated issues *)

(** Checking a schema reports everything at once: it succeeds exactly when
    every required key is there with a value its type accepts; otherwise the
    report holds exactly one issue for each key that is missing or mistyped, under
    that key and in the order the keys were required. *)
Theorem schema_check_complete (s : ConfigSchema) (lookup : string -> option toml) :
  let bad r := negb (bool_decide (check_key lookup r = [])) in
  (schema_check s lookup = Ok tt <-> forall r, r ∈ s -> exists v, lookup (rk_key r) = Some v
                                       /\ is_ok (rk_validate r (rk_key r) v) = true)
  /\ (forall issues, schema_check s lookup = Err issues ->
        issues <> [] /\ length issues = length (List.filter bad s)).
Proof.
  simpl. assert (Hone : forall r, check_key lookup r = [] <->
    exists v, lookup (rk_key r) = Some v /\ is_ok (rk_validate r (rk_key r) v) = true).
  { intros r. unfold check_key. destruct (lookup (rk_key r)) as [v|]; [|by split; [|intros (? & ? & _)]].
    destruct (rk_validate r (rk_key r) v) eqn:E.
    - split; [|done]. intros _. exists v. by rewrite E.
    - split; [done|]. intros (v' & [= <-] & Hv). by rewrite E in Hv. }
  unfold schema_check. split.
  - case_bool_decide as He.
    + split; [|done]. intros _ r Hr. apply Hone. revert He Hr. clear. induction s as [|a s IH]; simpl.
      * intros _ []%elem_of_nil.
      * intros [H1 H2]%app_eq_nil [->|Hr]%elem_of_cons; auto.
    + split; [done|]. intros Hall. exfalso. apply He. clear He.
      induction s as [|a s IH]; [done|]. simpl. rewrite (proj2 (Hone a)) by (apply Hall; left).
      apply IH. intros r Hr. apply Hall. by right.
  - case_bool_decide as He; [done|]. intros issues [= <-]. split; [done|]. clear He.
    induction s as [|a s IH]; [done|]. simpl. rewrite length_app, IH.
    unfold check_key. destruct (lookup (rk_key a)); [destruct (rk_validate a _ _)|]; done.
Qed.

Lemma flat_map_nil {A B} (f : A -> list B) (l : list A) :
  flat_map f l = [] <-> forall x, x ∈ l -> f x = [].
Proof.
  induction l as [|a l IH]; simpl.
  - split; [by intros _ x []%elem_of_nil|done].
  - rewrite app_nil, IH. split.
    + intros [Ha Hl] x [->|Hx]%elem_of_cons; auto.
    + intros Hall. split; [apply Hall; left|]. intros x Hx. apply Hall. by right.
Qed.

Lemma unregistered_nil prefix reg mt : unregistered prefix reg mt = [] <-> mt ∈ reg.
Proof. unfold unregistered. by case_decide. Qed.

(** The issues of a policy depend on its path in their keys only. *)
Lemma validate_policy_path p q pol : validate_policy p pol = [] <-> validate_policy q pol = [].
Proof.
  unfold validate_policy.
  repeat match goal with |- context [if ?b then _ else _] => destruct b end; by split.
Qed.

Lemma retry_resolve_iff s registered :
  is_ok (retry_resolve s registered) = true <->
  validate_policy "retry.defaults" (rsec_defaults s) = []
  /\ forall mt o, rsec_messages s !! mt = Some o ->
       mt ∈ registered /\ validate_policy "retry.defaults" (apply_to o (rsec_defaults s)) = [].
Proof.
  unfold retry_resolve. set (issues := _ ++ flat_map _ _).
  assert (Hi : issues = [] <-> validate_policy "retry.defaults" (rsec_defaults s) = []
    /\ forall mt o, rsec_messages s !! mt = Some o ->
      mt ∈ registered /\ validate_policy "retry.defaults" (apply_to o (rsec_defaults s)) = []).
  { unfold issues. rewrite app_nil, flat_map_nil. f_equiv. split.
    - intros Hall mt o Hmt. specialize (Hall (mt, o) ltac:(by apply elem_of_btree_items)). simpl in Hall.
      apply app_nil in Hall as [H1 H2]. rewrite unregistered_nil in H1. split; [done|].
      by eapply validate_policy_path.
    - intros Hall [mt o] Hmt%elem_of_btree_items. destruct (Hall mt o Hmt) as [H1 H2].
      apply app_nil. split; [by apply unregistered_nil|]. by eapply validate_policy_path. }
  rewrite <- Hi. by case_bool_decide.
Qed.

Lemma retry_resolve_Ok s registered cfg :
  retry_resolve s registered = Ok cfg -> forall mt, validate_policy "retry.defaults" (policy_for cfg mt) = [].
Proof.
  intros Hok mt. destruct (proj1 (retry_resolve_iff s registered) ltac:(by rewrite Hok)) as [Hd Ho].
  unfold retry_resolve in Hok. case_bool_decide; [|done]. simplify_eq. unfold policy_for. simpl.
  destruct (rsec_messages s !! mt) as [o|] eqn:E; [by apply (Ho mt o)|done].
Qed.

(** Resolving the retry section accepts exactly the files whose every policy
    is sound: the defaults are, each override names a registered type, and the
    policy each override makes of the defaults is; then whatever message type is
    asked for, the policy answered is a valid one. *)
Theorem retry_resolve_sound (s : RetrySection) (registered : gset string) :
  (is_ok (retry_resolve s registered) = true <->
   validate_policy "retry.defaults" (rsec_defaults s) = []
   /\ forall mt o, rsec_messages s !! mt = Some o ->
        mt ∈ registered /\ validate_policy "retry.defaults" (apply_to o (rsec_defaults s)) = [])
  /\ (forall cfg, retry_resolve s registered = Ok cfg -> forall mt,
        validate_policy "retry.defaults" (policy_for cfg mt) = []).
Proof.
  split; [apply retry_resolve_iff|apply retry_resolve_Ok].
Qed.

Lemma check_sample_path p q x : check_sample_success p x = [] <-> check_sample_success q x = [].
Proof. unfold check_sample_success. destruct (_ || _); by split. Qed.
Lemma check_duration_path p q f g d : check_positive_duration p f d = [] <-> check_positive_duration q g d = [].
Proof. unfold check_positive_duration. destruct (d =? 0); by split. Qed.

(** Sound defaults and a sound override make a sound policy, field by field. *)
Lemma override_valid p q o ds :
  validate_observability_policy p ds = [] -> validate_observability_override q o = [] ->
  validate_observability_policy p (observability_apply_to o ds) = [].
Proof.
  unfold validate_observability_policy, validate_observability_override. rewrite !app_nil.
  intros (H1 & H2 & H3) (H4 & H5 & H6). unfold observability_apply_to. simpl.
  destruct (oo_sample o), (oo_stuck_after o), (oo_max_queue_age o); simpl; split_and!;
    first [done | by eapply check_sample_path | by eapply check_duration_path].
Qed.

Lemma observability_resolve_Ok s registered cfg :
  observability_resolve s registered = Ok cfg ->
  (forall mt, validate_observability_policy "observability.defaults" (observability_policy_for cfg mt) = [])
  /\ (forall mt, is_Some (ob_overrides cfg !! mt) -> mt ∈ registered).
Proof.
  unfold observability_resolve. case_bool_decide as Hi; [|done]. intros [= <-].
  apply app_nil in Hi as [Hd Ho]. rewrite flat_map_nil in Ho.
  assert (Hall : forall mt o, osec_messages s !! mt = Some o -> mt ∈ registered
    /\ validate_observability_override ("observability.messages." +:+ mt) o = []).
  { intros mt o Hmt. specialize (Ho (mt, o) ltac:(by apply elem_of_btree_items)). simpl in Ho.
    apply app_nil in Ho as [H1 H2]. by rewrite unregistered_nil in H1. }
  split; simpl.
  - intros mt. unfold observability_policy_for. simpl. destruct (osec_messages s !! mt) as [o|] eqn:E; [|done].
    eapply override_valid; [done|]. by apply (Hall mt o).
  - intros mt [o Hmt]. by apply (Hall mt o).
Qed.

(** Every observability policy the service can be asked for is sound, though
    only the defaults and each override's own fields are checked: after a
    successful resolution, for any message type the success rate is finite and
    within 0 and 1 and both thresholds are positive, and overrides exist for
    registered types only. *)
Theorem observability_resolve_sound (s : ObservabilitySection) (registered : gset string)
  (cfg : ObservabilityConfig) (Hok : observability_resolve s registered = Ok cfg) (mt : string) :
  let p := observability_policy_for cfg mt in
  f64_is_finite (op_sample p) = true /\ SFleb (f64_of_Z 0) (op_sample p) = true
  /\ SFleb (op_sample p) (f64_of_Z 1) = true /\ op_stuck_after p <> 0 /\ op_max_queue_age p <> 0
  /\ (is_Some (ob_overrides cfg !! mt) -> mt ∈ registered).
Proof.
  destruct (observability_resolve_Ok _ _ _ Hok) as [Hp Hr]. specialize (Hp mt). cbv zeta.
  set (p := observability_policy_for cfg mt) in *. clearbody p.
  unfold validate_observability_policy, check_sample_success, check_positive_duration in Hp.
  rewrite !app_nil in Hp. destruct Hp as (H1 & H2 & H3).
  destruct (f64_is_finite (op_sample p)); [|done]. destruct (SFleb (f64_of_Z 0) (op_sample p)); [|done].
  destruct (SFleb (op_sample p) (f64_of_Z 1)); [|done].
  destruct (Z.eqb_spec (op_stuck_after p) 0); [done|]. destruct (Z.eqb_spec (op_max_queue_age p) 0); [done|].
  split_and!; try done. apply Hr.
Qed.

Lemma observability_resolve_sound_witness :
  let o := {| oo_level := None; oo_lifecycle := Some LogPerMessage; oo_payload := None; oo_headers := None;
              oo_handoff := None; oo_sample := Some (f64_of_Z 1); oo_stuck_after := None;
              oo_max_queue_age := Some 5 |} in
  let cfg := {| ob_defaults := observability_apply_to no_override observability_default;
                ob_overrides := {["product" := o]} |} in
  op_stuck_after (observability_policy_for cfg "product") <> 0.
Proof.
  intros o cfg.
  assert (Hok : observability_resolve {| osec_defaults := no_override; osec_messages := {["product" := o]} |}
    {["product"]} = Ok cfg) by (vm_compute; reflexivity).
  exact (proj1 (proj2 (proj2 (proj2 (observability_resolve_sound _ _ cfg Hok "product"))))).
Defined.

(** ** Topic prefixes *)

Lemma last_byte_snoc s c : last_byte (s +:+ String c "") = Some c.
Proof.
  induction s as [|a s IH]; [done|]. simpl. by destruct (s +:+ String c "") as [|b t] eqn:E; [by destruct s|].
Qed.
Lemma last_byte_Some s c : last_byte s = Some c -> exists t, s = t +:+ String c "".
Proof.
  induction s as [|a s IH]; [done|]. destruct s as [|b s]; simpl.
  - intros [= ->]. by exists "".
  - intros H. destruct (IH H) as [t Ht]. exists (String a t). simpl. by rewrite <- Ht.
Qed.

(** A topic prefix is accepted exactly when it is empty, or begins with a
    lowercase letter or digit, holds only lowercase letters, digits, dots and
    hyphens, and ends in a separator. *)
Theorem prefix_grammar (p : string) :
  validate_prefix p = Ok tt <->
  p = "" \/ exists first stem sep, p = stem +:+ String sep "" /\ (exists t, p = String first t)
    /\ prefix_first first = true /\ all_bytes prefix_byte p = true /\ (sep = "."%char \/ sep = "-"%char).
Proof.
  destruct p as [|first rest]; [by split; [left|]|]. unfold validate_prefix. split.
  - destruct (prefix_first first) eqn:Hf; [|done].
    destruct (all_bytes prefix_byte (String first rest)) eqn:Ha; [|done]. cbn [negb orb].
    destruct (last_byte (String first rest)) as [c|] eqn:El; [|done].
    destruct (last_byte_Some _ _ El) as [stem Hs].
    destruct (Ascii.eqb_spec c "."%char) as [->|]; [|destruct (Ascii.eqb_spec c "-"%char) as [->|]; [|done]];
      intros _; right; eexists first, stem, _; split_and!; eauto.
  - intros [[=]|(f & stem & sep & Hp & [t [= <- <-]] & Hf & Ha & Hsep)]. rewrite Hf, Ha. cbn [negb orb].
    rewrite Hp, last_byte_snoc. by destruct Hsep as [->| ->].
Qed.

(** ** Resolving the whole file *)

Lemma register_all_Err ds : forall cfg e,
  register_all cfg ds = Err e -> exists a b c, e = EConflictingMessageType a b c.
Proof.
  induction ds as [|d ds IH]; intros cfg e He; [done|]. simpl in He. unfold try_with_message in He.
  destruct (registered cfg (effective cfg d)) as [x|]; [|by eapply IH].
  case_bool_decide; [|by eapply IH]. simpl in He. simplify_eq. eauto.
Qed.

Section resolution.
Context `{Decoders} `{Texts}.

Lemma validated_Ok {C} (validate : C -> result CoreError unit) cfg c :
  validated validate cfg = Ok c -> c = cfg /\ validate c = Ok tt.
Proof. unfold validated. destruct (validate cfg) as [[]|] eqn:E; [|done]. intros [= <-]. done. Qed.

(** A part without issues has a value, and the value is valid. *)
Lemma schema_part_nil cfg : (schema_part cfg).1 = [] -> exists s, (schema_part cfg).2 = Some s.
Proof. unfold schema_part. destruct (config_get string cfg _); simpl; [eauto|done]. Qed.

Lemma relay_part_nil cfg : (relay_part cfg).1 = [] ->
  exists r, (relay_part cfg).2 = Some r /\ relay_validate r = Ok tt.
Proof.
  unfold relay_part. destruct (config_relay cfg) as [s|]; [|done].
  destruct (into_relay_config s) as [r|] eqn:E; [|done]. intros _. apply validated_Ok in E as [_ E]. eauto.
Qed.

Lemma dispatcher_part_nil cfg relay : is_Some relay -> (dispatcher_part cfg relay).1 = [] ->
  exists d, (dispatcher_part cfg relay).2 = Some d /\ dispatcher_validate d = Ok tt.
Proof.
  intros [r ->]. unfold dispatcher_part. destruct (config_dispatcher cfg) as [s|]; [|done].
  destruct (into_dispatcher_config s _ _) as [d|] eqn:E; [|done]. intros _. apply validated_Ok in E as [_ E]. eauto.
Qed.

Lemma retry_part_nil cfg reg : (retry_part cfg reg).1 = [] ->
  exists r, (retry_part cfg reg).2 = Some r
    /\ forall mt, validate_policy "retry.defaults" (policy_for r mt) = [].
Proof.
  unfold retry_part, retry_config. destruct (contains cfg "retry").
  - destruct (config_retry cfg) as [s|]; [|done].
    destruct (retry_resolve s _) as [r|issues] eqn:E; simpl.
    + intros _. exists r. split; [done|]. eapply retry_resolve_Ok; eauto.
    + intros ->. unfold retry_resolve in E. case_bool_decide; [done|]. by simplify_eq.
  - intros _. exists retry_config_default. split; [done|]. intros mt.
    unfold policy_for, retry_config_default. simpl. rewrite lookup_empty. vm_compute. done.
Qed.

Lemma observability_part_nil cfg reg : (observability_part cfg reg).1 = [] ->
  exists o, (observability_part cfg reg).2 = Some o
    /\ forall mt, validate_observability_policy "observability.defaults" (observability_policy_for o mt) = [].
Proof.
  unfold observability_part, observability_config. destruct (config_observability cfg) as [s|]; [|done].
  destruct (observability_resolve _ _) as [o|issues] eqn:E; simpl.
  - intros _. exists o. split; [done|]. by apply observability_resolve_Ok in E as [E _].
  - intros ->. unfold observability_resolve in E. case_bool_decide; [done|]. by simplify_eq.
Qed.

Lemma topics_part_nil cfg env : (topics_part cfg env).1.1 = [] ->
  exists m p, (topics_part cfg env).1.2 = Some m /\ (topics_part cfg env).2 = Some p
    /\ validate_prefix p = Ok tt.
Proof.
  unfold topics_part. destruct (config_topics cfg) as [s|]; [|done].
  set (env' := match env with Some v => _ | None => _ end). clearbody env'.
  destruct env' as [v|]; destruct (validate_prefix _) as [[]|] eqn:E; simpl; try done; intros _; eauto.
Qed.

(** Boot configuration is checked completely before anything starts. A file
    with problems yields all of them at once, whatever part they are in; a file
    without problems never ends in the internal error of a value that went
    missing, only in a schema name that is no identifier or a message type
    declared on two topics; and a resolved configuration is sound in every part:
    relay and dispatcher settings, the retry and observability policy of every
    message type, prefix and schema name are valid, and every declared type is
    registered once, under the prefix. *)
Theorem from_config_sound (worker : string) (cfg : Config) (ms : list MessageDescriptor) (env : option string) :
  (all_issues cfg ms env <> [] ->
     from_config worker (Some cfg) ms env = Err (config_errors (all_issues cfg ms env)))
  /\ (all_issues cfg ms env = [] ->
      match from_config worker (Some cfg) ms env with
      | Ok r =>
          relay_validate (rc_relay r) = Ok tt /\ dispatcher_validate (rc_dispatcher r) = Ok tt
          /\ (forall mt, validate_policy "retry.defaults" (policy_for (rc_retry r) mt) = [])
          /\ (forall mt, validate_observability_policy "observability.defaults"
                           (observability_policy_for (rc_observability r) mt) = [])
          /\ validate_prefix (topic_prefix (base r)) = Ok tt /\ registry_wf (base r)
          /\ forall d, d ∈ ms -> exists x, x ∈ messages (base r) /\ message_type x = message_type d
               /\ desc_topic x = topic_prefix (base r) +:+ desc_topic d
      | Err e => (exists c, e = ECore c) \/ (exists a b c, e = EConflictingMessageType a b c)
      end).
Proof.
  unfold from_config. split; intros Hi.
  { by rewrite bool_decide_eq_false_2. }
  rewrite bool_decide_eq_true_2 by done. cbn [negb].
  unfold all_issues in Hi. rewrite !app_nil in Hi. destruct Hi as (_ & Hs & Hr & Hy & Hd & Ht & Ho).
  destruct (schema_part_nil cfg Hs) as [text ->].
  destruct (relay_part_nil cfg Hr) as (relay & Er & Hrv). rewrite Er in *.
  destruct (dispatcher_part_nil cfg (Some relay) ltac:(eauto) Hd) as (disp & -> & Hdv).
  destruct (retry_part_nil cfg _ Hy) as (retry & -> & Hyv).
  destruct (observability_part_nil cfg _ Ho) as (obs & -> & Hov).
  destruct (topics_part_nil cfg env Ht) as (mode & prefix & -> & -> & Hpv).
  cbn [ok_or mbind result_bind].
  destruct (identifier_new text) as [s|e]; cbn [lift_core mbind result_bind]; [|by left; eexists].
  destruct (register_all _ ms) as [b|e] eqn:Eb; cbn [mbind result_bind].
  - apply register_all_Ok in Eb as (Hwf & Hpre & _ & Hall); [|constructor]. simpl in *.
    rewrite <- Hpre in Hpv, Hall. done.
  - right. eapply register_all_Err; eauto.
Qed.
End resolution.

Module CSample.
(** Decoders that read what the example below needs. *)
#[local] Instance sample_decoders : Decoders := {|
  parse_toml _ := Ok [];
  decode_relay v :=
    match descend v ["batch_limit"], descend v ["lease_for"] with
    | Some (TInteger n), Some (TString lease) =>
        d ← parse_duration lease;
        Ok {| sec_worker_id := "w"; sec_batch_limit := n; sec_lease_for := d; sec_retry_after := 0;
              sec_poll_interval := 250 * MILLI |}
    | _, _ => Err "missing field"
    end;
  decode_retention _ := Err "unused";
  decode_dispatcher _ := Err "unused";
  decode_retry _ := Err "unused";
  decode_topics _ := Err "unused";
  decode_observability _ := Err "unused";
|}.
#[local] Instance sample_texts : Texts := {| core_text _ := "invalid" |}.

Definition file : Config :=
  [("database", TTable [("schema", TString "kafkaman")]);
   ("relay", TTable [("worker_id", TString "w"); ("batch_limit", TInteger 50);
      ("lease_for", TString "30s"); ("retry_after", TString "0ms"); ("poll_interval", TString " 250ms ")])].
Definition product : MessageDescriptor := Build_MessageDescriptor "product" "product.v1" compacted.

Lemma from_config_sound_witness :
  match from_config "w" (Some file) [product] (Some "dev-") with
  | Ok r => registry_wf (base r) /\ map desc_topic (messages (base r)) = ["dev-product.v1"]
  | Err _ => False
  end.
Proof.
  assert (Hi : all_issues file [product] (Some "dev-") = []) by (vm_compute; reflexivity).
  pose proof (proj2 (from_config_sound "w" file [product] (Some "dev-")) Hi) as Hs.
  destruct (from_config "w" (Some file) [product] (Some "dev-")) as [r|e] eqn:E.
  - split; [apply Hs|]. vm_compute in E. injection E as <-. reflexivity.
  - vm_compute in E. discriminate E.
Defined.
End CSample.
