(* ===== verification/Resync.v ===== *)
(** * Resync: refilling a topic from current state

    Models [src/crates/kafkaman-sqlx/src/resync.rs]. The two callbacks (the pages
    of keys and the loader), the connection's failures, and what live writers do
    to the outbox between two transactions are arguments, numbered by the
    transaction they meet. The entity lock keeps live writers of one entity out
    of its transaction, so a key's transaction is one step. The loop over pages
    has no bound of its own: [fuel] counts pages, and [resync_terminates] says
    how many are enough for a finite source. *)

From S2P Require Import Prelude Text Vocabulary Trace Identity Topics Registry Outbox OutboxOrder.
Open Scope string_scope.
Open Scope list_scope.
Open Scope Z_scope.

Record ResyncOptions := { batch_size : nat; start_after : option string }.

Record ResyncProgress := { p_enqueued : Z; p_skipped : Z; p_last_key : option string }.

Definition start (o : ResyncOptions) : ResyncProgress :=
  {| p_enqueued := 0; p_skipped := 0; p_last_key := start_after o |}.

(** [done.enqueued += 1] or [done.skipped += 1], and the cursor. *)
Definition advance (enqueued : bool) (key : string) (d : ResyncProgress) : ResyncProgress :=
  if enqueued then {| p_enqueued := p_enqueued d + 1; p_skipped := p_skipped d; p_last_key := Some key |}
  else {| p_enqueued := p_enqueued d; p_skipped := p_skipped d + 1; p_last_key := Some key |}.

(** Rust's order on strings is that of their bytes. *)
Definition str_lt (a b : string) : bool := String.ltb a b.

(** [batch.windows(2).any(|pair| pair[0] >= pair[1])]. *)
Fixpoint disordered (batch : list string) : bool :=
  match batch with
  | a :: (b :: _) as rest => negb (str_lt a b) || disordered rest
  | _ => false
  end.

Definition behind (last : option string) (batch : list string) : bool :=
  match last, batch with
  | Some last, first :: _ => negb (str_lt last first)
  | _, _ => false
  end.

(** What a run meets, by page and by transaction. *)
Record Surroundings (P : Type) := {
  acquire_fault : nat -> option SqlxError;
  keys : nat -> option string -> nat -> result Error (list string);
  begin_fault : nat -> option SqlxError;
  load : nat -> string -> result Error (option (Envelope P));
  commit_fault : nat -> option (SqlxError * bool);
  live : nat -> Outbox -> Outbox;
  clock : nat -> instant;
  tracing : nat -> option TraceContext;
}.
Arguments acquire_fault {P}.
Arguments keys {P}.
Arguments begin_fault {P}.
Arguments load {P}.
Arguments commit_fault {P}.
Arguments live {P}.
Arguments clock {P}.
Arguments tracing {P}.

Section resync.
Context {P : Type} `{KafkaMessage P} (cfg : ResolvedConfig) (options : ResyncOptions) (env : Surroundings P).

(** A run's state: the progress, the calls of the progress callback so far, how
    many transactions were begun, and the outbox. *)
Record Run := {
  done : ResyncProgress;
  reported : list ResyncProgress;
  txs : nat;
  outbox : Outbox;
}.

(** One key's transaction: [READ COMMITTED] under the entity lock shows every
    committed row. A failure rolls it back. *)
Definition resync_key (key : string) (r : Run) : result Error unit * Run :=
  let n := txs r in
  let ob := live env n (outbox r) in
  let failed ob := {| done := done r; reported := reported r; txs := S n; outbox := ob |} in
  let finish (enqueued : bool) (ob' : Outbox) :=
    match commit_fault env n with
    | Some (e, lost) => (Err (ESqlx e), failed (if lost then ob' else rollback ob ob'))
    | None =>
        let d := advance enqueued key (done r) in
        (Ok tt, {| done := d; reported := reported r ++ [d]; txs := S n; outbox := ob' |})
    end in
  match begin_fault env n with
  | Some e => (Err (ESqlx e), failed ob)
  | None =>
      match load env n key with
      | Err e => (Err e, failed ob)
      | Ok None => finish false ob
      | Ok (Some envelope) =>
          match catch_application_panic (MESSAGE_TYPE P) "resolve entity key" (entity_key (env_payload envelope)) with
          | Err e => (Err e, failed ob)
          | Ok actual =>
              if bool_decide (actual <> key)
              then (Err (EInvalidResync ("loader returned entity key `" +:+ actual
                      +:+ "` while holding the lock for `" +:+ key +:+ "`")), failed ob)
              else match enqueue_inner cfg (clock env n) (fun _ => true) envelope (tracing env n) ob with
                   | (Err e, ob') => (Err e, failed (rollback ob ob'))
                   | (Ok _, ob') => finish true ob'
                   end
          end
      end
  end.

Fixpoint resync_batch (batch : list string) (r : Run) : result Error unit * Run :=
  match batch with
  | [] => (Ok tt, r)
  | key :: batch =>
      match resync_key key r with
      | (Err e, r) => (Err e, r)
      | (Ok _, r) => resync_batch batch r
      end
  end.

(** The loop; [page] numbers the pages. [None] is a run that is still going. *)
Fixpoint resync_pages (fuel page : nat) (r : Run) : option (result Error ResyncProgress * Run) :=
  match fuel with
  | O => None
  | S fuel =>
      match acquire_fault env page with
      | Some e => Some (Err (ESqlx e), r)
      | None =>
          match keys env page (p_last_key (done r)) (batch_size options) with
          | Err e => Some (Err e, r)
          | Ok [] => Some (Ok (done r), r)
          | Ok batch =>
              if Nat.ltb (batch_size options) (length batch) || disordered batch
                 || behind (p_last_key (done r)) batch
              then Some (Err (EInvalidResync
                     "keys must be strictly increasing, after the cursor, and within batch_size"), r)
              else match resync_batch batch r with
                   | (Err e, r) => Some (Err e, r)
                   | (Ok _, r) => resync_pages fuel (S page) r
                   end
          end
      end
  end.

Definition resync (fuel : nat) (ob : Outbox) : option (result Error ResyncProgress * Run) :=
  match for_message OutboxKind P cfg with
  | Err e => Some (Err e, {| done := start options; reported := []; txs := 0; outbox := ob |})
  | Ok _ => resync_pages fuel 0 {| done := start options; reported := []; txs := 0; outbox := ob |}
  end.
End resync.

(** ** The order of keys *)

Lemma ascii_compare_spec a b :
  match Ascii.compare a b with Eq => a = b | Lt => (Ascii.N_of_ascii a < Ascii.N_of_ascii b)%N
  | Gt => (Ascii.N_of_ascii b < Ascii.N_of_ascii a)%N end.
Proof.
  unfold Ascii.compare. destruct (N.compare_spec (Ascii.N_of_ascii a) (Ascii.N_of_ascii b)) as [E|E|E]; [|done..].
  rewrite <- (Ascii.ascii_N_embedding a), <- (Ascii.ascii_N_embedding b). by rewrite E.
Qed.

Lemma str_lt_trans a b c : str_lt a b = true -> str_lt b c = true -> str_lt a c = true.
Proof.
  unfold str_lt, String.ltb. revert b c. induction a as [|x a IH]; intros [|y b] [|z c]; simpl; try done.
  pose proof (ascii_compare_spec x y) as H1. pose proof (ascii_compare_spec y z) as H2.
  pose proof (ascii_compare_spec x z) as H3.
  destruct (Ascii.compare x y); [subst y| |done].
  - destruct (Ascii.compare x z); [apply IH|done|done].
  - destruct (Ascii.compare y z); [subst z| |done]; (destruct (Ascii.compare x _); [subst; lia|done|lia]).
Qed.

Lemma str_lt_irrefl a : str_lt a a = false.
Proof.
  unfold str_lt, String.ltb. induction a as [|x a IH]; [done|]. simpl.
  pose proof (ascii_compare_spec x x) as Hx. destruct (Ascii.compare x x); [done|lia..].
Qed.

Definition before (a b : string) : Prop := str_lt a b = true.
#[global] Instance before_trans : Transitive before.
Proof. intros a b c. apply str_lt_trans. Qed.

Definition after_cursor (c : option string) (k : string) : Prop :=
  match c with Some c => before c k | None => True end.

(** ** What a run keeps true *)

Lemma disordered_false batch : disordered batch = false -> StronglySorted before batch.
Proof.
  induction batch as [|a batch IH]; [constructor|]. destruct batch as [|b batch]; [repeat constructor|].
  simpl. intros [Hab%negb_false_iff Hb]%orb_false_iff. specialize (IH Hb).
  constructor; [done|]. constructor; [done|].
  apply StronglySorted_cons in IH as [Hf _]. eapply Forall_impl; [exact Hf|]. intros x. by apply str_lt_trans.
Qed.

Section progress.
Context {P : Type} `{KafkaMessage P} (cfg : ResolvedConfig) (options : ResyncOptions) (env : Surroundings P).
Hypothesis live_inv : forall n ob, outbox_inv ob -> outbox_inv (live env n ob).

(** What the [n]th transaction, for [key], did to the outbox it found: nothing
    when the entity is gone, else it left the loaded state as the entity's newest
    and only pending row, and every row that was not pending for it as it was. *)
Inductive settled (n : nat) (key : string) (ob ob' : Outbox) : bool -> Prop :=
| settled_gone : load env n key = Ok None -> ob' = ob -> settled n key ob ob' false
| settled_refilled envelope row :
    load env n key = Ok (Some envelope) -> entity_key (env_payload envelope) = Returned key ->
    row ∈ rows ob' -> row_id row = env_message_id envelope -> status row = Pending ->
    entity_col row = Some key -> to_value (env_payload envelope) = Returned (Ok (payload row)) ->
    (forall r, r ∈ rows ob' -> row_order r <= row_order row) ->
    (forall r, r ∈ rows ob' -> pending_of key r = true -> r = row) ->
    (forall r, r ∈ rows ob -> pending_of key r = false -> r ∈ rows ob') ->
    length (rows ob') = S (length (rows ob)) ->
    settled n key ob ob' true.

(** The committed transactions of a run from [ob0], each on what live writers
    had made of the outbox since the one before: the keys, and whether each was
    enqueued. *)
Inductive ledger (ob0 : Outbox) : list (string * bool) -> nat -> Outbox -> Prop :=
| ledger_start : ledger ob0 [] 0 ob0
| ledger_commit l n ob key b ob' :
    ledger ob0 l n ob -> settled n key (live env n ob) ob' b -> ledger ob0 (l ++ [(key, b)]) (S n) ob'.

(** A run that stopped: between two transactions, or in one, which then left no
    row behind, unless it was committed and only the answer was lost. *)
Inductive stopped (ob0 : Outbox) (l : list (string * bool)) : nat -> Outbox -> Prop :=
| stopped_between n ob : ledger ob0 l n ob -> stopped ob0 l n ob
| stopped_rolled_back n ob ob' :
    ledger ob0 l n ob -> rows ob' = rows (live env n ob) -> stopped ob0 l (S n) ob'
| stopped_unanswered n ob ob' key b e :
    ledger ob0 l n ob -> commit_fault env n = Some (e, true) ->
    settled n key (live env n ob) ob' b -> stopped ob0 l (S n) ob'.

(** The report [r] makes of the transactions [l] is true. *)
Record accounted (r : Run) (l : list (string * bool)) : Prop := {
  pr_reported : map p_last_key (reported r) = map Some (map fst l);
  pr_sorted : StronglySorted before (map fst l);
  pr_after : Forall (after_cursor (start_after options)) (map fst l);
  pr_last : p_last_key (done r) = match last (map fst l) with Some k => Some k | None => start_after options end;
  pr_enqueued : p_enqueued (done r) = Z.of_nat (sql_count snd l);
  pr_skipped : p_skipped (done r) = Z.of_nat (sql_count (fun e => negb (snd e)) l);
  pr_inv : outbox_inv (outbox r);
}.

(** The run has committed exactly [l], in order, and says so. *)
Definition progressed (ob0 : Outbox) (r : Run) (l : list (string * bool)) : Prop :=
  accounted r l /\ ledger ob0 l (txs r) (outbox r).
Definition halted (ob0 : Outbox) (r : Run) (l : list (string * bool)) : Prop :=
  accounted r l /\ stopped ob0 l (txs r) (outbox r).

Lemma progressed_halted ob0 r l : progressed ob0 r l -> halted ob0 r l.
Proof. intros [Ha Hl]. split; [done|by constructor]. Qed.

Lemma enqueue_settles n key envelope ob ob' u :
  outbox_inv ob -> load env n key = Ok (Some envelope) ->
  catch_application_panic (MESSAGE_TYPE P) "resolve entity key" (entity_key (env_payload envelope)) = Ok key ->
  enqueue_inner cfg (clock env n) (fun _ => true) envelope (tracing env n) ob = (Ok u, ob') ->
  settled n key ob ob' true.
Proof.
  intros Hinv Hload Hcatch Hen.
  destruct (enqueue_inserts _ _ _ _ _ _ _ Hinv Hen) as (ek & row & He & Hspec).
  rewrite He in Hcatch. injection Hcatch as ->. destruct Hspec as (? & ? & ? & ? & ? & ? & ? & ? & ?).
  by econstructor.
Qed.

Lemma rollback_inv ob ob' : outbox_inv ob -> next_order ob <= next_order ob' -> outbox_inv (rollback ob ob').
Proof.
  intros [Hs Hn Hb Hi Hk] Hle. constructor; simpl; [done|done| |done|done].
  intros r Hr. specialize (Hb r Hr). lia.
Qed.

Lemma enqueue_keeps now (evt : Envelope P) trace ob :
  outbox_inv ob -> let ob' := snd (enqueue_inner cfg now (fun _ => true) evt trace ob) in
  outbox_inv ob' /\ next_order ob <= next_order ob'.
Proof.
  intros Hi. destruct (enqueue_evolves cfg now (fun _ => true) evt trace ob Hi) as (ob1 & Hev & Hi1 & Hc).
  simpl in *. assert (Hn : next_order ob <= next_order ob1) by apply Hev.
  destruct Hc as [->|[row Happ]]; [done|]. split; [by eapply appends_inv|].
  destruct Happ as (-> & _). simpl. lia.
Qed.

(** A key the cursor has not reached yet extends the committed keys. *)
Lemma extend_keys ks key last_k :
  StronglySorted before ks -> Forall (after_cursor (start_after options)) ks ->
  last_k = match last ks with Some k => Some k | None => start_after options end ->
  after_cursor last_k key ->
  StronglySorted before (ks ++ [key]) /\ Forall (after_cursor (start_after options)) (ks ++ [key]).
Proof.
  intros Hs Hf -> Ha. split.
  - apply StronglySorted_snoc; [done|]. intros x Hx.
    destruct (last ks) as [k|] eqn:El; [|apply last_None in El as ->; by apply elem_of_nil in Hx].
    apply last_Some in El as [l ->]. simpl in Ha. apply elem_of_app in Hx as [Hx|Hx].
    + apply StronglySorted_app in Hs as (Hlt & _ & _). etrans; [apply (Hlt x k); [done|set_solver]|done].
    + apply list_elem_of_singleton in Hx as ->. done.
  - apply Forall_app. split; [done|]. constructor; [|done].
    destruct (last ks) as [k|] eqn:El; [|done]. apply last_Some in El as [l ->].
    apply Forall_app in Hf as [_ Hk]. apply Forall_cons in Hk as [Hk _]. simpl in Ha.
    destruct (start_after options) as [c|]; [|done]. simpl in *. by etrans.
Qed.

Lemma sql_count_snoc {A} (f : A -> bool) l x :
  sql_count f (l ++ [x]) = (sql_count f l + if f x then 1 else 0)%nat.
Proof. unfold sql_count. rewrite List.filter_app, length_app. simpl. by destruct (f x). Qed.

Lemma accounted_commit r l key b ob' :
  accounted r l -> after_cursor (p_last_key (done r)) key -> outbox_inv ob' ->
  accounted {| done := advance b key (done r); reported := reported r ++ [advance b key (done r)];
               txs := S (txs r); outbox := ob' |} (l ++ [(key, b)]).
Proof.
  intros [Hrep Hs Hf Hl He Hk Hi] Ha Hob. destruct (extend_keys _ key _ Hs Hf Hl Ha) as [Hs' Hf'].
  assert (Hlast : p_last_key (advance b key (done r)) = Some key) by (by destruct b).
  constructor; cbn [done reported outbox]; rewrite ?map_app; cbn [map fst]; try done.
  - rewrite Hrep. cbn [map]. by rewrite Hlast.
  - by rewrite last_snoc.
  - rewrite sql_count_snoc. destruct b; cbn; lia.
  - rewrite sql_count_snoc. destruct b; cbn; lia.
Qed.

Lemma resync_key_progress ob0 key r l :
  progressed ob0 r l -> after_cursor (p_last_key (done r)) key ->
  match resync_key cfg env key r with
  | (Ok _, r') => (exists b, progressed ob0 r' (l ++ [(key, b)])) /\ p_last_key (done r') = Some key
  | (Err _, r') => halted ob0 r' l
  end.
Proof.
  intros [Hacc Hled] Ha. pose proof (live_inv (txs r) _ (pr_inv _ _ Hacc)) as Hob. unfold resync_key.
  set (n := txs r) in *. set (ob := live env n (outbox r)) in *.
  assert (Hfail : forall ob', outbox_inv ob' -> rows ob' = rows ob ->
    halted ob0 {| done := done r; reported := reported r; txs := S n; outbox := ob' |} l).
  { intros ob' Hi Hr. destruct Hacc. split; [by constructor|]. by eapply stopped_rolled_back. }
  assert (Hfin : forall (b : bool) ob', outbox_inv ob' -> settled n key ob ob' b -> next_order ob <= next_order ob' ->
    match (match commit_fault env n with
           | Some (e, lost) => (Err (ESqlx e), {| done := done r; reported := reported r; txs := S n;
               outbox := if lost then ob' else rollback ob ob' |})
           | None => (Ok tt, {| done := advance b key (done r); reported := reported r ++ [advance b key (done r)];
                                txs := S n; outbox := ob' |})
           end) with
    | (Ok _, r') => (exists b, progressed ob0 r' (l ++ [(key, b)])) /\ p_last_key (done r') = Some key
    | (Err _, r') => halted ob0 r' l
    end).
  { intros b ob' Hi Hset Hn. destruct (commit_fault env n) as [[e []]|] eqn:Ec.
    - destruct Hacc. split; [by constructor|]. by eapply stopped_unanswered.
    - apply Hfail; [by apply rollback_inv|done].
    - split; [|by destruct b]. exists b. split; [by apply accounted_commit|]. by eapply ledger_commit. }
  destruct (begin_fault env n); [by apply Hfail|].
  destruct (load env n key) as [[envelope|]|e] eqn:Eload; [| |by apply Hfail].
  2: { apply (Hfin false); [done|by constructor|lia]. }
  destruct (catch_application_panic _ _ _) as [actual|e] eqn:Ecatch; [|by apply Hfail].
  case_bool_decide as Hsame; [by apply Hfail|]. subst actual.
  pose proof (enqueue_keeps (clock env n) envelope (tracing env n) ob Hob) as [Hi' Hn'].
  destruct (enqueue_inner _ _ _ _ _ ob) as [[u|e] ob'] eqn:Een; cbn [snd] in *.
  - apply (Hfin true); [done| |done]. by eapply enqueue_settles.
  - apply Hfail; [by apply rollback_inv|done].
Qed.

Lemma resync_batch_progress ob0 batch : forall r l,
  progressed ob0 r l -> StronglySorted before batch ->
  (forall k, k ∈ batch -> after_cursor (p_last_key (done r)) k) ->
  match resync_batch cfg env batch r with
  | (Ok _, r') => exists more, map fst more = batch /\ progressed ob0 r' (l ++ more)
  | (Err _, r') => exists part, map fst part `prefix_of` batch /\ halted ob0 r' (l ++ part)
  end.
Proof.
  induction batch as [|key batch IH]; intros r l Hp Hs Ha; cbn [resync_batch].
  { exists []. by rewrite app_nil_r. }
  pose proof (resync_key_progress ob0 key r l Hp (Ha key ltac:(left))) as Hk.
  apply StronglySorted_cons in Hs as [Hf Hs]. rewrite Forall_forall in Hf.
  destruct (resync_key cfg env key r) as [[u|e] r'].
  - destruct Hk as [[b Hp'] Hl']. specialize (IH r' (l ++ [(key, b)]) Hp' Hs).
    rewrite Hl' in IH. specialize (IH Hf).
    destruct (resync_batch cfg env batch r') as [[v|e] r''].
    + destruct IH as (more & <- & IH). exists ((key, b) :: more). split; [done|]. by rewrite <- app_assoc in IH.
    + destruct IH as (part & Hpre & IH). exists ((key, b) :: part). cbn [map fst].
      split; [by apply prefix_cons|]. by rewrite <- app_assoc in IH.
  - exists []. rewrite app_nil_r. split; [apply prefix_nil|done].
Qed.

Lemma page_ok (c : option string) (batch : list string) n :
  Nat.ltb n (length batch) || disordered batch || behind c batch = false ->
  StronglySorted before batch /\ forall k, k ∈ batch -> after_cursor c k.
Proof.
  intros [[_ Hd]%orb_false_iff Hb]%orb_false_iff. apply disordered_false in Hd. split; [done|].
  destruct c as [c|]; [|done]. destruct batch as [|a batch]; [by intros k []%elem_of_nil|].
  simpl in Hb. apply negb_false_iff in Hb. apply StronglySorted_cons in Hd as [Hf _].
  rewrite Forall_forall in Hf. intros k [->|Hk]%elem_of_cons; [done|]. simpl. etrans; [exact Hb|by apply Hf].
Qed.

Lemma resync_pages_progress ob0 fuel : forall page r l res r',
  progressed ob0 r l -> resync_pages cfg options env fuel page r = Some (res, r') ->
  exists more, halted ob0 r' (l ++ more) /\ forall d, res = Ok d -> d = done r' /\ progressed ob0 r' (l ++ more).
Proof.
  induction fuel as [|fuel IH]; intros page r l res r' Hp Hrun; [done|]. cbn [resync_pages] in Hrun.
  assert (Hstop : progressed ob0 r (l ++ [])) by (by rewrite app_nil_r).
  pose proof (progressed_halted _ _ _ Hstop) as Hhalt.
  destruct (acquire_fault env page); [injection Hrun as <- <-; by exists []|].
  destruct (keys env page _ _) as [batch|e]; [|injection Hrun as <- <-; by exists []].
  destruct batch as [|b bs]; [injection Hrun as <- <-; exists []; split; [done|by intros d [= <-]]|].
  destruct (_ || _ || _) eqn:Echk; [injection Hrun as <- <-; by exists []|].
  apply page_ok in Echk as [Hs Ha].
  pose proof (resync_batch_progress ob0 (b :: bs) r l Hp Hs Ha) as Hb.
  destruct (resync_batch cfg env (b :: bs) r) as [[u|e] r1].
  - destruct Hb as (done1 & _ & Hb). destruct (IH _ _ _ _ _ Hb Hrun) as (more & Hm & Hd).
    exists (done1 ++ more). by rewrite app_assoc.
  - destruct Hb as (part & _ & Hb). injection Hrun as <- <-. by exists part.
Qed.

(** ** Finite sources *)

Definition afterb (c : option string) (k : string) : bool :=
  match c with Some c => str_lt c k | None => true end.

(** The page a query over the sorted keys [all] answers with. *)
Definition page_of (all : list string) (c : option string) (n : nat) : list string :=
  take n (List.filter (afterb c) all).

Lemma sorted_after_cursor (l1 l2 : list string) k :
  StronglySorted before ((l1 ++ [k]) ++ l2) -> List.filter (afterb (Some k)) ((l1 ++ [k]) ++ l2) = l2.
Proof.
  intros Hs. apply StronglySorted_app in Hs as (Hlt & Hs1 & _). rewrite List.filter_app.
  rewrite sfilter_none, sfilter_all; [done| |].
  - intros x Hx. apply (Hlt k x); [set_solver|done].
  - intros x [Hx|Hx]%elem_of_app; simpl.
    + apply StronglySorted_app in Hs1 as (Hlt1 & _ & _). specialize (Hlt1 x k Hx ltac:(set_solver)).
      apply not_true_iff_false. intros Hk. pose proof (str_lt_trans _ _ _ Hlt1 Hk) as Hc.
      by rewrite str_lt_irrefl in Hc.
    + apply list_elem_of_singleton in Hx as ->. apply str_lt_irrefl.
Qed.

Lemma filter_later c k all :
  afterb c k = true -> List.filter (afterb (Some k)) (List.filter (afterb c) all) = List.filter (afterb (Some k)) all.
Proof.
  intros Hc. induction all as [|x all IH]; [done|]. cbn [List.filter].
  destruct (afterb c x) eqn:Ex; cbn [List.filter]; rewrite IH; [done|].
  destruct (afterb (Some k) x) eqn:Ek; [|done]. destruct c as [c|]; [|done].
  simpl in *. by rewrite (str_lt_trans _ _ _ Hc Ek) in Ex.
Qed.

(** What is left after a page is the rest of the keys. *)
Lemma rest_after_page all c n k :
  StronglySorted before all -> last (page_of all c n) = Some k ->
  List.filter (afterb (Some k)) all = drop n (List.filter (afterb c) all).
Proof.
  intros Hs Hk. unfold page_of in Hk. apply last_Some in Hk as [l Hl].
  pose proof (take_drop n (List.filter (afterb c) all)) as E. rewrite Hl in E.
  rewrite <- (filter_later c k all).
  - rewrite <- E at 1. apply sorted_after_cursor. rewrite E. by apply StronglySorted_sfilter.
  - assert (Hin : k ∈ List.filter (afterb c) all) by (rewrite <- E; set_solver).
    by apply elem_of_sfilter in Hin as [_ ?].
Qed.

Lemma page_of_accepted all c n :
  StronglySorted before all ->
  Nat.ltb n (length (page_of all c n)) || disordered (page_of all c n) || behind c (page_of all c n) = false.
Proof.
  intros Hs. unfold page_of. set (l := List.filter (afterb c) all).
  assert (Hl : StronglySorted before (take n l)) by (by apply StronglySorted_take, StronglySorted_sfilter).
  apply orb_false_iff. split; [apply orb_false_iff; split|].
  - apply Nat.ltb_ge. rewrite length_take. lia.
  - induction Hl as [|a b Hb IH Hf]; [done|]. destruct b as [|x b]; [done|].
    change (disordered (a :: x :: b)) with (negb (str_lt a x) || disordered (x :: b)).
    apply Forall_cons in Hf as [Hf _]. unfold before in Hf. by rewrite Hf, IH.
  - destruct c as [c|]; [|done]. destruct (take n l) as [|a t] eqn:E; [done|]. simpl.
    assert (Ha : a ∈ l) by (apply (elem_of_limit (Z.of_nat n)); unfold sql_limit; rewrite Nat2Z.id, E; left).
    apply elem_of_sfilter in Ha as [_ Ha]. simpl in Ha. by rewrite Ha.
Qed.

Section finite.
Context (all : list string) (Hall : StronglySorted before all) (Hbatch : (1 <= batch_size options)%nat).
Hypothesis keys_of_all : forall page c n, keys env page c n = Ok (page_of all c n).

Lemma pages_finish ob0 fuel : forall page r l,
  progressed ob0 r l -> (length (List.filter (afterb (p_last_key (done r))) all) < fuel)%nat ->
  exists res r' more, resync_pages cfg options env fuel page r = Some (res, r')
    /\ halted ob0 r' (l ++ more)
    /\ map fst more `prefix_of` List.filter (afterb (p_last_key (done r))) all
    /\ forall d, res = Ok d -> d = done r' /\ progressed ob0 r' (l ++ more)
         /\ map fst more = List.filter (afterb (p_last_key (done r))) all.
Proof.
  induction fuel as [|fuel IH]; intros page r l Hp Hf; [lia|]. cbn [resync_pages].
  assert (Hstop : progressed ob0 r (l ++ [])) by (by rewrite app_nil_r).
  pose proof (progressed_halted _ _ _ Hstop) as Hhalt.
  destruct (acquire_fault env page) as [e|].
  { exists (Err (ESqlx e)), r, []. split_and!; [done|done|apply prefix_nil|done]. }
  rewrite keys_of_all. set (c := p_last_key (done r)) in *.
  pose proof (page_of_accepted all c (batch_size options) Hall) as Hacc.
  destruct (page_of all c (batch_size options)) as [|b bs] eqn:Epage.
  { exists (Ok (done r)), r, []. assert (E : List.filter (afterb c) all = []).
    { unfold page_of in Epage. destruct (List.filter (afterb c) all); [done|].
      destruct (batch_size options); [lia|done]. }
    rewrite E. split_and!; [done|done|apply prefix_nil|]. by intros d [= <-]. }
  pose proof Hacc as Hacc'. apply page_ok in Hacc' as [Hs Ha]. rewrite Hacc.
  pose proof (resync_batch_progress ob0 (b :: bs) r l Hp Hs Ha) as Hb.
  assert (Esplit : List.filter (afterb c) all = (b :: bs) ++ drop (batch_size options) (List.filter (afterb c) all)).
  { rewrite <- Epage. unfold page_of. by rewrite take_drop. }
  destruct (resync_batch cfg env (b :: bs) r) as [[u|e] r1].
  - destruct Hb as (first & Efirst & Hb).
    assert (Hlast : exists k, last (b :: bs) = Some k /\ p_last_key (done r1) = Some k).
    { destruct (last (b :: bs)) as [k|] eqn:El; [|by apply last_None in El]. exists k. split; [done|].
      rewrite (pr_last _ _ (proj1 Hb)), map_app, last_app, Efirst, El. done. }
    destruct Hlast as (k & El & Ek).
    assert (Erest : List.filter (afterb (p_last_key (done r1))) all = drop (batch_size options) (List.filter (afterb c) all)).
    { rewrite Ek. apply rest_after_page; [done|]. by rewrite Epage. }
    destruct (IH (S page) r1 (l ++ first) Hb) as (res & r' & more & Hrun & Hm & Hpre & Hok).
    { rewrite Erest. rewrite Esplit, length_app in Hf. simpl in Hf. lia. }
    rewrite Erest in Hpre, Hok. exists res, r', (first ++ more).
    rewrite app_assoc, map_app, Efirst. split_and!; [done|done| |].
    + rewrite Esplit. by apply prefix_app.
    + intros d Hd. destruct (Hok d Hd) as (-> & ? & ->). by rewrite <- Esplit.
  - destruct Hb as (part & Hpre & Hb). exists (Err e), r1, part. split_and!; [done|done| |done].
    rewrite Esplit. by apply prefix_app_r.
Qed.
End finite.

Lemma progressed_start ob :
  outbox_inv ob -> progressed ob {| done := start options; reported := []; txs := 0; outbox := ob |} [].
Proof.
  intros Hi. split; [|constructor].
  by constructor; first [done | apply SSorted_nil | apply List.Forall_nil].
Qed.
End progress.

(** ** Properties *)

(** Whatever the callbacks return and wherever the run is cut short, its
    report is true: the keys it has committed are strictly increasing and lie
    after the starting cursor, so no key is enqueued twice by one run; the
    callback was told of each commit in order; the counts are those of the
    commits, the cursor is the last of them, and the outbox is what those commits
    made of it. Resuming from the reported cursor therefore neither repeats nor
    skips a committed key. *)
Theorem resync_progress {P} `{KafkaMessage P} (cfg : ResolvedConfig) (options : ResyncOptions)
  (env : Surroundings P) (fuel : nat) (ob : Outbox) (res : result Error ResyncProgress) (r : Run)
  (Hlive : forall n ob, outbox_inv ob -> outbox_inv (live env n ob)) (Hinv : outbox_inv ob)
  (Hrun : resync cfg options env fuel ob = Some (res, r)) :
  exists l, halted options env ob r l
    /\ forall d, res = Ok d -> d = done r /\ progressed options env ob r l.
Proof.
  pose proof (progressed_start options env ob Hinv) as Hstart.
  unfold resync in Hrun. destruct (for_message OutboxKind P cfg).
  - exact (resync_pages_progress cfg options env Hlive ob fuel 0 _ [] res r Hstart Hrun).
  - injection Hrun as <- <-. exists []. split; [by apply progressed_halted|done].
Qed.

(** C23. A resync over a finite set of keys ends, whatever fails on the way: with
    a source that pages through its keys, one page more than there are keys left
    is enough. The run leaves a ledger of committed transactions, a prefix of the
    keys after its starting cursor, each once and in order: a key whose entity is
    gone changed nothing, and every other key's loaded state is the entity's
    newest and only pending row of the outbox it committed, beside what live
    writers did in between. The callback was told of exactly these commits and
    the counts are theirs. A transaction the run stopped in left no row, unless
    its commit landed and the answer was lost; a run that answers success has
    committed every key, and the outbox it leaves is the ledger's. *)
Theorem resync_terminates {P} `{KafkaMessage P} (cfg : ResolvedConfig) (options : ResyncOptions)
  (env : Surroundings P) (all : list string) (ob : Outbox)
  (Hlive : forall n ob, outbox_inv ob -> outbox_inv (live env n ob)) (Hinv : outbox_inv ob)
  (Hall : StronglySorted before all) (Hbatch : (1 <= batch_size options)%nat)
  (Hkeys : forall page c n, keys env page c n = Ok (page_of all c n)) :
  exists res r l, resync cfg options env (S (length all)) ob = Some (res, r)
    /\ halted options env ob r l
    /\ map fst l `prefix_of` List.filter (afterb (start_after options)) all
    /\ forall d, res = Ok d -> d = done r /\ progressed options env ob r l
         /\ map fst l = List.filter (afterb (start_after options)) all.
Proof.
  pose proof (progressed_start options env ob Hinv) as Hstart.
  unfold resync. destruct (for_message OutboxKind P cfg) as [tb|e].
  - destruct (pages_finish cfg options env Hlive all Hall Hbatch Hkeys ob (S (length all)) 0 _ [] Hstart)
      as (res & r & more & Hmore); [|by exists res, r, more].
    simpl. pose proof (sublist_length _ _ (sublist_sfilter (afterb (start_after options)) all)). lia.
  - eexists _, _, []. split; [done|]. split; [by apply progressed_halted|]. split; [apply prefix_nil|done].
Qed.

Module RsSample.
Definition env : Surroundings Sample.order_placed := {|
  acquire_fault _ := None;
  keys _ c n := Ok (page_of ["o1"; "o2"; "o3"] c n);
  begin_fault _ := None;
  load n k := Ok (if bool_decide (k = "o2") then None else Some (Sample.event (N.of_nat (20 + n)) k "now"));
  commit_fault _ := None;
  live _ ob := ob;
  clock n := Z.of_nat n;
  tracing _ := None;
|}.
Definition options : ResyncOptions := {| batch_size := 2; start_after := None |}.

Lemma sorted_sample : StronglySorted before ["o1"; "o2"; "o3"].
Proof. repeat constructor. Qed.

Lemma empty_inv : outbox_inv empty_outbox.
Proof.
  constructor; simpl; [apply SSorted_nil|apply NoDup_nil_2| | |];
    [by intros r []%elem_of_nil|by intros r1 r2 []%elem_of_nil|by intros r []%elem_of_nil].
Qed.

Lemma resync_terminates_witness :
  exists res r l, resync Sample.cfg options env 4 empty_outbox = Some (res, r)
    /\ res = Ok {| p_enqueued := 2; p_skipped := 1; p_last_key := Some "o3" |}
    /\ map fst l = ["o1"; "o2"; "o3"] /\ progressed options env empty_outbox r l
    /\ map (fun x : DbRow => entity_col x) (rows (outbox r)) = [Some "o1"; Some "o3"].
Proof.
  destruct (resync_terminates Sample.cfg options env ["o1"; "o2"; "o3"] empty_outbox)
    as (res & r & l & Hrun & _ & _ & Hok).
  - intros n ob Hob. exact Hob.
  - exact empty_inv.
  - exact sorted_sample.
  - simpl. lia.
  - intros page c n. reflexivity.
  - exists res, r, l. split; [exact Hrun|].
    assert (Hres : res = Ok {| p_enqueued := 2; p_skipped := 1; p_last_key := Some "o3" |}
                   /\ map (fun x : DbRow => entity_col x) (rows (outbox r)) = [Some "o1"; Some "o3"]).
    { vm_compute in Hrun. injection Hrun as <- <-. split; reflexivity. }
    destruct Hres as [Hres Hrows]. split; [exact Hres|].
    destruct (Hok _ Hres) as (_ & Hp & Hl). exact (conj Hl (conj Hp Hrows)).
Defined.

Lemma resync_progress_witness :
  exists l r, halted options env empty_outbox r l /\ length (rows (outbox r)) = 2%nat.
Proof.
  destruct (resync Sample.cfg options env 4 empty_outbox) as [[res r]|] eqn:E;
    [|vm_compute in E; discriminate E].
  destruct (resync_progress Sample.cfg options env 4 empty_outbox res r) as (l & Hl & _).
  - intros n ob Hob. exact Hob.
  - exact empty_inv.
  - exact E.
  - exists l, r. split; [exact Hl|].
    vm_compute in E. injection E as _ <-. reflexivity.
Defined.
End RsSample.
