(* ===== verification/Operability.v ===== *)
(** * Operability: what an operator reads off the tables

    Models [src/crates/kafkaman-sqlx/src/operability.rs]: which of the tables a
    configuration could name the schema has, depth and age per status, the
    quarantine summary, and the rows that are overdue. The queries change
    nothing; a query answers from the rows of its table, or fails with the
    database error it is given. *)

From S2P Require Import Prelude Text Vocabulary Trace Identity Topics Registry Retry Outbox Received Decimal Schema.
Open Scope string_scope.
Open Scope list_scope.
Open Scope Z_scope.

(** ** The catalog *)

(** What [pg_class] and [has_table_privilege] say of one relation. *)
Record Relation := { relkind : ascii; granted : string -> bool }.

(** Relations by schema and name. *)
Definition Catalog := gmap (string * string) Relation.

(** [class.relkind IN ('r', 'p')]. *)
Definition is_table (r : Relation) : bool :=
  bool_decide (relkind r = "r"%char) || bool_decide (relkind r = "p"%char).

(** A query over the pool: the rows, or the error the database answers. *)
Definition fetch {A} (fault : option SqlxError) (a : A) : result Error A :=
  match fault with None => Ok a | Some e => Err (ESqlx e) end.

(** One row of the three arrays [push_table_candidate] fills. *)
Definition push_table_candidate (t : Table) : string * string * string :=
  (qualified (tbl_schema t) (tbl_name t), tbl_schema t, tbl_name t).

Fixpoint table_candidates (s : SqlIdentifier) (ds : list MessageDescriptor)
  : result Error (list (string * string * string)) :=
  match ds with
  | [] => Ok []
  | d :: ds =>
      outbox ← table_new OutboxKind s d;
      received ← table_new ReceivedKind s d;
      rest ← table_candidates s ds;
      Ok (push_table_candidate outbox :: push_table_candidate received :: rest)
  end.

Definition present_candidate (cat : Catalog) (c : string * string * string) : bool :=
  match cat !! (c.1.2, c.2) with
  | Some r => is_table r && granted r "SELECT"
  | None => false
  end.

(** [ServiceTables] and [service_tables]. *)
Definition ServiceTables := gset string.

Definition service_tables (fault : option SqlxError) (cat : Catalog) (cfg : ResolvedConfig)
  : result Error ServiceTables :=
  cs ← table_candidates (schema cfg) (messages cfg);
  present ← fetch fault (map (fun c : string * string * string => c.1.1) (List.filter (present_candidate cat) cs));
  Ok (list_to_set present).

Inductive TableAccess := Ready | TableMissing | NotATable | NoPrivilege.
#[global] Instance TableAccess_eq_dec : EqDecision TableAccess.
Proof. solve_decision. Defined.

Definition is_ready (a : TableAccess) : bool := bool_decide (a = Ready).

Definition repair (a : TableAccess) : string :=
  match a with
  | Ready => "nothing; the table is usable"
  | TableMissing => "run this service's migrations, or address the request to the service that has this side of the message type"
  | NotATable => "a relation of that name exists but is not a table; kafkaman's migrations create one, so something else owns this name"
  | NoPrivilege => "grant this service's database role the privileges the route needs on the table"
  end.

(** [service_table_access]. The join on the privileges keeps a relation when
    there are none, and [bool_and] over them is their conjunction. *)
Definition service_table_access (fault : option SqlxError) (cat : Catalog) (s t : SqlIdentifier)
  (privileges : list string) : result Error TableAccess :=
  found ← fetch fault
    ((fun r => (is_table r, forallb (granted r) privileges)) <$> cat !! (s : string, t : string));
  Ok (match found with
      | None => TableMissing
      | Some (false, _) => NotATable
      | Some (true, false) => NoPrivilege
      | Some (true, true) => Ready
      end).

(** ** Ages *)

Definition NANOS_PER_MS : Z := 1000000.

(** [age_ms_since]. *)
Definition age_ms_since (now since : instant) : Z :=
  let delta := now - since in
  if delta <? 0 then 0
  else let ms := Z.quot delta NANOS_PER_MS in if ms <=? u64_max then ms else u64_max.

(** [over_max_queue_age]. *)
Definition over_max_queue_age (terminal : bool) (oldest_age_ms : option Z) (max_queue_age : interval) : bool :=
  if terminal then false
  else
    let ms := max_queue_age / NANOS_PER_MS in
    let threshold := if ms <=? u64_max then ms else u64_max in
    match oldest_age_ms with Some age => threshold <=? age | None => false end.

(** ** Depth by status *)

(** [GROUP BY key], the groups in the order their keys first occur. *)
Definition group_by {R K} `{EqDecision K} (key : R -> K) (t : list R) : list (K * list R) :=
  map (fun k => (k, List.filter (fun r => bool_decide (key r = k)) t)) (remove_dups (map key t)).

(** [min(column)]. *)
Definition sql_min (l : list Z) : option Z :=
  match l with [] => None | x :: l => Some (fold_left Z.min l x) end.

(** [OutboxStatusSummary] and [ReceivedStatusSummary], which differ in the type
    of the status. *)
Record StatusSummary (S : Type) := {
  su_message_type : string;
  su_status : S;
  su_count : Z;
  su_oldest_created_at : option instant;
  su_oldest_age_ms : option Z;
  su_over_max_queue_age : bool;
}.
Arguments su_message_type {_}.
Arguments su_status {_}.
Arguments su_count {_}.
Arguments su_oldest_created_at {_}.
Arguments su_oldest_age_ms {_}.
Arguments su_over_max_queue_age {_}.

Definition OutboxStatusSummary := StatusSummary OutboxStatus.
Definition ReceivedStatusSummary := StatusSummary ReceiveStatus.

(** [SELECT status, count( * ), min(created_at) .. GROUP BY status ORDER BY
    status]. Statuses are spelled in lowercase letters, which every collation
    orders as their bytes. *)
Definition status_groups {R} (text : R -> string) (created : R -> instant) (t : list R)
  : list (string * (Z * option instant)) :=
  merge_sort btree_le
    (map (fun g : string * list R => (g.1, (Z.of_nat (length g.2), sql_min (map created g.2))))
         (group_by text t)).

(** The closure over the rows of the answer. *)
Definition summary_of {S} (parse : string -> result CoreError S) (terminal : S -> bool) (mt : string)
  (now : instant) (max_queue_age : interval) (row : string * (Z * option instant))
  : result Error (StatusSummary S) :=
  st ← lift_core (parse row.1);
  let oldest := row.2.2 in
  let age := age_ms_since now <$> oldest in
  Ok {| su_message_type := mt; su_status := st; su_count := row.2.1; su_oldest_created_at := oldest;
        su_oldest_age_ms := age;
        su_over_max_queue_age := over_max_queue_age (terminal st) age max_queue_age |}.

Definition outbox_status_summary (fault : option SqlxError) (table : Table) (t : list DbRow)
  (now : instant) (max_queue_age : interval) : result Error (list OutboxStatusSummary) :=
  rows ← fetch fault (status_groups (fun r : DbRow => enum_str (status r)) row_created t);
  mapM (summary_of outbox_status_from_str outbox_is_terminal (message_type (tbl_desc table)) now max_queue_age) rows.

Definition received_status_summary (fault : option SqlxError) (table : Table) (t : Received)
  (now : instant) (max_queue_age : interval) : result Error (list ReceivedStatusSummary) :=
  rows ← fetch fault (status_groups (fun r : RRow => enum_str (r_status r)) row_age t);
  mapM (summary_of receive_status_from_str receive_is_terminal (message_type (tbl_desc table)) now max_queue_age) rows.

(** ** The quarantine *)

(** A stored quarantine row: the failure and the [created_at] it was given. *)
Record QuarantineRow := { q_failure : ReceivedIngestFailure; q_created_at : instant }.

Record ReceivedIngestFailureSummary := {
  fs_message_type : string;
  fs_expected_topic : string;
  fs_failure_kind : ReceivedIngestFailureKind;
  fs_count : Z;
  fs_oldest_created_at : instant;
  fs_oldest_age_ms : Z;
}.

(** [message_type, expected_topic, failure_kind]. *)
Definition failure_class (r : QuarantineRow) : string * string * string :=
  (if_message_type (q_failure r), if_expected_topic (q_failure r), enum_str (if_kind (q_failure r))).

(** [strxfrm] gives the sort key of a text in the database's collation. *)
Definition summary_order (strxfrm : string -> list Z) (g : string * string * string * (Z * option instant))
  : list Z :=
  nulls_last g.2.2 ++ strxfrm g.1.1.1 ++ [-1] ++ strxfrm g.1.1.2 ++ [-1] ++ strxfrm g.1.2.

Definition failure_summary_of (now : instant) (g : string * string * string * (Z * option instant))
  : result Error ReceivedIngestFailureSummary :=
  kind ← ok_or (EInvalidIngestFailureKind g.1.2) (enum_find g.1.2);
  oldest ← ok_or (ESqlx (SqlxOther "unexpected null")) g.2.2;
  Ok {| fs_message_type := g.1.1.1; fs_expected_topic := g.1.1.2; fs_failure_kind := kind;
        fs_count := g.2.1; fs_oldest_created_at := oldest; fs_oldest_age_ms := age_ms_since now oldest |}.

Definition received_ingest_failure_summary (fault : option SqlxError) (strxfrm : string -> list Z)
  (cfg : ResolvedConfig) (q : list QuarantineRow) (now : instant)
  : result Error (list ReceivedIngestFailureSummary) :=
  _ ← received_ingest_failures_table_name cfg;
  rows ← fetch fault
    (sql_order_by_lex (summary_order strxfrm)
      (map (fun g : string * string * string * list QuarantineRow =>
              (g.1, (Z.of_nat (length g.2), sql_min (map q_created_at g.2))))
           (group_by failure_class q)));
  mapM (failure_summary_of now) rows.

(** ** Overdue rows *)

(** The first instant an [OffsetDateTime] represents, -9999-01-01T00:00:00Z. *)
Definition DATETIME_MIN : instant := -377705116800 * NANOS.

(** [now - duration_to_time(stuck_after)]: the subtraction panics when the
    result is out of range. *)
Definition stuck_cutoff (now : instant) (stuck_after : interval) : unwinding instant :=
  let cutoff := now - duration_to_time stuck_after in
  if cutoff <? DATETIME_MIN then Panicked (PanicStr "resulting value is out of range")
  else Returned cutoff.

Record OutboxStuckRow := {
  os_message_type : string;
  os_message_id : uuid;
  os_status : OutboxStatus;
  os_claimed_by : option string;
  os_claim_expires_at : option instant;
  os_created_at : instant;
  os_age_ms : Z;
  os_stuck_for_ms : Z;
}.

Definition outbox_stuck (cutoff : instant) (r : DbRow) : bool :=
  is_status Publishing r && bool_decide (claim_expires_at r <> None)
  && sql_le_opt (claim_expires_at r) cutoff.

Definition outbox_stuck_order (r : DbRow) : list Z :=
  nulls_last (claim_expires_at r) ++ [created_at r; Z.of_N (message_id r)].

Definition outbox_stuck_row (mt : string) (now : instant) (r : DbRow) : result Error OutboxStuckRow :=
  st ← lift_core (outbox_status_from_str (enum_str (status r)));
  Ok {| os_message_type := mt; os_message_id := message_id r; os_status := st;
        os_claimed_by := claimed_by r; os_claim_expires_at := claim_expires_at r;
        os_created_at := created_at r; os_age_ms := age_ms_since now (created_at r);
        os_stuck_for_ms := from_option (age_ms_since now) 0 (claim_expires_at r) |}.

Definition outbox_stuck_rows (fault : option SqlxError) (table : Table) (t : list DbRow)
  (now : instant) (stuck_after : interval) (limit : Z) : unwinding (result Error (list OutboxStuckRow)) :=
  match stuck_cutoff now stuck_after with
  | Panicked p => Panicked p
  | Returned cutoff => Returned (
      rows ← fetch fault
        (sql_limit (Z.max limit 0) (sql_order_by_lex outbox_stuck_order (List.filter (outbox_stuck cutoff) t)));
      mapM (outbox_stuck_row (message_type (tbl_desc table)) now) rows)
  end.

Record ReceivedStuckRow := {
  rs_message_type : string;
  rs_message_id : uuid;
  rs_status : ReceiveStatus;
  rs_attempts : Z;
  rs_next_attempt_at : option instant;
  rs_created_at : instant;
  rs_due_at : instant;
  rs_age_ms : Z;
  rs_stuck_for_ms : Z;
}.

(** [COALESCE(next_attempt_at, created_at)]. *)
Definition due_at (r : RRow) : instant := default (r_created_at r) (r_next_attempt_at r).

Definition received_stuck (cutoff : instant) (r : RRow) : bool :=
  (is_rstatus RPending r
   && (bool_decide (r_next_attempt_at r = None) || sql_le_opt (r_next_attempt_at r) cutoff)
   && (r_created_at r <=? cutoff))
  || (is_rstatus Retryable r && sql_le_opt (r_next_attempt_at r) cutoff).

Definition received_stuck_order (r : RRow) : list Z := [due_at r; r_created_at r; Z.of_N (r_message_id r)].

Definition received_stuck_row (mt : string) (now : instant) (r : RRow) : result Error ReceivedStuckRow :=
  st ← lift_core (receive_status_from_str (enum_str (r_status r)));
  Ok {| rs_message_type := mt; rs_message_id := r_message_id r; rs_status := st;
        rs_attempts := r_attempts r; rs_next_attempt_at := r_next_attempt_at r;
        rs_created_at := r_created_at r; rs_due_at := due_at r;
        rs_age_ms := age_ms_since now (r_created_at r); rs_stuck_for_ms := age_ms_since now (due_at r) |}.

Definition received_stuck_rows (fault : option SqlxError) (table : Table) (t : Received)
  (now : instant) (stuck_after : interval) (limit : Z) : unwinding (result Error (list ReceivedStuckRow)) :=
  match stuck_cutoff now stuck_after with
  | Panicked p => Panicked p
  | Returned cutoff => Returned (
      rows ← fetch fault
        (sql_limit (Z.max limit 0) (sql_order_by_lex received_stuck_order (List.filter (received_stuck cutoff) t)));
      mapM (received_stuck_row (message_type (tbl_desc table)) now) rows)
  end.

(** ** Lemmas on grouping *)

(** Decoding that succeeds on each row succeeds on the answer. *)
Lemma mapM_exists {E A B} (f : A -> result E B) (l : list A) :
  (forall x, x ∈ l -> exists y, f x = Ok y) ->
  exists l', mapM f l = Ok l' /\ Forall2 (fun x y => x ∈ l /\ f x = Ok y) l l'.
Proof.
  induction l as [|x l IH]; intros Hf; [by exists []|]. destruct (Hf x) as [y Hy]; [by left|].
  destruct IH as (l' & Hl & H2); [intros z ?; apply Hf; by right|].
  exists (y :: l'). split; [simpl; rewrite Hy; simpl; by rewrite Hl|].
  constructor; [split; [by left|done]|]. eapply Forall2_impl; [exact H2|].
  intros z w [? ?]. split; [by right|done].
Qed.

Lemma Forall2_map_eq {X Y K} (P : X -> Y -> Prop) (left_key : X -> K) (right_key : Y -> K) xs ys :
  (forall a b, P a b -> left_key a = right_key b) -> Forall2 P xs ys -> map left_key xs = map right_key ys.
Proof. intros HP. induction 1; simpl; f_equal; auto. Qed.

Lemma Forall2_elem_r {A B} (P : A -> B -> Prop) (l : list A) (l' : list B) y :
  Forall2 P l l' -> y ∈ l' -> exists x, x ∈ l /\ P x y.
Proof.
  induction 1 as [|x z l l' Hx Hl IH]; intros Hy; [by apply elem_of_nil in Hy|].
  apply elem_of_cons in Hy as [->|Hy]; [exists x; split; [by left|done]|].
  destruct (IH Hy) as (w & ? & ?). exists w. split; [by right|done].
Qed.

Lemma Forall2_elem_l {A B} (P : A -> B -> Prop) (l : list A) (l' : list B) x :
  Forall2 P l l' -> x ∈ l -> exists y, y ∈ l' /\ P x y.
Proof. intros H. apply Forall2_flip in H. exact (Forall2_elem_r (flip P) l' l x H). Qed.

Lemma sum_Permutation (l l' : list Z) : l ≡ₚ l' -> foldr Z.add 0 l = foldr Z.add 0 l'.
Proof. induction 1; simpl; lia. Qed.

Lemma fold_min_spec (l : list Z) x :
  (fold_left Z.min l x = x \/ fold_left Z.min l x ∈ l)
  /\ fold_left Z.min l x <= x /\ (forall y, y ∈ l -> fold_left Z.min l x <= y).
Proof.
  revert x. induction l as [|y l IH]; intros x; simpl.
  { split_and!; [by left|lia|]. by intros y Hy%elem_of_nil. }
  destruct (IH (Z.min x y)) as (Hin & Hx & Hl). split_and!; [|lia|].
  - destruct Hin as [->|Hin]; [|right; by right].
    destruct (Z.min_spec x y) as [[_ ->]|[_ ->]]; [by left|right; by left].
  - intros z [->|Hz]%elem_of_cons; [lia|auto].
Qed.

Lemma sql_min_Some (l : list Z) m : sql_min l = Some m -> m ∈ l /\ forall y, y ∈ l -> m <= y.
Proof.
  destruct l as [|x l]; [done|]. intros [= <-]. destruct (fold_min_spec l x) as (Hin & Hx & Hl). split.
  - destruct Hin as [->|Hin]; [by left|by right].
  - intros y [->|Hy]%elem_of_cons; auto.
Qed.

Section grouping.
Context {R K : Type} `{EqDecision K} (key : R -> K).

Lemma elem_of_group_by (t : list R) k rs :
  (k, rs) ∈ group_by key t <->
  rs = List.filter (fun r => bool_decide (key r = k)) t /\ exists r, r ∈ t /\ key r = k.
Proof.
  unfold group_by. rewrite list_elem_of_In, in_map_iff. split.
  - intros (k' & [= <- <-] & Hk%list_elem_of_In). rewrite elem_of_remove_dups, list_elem_of_In, in_map_iff in Hk.
    destruct Hk as (r & <- & Hr%list_elem_of_In). eauto.
  - intros (-> & r & Hr & <-). exists (key r). split; [done|].
    rewrite <- list_elem_of_In, elem_of_remove_dups, list_elem_of_In, in_map_iff.
    exists r. by rewrite <- list_elem_of_In.
Qed.

Lemma group_keys (t : list R) : map fst (group_by key t) = remove_dups (map key t).
Proof. unfold group_by. rewrite map_map. apply map_id. Qed.

Definition sum_lengths (gs : list (K * list R)) : nat := sum_list (map (fun g => length g.2) gs).

Lemma partition_length (ks : list K) (t : list R) :
  NoDup ks -> (forall r, r ∈ t -> key r ∈ ks) ->
  sum_list (map (fun k => length (List.filter (fun r => bool_decide (key r = k)) t)) ks) = length t.
Proof.
  intros Hn. induction t as [|r t IH]; intros Hin.
  - clear. induction ks; simpl; auto.
  - simpl length. rewrite <- IH by (intros r' ?; apply Hin; by right).
    assert (Hr : key r ∈ ks) by (apply Hin; by left). clear Hin IH.
    induction ks as [|k ks IH]; [by apply elem_of_nil in Hr|].
    apply NoDup_cons in Hn as [Hk Hn]. simpl. destruct (decide (key r = k)) as [<-|Hne].
    + rewrite bool_decide_eq_true_2 by reflexivity. simpl. do 2 f_equal.
      apply (f_equal sum_list), map_ext_in. intros k' Hk'%list_elem_of_In. rewrite bool_decide_eq_false_2; [reflexivity|]. intros E. congruence.
    + rewrite bool_decide_eq_false_2 by done. apply elem_of_cons in Hr as [Hr|Hr]; [congruence|].
      rewrite IH by done. lia.
Qed.

Lemma group_total (t : list R) : sum_lengths (group_by key t) = length t.
Proof.
  unfold sum_lengths, group_by. rewrite map_map. simpl.
  apply partition_length; [apply NoDup_remove_dups|].
  intros r Hr. rewrite elem_of_remove_dups, list_elem_of_In, in_map_iff.
  exists r. by rewrite <- list_elem_of_In.
Qed.
End grouping.

(** ** Depth is exact *)

(** What a summary by status has to say of a table. *)
Record summary_exact {R S} `{EqDecision S} (st : R -> S) (created : R -> instant) (terminal : S -> bool) (mt : string)
  (now : instant) (max_queue_age : interval) (t : list R) (l : list (StatusSummary S)) : Prop := {
  se_statuses : NoDup (map su_status l);
  se_buckets : forall s, s ∈ map su_status l <-> exists r, r ∈ t /\ st r = s;
  se_total : foldr Z.add 0 (map su_count l) = Z.of_nat (length t);
  se_bucket : forall b, b ∈ l ->
    su_message_type b = mt
    /\ su_count b = Z.of_nat (sql_count (fun r => bool_decide (st r = su_status b)) t)
    /\ (exists r, r ∈ t /\ st r = su_status b /\ su_oldest_created_at b = Some (created r)
          /\ su_oldest_age_ms b = Some (age_ms_since now (created r))
          /\ forall r', r' ∈ t -> st r' = su_status b -> created r <= created r')
    /\ (su_over_max_queue_age b = true <->
          terminal (su_status b) = false
          /\ exists r, r ∈ t /\ st r = su_status b
               /\ Z.min (max_queue_age / NANOS_PER_MS) u64_max <= age_ms_since now (created r));
}.

Lemma age_ms_antitone now a b : a <= b -> age_ms_since now b <= age_ms_since now a.
Proof.
  intros Hab. unfold age_ms_since. cbv zeta.
  assert (Hq : 0 <= now - b -> Z.quot (now - b) NANOS_PER_MS <= Z.quot (now - a) NANOS_PER_MS).
  { intros. unfold NANOS_PER_MS. apply Z.quot_le_mono; lia. }
  assert (Hp : 0 <= now - a -> 0 <= Z.quot (now - a) NANOS_PER_MS).
  { intros. apply Z.quot_pos; unfold NANOS_PER_MS; lia. }
  destruct (Z.ltb_spec (now - b) 0), (Z.ltb_spec (now - a) 0); try lia;
    repeat case_match; reflect_bools; unfold u64_max in *; lia.
Qed.

Section summaries.
Context {R S : Type} `{NamedEnum S} (st : R -> S) (created : R -> instant).
Context (parse : string -> result CoreError S) (Hparse : forall s, parse (enum_str s) = Ok s).
Context (terminal : S -> bool) (mt : string) (now : instant) (max_queue_age : interval).

Let text (r : R) : string := enum_str (st r).

Lemma elem_of_status_groups (t : list R) row :
  row ∈ status_groups text created t <->
  exists s, row = (enum_str s, (Z.of_nat (length (List.filter (fun r => bool_decide (text r = enum_str s)) t)),
                                sql_min (map created (List.filter (fun r => bool_decide (text r = enum_str s)) t))))
    /\ exists r, r ∈ t /\ st r = s.
Proof.
  unfold status_groups. rewrite merge_sort_Permutation, list_elem_of_In, in_map_iff. split.
  - intros ([k rs] & <- & Hg%list_elem_of_In). apply elem_of_group_by in Hg as (-> & r & Hr & <-).
    exists (st r). split; [done|]. eauto.
  - intros (s & -> & r & Hr & <-). eexists (_, _). split; [done|].
    rewrite <- list_elem_of_In. apply elem_of_group_by. split; [done|]. eauto.
Qed.

Lemma status_groups_keys (t : list R) : NoDup (map fst (status_groups text created t)).
Proof.
  unfold status_groups. rewrite merge_sort_Permutation, map_map. simpl.
  change (NoDup (map fst (group_by text t))). rewrite group_keys. apply NoDup_remove_dups.
Qed.

Lemma status_groups_total (t : list R) :
  foldr Z.add 0 (map (fun row => row.2.1) (status_groups text created t)) = Z.of_nat (length t).
Proof.
  unfold status_groups. rewrite <- (group_total text t). unfold sum_lengths.
  rewrite (sum_Permutation _ (map (fun g => Z.of_nat (length g.2)) (group_by text t))).
  - induction (group_by text t) as [|g gs IH]; simpl; [done|]. rewrite IH. lia.
  - rewrite merge_sort_Permutation, map_map. done.
Qed.

(** Ages of a bucket reach a threshold when its oldest row does. *)
Lemma oldest_over (t : list R) s m :
  sql_min (map created (List.filter (fun r => bool_decide (text r = enum_str s)) t)) = Some m ->
  exists r, r ∈ t /\ st r = s /\ created r = m /\ forall r', r' ∈ t -> st r' = s -> m <= created r'.
Proof.
  intros [Hm Hle]%sql_min_Some. apply list_elem_of_In, in_map_iff in Hm as (r & <- & Hr%list_elem_of_In).
  apply elem_of_sfilter in Hr as [Hr E%bool_decide_eq_true%enum_str_inj].
  exists r. split_and!; auto. intros r' Hr' <-. apply Hle, list_elem_of_In, in_map_iff.
  exists r'. split; [done|]. apply list_elem_of_In, elem_of_sfilter. by rewrite bool_decide_eq_true.
Qed.

Lemma bucket_min (t : list R) r :
  r ∈ t -> exists m, sql_min (map created (List.filter (fun r' => bool_decide (text r' = enum_str (st r))) t)) = Some m.
Proof.
  intros Hr. assert (Hf : r ∈ List.filter (fun r' => bool_decide (text r' = enum_str (st r))) t).
  { apply elem_of_sfilter. by rewrite bool_decide_eq_true. }
  destruct (List.filter _ t) as [|x l]; [by apply elem_of_nil in Hf|]. simpl. eauto.
Qed.

Lemma over_flag (s : S) (t : list R) r :
  r ∈ t -> st r = s -> (forall r', r' ∈ t -> st r' = s -> created r <= created r') ->
  over_max_queue_age (terminal s) (Some (age_ms_since now (created r))) max_queue_age = true <->
  terminal s = false /\ exists r', r' ∈ t /\ st r' = s
    /\ Z.min (max_queue_age / NANOS_PER_MS) u64_max <= age_ms_since now (created r').
Proof.
  intros Hr Hs Hold. unfold over_max_queue_age. destruct (terminal s); [naive_solver|].
  assert (Hm : (if max_queue_age / NANOS_PER_MS <=? u64_max then max_queue_age / NANOS_PER_MS else u64_max)
               = Z.min (max_queue_age / NANOS_PER_MS) u64_max).
  { destruct (Z.leb_spec (max_queue_age / NANOS_PER_MS) u64_max); lia. }
  cbv zeta. rewrite Hm, Z.leb_le. split; [eauto 6|].
  intros (_ & r' & Hr' & Hs' & Hle). etransitivity; [exact Hle|]. apply age_ms_antitone. auto.
Qed.

(** One decoded row of the answer. *)
Lemma summary_row (t : list R) row b :
  row ∈ status_groups text created t -> summary_of parse terminal mt now max_queue_age row = Ok b ->
  exists r, r ∈ t /\ row.1 = enum_str (su_status b) /\ su_status b = st r /\ su_count b = row.2.1
    /\ su_message_type b = mt
    /\ su_count b = Z.of_nat (sql_count (fun r => bool_decide (st r = su_status b)) t)
    /\ su_oldest_created_at b = Some (created r) /\ su_oldest_age_ms b = Some (age_ms_since now (created r))
    /\ su_over_max_queue_age b
       = over_max_queue_age (terminal (su_status b)) (su_oldest_age_ms b) max_queue_age
    /\ forall r', r' ∈ t -> st r' = st r -> created r <= created r'.
Proof.
  intros (s & -> & r & Hr & <-)%elem_of_status_groups Hb.
  destruct (bucket_min t r Hr) as [m Hm].
  destruct (oldest_over t (st r) m Hm) as (r' & Hr' & Hs & <- & Hold).
  unfold summary_of in Hb. cbn [fst snd] in Hb. rewrite Hparse in Hb.
  cbn [lift_core mbind result_bind] in Hb. rewrite Hm in Hb. injection Hb as <-. simpl.
  exists r'. rewrite Hs. split_and!; try done. unfold sql_count. do 2 f_equal. apply filter_ext.
  intros x. apply bool_decide_ext. split; [apply enum_str_inj|unfold text; congruence].
Qed.

Lemma summary_correct (t : list R) :
  exists l, mapM (summary_of parse terminal mt now max_queue_age) (status_groups text created t) = Ok l
    /\ summary_exact st created terminal mt now max_queue_age t l.
Proof.
  destruct (mapM_exists (summary_of parse terminal mt now max_queue_age) (status_groups text created t))
    as (l & Hl & H2).
  { intros row (s & -> & _)%elem_of_status_groups. unfold summary_of. simpl. rewrite Hparse. simpl. eauto. }
  exists l. split; [done|].
  pose proof (fun row b (Hx : _ /\ _) => summary_row t row b (proj1 Hx) (proj2 Hx)) as Hrow.
  split.
  - apply (NoDup_fmap_1 enum_str). change (NoDup (map enum_str (map su_status l))). rewrite map_map.
    assert (Hk : map fst (status_groups text created t) = map (fun b => enum_str (su_status b)) l).
    { eapply Forall2_map_eq; [|exact H2]. intros row b Hx. by destruct (Hrow row b Hx) as (?&_&?&_). }
    rewrite <- Hk. apply status_groups_keys.
  - intros s. rewrite list_elem_of_In, in_map_iff. split.
    + intros (b & <- & Hb%list_elem_of_In). destruct (Forall2_elem_r _ _ _ _ H2 Hb) as (row & _ & Hx).
      destruct (Hrow row b Hx) as (r & Hr & _ & Hs & _). eauto.
    + intros (r & Hr & <-).
      assert (Hg : exists row, row ∈ status_groups text created t /\ row.1 = enum_str (st r)).
      { eexists. split; [apply elem_of_status_groups; exists (st r); eauto|done]. }
      destruct Hg as (row & Hg & Hk). destruct (Forall2_elem_l _ _ _ _ H2 Hg) as (b & Hb & Hx).
      destruct (Hrow row b Hx) as (_ & _ & Hk' & _). exists b. rewrite <- list_elem_of_In. split; [|done].
      apply enum_str_inj. congruence.
  - rewrite <- status_groups_total. f_equal. symmetry. eapply Forall2_map_eq; [|exact H2].
    intros row b Hx. by destruct (Hrow row b Hx) as (?&_&_&_&?&_).
  - intros b Hb. destruct (Forall2_elem_r _ _ _ _ H2 Hb) as (row & _ & Hx).
    destruct (Hrow row b Hx) as (r & Hr & _ & Hs & _ & Hmt & Hc & Ho & Ha & Hf & Hold). split_and!; [done..| |].
    + exists r. split_and!; try done. intros r' ? ?. apply Hold; congruence.
    + rewrite Hf, Ha. apply over_flag; [done..|]. intros r' ? ?. apply Hold; congruence.
Qed.
End summaries.

Lemma outbox_parse s : outbox_status_from_str (enum_str s) = Ok s.
Proof. unfold outbox_status_from_str. by rewrite enum_find_str. Qed.
Lemma receive_parse s : receive_status_from_str (enum_str s) = Ok s.
Proof. unfold receive_status_from_str. by rewrite enum_find_str. Qed.

(** Depth is exact. When the query is answered, the summary of an outbox or
    received table has one bucket for each status some row has and no other,
    the counts add up to the table, each bucket names the creation time and age
    of its oldest row, and it is flagged exactly when the status is not terminal
    and some row of it has reached the configured queue age: retained history
    never raises the flag. *)
Theorem depth_exact (table : Table) (t : list DbRow) (t' : Received) (now : instant) (max_queue_age : interval) :
  let mt := message_type (tbl_desc table) in
  (exists l, outbox_status_summary None table t now max_queue_age = Ok l
     /\ summary_exact status row_created outbox_is_terminal mt now max_queue_age t l)
  /\ (exists l, received_status_summary None table t' now max_queue_age = Ok l
     /\ summary_exact r_status row_age receive_is_terminal mt now max_queue_age t' l).
Proof.
  split; [apply (summary_correct status), outbox_parse|apply (summary_correct r_status), receive_parse].
Qed.

(** ** Overdue rows *)

(** Under [ORDER BY .. LIMIT n] a row is selected, or the answer is full of rows
    that come no later. *)
Lemma limit_lex_or_full {R} (key : R -> list Z) (t : list R) n c :
  c ∈ t ->
  c ∈ sql_limit n (sql_order_by_lex key t)
  \/ (length (sql_limit n (sql_order_by_lex key t)) = Z.to_nat n
      /\ forall x, x ∈ sql_limit n (sql_order_by_lex key t) -> lex_le key x c).
Proof.
  intros Hin%(elem_of_order_by_lex key). unfold sql_limit. set (all := sql_order_by_lex key t) in *.
  rewrite <- (take_drop (Z.to_nat n) all) in Hin. apply elem_of_app in Hin as [Hin|Hin]; [by left|].
  right. split.
  - rewrite length_take. destruct (decide (Z.to_nat n <= length all)%nat); [lia|].
    rewrite drop_ge in Hin by lia. by apply elem_of_nil in Hin.
  - intros x Hx. exact (sorted_take_prefix _ _ _ _ _ (order_by_lex_sorted key _) Hx Hin).
Qed.

Lemma lex_head a b l l' : lex_leb (a :: l) (b :: l') = true -> a <= b.
Proof. simpl. rewrite orb_true_iff, andb_true_iff, Z.ltb_lt, Z.eqb_eq. lia. Qed.

Lemma lex_nulls_last a b l l' :
  lex_leb (nulls_last (Some a) ++ l) (nulls_last (Some b) ++ l') = true -> a <= b.
Proof. exact (lex_head a b l l'). Qed.

Lemma age_at_least now since d :
  0 <= d -> since <= now - d -> Z.min (d / NANOS_PER_MS) u64_max <= age_ms_since now since.
Proof.
  intros Hd Hs. unfold age_ms_since. cbv zeta. destruct (Z.ltb_spec (now - since) 0); [lia|].
  assert (d / NANOS_PER_MS <= Z.quot (now - since) NANOS_PER_MS).
  { rewrite <- Z.quot_div_nonneg by (unfold NANOS_PER_MS; lia). apply Z.quot_le_mono; unfold NANOS_PER_MS; lia. }
  case_match; reflect_bools; lia.
Qed.

Lemma age_bounds now since : 0 <= age_ms_since now since <= u64_max.
Proof.
  unfold age_ms_since. cbv zeta. destruct (Z.ltb_spec (now - since) 0); [unfold u64_max; lia|].
  assert (0 <= Z.quot (now - since) NANOS_PER_MS) by (apply Z.quot_pos; unfold NANOS_PER_MS; lia).
  case_match; reflect_bools; unfold u64_max in *; lia.
Qed.

Lemma duration_to_time_id d : 0 <= d < (i64_max + 1) * NANOS -> duration_to_time d = d.
Proof.
  intros Hd. unfold duration_to_time. rewrite Z.min_l.
  - rewrite Z.mul_comm. symmetry. apply Z.div_mod. unfold NANOS; lia.
  - apply Z.lt_succ_r, Z.div_lt_upper_bound; unfold NANOS, i64_max in *; lia.
Qed.

(** What a listing of overdue rows has to say: [late r] is the instant the row
    became late, for the rows it concerns; [late_of] and [for_ms] are what a
    listed row reports of it. *)
Record overdue_exact {R X} (concerns : R -> Prop) (late : R -> instant) (id : R -> uuid) (id_of : X -> uuid)
  (for_ms : X -> Z) (now : instant) (stuck_after : interval) (limit : Z) (t : list R) (l : list X) : Prop := {
  oe_bound : Z.of_nat (length l) <= limit;
  oe_order : StronglySorted (fun x y => for_ms y <= for_ms x) l;
  oe_sound : forall x, x ∈ l -> exists r, r ∈ t /\ concerns r /\ id_of x = id r /\ late r <= now - stuck_after
    /\ for_ms x = age_ms_since now (late r)
    /\ Z.min (stuck_after / NANOS_PER_MS) u64_max <= for_ms x <= u64_max;
  oe_complete : forall r, r ∈ t -> concerns r -> late r <= now - stuck_after ->
    (exists x, x ∈ l /\ id_of x = id r)
    \/ (Z.of_nat (length l) = limit /\ forall x, x ∈ l -> age_ms_since now (late r) <= for_ms x);
}.

Section overdue.
Context {R X : Type} (concerns : R -> Prop) (late : R -> instant) (id : R -> uuid) (id_of : X -> uuid).
Context (for_ms : X -> Z) (now : instant) (stuck_after : interval) (limit : Z).
Context (sel : R -> bool) (key : R -> list Z) (view : R -> X).
Context (Hd : 0 <= stuck_after) (Hl : 0 <= limit).
Context (Hid : forall r, id_of (view r) = id r).
Context (Hms : forall r, concerns r -> for_ms (view r) = age_ms_since now (late r)).
Context (Hkey : forall a b, concerns a -> concerns b -> lex_le key a b -> late a <= late b).

Lemma overdue_listing (t : list R) :
  (forall r, r ∈ t -> sel r = true <-> concerns r /\ late r <= now - stuck_after) ->
  overdue_exact concerns late id id_of for_ms now stuck_after limit t
    (map view (sql_limit (Z.max limit 0) (sql_order_by_lex key (List.filter sel t)))).
Proof.
  intros Hsel. rewrite Z.max_l by done. set (s := sql_limit limit _).
  assert (Hin : forall r, r ∈ s -> r ∈ t /\ concerns r /\ late r <= now - stuck_after).
  { intros r Hr%elem_of_limit. apply elem_of_order_by_lex, elem_of_sfilter in Hr as [Hr E].
    split; [done|]. by apply Hsel. }
  split.
  - rewrite length_map. unfold s, sql_limit. rewrite length_take. lia.
  - assert (Hs : StronglySorted (lex_le key) s) by apply StronglySorted_take, order_by_lex_sorted.
    clear -Hs Hin Hkey Hms. induction Hs as [|r s Hs IH Hall]; simpl; constructor.
    + apply IH. intros x Hx. apply Hin. by right.
    + rewrite Forall_forall in Hall. apply Forall_forall.
      intros y (r' & <- & Hr'%list_elem_of_In)%list_elem_of_In%in_map_iff.
      destruct (Hin r) as (_ & Hc & _); [by left|]. destruct (Hin r') as (_ & Hc' & _); [by right|].
      rewrite !Hms by done. apply age_ms_antitone, Hkey; auto.
  - intros x (r & <- & Hr%list_elem_of_In)%list_elem_of_In%in_map_iff.
    destruct (Hin r Hr) as (Ht & Hc & Hlate). exists r. rewrite Hms by done.
    split_and!; auto; [by apply age_at_least|apply age_bounds].
  - intros r Hr Hc Hlate.
    destruct (limit_lex_or_full key (List.filter sel t) limit r) as [Hs|[Hlen Hfull]].
    { apply elem_of_sfilter. split; [done|]. by apply Hsel. }
    + left. exists (view r). split; [|done]. apply list_elem_of_In, in_map, list_elem_of_In. exact Hs.
    + right. split; [rewrite length_map; fold s in Hlen; lia|].
      intros x (r' & <- & Hr'%list_elem_of_In)%list_elem_of_In%in_map_iff.
      destruct (Hin r' Hr') as (_ & Hc' & _). rewrite Hms by done.
      apply age_ms_antitone, Hkey; auto.
Qed.
End overdue.

Lemma mapM_total {E X Y} (decode : X -> result E Y) (value : X -> Y) rows :
  (forall row, decode row = Ok (value row)) -> mapM decode rows = Ok (map value rows).
Proof. intros Hd. induction rows as [|row rows IH]; [done|]. simpl. rewrite Hd. simpl. by rewrite IH. Qed.

(** The received tables the program can reach: every statement that writes one. *)
Inductive received_reach : Received -> Prop :=
| reach_empty : received_reach []
| reach_insert m t : received_reach t -> received_reach (insert_statement m t).2
| reach_processed mid at_ t : received_reach t -> received_reach (mark_received_processed mid at_ t).2
| reach_failure p wait f t : received_reach t -> received_reach (record_received_failure p wait f t).2
| reach_redrive locked s r t : received_reach t -> received_reach (redrive_received locked s r t).2.

(** A pending row has no due time of its own and a retryable one always has. *)
Definition scheduled (r : RRow) : Prop :=
  (r_status r = RPending -> r_next_attempt_at r = None)
  /\ (r_status r = Retryable -> exists due, r_next_attempt_at r = Some due).

Lemma update_scheduled p f (t : Received) :
  (forall r, scheduled (f r)) -> Forall scheduled t -> Forall scheduled (sql_update p f t).
Proof.
  intros Hf Ht. rewrite Forall_forall in *. intros r (r0 & Hr & ->)%elem_of_update.
  destruct (p r0); auto.
Qed.

Lemma reach_scheduled t : received_reach t -> Forall scheduled t.
Proof.
  induction 1 as [|m t _ IH|mid at_ t _ IH|p wait f t _ IH|locked s r t _ IH].
  - constructor.
  - unfold insert_statement. repeat case_match; simpl; try done.
    apply Forall_app. split; [done|]. repeat constructor; naive_solver.
  - unfold mark_received_processed, received_mark. simpl. apply update_scheduled; [|done].
    intros r. by split.
  - unfold record_received_failure. case_match; [done|]. unfold received_mark. simpl.
    apply update_scheduled; [|done]. intros r. split; simpl; [by case_match|].
    unfold received_failure_schedule. simpl. case_match; [done|]. eauto.
  - unfold redrive_received, mbind, eff_bind, lift. destruct (table_new _ _ _); simpl; [|done].
    destruct (max_rows_or_error r); simpl; [|done]. apply update_scheduled; [|done].
    intros x. by split.
Qed.

(** The reference predicate of the listing: open rows by [COALESCE]. *)
Definition coalesce_stuck (cutoff : instant) (r : RRow) : bool := open_row r && (due_at r <=? cutoff).

Lemma received_stuck_coalesce cutoff r :
  scheduled r -> received_stuck cutoff r = coalesce_stuck cutoff r.
Proof.
  intros [Hp Hr]. unfold received_stuck, coalesce_stuck, open_row, due_at, is_rstatus.
  destruct (r_status r) eqn:E; cbn; try done.
  - rewrite (Hp eq_refl). simpl. by rewrite orb_false_r.
  - destruct (Hr eq_refl) as [due ->]. done.
Qed.

(** The split predicate and the [COALESCE] it replaces select the same rows
    of every table the program can reach, whatever was inserted, failed,
    processed and redriven: a pending row carries no due time of its own, and a
    retryable one always carries one. *)
Theorem stuck_predicate_equiv (t : Received) (cutoff : instant) (Ht : received_reach t) :
  List.filter (received_stuck cutoff) t = List.filter (coalesce_stuck cutoff) t.
Proof.
  apply filter_ext_in. intros r Hr%list_elem_of_In. apply received_stuck_coalesce.
  pose proof (reach_scheduled t Ht) as Hs. rewrite Forall_forall in Hs. auto.
Qed.

(** When an outbox row's claim expired. *)
Definition expired_at (r : DbRow) : instant := default 0 (claim_expires_at r).
Definition claimed_out (r : DbRow) : Prop := status r = Publishing /\ claim_expires_at r <> None.
Definition awaiting (r : RRow) : Prop := open_row r = true.
Definition row_id (r : DbRow) : uuid := message_id r.

(** Overdue rows. Unless the threshold reaches back before the first
    representable instant, the listings answer: at most [limit] rows, the longest
    stuck first; each is a row whose claim expired (or which was due) at least the
    threshold ago, and the reported duration is that time, within [u64]; and a row
    that is stuck is listed, or the list is full of rows stuck at least as long. *)
Theorem overdue_rows (table : Table) (t : list DbRow) (t' : Received) (now : instant)
  (stuck_after : interval) (limit : Z)
  (Hlimit : 0 <= limit) (Hd : 0 <= stuck_after < (i64_max + 1) * NANOS)
  (Hrange : DATETIME_MIN <= now - stuck_after) (Ht : received_reach t') :
  (exists l, outbox_stuck_rows None table t now stuck_after limit = Returned (Ok l)
     /\ overdue_exact claimed_out expired_at row_id os_message_id os_stuck_for_ms now stuck_after limit t l)
  /\ (exists l, received_stuck_rows None table t' now stuck_after limit = Returned (Ok l)
     /\ overdue_exact awaiting due_at rrow_id rs_message_id rs_stuck_for_ms now stuck_after limit t' l).
Proof.
  unfold outbox_stuck_rows, received_stuck_rows, stuck_cutoff. cbv zeta.
  rewrite duration_to_time_id by done. rewrite (proj2 (Z.ltb_ge _ _)) by done. cbn [fetch mbind result_bind].
  split.
  - erewrite (mapM_total (outbox_stuck_row _ now)).
    2: { intros r. unfold outbox_stuck_row. rewrite outbox_parse. simpl. reflexivity. }
    eexists. split; [done|]. apply overdue_listing; try done; try lia; simpl.
    + intros r [_ Hc]. unfold expired_at. by destruct (claim_expires_at r).
    + intros a b [_ Ha] [_ Hb]. unfold lex_le, outbox_stuck_order, expired_at.
      destruct (claim_expires_at a), (claim_expires_at b); try done. apply lex_nulls_last.
    + intros r _. unfold outbox_stuck, claimed_out, expired_at, is_status.
      rewrite !andb_true_iff, !bool_decide_eq_true. destruct (claim_expires_at r); simpl; rewrite ?Z.leb_le; naive_solver.
  - erewrite (mapM_total (received_stuck_row _ now)).
    2: { intros r. unfold received_stuck_row. rewrite receive_parse. simpl. reflexivity. }
    eexists. split; [done|]. apply overdue_listing; try done; try lia; simpl.
    + intros a b _ _. apply lex_head.
    + intros r Hr. pose proof (reach_scheduled t' Ht) as Hs. rewrite Forall_forall in Hs.
      rewrite received_stuck_coalesce by auto. unfold coalesce_stuck, awaiting.
      by rewrite andb_true_iff, Z.leb_le.
Qed.

(** ** The catalog probes *)

(** A table the catalog lets the role read. *)
Definition readable (cat : Catalog) (t : Table) : bool := present_candidate cat (push_table_candidate t).

Lemma elem_of_table_candidates s ds cs c :
  table_candidates s ds = Ok cs ->
  c ∈ cs <-> exists d k t, d ∈ ds /\ k <> CacheKind /\ table_new k s d = Ok t /\ c = push_table_candidate t.
Proof.
  revert cs. induction ds as [|d ds IH]; intros cs.
  { intros [= <-]. split; [by intros ?%elem_of_nil|]. intros (d & k & t & Hd & _). by apply elem_of_nil in Hd. }
  cbn [table_candidates]. intros (ob & Hob & (rc & Hrc & (rest & Hrest & [= <-])%bind_Ok)%bind_Ok)%bind_Ok.
  rewrite !elem_of_cons, (IH rest Hrest). split.
  - intros [->|[->|(d' & k & t & Hd & Hk & Ht & ->)]].
    + exists d, OutboxKind, ob. split_and!; [by left|done..].
    + exists d, ReceivedKind, rc. split_and!; [by left|done..].
    + exists d', k, t. split_and!; [by right|done..].
  - intros (d' & k & t & [->|Hd]%elem_of_cons & Hk & Ht & ->); [|right; right; eauto 10].
    destruct k; [left|right; left|done]; congruence.
Qed.

(** The service tables are the readable tables of declared types. *)
Lemma elem_of_service_tables cat cfg tables n :
  service_tables None cat cfg = Ok tables ->
  n ∈ tables <-> exists d k t, d ∈ messages cfg /\ k <> CacheKind /\ table_new k (schema cfg) d = Ok t
    /\ readable cat t = true /\ n = qualified_name t.
Proof.
  unfold service_tables. intros (cs & Hcs & [= <-])%bind_Ok.
  rewrite elem_of_list_to_set, list_elem_of_In, in_map_iff. split.
  - intros (c & <- & Hc%list_elem_of_In). apply elem_of_sfilter in Hc as [Hc Hp].
    apply (elem_of_table_candidates _ _ _ _ Hcs) in Hc as (d & k & t & Hd & Hk & Ht & ->).
    exists d, k, t. by split_and!.
  - intros (d & k & t & Hd & Hk & Ht & Hr & ->). exists (push_table_candidate t). split; [done|].
    apply list_elem_of_In, elem_of_sfilter. split; [|done].
    apply (elem_of_table_candidates _ _ _ _ Hcs). eauto 10.
Qed.

(** An access probe is ready when the table is there with every privilege. *)
Lemma access_ready cat s t privileges :
  service_table_access None cat s t privileges = Ok Ready <->
  exists r, cat !! (s : string, t : string) = Some r /\ is_table r = true
    /\ forall p, p ∈ privileges -> granted r p = true.
Proof.
  unfold service_table_access. cbn [fetch mbind result_bind].
  destruct (cat !! (s : string, t : string)) as [r|] eqn:E; simpl; [|by split; [|intros (? & ? & _)]].
  split.
  - intros H. exists r. destruct (is_table r); [|done]. destruct (forallb _ _) eqn:Ep; [|done].
    split_and!; [done..|]. intros p Hp%list_elem_of_In. eapply forallb_forall in Ep; done.
  - intros (r' & [= <-] & -> & Hp). rewrite (proj2 (forallb_forall _ _)); [done|].
    intros p Hi%list_elem_of_In. auto.
Qed.

Module OpSample.
Definition table : Table := {| tbl_schema := "kafkaman"; tbl_name := "received_order_placed"; tbl_desc := RSample.descriptor |}.
Definition now : instant := 1000 * NANOS.

(** One row waiting since the epoch, one retryable, due half a second before [now]. *)
Definition waiting : Received := (insert_statement (RSample.msg 1 10 0) []).2.
Definition two : Received := (insert_statement (RSample.msg 2 11 0) waiting).2.
Definition failing : ReceivedFailureRecord :=
  failure_record_of (fresh_row (RSample.msg 2 11 0)) RSample.failing "boom" (now - NANOS).
Definition t : Received :=
  (record_received_failure retry_default (fun _ => NANOS / 2) failing two).2.

Lemma t_reach : received_reach t.
Proof. apply reach_failure, reach_insert, reach_insert, reach_empty. Qed.

Definition ids (l : unwinding (result Error (list ReceivedStuckRow))) : option (list uuid) :=
  match l with Returned (Ok l) => Some (map rs_message_id l) | _ => None end.

Lemma overdue_rows_witness :
  ids (received_stuck_rows None table t now (400 * NANOS_PER_MS) 10) = Some [1%N; 2%N]
  /\ ids (received_stuck_rows None table t now (600 * NANOS_PER_MS) 10) = Some [1%N]
  /\ exists l, received_stuck_rows None table t now (600 * NANOS_PER_MS) 10 = Returned (Ok l)
     /\ Z.of_nat (length l) <= 10.
Proof.
  split; [by vm_compute|]. split; [by vm_compute|].
  destruct (overdue_rows table [] t now (600 * NANOS_PER_MS) 10) as [_ (l & Hl & Hx)];
    [by vm_compute|by vm_compute|by vm_compute|exact t_reach|].
  exists l. split; [exact Hl|]. exact (oe_bound _ _ _ _ _ _ _ _ _ _ Hx).
Defined.

Lemma stuck_predicate_equiv_witness :
  length (List.filter (received_stuck (now - NANOS / 2)) t) = 2%nat
  /\ List.filter (received_stuck (now - NANOS / 2)) t = List.filter (coalesce_stuck (now - NANOS / 2)) t.
Proof. split; [by vm_compute|]. apply stuck_predicate_equiv. exact t_reach. Defined.
End OpSample.
