(* ===== verification/QueueMetrics.v ===== *)
(** * QueueMetrics: queue depth and age as gauges

    Models [src/crates/kafkaman-worker/src/queue_metrics.rs]: the sampler that
    refreshes one process-wide snapshot, the slot that admits one sampler at a
    time, and the callbacks that read the snapshot. A refresh is run against what
    it meets: the clock, what each table's query answers, and whether the timeout
    elapsed first. Ages in seconds are kept exact; the code rounds them to [f64]. *)

From Stdlib Require Import QArith.
From S2P Require Import Prelude Text Vocabulary Trace Identity Topics Registry Retry Outbox Received Lifecycle Relay Dispatch Worker Schema Operability.
Open Scope string_scope.
Open Scope list_scope.
Open Scope Z_scope.

(** ** Configuration *)

Record QueueMetricsConfig := {
  qm_refresh_interval : interval;
  qm_query_timeout : interval;
  qm_max_queue_age : interval;
}.

Definition queue_metrics_default : QueueMetricsConfig :=
  {| qm_refresh_interval := 15 * NANOS; qm_query_timeout := 5 * NANOS; qm_max_queue_age := 300 * NANOS |}.

Definition queue_metrics_validate (cfg : QueueMetricsConfig) : result WorkerError unit :=
  if qm_refresh_interval cfg =? 0 then Err (InvalidQueueMetricsConfig "refresh_interval" "must be greater than zero")
  else if qm_query_timeout cfg =? 0 then Err (InvalidQueueMetricsConfig "query_timeout" "must be greater than zero")
  else Ok tt.

(** ** Samples *)

Definition attributes : Type := (string * string) * (string * string).

Definition attrs (mt st : string) : attributes := (("message_type", mt), ("status", st)).

(** [Sample]: one bucket; an empty one has no age. *)
Record Sample := {
  sm_attrs : attributes;
  sm_depth : Z;
  sm_oldest_age_seconds : option Q;
}.

Record Snapshot := {
  sn_outbox : list Sample;
  sn_received : list Sample;
  sn_refreshed_at : option instant;
}.
Definition snapshot_default : Snapshot := {| sn_outbox := []; sn_received := []; sn_refreshed_at := None |}.

(** [Snapshot::age], [elapsed] being zero for an instant still to come. *)
Definition snapshot_age (s : Snapshot) (now : instant) : option interval :=
  (fun at_ => Z.max 0 (now - at_)) <$> sn_refreshed_at s.

(** [depth]: [u64::try_from], zero where it fails. *)
Definition depth (count : option Z) : Z := let n := default 0 count in if 0 <=? n then n else 0.

Definition age_seconds (age_ms : Z) : Q := age_ms # 1000.

(** The inner loop of [collect]: every status has a sample. *)
Definition samples_of {St} `{NamedEnum St} (mt : string) (summary : list (StatusSummary St)) : list Sample :=
  map (fun s =>
         let bucket := List.find (fun entry => bool_decide (su_status entry = s)) summary in
         {| sm_attrs := attrs mt (enum_str s); sm_depth := depth (su_count <$> bucket);
            sm_oldest_age_seconds := age_seconds <$> (bucket ≫= su_oldest_age_ms) |}) enum_ALL.

Fixpoint collect_side {St} `{NamedEnum St} (ask : Table -> result Error (list (StatusSummary St)))
  (tables : list Table) : result Error (list Sample) :=
  match tables with
  | [] => Ok []
  | t :: tables =>
      summary ← ask t;
      rest ← collect_side ask tables;
      Ok (samples_of (message_type (tbl_desc t)) summary ++ rest)
  end.

(** What a refresh meets. *)
Record Meets := {
  me_now : instant;
  me_outbox : Table -> option SqlxError * list DbRow;
  me_received : Table -> option SqlxError * Received;
  me_timed_out : bool;
  me_written_at : instant;
}.

Definition collect (me : Meets) (outbox received : list Table) (max_queue_age : interval)
  : result Error (list Sample * list Sample) :=
  o ← collect_side (fun t => outbox_status_summary (me_outbox me t).1 t (me_outbox me t).2 (me_now me) max_queue_age) outbox;
  r ← collect_side (fun t => received_status_summary (me_received me t).1 t (me_received me t).2 (me_now me) max_queue_age) received;
  Ok (o, r).

(** The snapshot behind its lock, which a panic while it is held poisons. *)
Record Shared := { sh_poisoned : bool; sh_snapshot : Snapshot }.

Definition refresh (cfg : QueueMetricsConfig) (outbox received : list Table) (me : Meets) (sh : Shared) : Shared :=
  if me_timed_out me then sh
  else
    match collect me outbox received (qm_max_queue_age cfg) with
    | Err _ => sh
    | Ok (o, r) =>
        if sh_poisoned sh then sh
        else {| sh_poisoned := false;
                sh_snapshot := {| sn_outbox := o; sn_received := r; sn_refreshed_at := Some (me_written_at me) |} |}
    end.

(** ** The callbacks *)

Inductive Queue := QOutbox | QReceived.

Definition with_samples (sh : Shared) (q : Queue) : list Sample :=
  if sh_poisoned sh then []
  else match q with QOutbox => sn_outbox (sh_snapshot sh) | QReceived => sn_received (sh_snapshot sh) end.

Definition observe_depth (sh : Shared) (q : Queue) : list (Z * attributes) :=
  map (fun s => (sm_depth s, sm_attrs s)) (with_samples sh q).

Definition observe_age (sh : Shared) (q : Queue) : list (Q * attributes) :=
  omap (fun s => (fun age => (age, sm_attrs s)) <$> sm_oldest_age_seconds s) (with_samples sh q).

(** The callback of [kafkaman.queue.sample_age], which reports the age in seconds. *)
Definition observe_sample_age (now : instant) (sh : Shared) : list Q :=
  if sh_poisoned sh then []
  else match snapshot_age (sh_snapshot sh) now with
       | Some age => [age # 1000000000]
       | None => []
       end.

(** An observable gauge: how it is called, and the points its callback reports. *)
Record ObservableGauge (Point : Type) := {
  gg_name : string;
  gg_description : string;
  gg_unit : string;
  gg_callback : instant -> Shared -> list Point;
}.
Arguments gg_name {Point}.
Arguments gg_description {Point}.
Arguments gg_unit {Point}.
Arguments gg_callback {Point}.

Record Gauges := {
  g_outbox_depth : ObservableGauge (Z * attributes);
  g_outbox_oldest_age : ObservableGauge (Q * attributes);
  g_received_depth : ObservableGauge (Z * attributes);
  g_received_oldest_age : ObservableGauge (Q * attributes);
  g_sample_age : ObservableGauge Q;
}.

(** [register]: the gauges, whose callbacks read the shared snapshot. *)
Definition register_gauges : Gauges :=
  {| g_outbox_depth :=
       {| gg_name := "kafkaman.outbox.depth"; gg_description := "Outbox rows in each status";
          gg_unit := "{row}"; gg_callback _ sh := observe_depth sh QOutbox |};
     g_outbox_oldest_age :=
       {| gg_name := "kafkaman.outbox.oldest_age";
          gg_description := "Age of the oldest outbox row in each status";
          gg_unit := "s"; gg_callback _ sh := observe_age sh QOutbox |};
     g_received_depth :=
       {| gg_name := "kafkaman.received.depth"; gg_description := "Received rows in each status";
          gg_unit := "{row}"; gg_callback _ sh := observe_depth sh QReceived |};
     g_received_oldest_age :=
       {| gg_name := "kafkaman.received.oldest_age";
          gg_description := "Age of the oldest received row in each status";
          gg_unit := "s"; gg_callback _ sh := observe_age sh QReceived |};
     g_sample_age :=
       {| gg_name := "kafkaman.queue.sample_age";
          gg_description := "Age of the snapshot behind the kafkaman queue gauges";
          gg_unit := "s"; gg_callback := observe_sample_age |} |}.

(** ** The process-wide statics *)

(** [REGISTRATION] and [RUNNING]. *)
Record Process := { pr_registration : option Shared; pr_running : bool }.
Definition process_new : Process := {| pr_registration := None; pr_running := false |}.

Definition claim (p : Process) : result WorkerError Process :=
  if pr_running p then Err QueueMetricsAlreadyRunning
  else Ok {| pr_registration := pr_registration p; pr_running := true |}.
Definition release (p : Process) : Process := {| pr_registration := pr_registration p; pr_running := false |}.

Definition registration (p : Process) : Shared :=
  default {| sh_poisoned := false; sh_snapshot := snapshot_default |} (pr_registration p).
Definition register (p : Process) : Process :=
  {| pr_registration := Some (registration p); pr_running := pr_running p |}.

Definition set_shared (sh : Shared) (p : Process) : Process :=
  {| pr_registration := Some sh; pr_running := pr_running p |}.

(** The start of [run_queue_metrics], up to its loop. *)
Definition sampler_start (cfg : QueueMetricsConfig) (p : Process) : result WorkerError Process :=
  _ ← queue_metrics_validate cfg; p ← claim p; Ok (register p).

Definition refresh_process (cfg : QueueMetricsConfig) (outbox received : list Table) (me : Meets) (p : Process)
  : Process := set_shared (refresh cfg outbox received me (registration p)) p.

(** What an iteration meets. *)
Record Turn := { tn_cancelled : bool; tn_meets : Meets; tn_slept : bool }.

Fixpoint sampler_loop (cfg : QueueMetricsConfig) (outbox received : list Table) (turns : list Turn) (p : Process)
  : Loop unit * Process :=
  match turns with
  | [] => (Running tt, p)
  | tn :: turns =>
      if tn_cancelled tn then (Stopped (Ok tt), p)
      else
        let p := refresh_process cfg outbox received (tn_meets tn) p in
        if tn_slept tn then sampler_loop cfg outbox received turns p else (Stopped (Ok tt), p)
  end.

(** [run_queue_metrics]: the slot is given back when the loop ends. *)
Definition run_queue_metrics (cfg : QueueMetricsConfig) (outbox received : list Table) (turns : list Turn)
  (p : Process) : Loop unit * Process :=
  match sampler_start cfg p with
  | Err e => (Stopped (Err e), p)
  | Ok p =>
      match sampler_loop cfg outbox received turns p with
      | (Stopped r, p) => (Stopped r, release p)
      | (Running u, p) => (Running u, p)
      end
  end.

(** ** What a sample says *)

Lemma depth_nat n : depth (Some (Z.of_nat n)) = Z.of_nat n.
Proof. unfold depth. simpl. by destruct (Z.leb_spec 0 (Z.of_nat n)); [|lia]. Qed.

Section samples.
Context {R St : Type} `{NamedEnum St} (st : R -> St) (created : R -> instant) (terminal : St -> bool).
Context (mt : string) (now : instant) (max_queue_age : interval) (t : list R).

(** The rows of a status, their number and the age of the oldest. *)
Definition bucket (s : St) : list R := List.filter (fun r => bool_decide (st r = s)) t.
Definition true_depth (s : St) : Z := Z.of_nat (length (bucket s)).
Definition true_age (s : St) : option Q :=
  (fun c => age_seconds (age_ms_since now c)) <$> sql_min (map created (bucket s)).

Lemma elem_of_bucket s r : r ∈ bucket s <-> r ∈ t /\ st r = s.
Proof. unfold bucket. by rewrite elem_of_sfilter, bool_decide_eq_true. Qed.

Lemma bucket_oldest s r :
  r ∈ t -> st r = s -> (forall r', r' ∈ t -> st r' = s -> created r <= created r') ->
  sql_min (map created (bucket s)) = Some (created r).
Proof.
  intros Hr Hs Hle. assert (Hin : r ∈ bucket s) by by apply elem_of_bucket.
  destruct (sql_min (map created (bucket s))) as [m|] eqn:Em.
  - apply sql_min_Some in Em as [Hm Hmin].
    apply list_elem_of_In, in_map_iff in Hm as (x & <- & [Hx Hxs]%list_elem_of_In%elem_of_bucket). f_equal.
    apply Z.le_antisymm; [|by apply Hle]. apply Hmin. by apply list_elem_of_In, in_map, list_elem_of_In.
  - unfold sql_min in Em. destruct (bucket s); [by apply elem_of_nil in Hin|done].
Qed.

Lemma bucket_absent s l :
  summary_exact st created terminal mt now max_queue_age t l ->
  List.find (fun e => bool_decide (su_status e = s)) l = None -> bucket s = [].
Proof.
  intros Hex Hf. destruct (bucket s) as [|r rs] eqn:Eb; [done|]. exfalso.
  assert (Hr : r ∈ bucket s) by (rewrite Eb; by left). apply elem_of_bucket in Hr as [Hr Hs].
  assert (Hin : s ∈ map su_status l) by (apply (se_buckets _ _ _ _ _ _ _ _ Hex); eauto).
  apply list_elem_of_In, in_map_iff in Hin as (b & <- & Hb).
  pose proof (List.find_none _ _ Hf b Hb) as Hn. by apply bool_decide_eq_false in Hn.
Qed.

(** A summary of the table gives each status its depth and its age. *)
Lemma samples_true l :
  summary_exact st created terminal mt now max_queue_age t l ->
  samples_of mt l = map (fun s => {| sm_attrs := attrs mt (enum_str s); sm_depth := true_depth s;
                                     sm_oldest_age_seconds := true_age s |}) enum_ALL.
Proof.
  intros Hex. unfold samples_of. apply map_ext. intros s. cbv zeta. unfold true_depth, true_age.
  destruct (List.find _ l) as [b|] eqn:Ef.
  - apply List.find_some in Ef as [Hb%list_elem_of_In Hs%bool_decide_eq_true]. subst s.
    destruct (se_bucket _ _ _ _ _ _ _ _ Hex b Hb) as (_ & Hc & (r & Hr & Hs & _ & Ha & Hle) & _).
    rewrite (bucket_oldest _ r Hr Hs Hle). cbn [fmap option_fmap option_map mbind option_bind default].
    by rewrite Ha, Hc, depth_nat.
  - rewrite (bucket_absent s l Hex Ef). done.
Qed.
End samples.

(** The series a snapshot of these rows has to give. *)
Definition depth_series {R St} `{NamedEnum St} (st : R -> St) (rows : Table -> list R) (tables : list Table)
  : list (Z * attributes) :=
  tables ≫= fun t => map (fun s => (true_depth st (rows t) s, attrs (message_type (tbl_desc t)) (enum_str s))) enum_ALL.
Definition age_series {R St} `{NamedEnum St} (st : R -> St) (created : R -> instant) (now : instant)
  (rows : Table -> list R) (tables : list Table) : list (Q * attributes) :=
  tables ≫= fun t => omap (fun s => (fun age => (age, attrs (message_type (tbl_desc t)) (enum_str s)))
                                     <$> true_age st created now (rows t) s) enum_ALL.

Definition depths (l : list Sample) : list (Z * attributes) := map (fun s => (sm_depth s, sm_attrs s)) l.
Definition ages (l : list Sample) : list (Q * attributes) :=
  omap (fun s => (fun age => (age, sm_attrs s)) <$> sm_oldest_age_seconds s) l.

Lemma omap_over_map {X Y V} (render : X -> Y) (pick : Y -> option V) xs :
  omap pick (map render xs) = omap (pick ∘ render) xs.
Proof. induction xs as [|y ys E]; [done|]. simpl. destruct (pick (render y)) as [v|]; [exact (f_equal (cons v) E)|exact E]. Qed.

Lemma collect_side_true {R St} `{NamedEnum St} (st : R -> St) (created : R -> instant) (terminal : St -> bool)
  now max_queue_age (ask : Table -> result Error (list (StatusSummary St))) (rows : Table -> list R) tables :
  (forall t, t ∈ tables -> exists l, ask t = Ok l
     /\ summary_exact st created terminal (message_type (tbl_desc t)) now max_queue_age (rows t) l) ->
  exists l, collect_side ask tables = Ok l /\ depths l = depth_series st rows tables
    /\ ages l = age_series st created now rows tables.
Proof.
  induction tables as [|t tables IH]; intros Hask; [by exists []|].
  destruct (Hask t) as (l & Hl & Hex); [by left|].
  destruct IH as (ls & Hls & Hd & Ha); [intros t' Ht'; apply Hask; by right|].
  exists (samples_of (message_type (tbl_desc t)) l ++ ls). cbn [collect_side]. rewrite Hl. cbn [mbind result_bind].
  rewrite Hls. cbn [mbind result_bind]. split; [done|].
  rewrite (samples_true st created terminal _ now max_queue_age (rows t) l Hex).
  unfold depths, ages, depth_series, age_series in *. rewrite map_app, omap_app, Hd, Ha. simpl. split; f_equal.
  - by rewrite map_map.
  - by rewrite omap_over_map.
Qed.

Lemma collect_side_asked {St} `{NamedEnum St} (ask : Table -> result Error (list (StatusSummary St))) tables l :
  collect_side ask tables = Ok l -> forall t, t ∈ tables -> exists s, ask t = Ok s.
Proof.
  revert l. induction tables as [|t tables IH]; intros l Hl t' Ht'; [by apply elem_of_nil in Ht'|].
  cbn [collect_side] in Hl. apply bind_Ok in Hl as (s & Hs & (rest & Hr & _)%bind_Ok).
  apply elem_of_cons in Ht' as [->|Ht']; eauto.
Qed.

(** A refresh no query of which fails. *)
Definition answered (me : Meets) (outbox received : list Table) : Prop :=
  (forall t, t ∈ outbox -> (me_outbox me t).1 = None) /\ forall t, t ∈ received -> (me_received me t).1 = None.

Lemma collect_true me outbox received max_queue_age :
  answered me outbox received ->
  exists o r, collect me outbox received max_queue_age = Ok (o, r)
    /\ depths o = depth_series status (fun t => (me_outbox me t).2) outbox
    /\ ages o = age_series status row_created (me_now me) (fun t => (me_outbox me t).2) outbox
    /\ depths r = depth_series r_status (fun t => (me_received me t).2) received
    /\ ages r = age_series r_status row_age (me_now me) (fun t => (me_received me t).2) received.
Proof.
  intros [Ho Hr]. unfold collect.
  destruct (collect_side_true status row_created outbox_is_terminal (me_now me) max_queue_age
    (fun t => outbox_status_summary (me_outbox me t).1 t (me_outbox me t).2 (me_now me) max_queue_age)
    (fun t => (me_outbox me t).2) outbox) as (o & -> & Hod & Hoa).
  { intros t Ht. rewrite (Ho t Ht). apply (summary_correct status), outbox_parse. }
  destruct (collect_side_true r_status row_age receive_is_terminal (me_now me) max_queue_age
    (fun t => received_status_summary (me_received me t).1 t (me_received me t).2 (me_now me) max_queue_age)
    (fun t => (me_received me t).2) received) as (r & -> & Hrd & Hra).
  { intros t Ht. rewrite (Hr t Ht). apply (summary_correct r_status), receive_parse. }
  exists o, r. by split_and!.
Qed.

Lemma collect_answered me outbox received max_queue_age x :
  collect me outbox received max_queue_age = Ok x -> answered me outbox received.
Proof.
  unfold collect. intros (o & Ho & (r & Hr & _)%bind_Ok)%bind_Ok.
  assert (Hf : forall A C (fault : option SqlxError) (a : A) (f : A -> result Error C) c, (x ← fetch fault a; f x) = Ok c -> fault = None)
    by (intros A C [e|] a f c; done).
  split; intros t Ht.
  - destruct (collect_side_asked _ _ _ Ho t Ht) as [s Hs]. by eapply Hf.
  - destruct (collect_side_asked _ _ _ Hr t Ht) as [s Hs]. by eapply Hf.
Qed.

(** The gauges say what the tables hold. After a refresh whose queries are
    answered in time, the depth series has one point for every table and status,
    zeros included, each the number of rows in that status; the age series has a
    point for exactly the statuses that have rows, the age of the oldest; and the
    sample age counts from that refresh. A refresh that times out, or one query of
    which fails, leaves the snapshot as it was, so the same points keep being
    reported and only the sample age climbs. *)
Theorem gauges_exact (cfg : QueueMetricsConfig) (outbox received : list Table) (me : Meets) (sh : Shared)
  (Hlock : sh_poisoned sh = false) :
  let sh' := refresh cfg outbox received me sh in
  (me_timed_out me = true \/ ~ answered me outbox received -> sh' = sh)
  /\ (me_timed_out me = false -> answered me outbox received ->
      observe_depth sh' QOutbox = depth_series status (fun t => (me_outbox me t).2) outbox
      /\ observe_age sh' QOutbox = age_series status row_created (me_now me) (fun t => (me_outbox me t).2) outbox
      /\ observe_depth sh' QReceived = depth_series r_status (fun t => (me_received me t).2) received
      /\ observe_age sh' QReceived = age_series r_status row_age (me_now me) (fun t => (me_received me t).2) received
      /\ forall later, me_written_at me <= later ->
           observe_sample_age later sh' = [(later - me_written_at me) # 1000000000]).
Proof.
  cbv zeta. unfold refresh. split.
  - intros [->|Hno]; [done|]. destruct (me_timed_out me); [done|].
    destruct (collect _ _ _ _) as [[o r]|e] eqn:Ec; [|done]. by apply collect_answered in Ec.
  - intros -> Hans.
    destruct (collect_true me outbox received (qm_max_queue_age cfg) Hans) as (o & r & -> & Hod & Hoa & Hrd & Hra).
    rewrite Hlock. unfold observe_depth, observe_age, observe_sample_age, with_samples, snapshot_age. cbn.
    split_and!; [done..|]. intros later Hl. by rewrite Z.max_r by lia.
Qed.

(** ** One sampler *)

(** The process and the samplers that are in their loop. *)
Record System := { sy_process : Process; sy_live : list N }.
Definition system_new : System := {| sy_process := process_new; sy_live := [] |}.

(** Samplers start, refresh and end, by shutdown or by unwinding, in any order; a
    start that is refused changes nothing; and a panic may poison the lock. *)
Inductive sampler_step : System -> System -> Prop :=
| sp_start i cfg p p' live :
    i ∉ live -> sampler_start cfg p = Ok p' ->
    sampler_step {| sy_process := p; sy_live := live |} {| sy_process := p'; sy_live := i :: live |}
| sp_refresh i cfg outbox received me p live :
    i ∈ live ->
    sampler_step {| sy_process := p; sy_live := live |}
                 {| sy_process := refresh_process cfg outbox received me p; sy_live := live |}
| sp_end i p live :
    i ∈ live ->
    sampler_step {| sy_process := p; sy_live := live |}
                 {| sy_process := release p; sy_live := List.filter (fun j => negb (N.eqb i j)) live |}
| sp_poison p live sh :
    pr_registration p = Some sh ->
    sampler_step {| sy_process := p; sy_live := live |}
                 {| sy_process := set_shared {| sh_poisoned := true; sh_snapshot := sh_snapshot sh |} p; sy_live := live |}.

(** A snapshot is the initial one or what one refresh collected. *)
Definition whole (s : Snapshot) : Prop :=
  s = snapshot_default
  \/ exists cfg outbox received me, collect me outbox received (qm_max_queue_age cfg) = Ok (sn_outbox s, sn_received s)
       /\ sn_refreshed_at s = Some (me_written_at me).

Record system_inv (s : System) : Prop := {
  si_single : if pr_running (sy_process s) then exists i, sy_live s = [i] else sy_live s = [];
  si_whole : whole (sh_snapshot (registration (sy_process s)));
}.

Lemma refresh_whole cfg outbox received me sh :
  whole (sh_snapshot sh) -> whole (sh_snapshot (refresh cfg outbox received me sh)).
Proof.
  intros Hw. unfold refresh. destruct (me_timed_out me); [done|].
  destruct (collect _ _ _ _) as [[o r]|e] eqn:Ec; [|done]. destruct (sh_poisoned sh); [done|].
  right. exists cfg, outbox, received, me. done.
Qed.

Lemma sampler_start_Ok cfg p p' :
  sampler_start cfg p = Ok p' -> pr_running p = false /\ pr_running p' = true /\ registration p' = registration p.
Proof.
  unfold sampler_start, claim. intros (_ & _ & (q & Hq & [= <-])%bind_Ok)%bind_Ok.
  destruct (pr_running p); [done|]. by injection Hq as <-.
Qed.

Lemma sampler_step_inv s s' : sampler_step s s' -> system_inv s -> system_inv s'.
Proof.
  intros Hs [H1 H2]. destruct Hs as [i cfg p p' live _ Hp|i cfg os rs me p live Hi|i p live Hi|p live sh Hsh];
    cbn [sy_process sy_live] in *.
  - apply sampler_start_Ok in Hp as (Hf & Ht & Hr). split; cbn [sy_process sy_live]; rewrite ?Ht, ?Hr; [|done].
    rewrite Hf in H1. subst. eauto.
  - split; [done|]. by apply refresh_whole.
  - split; [|done]. cbn [sy_process sy_live release pr_running].
    destruct (pr_running p); [destruct H1 as [j ->]|subst; by apply elem_of_nil in Hi].
    apply list_elem_of_singleton in Hi as ->. simpl. by rewrite N.eqb_refl.
  - split; [done|]. unfold registration in H2. rewrite Hsh in H2. exact H2.
Qed.

Lemma sampler_steps_inv s s' : rtc sampler_step s s' -> system_inv s -> system_inv s'.
Proof. induction 1; eauto using sampler_step_inv. Qed.

(** One sampler at a time, and never a mixed snapshot. However starts,
    refreshes, ends and panics interleave, at most one sampler is in its loop, so
    no two write over each other; when none is, the slot is free and a sampler
    with a valid configuration starts; and what the callbacks read is always the
    result of a single collection with its own timestamp, never half old and half
    new. *)
Theorem sampler_exclusive (s : System) (Hreach : rtc sampler_step system_new s) :
  (length (sy_live s) <= 1)%nat
  /\ (sy_live s = [] -> forall cfg, queue_metrics_validate cfg = Ok tt -> exists p', sampler_start cfg (sy_process s) = Ok p')
  /\ (sy_live s <> [] -> forall cfg, queue_metrics_validate cfg = Ok tt ->
        sampler_start cfg (sy_process s) = Err QueueMetricsAlreadyRunning)
  /\ whole (sh_snapshot (registration (sy_process s))).
Proof.
  destruct (sampler_steps_inv _ _ Hreach) as [H1 H2]; [by split; [|left]|].
  unfold sampler_start, claim. destruct (pr_running (sy_process s)).
  - destruct H1 as [i Hi]. rewrite Hi. split_and!; [simpl; lia|done| |done]. intros _ cfg Hv. by rewrite Hv.
  - rewrite H1. split_and!; [simpl; lia| |done|done]. intros _ cfg Hv. rewrite Hv. simpl. eauto.
Qed.

Lemma filter_fresh (i : N) live : i ∉ live -> List.filter (fun j => negb (N.eqb i j)) (i :: live) = live.
Proof.
  intros Hi. simpl. rewrite N.eqb_refl. simpl. induction live as [|j live IH]; [done|].
  apply not_elem_of_cons in Hi as [Hne Hi]. simpl. apply N.eqb_neq in Hne as ->. simpl. by rewrite IH.
Qed.

Lemma loop_steps cfg outbox received turns i live : forall p,
  i ∈ live ->
  rtc sampler_step {| sy_process := p; sy_live := live |}
    {| sy_process := (sampler_loop cfg outbox received turns p).2; sy_live := live |}.
Proof.
  induction turns as [|tn turns IH]; intros p Hi; cbn [sampler_loop]; [done|].
  destruct (tn_cancelled tn); [done|]. eapply rtc_l; [by apply (sp_refresh i cfg outbox received (tn_meets tn))|].
  destruct (tn_slept tn); [by apply IH|done].
Qed.

(** The loop goes on until the token is seen. *)
Definition saw_shutdown (tn : Turn) : bool := tn_cancelled tn || negb (tn_slept tn).

Lemma loop_outcome cfg outbox received turns : forall p,
  (sampler_loop cfg outbox received turns p).1 = if existsb saw_shutdown turns then Stopped (Ok tt) else Running tt.
Proof.
  induction turns as [|tn turns IH]; intros p; [done|]. cbn [sampler_loop existsb]. unfold saw_shutdown at 1.
  destruct (tn_cancelled tn); [done|]. destruct (tn_slept tn); [by rewrite IH|done].
Qed.

(** The sampler's code implements that machine. A run that is admitted takes
    only its steps: it starts, refreshes and, once the token is cancelled, ends,
    giving the slot back; it stops for no other reason, whatever its queries
    answer. A run that is refused, for its configuration or because another is
    running, changes nothing. *)
Theorem sampler_refines (cfg : QueueMetricsConfig) (outbox received : list Table) (turns : list Turn) (p : Process)
  (i : N) (live : list N) (Hfresh : i ∉ live) :
  let '(r, p') := run_queue_metrics cfg outbox received turns p in
  match sampler_start cfg p with
  | Err e => r = Stopped (Err e) /\ p' = p
  | Ok _ =>
      r = (if existsb saw_shutdown turns then Stopped (Ok tt) else Running tt)
      /\ pr_running p' = negb (existsb saw_shutdown turns)
      /\ rtc sampler_step {| sy_process := p; sy_live := live |}
           {| sy_process := p'; sy_live := if existsb saw_shutdown turns then live else i :: live |}
  end.
Proof.
  unfold run_queue_metrics. destruct (sampler_start cfg p) as [q|e] eqn:Hs; [|done].
  pose proof (loop_outcome cfg outbox received turns q) as Ho.
  pose proof (loop_steps cfg outbox received turns i (i :: live) q ltac:(by left)) as Hl.
  assert (Hrun : pr_running (sampler_loop cfg outbox received turns q).2 = true).
  { apply sampler_start_Ok in Hs as (_ & Hq & _). clear Ho Hl. revert q Hq. induction turns as [|tn turns IH]; intros q Hq; [done|].
    cbn [sampler_loop]. destruct (tn_cancelled tn); [done|]. destruct (tn_slept tn); [by apply IH|done]. }
  destruct (sampler_loop cfg outbox received turns q) as [r p'] eqn:El. cbn [fst snd] in *. subst r.
  assert (Hstart : sampler_step {| sy_process := p; sy_live := live |} {| sy_process := q; sy_live := i :: live |})
    by by eapply sp_start.
  destruct (existsb saw_shutdown turns); split_and!; [done|done| |done|by rewrite Hrun|by eapply rtc_l].
  eapply rtc_l; [exact Hstart|]. eapply rtc_r; [exact Hl|]. rewrite <- (filter_fresh i live Hfresh) at 2.
  apply sp_end. by left.
Qed.

(** ** Example: one received table with two rows *)

Module QmSample.
Definition table : Table :=
  {| tbl_schema := "kafkaman"; tbl_name := "received_order_placed"; tbl_desc := RSample.descriptor |}.
Definition rows : Received := OpSample.two.
Definition calm (at_ : instant) : Meets :=
  {| me_now := 1000 * NANOS; me_outbox _ := (None, []); me_received _ := (None, rows); me_timed_out := false;
     me_written_at := at_ |}.
Definition broken : Meets :=
  {| me_now := 0; me_outbox _ := (Some (SqlxOther "gone"), []); me_received _ := (None, []); me_timed_out := false;
     me_written_at := 0 |}.
Definition empty : Shared := {| sh_poisoned := false; sh_snapshot := snapshot_default |}.

Lemma gauges_exact_witness :
  map fst (observe_depth (refresh queue_metrics_default [] [table] (calm 5) empty) QReceived) = [2; 0; 0; 0]
  /\ observe_sample_age 8 (refresh queue_metrics_default [] [table] (calm 5) empty) = [3 # 1000000000].
Proof.
  destruct (gauges_exact queue_metrics_default [] [table] (calm 5) empty eq_refl) as [_ Hok].
  assert (Ha : answered (calm 5) [] [table]) by by split.
  destruct (Hok eq_refl Ha) as (_ & _ & H1 & _ & H2). rewrite H1, (H2 8) by (simpl; lia). split; by vm_compute.
Defined.

Lemma sampler_exclusive_witness :
  sampler_start queue_metrics_default (run_queue_metrics queue_metrics_default [] [table]
    [{| tn_cancelled := false; tn_meets := calm 5; tn_slept := true |}] process_new).2 = Err QueueMetricsAlreadyRunning.
Proof.
  set (s := {| sy_process := (run_queue_metrics queue_metrics_default [] [table]
    [{| tn_cancelled := false; tn_meets := calm 5; tn_slept := true |}] process_new).2; sy_live := [1%N] |}).
  assert (Hs : rtc sampler_step system_new s).
  { eapply rtc_l; [eapply (sp_start 1%N queue_metrics_default); [apply not_elem_of_nil|reflexivity]|].
    eapply rtc_l; [by apply (sp_refresh 1%N queue_metrics_default [] [table] (calm 5)); left|]. done. }
  by apply (sampler_exclusive s Hs).
Defined.

Lemma sampler_refines_witness :
  (run_queue_metrics queue_metrics_default [table] [table]
    [{| tn_cancelled := false; tn_meets := broken; tn_slept := true |};
     {| tn_cancelled := true; tn_meets := broken; tn_slept := true |}] process_new).1 = Stopped (Ok tt).
Proof.
  pose proof (sampler_refines queue_metrics_default [table] [table]
    [{| tn_cancelled := false; tn_meets := broken; tn_slept := true |};
     {| tn_cancelled := true; tn_meets := broken; tn_slept := true |}] process_new 1%N [] (not_elem_of_nil _)) as Hr.
  destruct (run_queue_metrics _ _ _ _ _) as [r p']. by destruct Hr as [-> _].
Defined.
End QmSample.
