(* ===== verification/Admin.v ===== *)
(** * Admin: the operator routes

    Models [src/crates/kafkaman-axum/src/admin.rs], [redrive.rs], [error.rs] and
    [correlation.rs]: which status and body a failure earns, the read-only
    summary routes over the catalog and the tables, the redrive route, and the
    correlation id of a request. Routing, extraction and serialisation belong to
    axum. A handler that panics is a value of [unwinding], as elsewhere. *)

From S2P Require Import Prelude Text Vocabulary Trace Identity Topics Registry Retry Outbox Received Lifecycle Relay Worker Decimal Schema Config Operability.
Open Scope string_scope.
Open Scope list_scope.
Open Scope Z_scope.

(** ** Failures and the status each earns *)

Inductive AdminError :=
| BadRequest (message : string)
| UnusableServiceTables (message_types : list string)
| ASqlx (e : Error)
| AUnknownMessageType (message_type : string)
| NotRedrivable (message_type : string) (access : TableAccess).

(** [From<kafkaman_sqlx::Error> for AdminError]. *)
Definition admin_error_of (e : Error) : AdminError :=
  match e with
  | EInvalidReplay version message =>
      BadRequest ("invalid replay changeset " +:+ pretty version +:+ ": " +:+ message)
  | e => ASqlx e
  end.




(** [Display for AdminError], with the text of a storage error a parameter. *)
Definition admin_display (error_text : Error -> string) (e : AdminError) : string :=
  match e with
  | BadRequest message => "bad request: " +:+ message
  | UnusableServiceTables mts => "no readable kafkaman table for message type(s) " +:+ str_join ", " mts
  | ASqlx e => "storage error: " +:+ error_text e
  | AUnknownMessageType mt => "message type `" +:+ mt +:+ "` is not registered"
  | NotRedrivable mt access =>
      "message type `" +:+ mt +:+ "` "
      +:+ (if is_ready access || bool_decide (access = TableMissing)
           then "has no dead-letter queue in this service"
           else "has a dead-letter queue in this service, but it cannot be read")
      +:+ ": " +:+ repair access
  end.

(** ** What the routes read *)

(** The statements a request makes, each of which may fail. *)
Inductive Query :=
| QPing | QCatalog | QQuarantine
| QAccess (table : string) | QSummary (table : string) | QStuck (table : string)
| QCount (table : string) | QPage (table : string) | QRedrive (table : string).

(** The database behind a request: the catalog and the tables by qualified name. *)
Record Store := {
  st_catalog : Catalog;
  st_outbox : gmap string (list DbRow);
  st_received : gmap string (list RRow);
  st_quarantine : list QuarantineRow;
}.

(** The environment of a request: the configuration, which statements fail, the
    clock, and the collation of the database. *)
Record Request := {
  rq_cfg : Resolved;
  rq_fault : Query -> option SqlxError;
  rq_now : instant;
  rq_strxfrm : string -> list Z;
}.

(** A handler's answer. *)
Definition Handler (A : Type) : Type := unwinding (result AdminError A).
#[global] Instance handler_ret : MRet Handler := fun A a => Returned (Ok a).
#[global] Instance handler_bind : MBind Handler := fun A B f m =>
  match m with
  | Returned (Ok a) => f a
  | Returned (Err e) => Returned (Err e)
  | Panicked p => Panicked p
  end.

(** The [?] operator on a storage result. *)
Definition storage {A} (r : result Error A) : Handler A :=
  Returned (match r with Ok a => Ok a | Err e => Err (admin_error_of e) end).
Definition storage_unwinding {A} (r : unwinding (result Error A)) : Handler A :=
  match r with Returned r => storage r | Panicked p => Panicked p end.

(** A query on a table: its rows, and the error it answers instead, which a
    table that is not there gives too. *)
Definition undefined_table : SqlxError := SqlxDatabase OtherKind (Some "42P01") "relation does not exist".
Definition rows_of {R} (tables : gmap string (list R)) (name : string) : list R := default [] (tables !! name).
Definition fault_of {R} (tables : gmap string (list R)) (name : string) (fault : option SqlxError)
  : option SqlxError :=
  match fault, tables !! name with
  | Some e, _ => Some e
  | None, None => Some undefined_table
  | None, Some _ => None
  end.

(** ** The read-only routes *)

Definition health : Z := 200.
Definition ready (rq : Request) : Z := match rq_fault rq QPing with None => 200 | Some _ => 503 end.


(** The loop of [ensure_service_tables]. *)
Fixpoint unusable_types (s : SqlIdentifier) (tables : ServiceTables) (ds : list MessageDescriptor)
  : result Error (list string) :=
  match ds with
  | [] => Ok []
  | d :: ds =>
      outbox ← table_new OutboxKind s d;
      received ← table_new ReceivedKind s d;
      rest ← unusable_types s tables ds;
      Ok (if bool_decide (qualified_name outbox ∉ tables) && bool_decide (qualified_name received ∉ tables)
          then message_type d :: rest else rest)
  end.

Definition ensure_service_tables (cfg : ResolvedConfig) (tables : ServiceTables) : Handler unit :=
  unusable ← storage (unusable_types (schema cfg) tables (messages cfg));
  Returned (match unusable with [] => Ok tt | _ => Err (UnusableServiceTables unusable) end).

Section routes.
Context (rq : Request) (db : Store).

Let cfg : ResolvedConfig := base (rq_cfg rq).
Let policy (d : MessageDescriptor) : ObservabilityPolicy :=
  observability_policy_for (rc_observability (rq_cfg rq)) (message_type d).

(** The two reads every summary starts with. *)
Definition usable_tables : Handler ServiceTables :=
  tables ← storage (service_tables (rq_fault rq QCatalog) (st_catalog db) cfg);
  _ ← ensure_service_tables cfg tables;
  mret tables.

(** One query per declared type that has the table, in declaration order. *)
Fixpoint per_type {A} (kind : TableKind) (tables : ServiceTables)
  (ask : MessageDescriptor -> Table -> Handler (list A)) (ds : list MessageDescriptor) : Handler (list A) :=
  match ds with
  | [] => mret []
  | d :: ds =>
      table ← storage (table_new kind (schema cfg) d);
      batch ← (if bool_decide (qualified_name table ∈ tables) then ask d table else mret []);
      rest ← per_type kind tables ask ds;
      mret (batch ++ rest)
  end.

Definition ask_outbox (d : MessageDescriptor) (table : Table) : Handler (list OutboxStatusSummary) :=
  let n := qualified_name table in
  storage (outbox_status_summary (fault_of (st_outbox db) n (rq_fault rq (QSummary n))) table
             (rows_of (st_outbox db) n) (rq_now rq) (op_max_queue_age (policy d))).

Definition outbox_summary : Handler (list OutboxStatusSummary) :=
  tables ← usable_tables; per_type OutboxKind tables ask_outbox (messages cfg).

Definition ask_received (d : MessageDescriptor) (table : Table) : Handler (list ReceivedStatusSummary) :=
  let n := qualified_name table in
  storage (received_status_summary (fault_of (st_received db) n (rq_fault rq (QSummary n))) table
             (rows_of (st_received db) n) (rq_now rq) (op_max_queue_age (policy d))).

Definition received_summary : Handler (list ReceivedStatusSummary) :=
  tables ← usable_tables; per_type ReceivedKind tables ask_received (messages cfg).

Definition ingest_failure_summary : Handler (list ReceivedIngestFailureSummary) :=
  storage (received_ingest_failure_summary (rq_fault rq QQuarantine) (rq_strxfrm rq) cfg (st_quarantine db) (rq_now rq)).

(** [GET /stuck]. *)
Record StuckResponse := {
  stuck_outbox : list OutboxStuckRow;
  stuck_received : list ReceivedStuckRow;
  stuck_truncated : bool;
}.

Definition LIMIT_PER_TYPE : Z := 100.

Definition full {A} (batch : list A) : bool := LIMIT_PER_TYPE <=? Z.min (Z.of_nat (length batch)) i64_max.

(** The two halves of one turn of the loop of [stuck_rows]. *)
Definition stuck_outbox_side (tables : ServiceTables) (d : MessageDescriptor) (acc : StuckResponse)
  : Handler StuckResponse :=
  table ← storage (table_new OutboxKind (schema cfg) d);
  let n := qualified_name table in
  if bool_decide (n ∈ tables) then
    batch ← storage_unwinding (outbox_stuck_rows (fault_of (st_outbox db) n (rq_fault rq (QStuck n))) table
                                 (rows_of (st_outbox db) n) (rq_now rq) (op_stuck_after (policy d)) LIMIT_PER_TYPE);
    mret {| stuck_outbox := stuck_outbox acc ++ batch; stuck_received := stuck_received acc;
            stuck_truncated := stuck_truncated acc || full batch |}
  else mret acc.

Definition stuck_received_side (tables : ServiceTables) (d : MessageDescriptor) (acc : StuckResponse)
  : Handler StuckResponse :=
  table ← storage (table_new ReceivedKind (schema cfg) d);
  let n := qualified_name table in
  if bool_decide (n ∈ tables) then
    batch ← storage_unwinding (received_stuck_rows (fault_of (st_received db) n (rq_fault rq (QStuck n))) table
                                 (rows_of (st_received db) n) (rq_now rq) (op_stuck_after (policy d)) LIMIT_PER_TYPE);
    mret {| stuck_outbox := stuck_outbox acc; stuck_received := stuck_received acc ++ batch;
            stuck_truncated := stuck_truncated acc || full batch |}
  else mret acc.

Fixpoint stuck_loop (tables : ServiceTables) (ds : list MessageDescriptor) (acc : StuckResponse)
  : Handler StuckResponse :=
  match ds with
  | [] => mret acc
  | d :: ds =>
      acc ← stuck_outbox_side tables d acc;
      acc ← stuck_received_side tables d acc;
      stuck_loop tables ds acc
  end.

Definition stuck_rows : Handler StuckResponse :=
  tables ← usable_tables;
  stuck_loop tables (messages cfg) {| stuck_outbox := []; stuck_received := []; stuck_truncated := false |}.

(** [GET /dlq]. *)
Record DlqRowSummary := {
  dr_message_id : uuid;
  dr_entity_key : option string;
  dr_attempts : Z;
  dr_source_topic : string;
  dr_source_partition : Z;
  dr_source_offset : Z;
  dr_correlation_id : option uuid;
  dr_causation_id : option uuid;
  dr_created_at : instant;
  dr_processed_at : option instant;
  dr_latest_error : option ReceivedError;
  dr_error_count : nat;
}.

Record DlqSummary := { dlq_message_type : string; dlq_count : nat; dlq_rows : list DlqRowSummary }.

Definition ROW_LIMIT_PER_TYPE : Z := 50.

Definition dlq_row_summary (row : ReceivedRow) : DlqRowSummary :=
  let r := row_db row in
  {| dr_message_id := r_message_id r; dr_entity_key := r_entity_key r; dr_attempts := r_attempts r;
     dr_source_topic := r_source_topic r; dr_source_partition := r_source_partition r;
     dr_source_offset := r_source_offset r; dr_correlation_id := r_correlation_id r;
     dr_causation_id := r_causation_id r; dr_created_at := r_created_at r;
     dr_processed_at := r_processed_at r; dr_latest_error := last (r_errors r);
     dr_error_count := length (r_errors r) |}.

Definition ask_dlq (d : MessageDescriptor) (table : Table) : Handler (list DlqSummary) :=
  let n := qualified_name table in
  let t := rows_of (st_received db) n in
  count ← storage (fetch (fault_of (st_received db) n (rq_fault rq (QCount n))) (received_failed_count None None t));
  page ← storage (_ ← fetch (fault_of (st_received db) n (rq_fault rq (QPage n))) tt;
                  received_failed_rows None None ROW_LIMIT_PER_TYPE t);
  mret [{| dlq_message_type := message_type d; dlq_count := count; dlq_rows := map dlq_row_summary page |}].

Definition dlq_summary : Handler (list DlqSummary) :=
  tables ← usable_tables; per_type ReceivedKind tables ask_dlq (messages cfg).
End routes.

(** ** Redrive *)



(** [deserialize_failure_kind], on the optional string of the body; [Debug] of a
    string is a parameter. *)
Definition deserialize_failure_kind (debug : string -> string) (raw : option string)
  : result string (option ReceivedFailureKind) :=
  match raw with
  | None => Ok None
  | Some raw =>
      match from_problem_type raw with
      | Some k => Ok (Some k)
      | None => Err ("unknown failure_kind " +:+ debug raw +:+ "; expected one of "
                     +:+ str_join ", " (map enum_str (enum_ALL (A := ReceivedFailureKind))))
      end
  end.



(** ** Correlation *)

Definition MAX_CORRELATION_ID_LEN : nat := 128.

(** [u8::is_ascii_graphic]. *)
Definition is_ascii_graphic : ascii -> bool := byte_in 33 126.

(** [CorrelationId::is_acceptable]. *)
Definition is_acceptable (value : string) : bool :=
  negb (bool_decide (value = "")) && Nat.leb (String.length value) MAX_CORRELATION_ID_LEN
  && all_bytes is_ascii_graphic value.

(** The id [CorrelationService::call] gives a request: [inbound] is the header's
    text when it has one, [fresh] the generated identifier. *)
Definition correlation_id_of (inbound : option string) (fresh : string) : string :=
  match inbound with
  | Some value => let value := trim value in if is_acceptable value then value else fresh
  | None => fresh
  end.

Definition UNMATCHED_ROUTE : string := "<unmatched>".

(** What the service does with a response: the span's route and name, whether the
    span is marked failed, and the header, set when the header type takes the
    value. *)
Record Served := {
  sv_correlation_id : string;
  sv_route : string;
  sv_otel_name : string;
  sv_span_failed : bool;
  sv_header : option string;
}.

Definition serve (header_value : string -> bool) (inbound : option string) (fresh method : string)
  (matched : option string) (code : Z) : Served :=
  let id := correlation_id_of inbound fresh in
  let route := default UNMATCHED_ROUTE matched in
  {| sv_correlation_id := id; sv_route := route; sv_otel_name := method +:+ " " +:+ route;
     sv_span_failed := (500 <=? code) && (code <? 600);
     sv_header := if header_value id then Some id else None |}.

(** ** The summary routes *)

(** Every name the configuration derives is a legal identifier. *)
Definition nameable (cfg : ResolvedConfig) : Prop :=
  forall d k, d ∈ messages cfg -> exists t, table_new k (schema cfg) d = Ok t.

Definition quiet (rq : Request) : Prop := forall q, rq_fault rq q = None.

(** The catalog does not list tables that are not there. *)
Definition backed (cfg : ResolvedConfig) (db : Store) : Prop :=
  forall d k t, d ∈ messages cfg -> table_new k (schema cfg) d = Ok t -> readable (st_catalog db) t = true ->
  match k with
  | OutboxKind => is_Some (st_outbox db !! qualified_name t)
  | ReceivedKind => is_Some (st_received db !! qualified_name t)
  | CacheKind => True
  end.

(** Whether the service has the table of a type. *)
Definition has_side (cfg : ResolvedConfig) (cat : Catalog) (k : TableKind) (d : MessageDescriptor) : bool :=
  match table_new k (schema cfg) d with Ok t => readable cat t | Err _ => false end.
Definition sideless (cfg : ResolvedConfig) (cat : Catalog) (d : MessageDescriptor) : bool :=
  negb (has_side cfg cat OutboxKind d) && negb (has_side cfg cat ReceivedKind d).

Lemma append_cancel_l s a b : s +:+ a = s +:+ b -> a = b.
Proof. induction s as [|c s IH]; simpl; [done|]. intros [=]. auto. Qed.

Lemma append_cancel_r (a b : string) c : a +:+ String c "" = b +:+ String c "" -> a = b.
Proof.
  revert b. induction a as [|x a IH]; intros [|y b]; simpl; [done|..]; intros [= ? H]; subst.
  - by destruct b.
  - by destruct a.
  - f_equal. auto.
Qed.

(** A qualified name determines the table within a schema. *)
Lemma qualified_inj (t t' : Table) :
  tbl_schema t = tbl_schema t' -> qualified_name t = qualified_name t' -> tbl_name t = tbl_name t'.
Proof.
  unfold qualified_name. intros ->. intros H%append_cancel_l%append_cancel_l.
  unfold quoted in H. injection H as H. by apply append_cancel_r in H.
Qed.

Lemma table_new_schema k s d t : table_new k s d = Ok t -> tbl_schema t = s /\ tbl_desc t = d.
Proof. unfold table_new. intros (n & _ & [= <-])%bind_Ok. done. Qed.

(** A type's table is among the service tables when the catalog has it. *)
Lemma service_side cat cfg tables k d t :
  service_tables None cat cfg = Ok tables -> d ∈ messages cfg -> k <> CacheKind ->
  table_new k (schema cfg) d = Ok t ->
  bool_decide (qualified_name t ∈ tables) = readable cat t.
Proof.
  intros Hs Hd Hk Ht. apply eq_bool_prop_intro. rewrite bool_decide_spec, (elem_of_service_tables _ _ _ _ Hs).
  split.
  - intros (d' & k' & t' & _ & _ & Ht' & Hr & Hq). apply Is_true_true.
    destruct (table_new_schema _ _ _ _ Ht) as [E _]. destruct (table_new_schema _ _ _ _ Ht') as [E' _].
    assert (En : tbl_name t = tbl_name t') by (apply qualified_inj; congruence).
    unfold readable, push_table_candidate, present_candidate in *. simpl in *. by rewrite E, En, <- E'.
  - intros Hr%Is_true_true. exists d, k, t. by split_and!.
Qed.

Lemma candidates_ok s ds :
  (forall d k, d ∈ ds -> exists t, table_new k s d = Ok t) -> exists cs, table_candidates s ds = Ok cs.
Proof.
  induction ds as [|d ds IH]; intros Hn; [eexists; reflexivity|]. cbn [table_candidates].
  destruct (Hn d OutboxKind) as [t ->]; [by left|]. destruct (Hn d ReceivedKind) as [t' ->]; [by left|].
  destruct IH as [cs Hcs]; [intros d' k Hd; apply Hn; by right|].
  cbn [mbind result_bind]. rewrite Hcs. eexists. reflexivity.
Qed.

Section summaries.
Context (rq : Request) (db : Store).
Let cfg : ResolvedConfig := base (rq_cfg rq).
Context (Hquiet : quiet rq) (Hnames : nameable cfg) (Hbacked : backed cfg db).

Lemma unusable_spec tables ds :
  service_tables None (st_catalog db) cfg = Ok tables -> (forall d, d ∈ ds -> d ∈ messages cfg) ->
  unusable_types (schema cfg) tables ds
  = Ok (map message_type (List.filter (sideless cfg (st_catalog db)) ds)).
Proof.
  intros Hs. induction ds as [|d ds IH]; intros Hsub; [done|]. cbn [unusable_types].
  assert (Hd : d ∈ messages cfg) by (apply Hsub; by left).
  destruct (Hnames d OutboxKind Hd) as [t Ht], (Hnames d ReceivedKind Hd) as [t' Ht'].
  rewrite Ht, Ht'. cbn [mbind result_bind]. rewrite IH by (intros d' ?; apply Hsub; by right).
  assert (Hx : sideless cfg (st_catalog db) d = negb (readable (st_catalog db) t) && negb (readable (st_catalog db) t')).
  { unfold sideless, has_side. by rewrite Ht, Ht'. }
  cbn [mbind result_bind List.filter]. rewrite Hx, !bool_decide_not.
  rewrite (service_side _ _ _ OutboxKind d t Hs Hd), (service_side _ _ _ ReceivedKind d t' Hs Hd) by done.
  by destruct (_ && _).
Qed.

Lemma service_tables_ok : exists tables, service_tables None (st_catalog db) cfg = Ok tables.
Proof.
  destruct (candidates_ok (schema cfg) (messages cfg)) as [cs Hcs]; [exact Hnames|].
  unfold service_tables. rewrite Hcs. eexists. reflexivity.
Qed.

(** The gate in front of the summaries. *)
Lemma usable_tables_spec tables :
  service_tables None (st_catalog db) cfg = Ok tables ->
  usable_tables rq db = Returned (
    match List.filter (sideless cfg (st_catalog db)) (messages cfg) with
    | [] => Ok tables
    | ds => Err (UnusableServiceTables (map message_type ds))
    end).
Proof.
  intros Hs. unfold usable_tables. rewrite Hquiet. change (base (rq_cfg rq)) with cfg. rewrite Hs.
  unfold ensure_service_tables. cbn [storage mbind handler_bind].
  rewrite (unusable_spec tables) by done. by destruct (List.filter _ _).
Qed.

(** The loop over the types: the types that have the table answer, in
    declaration order, and the others say nothing. *)
Lemma per_type_spec {A} k tables (ask : MessageDescriptor -> Table -> Handler (list A))
  (P : MessageDescriptor -> Table -> list A -> Prop) ds :
  service_tables None (st_catalog db) cfg = Ok tables -> (forall d, d ∈ ds -> d ∈ messages cfg) ->
  k <> CacheKind ->
  (forall d t, d ∈ messages cfg -> table_new k (schema cfg) d = Ok t -> readable (st_catalog db) t = true ->
     exists l, ask d t = Returned (Ok l) /\ P d t l) ->
  exists ls, per_type rq k tables ask ds = Returned (Ok (concat ls))
    /\ Forall2 (fun d l => exists t, table_new k (schema cfg) d = Ok t
                  /\ if has_side cfg (st_catalog db) k d then P d t l else l = []) ds ls.
Proof.
  intros Hs Hsub Hk Hask. induction ds as [|d ds IH]; [by exists []|].
  assert (Hd : d ∈ messages cfg) by (apply Hsub; by left).
  destruct IH as (ls & Hls & H2); [intros d' ?; apply Hsub; by right|].
  destruct (Hnames d k Hd) as [t Ht]. cbn [per_type]. change (base (rq_cfg rq)) with cfg. rewrite Ht.
  cbn [storage mbind handler_bind]. rewrite (service_side _ _ _ _ _ _ Hs Hd Hk Ht).
  destruct (readable (st_catalog db) t) eqn:Hr.
  - destruct (Hask d t Hd Ht Hr) as (l & -> & HP). cbn [mbind handler_bind]. rewrite Hls.
    exists (l :: ls). split; [done|]. constructor; [|done]. exists t. split; [done|].
    unfold has_side. by rewrite Ht, Hr.
  - cbn [mret handler_ret mbind handler_bind]. rewrite Hls. exists ([] :: ls). split; [done|].
    constructor; [|done]. exists t. split; [done|]. unfold has_side. by rewrite Ht, Hr.
Qed.
End summaries.

(** The summary of one type's table. *)
Definition outbox_part (rq : Request) (db : Store) (d : MessageDescriptor) (t : Table)
  (l : list OutboxStatusSummary) : Prop :=
  summary_exact status row_created outbox_is_terminal (message_type d) (rq_now rq)
    (op_max_queue_age (observability_policy_for (rc_observability (rq_cfg rq)) (message_type d)))
    (rows_of (st_outbox db) (qualified_name t)) l.
Definition received_part (rq : Request) (db : Store) (d : MessageDescriptor) (t : Table)
  (l : list ReceivedStatusSummary) : Prop :=
  summary_exact r_status row_age receive_is_terminal (message_type d) (rq_now rq)
    (op_max_queue_age (observability_policy_for (rc_observability (rq_cfg rq)) (message_type d)))
    (rows_of (st_received db) (qualified_name t)) l.

(** What a route that lists one kind of table answers. *)
Definition route_complete {A} (cfg : ResolvedConfig) (cat : Catalog) (k : TableKind)
  (P : MessageDescriptor -> Table -> list A -> Prop) (answer : Handler (list A)) : Prop :=
  match List.filter (sideless cfg cat) (messages cfg) with
  | [] => exists ls, answer = Returned (Ok (concat ls))
      /\ Forall2 (fun d l => exists t, table_new k (schema cfg) d = Ok t
                    /\ if has_side cfg cat k d then P d t l else l = []) (messages cfg) ls
  | ds => answer = Returned (Err (UnusableServiceTables (map message_type ds)))
  end.

(** The summary routes never leave a queue out in silence. Unless a statement
    fails, each answers with one exact summary for every declared type that has
    the table on that side, in declaration order and with the type's own queue
    age, and with nothing for a type that only has the other side; and when some
    declared type has neither side, the answer is not a shorter list but an error
    that names exactly those types. *)
Theorem summary_routes (rq : Request) (db : Store) (Hquiet : quiet rq)
  (Hnames : nameable (base (rq_cfg rq))) (Hbacked : backed (base (rq_cfg rq)) db) :
  let cfg := base (rq_cfg rq) in
  route_complete cfg (st_catalog db) OutboxKind (outbox_part rq db) (outbox_summary rq db)
  /\ route_complete cfg (st_catalog db) ReceivedKind (received_part rq db) (received_summary rq db).
Proof.
  cbv zeta. destruct (service_tables_ok rq db Hnames) as [tables Hs].
  unfold route_complete, outbox_summary, received_summary. rewrite (usable_tables_spec rq db Hquiet Hnames _ Hs).
  destruct (List.filter _ _); [|done]. cbn [mbind handler_bind]. split.
  - apply (per_type_spec rq db Hnames); [done..|]. intros d t Hd Ht Hr.
    destruct (Hbacked d OutboxKind t Hd Ht Hr) as [rows Hrows].
    destruct (summary_correct status row_created outbox_status_from_str outbox_parse outbox_is_terminal
      (message_type d) (rq_now rq) (op_max_queue_age (observability_policy_for (rc_observability (rq_cfg rq)) (message_type d)))
      (rows_of (st_outbox db) (qualified_name t))) as (l & Hl & Hx).
    exists l. split; [|exact Hx]. unfold ask_outbox, outbox_status_summary, fault_of. rewrite Hquiet, Hrows.
    destruct (table_new_schema _ _ _ _ Ht) as [_ ->]. cbn [fetch mbind result_bind]. by rewrite Hl.
  - apply (per_type_spec rq db Hnames); [done..|]. intros d t Hd Ht Hr.
    destruct (Hbacked d ReceivedKind t Hd Ht Hr) as [rows Hrows].
    destruct (summary_correct r_status row_age receive_status_from_str receive_parse receive_is_terminal
      (message_type d) (rq_now rq) (op_max_queue_age (observability_policy_for (rc_observability (rq_cfg rq)) (message_type d)))
      (rows_of (st_received db) (qualified_name t))) as (l & Hl & Hx).
    exists l. split; [|exact Hx]. unfold ask_received, received_status_summary, fault_of. rewrite Hquiet, Hrows.
    destruct (table_new_schema _ _ _ _ Ht) as [_ ->]. cbn [fetch mbind result_bind]. by rewrite Hl.
Qed.

(** ** The redrive route *)











(** ** The dead-letter listing *)

(** The listing of one type: the exact depth, and the oldest failures. *)
Definition dlq_part (db : Store) (d : MessageDescriptor) (t : Table) (l : list DlqSummary) : Prop :=
  let rows := rows_of (st_received db) (qualified_name t) in
  exists s page, l = [s] /\ dlq_message_type s = message_type d
  /\ dlq_count s = sql_count (is_rstatus Failed) rows
  /\ map dr_message_id (dlq_rows s) = map rrow_id page
  /\ Z.of_nat (length page) = Z.min ROW_LIMIT_PER_TYPE (Z.of_nat (dlq_count s))
  /\ StronglySorted (lex_le failure_order) page
  /\ (forall r, r ∈ page -> r ∈ rows /\ r_status r = Failed)
  /\ (forall r, r ∈ rows -> r_status r = Failed ->
        r ∈ page \/ forall x, x ∈ page -> lex_le failure_order x r).

Lemma decode_page rows :
  (forall r, r ∈ rows -> check_idempotency_key (Some (rrow_key r)) = true) ->
  exists os, mapM received_row_from_pg rows = Ok os /\ map row_db os = rows.
Proof.
  intros Hc. destruct (mapM_exists received_row_from_pg rows) as (os & Hos & H2).
  { intros r Hr. destruct (received_row_decodes r (Hc r Hr)) as (o & Ho & _). eauto. }
  exists os. split; [done|]. transitivity (map (fun r : RRow => r) rows); [|apply map_id]. symmetry.
  eapply Forall2_map_eq; [|exact H2]. intros r o [Hr Ho].
  destruct (received_row_decodes r (Hc r Hr)) as (o' & Ho' & E & _). congruence.
Qed.

(** The dead-letter route reports the true depth. Unless a statement fails,
    every type with a received table gets one entry: the number of all its parked
    rows, and a page of at most fifty of them, oldest failure first, which is
    shorter than the depth only when the depth exceeds the page; a type missing
    both its tables turns the answer into an error, as in the other summaries. *)
Theorem dlq_route (rq : Request) (db : Store) (Hquiet : quiet rq)
  (Hnames : nameable (base (rq_cfg rq))) (Hbacked : backed (base (rq_cfg rq)) db)
  (Hinv : forall n t, st_received db !! n = Some t -> received_inv t) :
  route_complete (base (rq_cfg rq)) (st_catalog db) ReceivedKind (dlq_part db) (dlq_summary rq db).
Proof.
  destruct (service_tables_ok rq db Hnames) as [tables Hs].
  unfold route_complete, dlq_summary. rewrite (usable_tables_spec rq db Hquiet Hnames _ Hs).
  destruct (List.filter _ _); [|done]. cbn [mbind handler_bind].
  apply (per_type_spec rq db Hnames); [done..|]. intros d t Hd Ht Hr.
  destruct (Hbacked d ReceivedKind t Hd Ht Hr) as [rows Hrows]. specialize (Hinv _ _ Hrows).
  set (failed := List.filter (failed_filter None None) rows).
  set (page := sql_limit (Z.max ROW_LIMIT_PER_TYPE 0) (sql_order_by_lex failure_order failed)).
  assert (Hff : forall r : RRow, failed_filter None None r = is_rstatus Failed r).
  { intros r. unfold failed_filter, since_ok, kind_ok. by rewrite !andb_true_r. }
  assert (Hpage : forall r, r ∈ page -> r ∈ rows /\ r_status r = Failed).
  { intros r Hp%elem_of_limit%elem_of_order_by_lex. apply elem_of_sfilter in Hp as [? E].
    rewrite Hff in E. split; [done|]. by apply is_rstatus_true. }
  destruct (decode_page page) as (os & Hos & Hdb).
  { intros r Hp. apply (ri_checked _ Hinv). by apply Hpage. }
  eexists. split.
  { unfold ask_dlq, fault_of, rows_of. rewrite !Hquiet, Hrows.
    change (default [] (Some rows)) with rows. cbn [fetch storage mbind handler_bind result_bind].
    unfold received_failed_rows. fold failed page. rewrite Hos. cbn [storage mbind handler_bind]. reflexivity. }
  unfold dlq_part, rows_of. rewrite Hrows. change (default [] (Some rows)) with rows.
  assert (Hcount : received_failed_count None None rows = length failed) by done.
  eexists _, page. split; [reflexivity|]. cbn [dlq_message_type dlq_count dlq_rows]. split_and!; try done.
  - unfold received_failed_count, sql_count. by rewrite (filter_ext _ _ Hff).
  - rewrite map_map, <- Hdb, map_map. done.
  - rewrite Hcount. unfold page, sql_limit, sql_order_by_lex. rewrite length_take, merge_sort_Permutation.
    unfold ROW_LIMIT_PER_TYPE. lia.
  - apply StronglySorted_take, order_by_lex_sorted.
  - intros r Hr' E. destruct (limit_lex_or_full failure_order failed (Z.max ROW_LIMIT_PER_TYPE 0) r) as [H|[_ H]].
    + apply elem_of_sfilter. split; [done|]. rewrite Hff. by apply is_rstatus_true.
    + by left.
    + by right.
Qed.

(** ** Correlation ids *)

(** Every request gets one bounded, printable correlation id, and keeps it
    over hops. Given that a generated identifier is acceptable and that headers take
    visible ASCII, the response carries the request's id; the id is 1 to 128 visible
    ASCII characters; it is the client's own exactly when the client's is
    acceptable; a service called with the id answers with it; and the span's route
    is one of the routes of the service or the one placeholder. *)
Theorem correlation_bounded (header_value : string -> bool) (inbound : option string)
  (fresh method : string) (matched : option string) (code : Z)
  (Hfresh : is_acceptable fresh = true)
  (Hheader : forall v, all_bytes is_ascii_graphic v = true -> header_value v = true) :
  let s := serve header_value inbound fresh method matched code in
  is_acceptable (sv_correlation_id s) = true
  /\ sv_header s = Some (sv_correlation_id s)
  /\ (forall v, inbound = Some v -> is_acceptable (trim v) = true -> sv_correlation_id s = trim v)
  /\ (forall v, inbound = Some v -> is_acceptable (trim v) = false -> sv_correlation_id s = fresh)
  /\ (forall fresh' method' matched' code',
        sv_correlation_id (serve header_value (sv_header s) fresh' method' matched' code') = sv_correlation_id s)
  /\ (matched = Some (sv_route s) \/ sv_route s = UNMATCHED_ROUTE).
Proof.
  cbv zeta.
  assert (Hid : is_acceptable (correlation_id_of inbound fresh) = true).
  { unfold correlation_id_of. destruct inbound as [v|]; [|done]. by destruct (is_acceptable (trim v)) eqn:E. }
  assert (Hg : all_bytes is_ascii_graphic (correlation_id_of inbound fresh) = true).
  { unfold is_acceptable in Hid. by apply andb_true_iff in Hid as [_ ?]. }
  assert (Hh : sv_header (serve header_value inbound fresh method matched code)
               = Some (correlation_id_of inbound fresh)).
  { unfold serve. simpl. by rewrite Hheader. }
  split_and!; try done.
  - intros v -> Hv. simpl. by rewrite Hv.
  - intros v -> Hv. simpl. by rewrite Hv.
  - intros. rewrite Hh. simpl. rewrite (trim_graphic _ Hg). by rewrite Hid.
  - simpl. destruct matched; simpl; auto.
Qed.

Lemma correlation_bounded_witness :
  sv_header (serve (all_bytes is_ascii_graphic) (Some " req-1 ") "0b7e" "GET" None 200) = Some "req-1"
  /\ sv_header (serve (all_bytes is_ascii_graphic) (Some "two words") "0b7e" "GET" None 200) = Some "0b7e".
Proof.
  split; [by vm_compute|].
  destruct (correlation_bounded (all_bytes is_ascii_graphic) (Some "two words") "0b7e" "GET" None 200)
    as (_ & Hh & _ & Hf & _); [by vm_compute|done|].
  rewrite Hh, (Hf "two words"); [reflexivity|reflexivity|by vm_compute].
Defined.

(** ** A threshold the routes cannot take *)

(** The last instant an [OffsetDateTime] represents, 9999-12-31T23:59:59Z. *)
Definition DATETIME_MAX : instant := 253402300800 * NANOS.

(** C37. A threshold of ten million days is accepted by the duration grammar and
    by the validation of the policy that carries it, and the listing of overdue
    rows then panics instead of answering, on any table, at any time. *)
Theorem accepted_threshold_panics (now : instant) (table : Table) (t : list DbRow) (t' : Received)
  (limit : Z) (Hnow : DATETIME_MIN <= now < DATETIME_MAX) :
  exists d, parse_duration "10000000d" = Ok d
  /\ validate_observability_policy "observability.defaults"
       {| op_level := op_level observability_default; op_lifecycle := op_lifecycle observability_default;
          op_payload := op_payload observability_default; op_headers := op_headers observability_default;
          op_handoff := op_handoff observability_default; op_sample := op_sample observability_default;
          op_stuck_after := d; op_max_queue_age := op_max_queue_age observability_default |} = []
  /\ (exists p, outbox_stuck_rows None table t now d limit = Panicked p)
  /\ (exists p, received_stuck_rows None table t' now d limit = Panicked p).
Proof.
  exists (10000000 * 86400 * NANOS). split; [by vm_compute|]. split; [by vm_compute|].
  assert (Hc : stuck_cutoff now (10000000 * 86400 * NANOS) = Panicked (PanicStr "resulting value is out of range")).
  { unfold stuck_cutoff. rewrite duration_to_time_id by (unfold i64_max, NANOS; lia). cbv zeta.
    rewrite (proj2 (Z.ltb_lt _ _)); [done|]. unfold DATETIME_MIN, DATETIME_MAX, NANOS in *. lia. }
  unfold outbox_stuck_rows, received_stuck_rows. rewrite Hc. eauto.
Qed.

Lemma accepted_threshold_panics_witness :
  exists d, parse_duration "10000000d" = Ok d
  /\ exists p, outbox_stuck_rows None OpSample.table [] OpSample.now d 100 = Panicked p.
Proof.
  destruct (accepted_threshold_panics OpSample.now OpSample.table [] [] 100) as (d & Hd & _ & Hp & _).
  - split; vm_compute; [discriminate|reflexivity].
  - exists d. split; [exact Hd|exact Hp].
Defined.

(** ** Samples *)

Module AdSample.
(** Two declared types: this service publishes one and consumes the other. *)
Definition placed : MessageDescriptor := RSample.descriptor.
Definition product : MessageDescriptor := CSample.product.
Definition cfg : Resolved :=
  let r := resolved_new "w" "kafkaman" in
  {| base := {| schema := "kafkaman"; topic_prefix := ""; messages := [product; placed] |};
     rc_relay := rc_relay r; rc_dispatcher := rc_dispatcher r; rc_retry := rc_retry r;
     rc_observability := rc_observability r; rc_topics := rc_topics r |}.
Definition rq : Request :=
  {| rq_cfg := cfg; rq_fault := fun _ => None; rq_now := 1000 * NANOS; rq_strxfrm := fun _ => [] |}.
Definition ours : Relation := {| relkind := "r"%char; granted := fun _ => true |}.
Definition outbox_name : string := quoted "kafkaman" +:+ "." +:+ quoted "outbox_product".
Definition received_name : string := quoted "kafkaman" +:+ "." +:+ quoted "received_order_placed".
Definition db : Store :=
  {| st_catalog := <[("kafkaman", "outbox_product") := ours]> (<[("kafkaman", "received_order_placed") := ours]> ∅);
     st_outbox := {[ outbox_name := [] ]}; st_received := {[ received_name := RSample.t ]}; st_quarantine := [] |}.

Lemma rq_quiet : quiet rq.
Proof. done. Qed.
Lemma names : nameable (base cfg).
Proof.
  intros d k Hd. cbn in Hd. rewrite !elem_of_cons, elem_of_nil in Hd.
  destruct Hd as [->|[->|[]]], k; eexists; by vm_compute.
Qed.
Lemma db_backed : backed (base cfg) db.
Proof.
  intros d k t Hd. cbn in Hd. rewrite !elem_of_cons, elem_of_nil in Hd.
  destruct Hd as [->|[->|[]]], k; vm_compute; intros [= <-] Hr; try done; by eexists.
Qed.
Lemma db_inv n t : st_received db !! n = Some t -> received_inv t.
Proof. cbn. intros [<- <-]%lookup_singleton_Some. exact RSample.t_inv. Qed.

Definition statuses (h : Handler (list ReceivedStatusSummary)) : option (list (ReceiveStatus * Z)) :=
  match h with Returned (Ok l) => Some (map (fun s => (su_status s, su_count s)) l) | _ => None end.

Lemma summary_routes_witness :
  statuses (received_summary rq db) = Some [(Failed, 2); (RPending, 1)]
  /\ outbox_summary rq db = Returned (Ok [])
  /\ exists ls, received_summary rq db = Returned (Ok (concat ls)) /\ length ls = 2%nat.
Proof.
  split; [by vm_compute|]. split; [by vm_compute|].
  destruct (summary_routes rq db rq_quiet names db_backed) as [_ H].
  assert (Hs : List.filter (sideless (base cfg) (st_catalog db)) (messages (base cfg)) = []) by by vm_compute.
  unfold route_complete in H. cbn [rq_cfg rq] in H. rewrite Hs in H. destruct H as (ls & Hl & H2).
  exists ls. split; [exact Hl|]. exact (eq_sym (Forall2_length _ _ _ H2)).
Defined.



Lemma dlq_route_witness :
  (exists s, dlq_summary rq db = Returned (Ok [s]) /\ dlq_count s = 2%nat
   /\ map dr_message_id (dlq_rows s) = [3%N; 2%N])
  /\ exists ls, dlq_summary rq db = Returned (Ok (concat ls)) /\ length ls = 2%nat.
Proof.
  split; [eexists; split; [by vm_compute|by split]|].
  pose proof (dlq_route rq db rq_quiet names db_backed db_inv) as H.
  assert (Hs : List.filter (sideless (base cfg) (st_catalog db)) (messages (base cfg)) = []) by by vm_compute.
  unfold route_complete in H. cbn [rq_cfg rq] in H. rewrite Hs in H. destruct H as (ls & Hl & H2).
  exists ls. split; [exact Hl|]. exact (eq_sym (Forall2_length _ _ _ H2)).
Defined.
End AdSample.
