(* ===== verification/TopicBoot.v ===== *)
(** * TopicBoot: bringing the broker's topics into line at boot

    Models [src/crates/kafkaman-rdkafka/src/topics.rs] around the decision of
    [Topics.reconcile]. The admin client of librdkafka is the class
    [AdminClient]: three requests on a broker, each of which may fail.
    [FaithfulAdmin] states what its answers mean when nobody else changes the
    broker's topics while one service boots. *)

From S2P Require Import Prelude Text Vocabulary Topics Registry Identity Trace Wire.
Open Scope string_scope.
Open Scope list_scope.
Open Scope Z_scope.

(** ** The admin client *)

(** The error codes the program tells apart; the others by their text. *)
Inductive ErrorCode := TopicAlreadyExists | TopicAuthorizationFailed | UnknownTopicOrPart | OtherCode (text : string).
#[global] Instance ErrorCode_eq_dec : EqDecision ErrorCode.
Proof. solve_decision. Defined.

(** One topic of the cluster's metadata. *)
Record TopicMetadata := { md_name : string; md_error : option ErrorCode; md_partitions : Z }.

(** [NewTopic], with the one property that is set. *)
Record NewTopic := { nt_name : string; nt_partitions : Z; nt_replication : Z; nt_config : string * string }.

Class AdminClient (B : Type) := {
  fetch_metadata : B -> result string (list TopicMetadata) * B;
  describe_configs : string -> B -> result string (list (result ErrorCode (list (string * option string)))) * B;
  create_topics : NewTopic -> B -> result string (list (result ErrorCode unit)) * B;
  code_text : ErrorCode -> string;
}.

Definition CLEANUP_POLICY : string := "cleanup.policy".

Section admin.
Context {B : Type} `{AdminClient B}.

Abbreviation admin A := (eff RdError B A).

(** A request of the client, with [map_err(Error::Kafka)]. *)
Definition request {A} (m : B -> result string A * B) : admin A := fun b =>
  match m b with
  | (Ok a, b) => (Ok a, b)
  | (Err text, b) => (Err (RdKafka text), b)
  end.

(** [TopicAdmin::admin_error]. *)
Definition admin_error (topic : string) (code : ErrorCode) : RdError :=
  RdTopicAdmin topic
    (match code with
     | TopicAuthorizationFailed =>
         "the configured principal is not authorized for this topic (" +:+ code_text code
         +:+ "); clusters commonly deny CreateTopics to application principals, in which case provision the topic out of band and use `[topics] mode = " +:+ String dquote ("verify" +:+ String dquote "`")
     | other => code_text other
     end).

(** [TopicAdmin::partition_count]; the length is cast to [i32]. *)
Definition partition_count (topic : string) : admin (option Z) :=
  metadata ← request fetch_metadata;
  mret (match List.find (fun m => bool_decide (md_name m = topic)) metadata with
        | Some m => if bool_decide (md_error m = Some UnknownTopicOrPart) then None
                    else Some (as_signed 32 (md_partitions m))
        | None => None
        end).

(** [TopicAdmin::cleanup_policy]. *)
Definition cleanup_policy_of (topic : string) : admin CleanupPolicy :=
  resources ← request (describe_configs topic);
  entries ← match resources with
            | [] => raise (RdTopicAdmin topic "broker returned no config for the topic")
            | Err code :: _ => raise (admin_error topic code)
            | Ok entries :: _ => mret entries
            end;
  match List.find (fun e : string * option string => bool_decide (e.1 = CLEANUP_POLICY)) entries with
  | None => raise (RdTopicAdmin topic ("broker reported no `" +:+ CLEANUP_POLICY +:+ "` for the topic"))
  | Some e => mret (parse_policy (default "" e.2))
  end.

(** [TopicAdmin::observe]. *)
Definition observe (topic : string) : admin (option ObservedTopic) :=
  partitions ← partition_count topic;
  match partitions with
  | None => mret None
  | Some n =>
      policy ← cleanup_policy_of topic;
      mret (Some {| obs_name := topic; obs_cleanup_policy := policy; obs_partitions := n |})
  end.

(** The loop over the results of [create_topics]. *)
Fixpoint check_created (topic : string) (results : list (result ErrorCode unit)) : result RdError unit :=
  match results with
  | [] => Ok tt
  | Ok _ :: rest => check_created topic rest
  | Err TopicAlreadyExists :: rest => check_created topic rest
  | Err code :: _ => Err (admin_error topic code)
  end.

(** [TopicAdmin::create]. *)
Definition create_topic (topic : string) (n : Z) (replication : option Z) (spec : TopicSpec) : admin unit :=
  results ← request (create_topics
    {| nt_name := topic; nt_partitions := n; nt_replication := default (-1) replication;
       nt_config := (CLEANUP_POLICY, as_broker_value (cleanup_policy spec)) |});
  lift (check_created topic results).

(** [reconcile(..).map_err(Error::Core)]. *)
Definition reconciled (topic : string) (spec : TopicSpec) (o : option ObservedTopic) (mode : TopicMode)
  : admin TopicOutcome :=
  lift (match reconcile topic spec o mode with Ok a => Ok a | Err e => Err (RdCore e) end).

(** One turn of the loop of [converge_topics]. *)
Definition converge_topic (mode : TopicMode) (d : MessageDescriptor) : admin (option PartitionDrift) :=
  let topic := desc_topic d in
  observed ← observe topic;
  outcome ← reconciled topic (topic_spec d) observed mode;
  match action outcome with
  | CreateTopic n replication =>
      _ ← create_topic topic n replication (topic_spec d);
      observed ← observe topic;
      outcome ← reconciled topic (topic_spec d) observed Verify;
      mret (drift outcome)
  | Satisfied => mret (drift outcome)
  end.

Fixpoint converge_loop (mode : TopicMode) (seen : gset string) (ds : list MessageDescriptor)
  : admin (list PartitionDrift) :=
  match ds with
  | [] => mret []
  | d :: ds =>
      if bool_decide (desc_topic d ∈ seen) then converge_loop mode seen ds
      else
        drift ← converge_topic mode d;
        rest ← converge_loop mode ({[ desc_topic d ]} ∪ seen) ds;
        mret (match drift with Some x => x :: rest | None => rest end)
  end.

(** [converge_topics]. *)
Definition converge_topics (mode : TopicMode) (ds : list MessageDescriptor) : admin (list PartitionDrift) :=
  if bool_decide (mode = Off) then mret [] else converge_loop mode ∅ ds.
End admin.

(** ** What the client's answers mean *)

(** The topics a broker has, with partition count and policy text. Reads report
    them and change nothing; metadata omits a topic that is not there or lists it
    with an error; a create, however it is answered, adds the topic as asked or
    leaves the broker alone, and never touches a topic that is there. *)
Class FaithfulAdmin (B : Type) `{AdminClient B} := {
  topics : B -> gmap string (Z * string);
  metadata_reads : forall b r b', fetch_metadata b = (r, b') ->
    b' = b /\ forall ms, r = Ok ms -> forall t,
      match List.find (fun m => bool_decide (md_name m = t)) ms with
      | Some m => if bool_decide (md_error m = Some UnknownTopicOrPart) then None
                  else Some (md_partitions m)
      | None => None
      end = fst <$> topics b !! t;
  partitions_fit : forall b t n p, topics b !! t = Some (n, p) -> 0 <= n <= i32_max;
  configs_read : forall t b r b', describe_configs t b = (r, b') ->
    b' = b /\ forall entries rest, r = Ok (Ok entries :: rest) ->
      forall n p, topics b !! t = Some (n, p) ->
      forall e, List.find (fun e : string * option string => bool_decide (e.1 = CLEANUP_POLICY)) entries = Some e ->
      e.2 = Some p;
  create_adds : forall nt b r b', create_topics nt b = (r, b') ->
    topics b' = topics b
    \/ (topics b !! nt_name nt = None /\ topics b' = <[nt_name nt := (nt_partitions nt, (nt_config nt).2)]> (topics b));
}.

Section convergence.
Context {B : Type} `{FaithfulAdmin B}.

Lemma bind_step {E A C} (m : eff E B A) (f : A -> eff E B C) b r b' :
  (m ≫= f) b = (r, b') ->
  (exists a b1, m b = (Ok a, b1) /\ f a b1 = (r, b')) \/ (exists e, m b = (Err e, b') /\ r = Err e).
Proof. unfold mbind, eff_bind. destruct (m b) as [[a|e] b1]; [eauto|]. intros [= <- <-]. eauto. Qed.

Lemma as_signed_small z : 0 <= z < 2 ^ 31 -> as_signed 32 z = z.
Proof. intros Hz. unfold as_signed, wrap. rewrite Z.mod_small by lia. case_decide; [done|]. simpl in *. lia. Qed.

Lemma partition_count_reads t b r b' :
  partition_count t b = (r, b') -> b' = b /\ forall o, r = Ok o -> o = fst <$> topics b !! t.
Proof.
  unfold partition_count. intros [(ms & b1 & Hm & [= <- <-])|(e & Hm & ->)]%bind_step; unfold request in Hm.
  - destruct (fetch_metadata b) as [[ms'|] b2] eqn:E; [|done]. injection Hm as <- <-.
    destruct (metadata_reads _ _ _ E) as [-> Hr]. split; [done|]. intros o [= <-].
    specialize (Hr _ eq_refl t). pose proof (partitions_fit b t) as Hfit. destruct (List.find _ _) as [m|]; [|done].
    case_bool_decide; [done|]. destruct (topics b !! t) as [[n p]|]; [|done]. injection Hr as <-.
    simpl. f_equal. apply as_signed_small. specialize (Hfit _ _ eq_refl). unfold i32_max in Hfit. lia.
  - destruct (fetch_metadata b) as [[ms'|] b2] eqn:E; [done|]. injection Hm as <- <-.
    by destruct (metadata_reads _ _ _ E) as [-> _].
Qed.

Lemma cleanup_policy_reads t b r b' :
  cleanup_policy_of t b = (r, b') ->
  b' = b /\ forall pol, r = Ok pol -> forall n p, topics b !! t = Some (n, p) -> pol = parse_policy p.
Proof.
  unfold cleanup_policy_of. intros [(rs & b1 & Hm & Hk)|(e & Hm & ->)]%bind_step; unfold request in Hm.
  - destruct (describe_configs t b) as [[rs'|] b2] eqn:E; [|done]. injection Hm as <- <-.
    destruct (configs_read _ _ _ _ E) as [-> Hr].
    destruct rs' as [|[entries|code] rest]; [by injection Hk as <- <-| |by injection Hk as <- <-].
    unfold mbind, eff_bind, mret, eff_ret in Hk. destruct (List.find _ entries) as [e|] eqn:Ef; injection Hk as <- <-; [|by split].
    split; [done|]. intros pol [= <-] n p Hp. by rewrite (Hr entries rest eq_refl n p Hp e Ef).
  - destruct (describe_configs t b) as [[rs'|] b2] eqn:E; [done|]. injection Hm as <- <-.
    by destruct (configs_read _ _ _ _ E) as [-> _].
Qed.

(** An observation is the broker's state. *)
Lemma observe_reads t b r b' :
  observe t b = (r, b') ->
  b' = b
  /\ (r = Ok None -> topics b !! t = None)
  /\ (forall o, r = Ok (Some o) -> obs_name o = t
        /\ exists p, topics b !! t = Some (obs_partitions o, p) /\ obs_cleanup_policy o = parse_policy p).
Proof.
  unfold observe. intros [(o & b1 & Hp & Hk)|(e & Hp & ->)]%bind_step;
    destruct (partition_count_reads _ _ _ _ Hp) as [-> Ho]; [|done].
  specialize (Ho o eq_refl). destruct o as [n|].
  - destruct (topics b !! t) as [[n' p]|] eqn:Et; [|done]. injection Ho as ->.
    apply bind_step in Hk as [(pol & b2 & Hc & [= <- <-])|(e & Hc & ->)];
      destruct (cleanup_policy_reads _ _ _ _ Hc) as [-> Hpol]; [|done].
    split; [done|]. split; [done|]. intros o [= <-]. simpl. split; [done|]. exists p. split; [done|]. by eapply Hpol.
  - injection Hk as <- <-. split; [done|]. split; [|done]. intros _. by destruct (topics b !! t).
Qed.

(** What one turn does: the topics that were there stay as they are, at most the
    declared topic is added, and success means it is there with its policy. *)
Definition safe_step (mode : TopicMode) (d : MessageDescriptor) (b b' : B) : Prop :=
  topics b' = topics b
  \/ (mode = Create /\ topics b !! desc_topic d = None
      /\ exists n, partitions (topic_spec d) = Some n
         /\ topics b' = <[desc_topic d := (n, as_broker_value (cleanup_policy (topic_spec d)))]> (topics b)).

Definition compliant (d : MessageDescriptor) (b : B) : Prop :=
  exists n p, topics b !! desc_topic d = Some (n, p) /\ parse_policy p = cleanup_policy (topic_spec d).

Lemma reconcile_seen t spec mode o out :
  mode <> Off -> reconcile t spec (Some o) mode = Ok out ->
  action out = Satisfied /\ cleanup_policy spec = obs_cleanup_policy o
  /\ (forall x, drift out = Some x -> drift_topic x = obs_name o /\ partitions spec = Some (drift_declared x)
        /\ drift_found x = obs_partitions o /\ drift_declared x <> drift_found x).
Proof.
  intros Hm. unfold reconcile. rewrite bool_decide_eq_false_2 by done.
  intros (dr & Hc & [= <-])%bind_Ok. revert Hc. unfold check. case_bool_decide as Hp; [done|].
  assert (Heq : cleanup_policy spec = obs_cleanup_policy o)
    by (destruct (decide (cleanup_policy spec = obs_cleanup_policy o)); [done|by destruct Hp]).
  destruct (partitions spec) as [n|]; [|by intros [= <-]]. destruct (Z.eqb_spec n (obs_partitions o)); simpl.
  - by intros [= <-].
  - intros [= <-]. split_and!; [done..|]. by intros x [= <-].
Qed.

Lemma reconcile_absent t spec mode out :
  mode <> Off -> reconcile t spec None mode = Ok out ->
  mode = Create /\ exists n, partitions spec = Some n /\ action out = CreateTopic n (replication_factor spec).
Proof.
  intros Hm. unfold reconcile. rewrite bool_decide_eq_false_2 by done. destruct mode; try done.
  unfold partitions_for_create. destruct (partitions spec) as [n|]; [|done]. intros [= <-]. eauto.
Qed.

Lemma observed_compliant d o out b mode :
  mode <> Off -> observe (desc_topic d) b = (Ok (Some o), b) ->
  reconcile (desc_topic d) (topic_spec d) (Some o) mode = Ok out ->
  compliant d b
  /\ forall x, drift out = Some x -> drift_topic x = desc_topic d /\ drift_declared x <> drift_found x
       /\ exists p, topics b !! desc_topic d = Some (drift_found x, p).
Proof.
  intros Hm Hob Hre. destruct (observe_reads _ _ _ _ Hob) as (_ & _ & Hs).
  destruct (Hs o eq_refl) as (Hname & p & Hp & Hpol).
  destruct (reconcile_seen _ _ _ _ _ Hm Hre) as (_ & Hpc & Hdr).
  split; [exists (obs_partitions o), p; split; congruence|].
  intros x Hx. destruct (Hdr x Hx) as (Hd1 & _ & Hd2 & Hne). split_and!; [congruence|done|]. exists p. congruence.
Qed.

Lemma create_topic_safe d n b r b' :
  partitions (topic_spec d) = Some n -> topics b !! desc_topic d = None ->
  create_topic (desc_topic d) n (replication_factor (topic_spec d)) (topic_spec d) b = (r, b') ->
  safe_step Create d b b'.
Proof.
  intros Hn Hnone. unfold create_topic.
  intros [(rs & b1 & Hq & [= <- <-])|(e & Hq & ->)]%bind_step; unfold request in Hq;
    destruct (create_topics _ b) as [[rs'|] b2] eqn:Ec; try done; injection Hq as <- <-;
    (destruct (create_adds _ _ _ _ Ec) as [Eq|[Habs Eq]]; [by left|right; split_and!; [done..|]]);
    eexists; done.
Qed.

Lemma converge_topic_spec mode d b r b' :
  mode <> Off -> converge_topic mode d b = (r, b') ->
  safe_step mode d b b'
  /\ forall o, r = Ok o -> compliant d b'
     /\ forall x, o = Some x -> drift_topic x = desc_topic d /\ drift_declared x <> drift_found x
          /\ exists p, topics b' !! desc_topic d = Some (drift_found x, p).
Proof.
  intros Hm. unfold converge_topic.
  intros [(o & b1 & Ho & Hk)|(e & Ho & ->)]%bind_step; destruct (observe_reads _ _ _ _ Ho) as (-> & Hnone & Hsome);
    [|split; [by left|done]].
  apply bind_step in Hk as [(out & b2 & Hr & Hk)|(e & Hr & ->)];
    unfold reconciled, lift in Hr; destruct (reconcile _ _ _ _) as [out'|e'] eqn:Erec; try done; injection Hr as <- <-;
    [|split; [by left|done]].
  destruct o as [o|].
  - destruct (reconcile_seen _ _ _ _ _ Hm Erec) as (Hact & _). rewrite Hact in Hk. injection Hk as <- <-.
    split; [by left|]. intros dr [= <-]. by eapply observed_compliant.
  - destruct (reconcile_absent _ _ _ _ Hm Erec) as (-> & n & Hn & Hact). rewrite Hact in Hk.
    apply bind_step in Hk as [(u & b3 & Hc & Hk)|(e & Hc & ->)]; [|by split; [eapply create_topic_safe; auto|]].
    pose proof (create_topic_safe _ _ _ _ _ Hn (Hnone eq_refl) Hc) as Hcreate.
    apply bind_step in Hk as [(o & b4 & Ho' & Hk)|(e & Ho' & ->)];
      destruct (observe_reads _ _ _ _ Ho') as (-> & _ & _); [|by split].
    apply bind_step in Hk as [(out & b5 & Hr & [= <- <-])|(e & Hr & ->)];
      unfold reconciled, lift in Hr; destruct (reconcile _ _ o Verify) as [out''|] eqn:Er2; try done; injection Hr as <- <-; [|by split].
    split; [done|]. intros dr [= <-].
    destruct o as [o|]; [by eapply (observed_compliant d o _ _ Verify)|].
    by destruct (reconcile_absent _ _ Verify _ ltac:(done) Er2) as [? _].
Qed.

(** The first declaration of a topic, which is the one that is checked. *)
Definition first_of (ds : list MessageDescriptor) (topic : string) : option MessageDescriptor :=
  List.find (fun d => bool_decide (desc_topic d = topic)) ds.

(** What any run leaves of the broker: a topic it adds has the count and the
    policy of the first type declared on it. *)
Definition only_creates (mode : TopicMode) (ds : list MessageDescriptor) (b b' : B) : Prop :=
  topics b ⊆ topics b'
  /\ forall t n p, topics b' !! t = Some (n, p) -> topics b !! t = None ->
       mode = Create /\ exists d, first_of ds t = Some d /\ partitions (topic_spec d) = Some n
         /\ p = as_broker_value (cleanup_policy (topic_spec d)).

Lemma safe_step_creates mode d ds b b' :
  first_of ds (desc_topic d) = Some d -> safe_step mode d b b' -> only_creates mode ds b b'.
Proof.
  intros Hd [Eq|(-> & Habs & n & Hn & Eq)]; unfold only_creates; rewrite Eq.
  - split; [done|]. intros t n p Hs Hn. congruence.
  - split; [by apply insert_subseteq|]. intros t n' p Ht Hnone. split; [done|]. exists d.
    destruct (decide (desc_topic d = t)) as [<-|Hne].
    + rewrite lookup_insert_eq in Ht. injection Ht as <- <-. done.
    + rewrite lookup_insert_ne in Ht by done. congruence.
Qed.

Lemma only_creates_trans mode ds b1 b2 b3 :
  only_creates mode ds b1 b2 -> only_creates mode ds b2 b3 -> only_creates mode ds b1 b3.
Proof.
  intros [H12 Hn12] [H23 Hn23]. split; [by etransitivity|]. intros t n p Ht Hnone.
  destruct (topics b2 !! t) as [[n' p']|] eqn:E2; [|by apply Hn23].
  assert (topics b3 !! t = Some (n', p')) by (eapply lookup_weaken; done). simplify_eq. by apply Hn12.
Qed.

Lemma compliant_weaken d b b' : topics b ⊆ topics b' -> compliant d b -> compliant d b'.
Proof. intros Hs (n & p & Ht & Hp). exists n, p. split; [by eapply lookup_weaken|done]. Qed.

Lemma converge_loop_spec mode : mode <> Off -> forall ds all seen b r b',
  (forall t, t ∉ seen -> first_of all t = first_of ds t) ->
  converge_loop mode seen ds b = (r, b') ->
  only_creates mode all b b'
  /\ forall drifts, r = Ok drifts ->
     (forall d, d ∈ ds -> desc_topic d ∉ seen ->
        exists d0, first_of ds (desc_topic d) = Some d0 /\ compliant d0 b')
     /\ (forall x, x ∈ drifts -> drift_declared x <> drift_found x
          /\ exists p, topics b' !! drift_topic x = Some (drift_found x, p)).
Proof.
  intros Hm ds all. induction ds as [|d ds IH]; intros seen b r b' Hall Hrun.
  { injection Hrun as <- <-. split; [split; [done|intros; congruence]|].
    intros drifts [= <-]. split; intros ? ?%elem_of_nil; done. }
  assert (Hskip : forall t, desc_topic d <> t -> first_of (d :: ds) t = first_of ds t)
    by (intros t Hne; unfold first_of; simpl; by rewrite bool_decide_eq_false_2).
  cbn [converge_loop] in Hrun. case_bool_decide as Hseen.
  { assert (Hall' : forall t, t ∉ seen -> first_of all t = first_of ds t)
      by (intros t Ht; rewrite <- Hskip by congruence; auto).
    destruct (IH _ _ _ _ Hall' Hrun) as [Hc Hok]. split; [done|]. intros drifts ->.
    destruct (Hok drifts eq_refl) as [Hd Hx]. split; [|done]. intros d' [->|Hd']%elem_of_cons Hns; [done|].
    unfold first_of. simpl. rewrite bool_decide_eq_false_2 by congruence. by apply Hd. }
  assert (Hmine : first_of all (desc_topic d) = Some d)
    by (rewrite Hall by done; unfold first_of; simpl; by rewrite bool_decide_eq_true_2).
  assert (Hall' : forall t, t ∉ {[ desc_topic d ]} ∪ seen -> first_of all t = first_of ds t)
    by (intros t Ht; rewrite <- Hskip by set_solver; apply Hall; set_solver).
  apply bind_step in Hrun as [(o & b1 & Ht & Hrun)|(e & Ht & ->)];
    destruct (converge_topic_spec _ _ _ _ _ Hm Ht) as [Hstep Hdone];
    pose proof (safe_step_creates _ _ all _ _ Hmine Hstep) as Hcr; [|done].
  destruct (Hdone o eq_refl) as [Hcomp Hdrift].
  apply bind_step in Hrun as [(rest & b2 & Hl & [= <- <-])|(e & Hl & ->)];
    destruct (IH _ _ _ _ Hall' Hl) as [Hcr' Hok]; (split; [by eapply only_creates_trans|]); [|done].
  intros drifts [= <-]. destruct (Hok rest eq_refl) as [Hd Hx]. split.
  - intros d' Hd' Hns. unfold first_of. simpl. case_bool_decide as Heq.
    + exists d. split; [done|]. by eapply compliant_weaken; [apply Hcr'|].
    + apply elem_of_cons in Hd' as [->|Hd']; [done|]. apply Hd; [done|]. set_solver.
  - assert (Hdrifts : forall x, o = Some x -> drift_declared x <> drift_found x
              /\ exists p, topics b2 !! drift_topic x = Some (drift_found x, p)).
    { intros x ->. destruct (Hdrift x eq_refl) as (Hn & Hne & p & Hp). split; [done|]. exists p. rewrite Hn.
      eapply lookup_weaken; [exact Hp|apply Hcr']. }
    intros x Hin. destruct o as [y|]; [|by apply Hx]. apply elem_of_cons in Hin as [->|Hin]; auto.
Qed.
End convergence.

(** C27. Boot brings topics into line without touching what is there. Whatever the
    broker answers, as long as nobody else changes its topics meanwhile,
    convergence alters no existing topic and creates only declared topics that are
    missing, in mode [Create] alone, with the partition count and the cleanup
    policy of the first type declared on the topic; mode [Off] asks nothing. When it succeeds, every declared
    topic exists on the broker and its policy text reads as the one required by
    the first type declared on it; and every drift it reports is one. *)
Theorem converge_topics_safe {B} `{FaithfulAdmin B} (mode : TopicMode) (ds : list MessageDescriptor) (b b' : B)
  (r : result RdError (list PartitionDrift)) (Hrun : converge_topics mode ds b = (r, b')) :
  only_creates mode ds b b'
  /\ (mode = Off -> r = Ok [] /\ b' = b)
  /\ (mode <> Off -> forall drifts, r = Ok drifts ->
        (forall d, d ∈ ds -> exists d0, first_of ds (desc_topic d) = Some d0 /\ compliant d0 b')
        /\ (forall x, x ∈ drifts -> drift_declared x <> drift_found x
             /\ exists p, topics b' !! drift_topic x = Some (drift_found x, p))).
Proof.
  revert Hrun. unfold converge_topics. case_bool_decide as Hm.
  - intros [= <- <-]. split_and!; [split; [done|intros; congruence]|done|done].
  - intros Hrun. destruct (converge_loop_spec mode Hm ds ds ∅ b r b' (fun t _ => eq_refl) Hrun) as [Hc Hok].
    split_and!; [done..|]. intros _ drifts Hr. destruct (Hok drifts Hr) as [Hd Hx]. split; [|done].
    intros d Hin. apply Hd; [done|]. apply not_elem_of_empty.
Qed.

(** ** A broker *)

Module TopicSample.
(** A broker whose topics are a map; creating one that is there is refused, and
    so is a partition count that does not fit. *)
Definition fits (e : Z * string) : bool := (0 <=? e.1) && (e.1 <=? i32_max).
Record Broker := { held : gmap string (Z * string); held_fit : map_Forall (fun _ e => fits e = true) held }.

Definition add (t : string) (e : Z * string) (b : Broker) (He : fits e = true) : Broker :=
  {| held := <[t := e]> (held b); held_fit := map_Forall_insert_2 _ (held b) t e He (held_fit b) |}.

Definition create (nt : NewTopic) (b : Broker) : result string (list (result ErrorCode unit)) * Broker :=
  match held b !! nt_name nt with
  | Some _ => (Ok [Err TopicAlreadyExists], b)
  | None =>
      match decide (fits (nt_partitions nt, (nt_config nt).2) = true) with
      | left He => (Ok [Ok tt], add (nt_name nt) (nt_partitions nt, (nt_config nt).2) b He)
      | right _ => (Ok [Err (OtherCode "invalid partitions")], b)
      end
  end.

Definition listed (e : string * (Z * string)) : TopicMetadata :=
  {| md_name := e.1; md_error := None; md_partitions := e.2.1 |}.

#[local] Instance client : AdminClient Broker := {|
  fetch_metadata b := (Ok (map listed (map_to_list (held b))), b);
  describe_configs t b :=
    (match held b !! t with
     | Some (_, p) => Ok [Ok [("retention.ms", Some "1"); (CLEANUP_POLICY, Some p)]]
     | None => Ok [Err UnknownTopicOrPart]
     end, b);
  create_topics := create;
  code_text c := "code" |}.

Lemma find_listed (l : list (string * (Z * string))) t :
  NoDup (map fst l) ->
  match List.find (fun m => bool_decide (md_name m = t)) (map listed l) with
  | Some m => if bool_decide (md_error m = Some UnknownTopicOrPart) then None else Some (md_partitions m)
  | None => None
  end = fst <$> (list_to_map l : gmap string (Z * string)) !! t.
Proof.
  induction l as [|[t' e] l IH]; intros Hn; simpl; [by rewrite lookup_empty|].
  apply NoDup_cons in Hn as [_ Hn]. case_bool_decide as Ht.
  - subst. simpl. by rewrite lookup_insert_eq.
  - rewrite lookup_insert_ne by done. by apply IH.
Qed.

#[local] Instance faithful : FaithfulAdmin Broker.
Proof.
  refine {| topics := held |}.
  - intros b r b' [= <- <-]. split; [done|]. intros ms [= <-] t. rewrite find_listed.
    + by rewrite list_to_map_to_list.
    + apply NoDup_fst_map_to_list.
  - intros b t n p Ht. pose proof (map_Forall_lookup_1 _ _ _ _ (held_fit b) Ht) as Hf.
    unfold fits in Hf. simpl in Hf. reflect_bools. lia.
  - intros t b r b' [= <- <-]. split; [done|]. intros entries rest Hr n p Ht e.
    rewrite Ht in Hr. injection Hr as <- _. cbn. by intros [= <-].
  - intros nt b r b'. cbn. unfold create. destruct (held b !! nt_name nt) eqn:Ht; [intros [= <- <-]; by left|].
    destruct (decide _); intros [= <- <-]; [by right|by left].
Defined.

Definition empty_broker : Broker := {| held := ∅; held_fit := map_Forall_empty _ |}.
Definition spec : TopicSpec := {| cleanup_policy := Compact; partitions := Some 3; replication_factor := None |}.
Definition ds : list MessageDescriptor := [Build_MessageDescriptor "product" "product.v1" spec].

Lemma converge_topics_safe_witness :
  (converge_topics Verify ds empty_broker).1 = Err (RdCore (TopicMissing "product.v1"))
  /\ exists b', converge_topics Create ds empty_broker = (Ok [], b') /\ held b' !! "product.v1" = Some (3, "compact")
     /\ only_creates Create ds empty_broker b'.
Proof.
  split; [by vm_compute|].
  assert (Hr : (converge_topics Create ds empty_broker).1 = Ok []) by by vm_compute.
  assert (Ht : held (converge_topics Create ds empty_broker).2 !! "product.v1" = Some (3, "compact")) by by vm_compute.
  destruct (converge_topics Create ds empty_broker) as [r b'] eqn:E. cbn in Hr, Ht. subst r.
  exists b'. split; [reflexivity|]. split; [exact Ht|]. by apply (converge_topics_safe Create ds empty_broker b' (Ok [])).
Defined.
End TopicSample.
