(* ===== verification/Supervisor.v ===== *)
(** * Supervisor: running loops, their first exit, and the drain

    Models [src/crates/kafkaman/src/runtime/tasks.rs], [subsystems.rs] and
    [error.rs], and the supervision half of [src/crates/kafkaman/src/axum.rs].
    Tokio decides in which order tasks finish: the events a call meets are its
    arguments, and the theorems hold for every list of them. *)

From S2P Require Import Prelude Text Vocabulary Registry Wire.
From stdpp Require Import pretty.
Open Scope string_scope.
Open Scope list_scope.
Open Scope Z_scope.

(** ** Errors *)

Inductive BuildError :=
| MissingConfig | MissingPool | MissingBrokers
| MissingConsumerGroup (message_type : string)
| NoRoles
| BRoles (source : Error)
| BConfig (source : Error)
| BTopics (source : RdError)
| BMigrate (source : Error)
| BTable (message_type : string) (source : Error)
| BTransport (brokers : string) (source : RdError)
| BRetention (message : string)
| BListener (message : string)
| BAddress (message : string).

Definition build_problem_type (e : BuildError) : string :=
  match e with
  | MissingConfig | MissingPool | MissingBrokers | MissingConsumerGroup _ | NoRoles
  | BRetention _ | BListener _ | BAddress _ => CONFIGURATION
  | BRoles source | BConfig source | BMigrate source => problem_type source
  | BTopics source | BTransport _ source => rd_problem_type source
  | BTable _ source => problem_type source
  end.

(** The boxed error of a loop, by its text. *)
Abbreviation box_error := string (only parsing).

Inductive RuntimeError :=
| LoopFailed (loop_name : string) (source : box_error)
| LoopExited (loop_name message : string)
| LoopPanicked (loop_name : string)
| DrainTimeout (timeout : interval) (remaining : nat)
| RBuild (source : BuildError).

Definition runtime_problem_type (e : RuntimeError) : string :=
  match e with
  | LoopFailed _ _ | LoopExited _ _ | LoopPanicked _ | DrainTimeout _ _ => INFRASTRUCTURE
  | RBuild source => build_problem_type source
  end.

(** ** Subsystems *)

(** [Subsystems]: a set of flags in one byte. *)
Definition Subsystems := Z.
Definition RELAY : Subsystems := Z.shiftl 1 0.
Definition INGEST : Subsystems := Z.shiftl 1 1.
Definition DISPATCH : Subsystems := Z.shiftl 1 2.
Definition PURGE : Subsystems := Z.shiftl 1 3.
Definition QUEUE_METRICS : Subsystems := Z.shiftl 1 4.
Definition PIPELINE : Subsystems := Z.lor (Z.lor (Z.lor RELAY INGEST) DISPATCH) QUEUE_METRICS.
Definition no_subsystems : Subsystems := 0.
Definition all_subsystems : Subsystems :=
  Z.lor (Z.lor (Z.lor (Z.lor RELAY INGEST) DISPATCH) PURGE) QUEUE_METRICS.

Definition has_subsystem (s flag : Subsystems) : bool := Z.land s flag =? flag.
Definition intersects (s flag : Subsystems) : bool := negb (Z.land s flag =? 0).
(** [bits & !flag], on a byte. *)
Definition without (s flag : Subsystems) : Subsystems := Z.land s (Z.lxor flag 255).
Definition bit_or (s t : Subsystems) : Subsystems := Z.lor s t.

(** ** Tasks *)

Abbreviation task_id := N (only parsing).

(** How a task ended: its result, or a join error. *)
Inductive Completion := Finished (r : result box_error unit) | JoinCancelled | JoinPanicked.

(** [RuntimeTasks]: the token, the running tasks and their names. Task ids are
    never reused. *)
Record RuntimeTasks := {
  cancelled : bool;
  running : gset task_id;
  names : gmap task_id string;
  next_id : task_id;
}.

Definition tasks_empty (token : bool) : RuntimeTasks :=
  {| cancelled := token; running := ∅; names := ∅; next_id := 0 |}.

Definition spawn_loop (name : string) (t : RuntimeTasks) : RuntimeTasks :=
  {| cancelled := cancelled t; running := {[ next_id t ]} ∪ running t;
     names := <[next_id t := name]> (names t); next_id := N.succ (next_id t) |}.

Definition spawn (token : bool) (loops : list string) : RuntimeTasks :=
  fold_left (fun t name => spawn_loop name t) loops (tasks_empty token).

Definition tasks_len (t : RuntimeTasks) : nat := size (running t).
Definition tasks_is_empty (t : RuntimeTasks) : bool := bool_decide (running t = ∅).

(** [join_next_with_id]: a task leaves the set. *)
Definition joined (id : task_id) (t : RuntimeTasks) : RuntimeTasks :=
  {| cancelled := cancelled t; running := running t ∖ {[ id ]}; names := names t; next_id := next_id t |}.

(** [take_name]. *)
Definition take_name (id : task_id) (t : RuntimeTasks) : string * RuntimeTasks :=
  (default ("unknown-task-" +:+ pretty id) (names t !! id),
   {| cancelled := cancelled t; running := running t; names := delete id (names t); next_id := next_id t |}).

(** [classify_completion]. *)
Definition classify_completion (id : task_id) (c : Completion) (clean_exit_is_error : bool)
  (t : RuntimeTasks) : option RuntimeError * RuntimeTasks :=
  let '(name, t) := take_name id t in
  (match c with
   | Finished (Err source) => Some (LoopFailed name source)
   | Finished (Ok _) => if clean_exit_is_error then Some (LoopExited name "completed before shutdown") else None
   | JoinCancelled => None
   | JoinPanicked => Some (LoopPanicked name)
   end, t).

(** [wait]: [first] is the task that ends first, and [token] whether shutdown
    has been requested by then. *)
Definition wait (first : task_id * Completion) (token : bool) (t : RuntimeTasks)
  : result RuntimeError unit * RuntimeTasks :=
  let t := {| cancelled := token; running := running t; names := names t; next_id := next_id t |} in
  if tasks_is_empty t then (Ok tt, t)
  else
    let '(e, t) := classify_completion first.1 first.2 (negb token) (joined first.1 t) in
    (match e with Some e => Err e | None => Ok tt end, t).

Definition or_first (first failure : option RuntimeError) : option RuntimeError :=
  match first with Some _ => first | None => failure end.

(** [drain_ready_before_shutdown], on the tasks that have already ended. *)
Fixpoint drain_ready (ready : list (task_id * Completion)) (first : option RuntimeError) (t : RuntimeTasks)
  : option RuntimeError * RuntimeTasks :=
  match ready with
  | [] => (first, t)
  | (id, c) :: ready =>
      let '(e, t) := classify_completion id c true (joined id t) in
      drain_ready ready (or_first first e) t
  end.

Definition settle (first : option RuntimeError) : result RuntimeError unit :=
  match first with Some e => Err e | None => Ok tt end.

(** The loop of [drain]: the tasks that end before the deadline, in order. *)
Fixpoint drain_loop (timeout : interval) (arrivals : list (task_id * Completion))
  (first : option RuntimeError) (t : RuntimeTasks) : result RuntimeError unit * RuntimeTasks :=
  if tasks_is_empty t then (settle first, t)
  else match arrivals with
       | [] => (match first with
                | Some e => Err e
                | None => Err (DrainTimeout timeout (tasks_len t))
                end, t)
       | (id, c) :: arrivals =>
           let '(e, t) := classify_completion id c false (joined id t) in
           drain_loop timeout arrivals (or_first first e) t
       end.

Definition drain (timeout : interval) (arrivals : list (task_id * Completion))
  (first : option RuntimeError) (t : RuntimeTasks) : result RuntimeError unit * RuntimeTasks :=
  if timeout =? 0 then (settle first, t) else drain_loop timeout arrivals first t.

Definition cancel (t : RuntimeTasks) : RuntimeTasks :=
  {| cancelled := true; running := running t; names := names t; next_id := next_id t |}.

(** [shutdown_with_timeout]: [ready] are the tasks that ended before the call and
    [arrivals] those that end between the cancellation and the deadline; with the
    token already cancelled the ready ones are met in the drain. *)
Definition shutdown_with_timeout (timeout : interval) (ready arrivals : list (task_id * Completion))
  (t : RuntimeTasks) : result RuntimeError unit :=
  if cancelled t then (drain timeout (ready ++ arrivals) None (cancel t)).1
  else let '(first, t) := drain_ready ready None t in (drain timeout arrivals first (cancel t)).1.

Definition DEFAULT_DRAIN_TIMEOUT : interval := 30 * 1000000000.
Definition shutdown (ready arrivals : list (task_id * Completion)) (t : RuntimeTasks) : result RuntimeError unit :=
  shutdown_with_timeout DEFAULT_DRAIN_TIMEOUT ready arrivals t.

(** [Result::and]. *)
Definition result_and {E A} (a b : result E A) : result E A := match a with Ok _ => b | Err e => Err e end.

(** [RunningService::run] and the end of [Runtime::run]. *)
Definition run_tasks (first : task_id * Completion) (token : bool) (ready arrivals : list (task_id * Completion))
  (t : RuntimeTasks) : result RuntimeError unit :=
  let '(r, t) := wait first token t in result_and r (shutdown ready arrivals t).

(** [Serve::spawn]: the HTTP server is one more supervised loop. *)
Definition serve_spawn (addr : result string string) (token : bool) (loops : option (result BuildError (list string)))
  : result BuildError (string * RuntimeTasks) :=
  match addr with
  | Err text => Err (BListener text)
  | Ok addr =>
      match loops with
      | Some (Err e) => Err e
      | Some (Ok loops) => Ok (addr, spawn_loop "http" (spawn token loops))
      | None => Ok (addr, spawn_loop "http" (tasks_empty token))
      end
  end.

(** [RunningService::base_url]. *)
Definition base_url (addr : string) : string := "http://" +:+ addr.

(** ** What a completion means *)

(** The failure a completion stands for, given the names the tasks were spawned
    under. *)
Definition verdict (ns : gmap task_id string) (clean_exit_is_error : bool) (ev : task_id * Completion)
  : option RuntimeError :=
  let name := default ("unknown-task-" +:+ pretty ev.1) (ns !! ev.1) in
  match ev.2 with
  | Finished (Err source) => Some (LoopFailed name source)
  | Finished (Ok _) => if clean_exit_is_error then Some (LoopExited name "completed before shutdown") else None
  | JoinCancelled => None
  | JoinPanicked => Some (LoopPanicked name)
  end.

(** Every running task has its name. *)
Record supervised (t : RuntimeTasks) : Prop := {
  sup_names : dom (names t) = running t;
  sup_ids : forall id, id ∈ running t -> (id < next_id t)%N;
}.

(** The events a call meets are completions of running tasks, each once. *)
Definition events_of (t : RuntimeTasks) (evs : list (task_id * Completion)) : Prop :=
  NoDup (map fst evs) /\ forall id, id ∈ map fst evs -> id ∈ running t.

(** The verdict of a call that met these events and found so many tasks. *)
Definition overall (timeout : interval) (failures : list RuntimeError) (left : nat) : result RuntimeError unit :=
  match failures with
  | e :: _ => Err e
  | [] => if Nat.eqb left 0 then Ok tt else Err (DrainTimeout timeout left)
  end.

Lemma spawn_loop_supervised name t : supervised t -> supervised (spawn_loop name t).
Proof.
  intros [Hn Hi]. split; simpl; [by rewrite dom_insert_L, Hn|].
  intros id [->%elem_of_singleton|Hid]%elem_of_union; [lia|]. specialize (Hi id Hid). lia.
Qed.

Lemma spawn_supervised token loops : supervised (spawn token loops).
Proof.
  unfold spawn. assert (Hs : supervised (tasks_empty token)) by (split; [apply dom_empty_L|set_solver]).
  revert Hs. generalize (tasks_empty token). induction loops as [|name loops IH]; intros t Hs; simpl; [done|].
  apply IH, spawn_loop_supervised, Hs.
Qed.

(** A task set that runs exactly the loops of a list, each under its name. *)
Definition runs_loops (ls : list string) (t : RuntimeTasks) : Prop :=
  size (running t) = length ls /\ forall id, id ∈ running t -> exists name, names t !! id = Some name /\ name ∈ ls.

Lemma spawn_loop_runs name ls t : supervised t -> runs_loops ls t -> runs_loops (name :: ls) (spawn_loop name t).
Proof.
  intros [_ Hi] [Hs Hn]. split; cbn [running spawn_loop names].
  - rewrite size_union, size_singleton, Hs; [done|]. intros id ->%elem_of_singleton Hid. specialize (Hi _ Hid). lia.
  - intros id [->%elem_of_singleton|Hid]%elem_of_union.
    + exists name. rewrite lookup_insert_eq. split; [done|by left].
    + destruct (Hn id Hid) as (n & Hl & Hin). exists n. rewrite lookup_insert_ne; [split; [done|by right]|].
      specialize (Hi _ Hid). lia.
Qed.

Lemma spawn_runs token loops : runs_loops (rev loops) (spawn token loops).
Proof.
  unfold spawn. rewrite <- (app_nil_r (rev loops)).
  assert (Hs : supervised (tasks_empty token)) by (split; [apply dom_empty_L|set_solver]).
  assert (Hr : runs_loops [] (tasks_empty token)) by (split; [apply size_empty|set_solver]).
  revert Hs Hr. generalize (tasks_empty token) (@nil string). induction loops as [|name loops IH]; intros t ls Hs Hr; [done|].
  cbn [fold_left rev]. rewrite <- app_assoc. apply IH; [by apply spawn_loop_supervised|by apply spawn_loop_runs].
Qed.

Lemma classify_spec id c flag t :
  classify_completion id c flag (joined id t)
  = (verdict (names t) flag (id, c),
     {| cancelled := cancelled t; running := running t ∖ {[ id ]}; names := delete id (names t); next_id := next_id t |}).
Proof. done. Qed.

(** A loop that ends cleanly before shutdown is an error, whatever else runs. *)
Lemma wait_clean_exit id name t :
  id ∈ running t -> names t !! id = Some name ->
  fst (wait (id, Finished (Ok tt)) false t) = Err (LoopExited name "completed before shutdown").
Proof.
  intros Hid Hn. unfold wait, tasks_is_empty. cbn [running]. rewrite bool_decide_false by set_solver.
  cbn [fst snd]. rewrite classify_spec. unfold verdict. cbn [fst snd names negb]. by rewrite Hn.
Qed.

(** The task set after some completions. *)
Definition without_ids (ids : list task_id) (t : RuntimeTasks) : RuntimeTasks :=
  fold_left (fun t id => {| cancelled := cancelled t; running := running t ∖ {[ id ]};
                            names := delete id (names t); next_id := next_id t |}) ids t.

Lemma verdict_delete ns flag id (ev : task_id * Completion) :
  ev.1 <> id -> verdict (delete id ns) flag ev = verdict ns flag ev.
Proof. intros Hne. unfold verdict. by rewrite lookup_delete_ne. Qed.

Lemma omap_cons {A C} (f : A -> option C) x l : omap f (x :: l) = option_list (f x) ++ omap f l.
Proof. simpl. by destruct (f x). Qed.

Lemma verdicts_delete ns flag id evs :
  id ∉ map fst evs -> omap (verdict (delete id ns) flag) evs = omap (verdict ns flag) evs.
Proof.
  induction evs as [|ev evs IH]; intros Hid; [done|]. simpl in Hid. apply not_elem_of_cons in Hid as [Hne Hid].
  rewrite !omap_cons, verdict_delete by done. by rewrite IH.
Qed.

Lemma head_or_first first (o : option RuntimeError) l :
  head (option_list (or_first first o) ++ l) = head (option_list first ++ option_list o ++ l).
Proof. by destruct first, o. Qed.

Lemma events_tail id c evs t :
  events_of t ((id, c) :: evs) ->
  id ∈ running t /\ id ∉ map fst evs
  /\ events_of {| cancelled := cancelled t; running := running t ∖ {[ id ]}; names := delete id (names t);
                  next_id := next_id t |} evs.
Proof.
  intros [Hn Hin]. simpl in *. apply NoDup_cons in Hn as [Hid Hn]. split; [apply Hin; by left|]. split; [done|]. split; [done|].
  intros x Hx. simpl. apply elem_of_difference. split; [apply Hin; by right|]. rewrite elem_of_singleton. by intros ->.
Qed.

Lemma drain_loop_spec timeout evs : forall first t,
  events_of t evs ->
  (drain_loop timeout evs first t).1
  = overall timeout (option_list first ++ omap (verdict (names t) false) evs) (size (running t) - length evs).
Proof.
  induction evs as [|[id c] evs IH]; intros first t Hev; cbn [drain_loop].
  - simpl. rewrite app_nil_r, Nat.sub_0_r. unfold tasks_is_empty. case_bool_decide as He.
    + simpl. rewrite He, size_empty. by destruct first.
    + simpl. unfold overall, tasks_len. destruct first; [done|]. simpl.
      destruct (Nat.eqb_spec (size (running t)) 0) as [Hz|]; [|done]. by apply size_empty_inv, leibniz_equiv in Hz.
  - destruct (events_tail _ _ _ _ Hev) as (Hid & Hni & Hev'). unfold tasks_is_empty. case_bool_decide as He; [set_solver|].
    rewrite classify_spec, IH by done. cbn [names running]. rewrite verdicts_delete by done.
    rewrite omap_cons. rewrite size_difference by set_solver. rewrite size_singleton.
    replace (size (running t) - 1 - length evs)%nat with (size (running t) - length ((id, c) :: evs))%nat by (simpl; lia).
    unfold overall. by destruct first, (verdict (names t) false (id, c)).
Qed.

Lemma drain_ready_spec evs : forall first t,
  events_of t evs ->
  (drain_ready evs first t).1 = head (option_list first ++ omap (verdict (names t) true) evs)
  /\ (drain_ready evs first t).2 = without_ids (map fst evs) t.
Proof.
  induction evs as [|[id c] evs IH]; intros first t Hev; cbn [drain_ready].
  - simpl. rewrite app_nil_r. by destruct first.
  - destruct (events_tail _ _ _ _ Hev) as (Hid & Hni & Hev'). rewrite classify_spec.
    destruct (IH (or_first first (verdict (names t) true (id, c))) _ Hev') as [-> ->]. split; [|done].
    cbn [names]. rewrite verdicts_delete, omap_cons by done. apply head_or_first.
Qed.

Lemma without_ids_spec ids : forall t,
  NoDup ids -> (forall id, id ∈ ids -> id ∈ running t) ->
  size (running (without_ids ids t)) = (size (running t) - length ids)%nat
  /\ (forall id, id ∈ running (without_ids ids t) <-> id ∈ running t /\ id ∉ ids)
  /\ (forall id, id ∉ ids -> names (without_ids ids t) !! id = names t !! id).
Proof.
  induction ids as [|x ids IH]; intros t Hn Hin; simpl; [split_and!; [lia|set_solver|done]|].
  apply NoDup_cons in Hn as [Hx Hn]. set (t' := Build_RuntimeTasks _ _ _ _).
  destruct (IH t' Hn) as (Hs & Hr & Hnm).
  { intros id Hid. unfold t'. simpl. apply elem_of_difference. split; [apply Hin; by right|]. set_solver. }
  split_and!.
  - rewrite Hs. unfold t'. simpl. rewrite size_difference, size_singleton; [lia|].
    apply singleton_subseteq_l, Hin. by left.
  - intros id. rewrite Hr. unfold t'. simpl. rewrite elem_of_difference, elem_of_singleton, elem_of_cons. tauto.
  - intros id Hid. apply not_elem_of_cons in Hid as [Hne Hid]. rewrite Hnm by done. unfold t'. simpl.
    by rewrite lookup_delete_ne.
Qed.

Lemma verdicts_ext ns ns' flag (evs : list (task_id * Completion)) :
  (forall id, id ∈ map fst evs -> ns !! id = ns' !! id) ->
  omap (verdict ns flag) evs = omap (verdict ns' flag) evs.
Proof.
  induction evs as [|ev evs IH]; intros Hns; [done|]. rewrite !omap_cons. f_equal.
  - unfold verdict. by rewrite (Hns ev.1) by left.
  - apply IH. intros id Hid. apply Hns. by right.
Qed.

Lemma overall_head timeout l l' n :
  overall timeout (option_list (head l) ++ l') n = overall timeout (l ++ l') n.
Proof. by destruct l. Qed.

(** The verdict of a shutdown with a drain. *)
Lemma shutdown_spec timeout ready arrivals t :
  timeout <> 0 -> events_of t (ready ++ arrivals) ->
  shutdown_with_timeout timeout ready arrivals t
  = overall timeout (omap (verdict (names t) (negb (cancelled t))) ready ++ omap (verdict (names t) false) arrivals)
      (size (running t) - length (ready ++ arrivals)).
Proof.
  intros Ht [Hn Hin]. unfold shutdown_with_timeout, drain. rewrite (proj2 (Z.eqb_neq timeout 0) Ht).
  destruct (cancelled t) eqn:Hc; simpl negb.
  { rewrite (drain_loop_spec timeout (ready ++ arrivals) None (cancel t)) by done.
    cbn [option_list app names cancel running]. by rewrite omap_app. }
  rewrite map_app in Hn, Hin. apply NoDup_app in Hn as (Hnr & Hdis & Hna).
  assert (Hr : events_of t ready) by (split; [done|intros id ?; apply Hin, elem_of_app; by left]).
  destruct (drain_ready_spec ready None t Hr) as [Hf Hrest].
  destruct (drain_ready ready None t) as [first t1]. simpl in Hf, Hrest. subst first t1.
  destruct (without_ids_spec (map fst ready) t Hnr) as (Hsize & Hrun & Hnames).
  { intros id ?. apply Hin, elem_of_app. by left. }
  rewrite (drain_loop_spec timeout arrivals _ (cancel (without_ids (map fst ready) t))).
  - cbn [names cancel running option_list app]. rewrite overall_head, Hsize, length_map, length_app.
    rewrite (verdicts_ext (names (without_ids (map fst ready) t)) (names t)); [f_equal; lia|].
    intros id Hid. apply Hnames. intros Hir. by eapply Hdis.
  - split; [done|]. intros id Hid. cbn [cancel running]. apply Hrun. split; [apply Hin, elem_of_app; by right|].
    intros Hir. by eapply Hdis.
Qed.

(** A run reports its first failure, under its loop's own name. For every
    order in which the supervised loops end, waiting for the first and then
    shutting down answers: the first failure in that order, if there is one, an
    error or panic being a failure always and a clean exit when shutdown had not
    been requested; otherwise success, provided every loop ended before the
    deadline, and else how many were still running. *)
Theorem run_reports_first_failure (t : RuntimeTasks) (token : bool) (first : task_id * Completion)
  (ready arrivals : list (task_id * Completion)) (Hsup : supervised t)
  (Hev : events_of t (first :: ready ++ arrivals)) :
  run_tasks first token ready arrivals t
  = overall DEFAULT_DRAIN_TIMEOUT
      (omap (verdict (names t) (negb token)) (first :: ready) ++ omap (verdict (names t) false) arrivals)
      (size (running t) - length (first :: ready ++ arrivals))
  /\ forall id, id ∈ map fst (first :: ready ++ arrivals) -> exists name, names t !! id = Some name.
Proof.
  split.
  2: { intros id Hid. apply (proj2 Hev) in Hid. rewrite <- (sup_names _ Hsup) in Hid. by apply elem_of_dom in Hid. }
  destruct first as [id c]. destruct (events_tail _ _ _ _ Hev) as (Hid & Hni & Hev').
  unfold run_tasks, wait, tasks_is_empty. cbn [running fst snd].
  rewrite bool_decide_eq_false_2 by set_solver. rewrite classify_spec. cbn [names cancelled running next_id].
  unfold shutdown. rewrite shutdown_spec; [|done|exact Hev']. cbn [names cancelled running].
  rewrite map_app in Hni. apply not_elem_of_app in Hni as [Hnr Hna].
  rewrite !verdicts_delete, omap_cons by done. rewrite size_difference, size_singleton by set_solver.
  replace (size (running t) - 1 - length (ready ++ arrivals))%nat
    with (size (running t) - length ((id, c) :: ready ++ arrivals))%nat by (simpl; lia).
  by destruct (verdict (names t) (negb token) (id, c)).
Qed.

Lemma run_reports_first_failure_witness :
  let t := spawn false ["relay:product"; "dispatcher:product"; "http"] in
  run_tasks (1%N, Finished (Err "breaker")) false [] [(0%N, Finished (Ok tt)); (2%N, JoinPanicked)] t
  = Err (LoopFailed "dispatcher:product" "breaker")
  /\ run_tasks (2%N, Finished (Ok tt)) true [] [(0%N, Finished (Ok tt))] t
     = Err (DrainTimeout DEFAULT_DRAIN_TIMEOUT 1)
  /\ run_tasks (2%N, Finished (Ok tt)) true [] [(0%N, Finished (Ok tt)); (1%N, JoinCancelled)] t = Ok tt.
Proof.
  intros t. split; [by vm_compute|]. split; [by vm_compute|].
  destruct (run_reports_first_failure t true (2%N, Finished (Ok tt)) [] [(0%N, Finished (Ok tt)); (1%N, JoinCancelled)])
    as [H _]; [apply spawn_supervised| |].
  - split; [apply (bool_decide_unpack _); by vm_compute|].
    intros id Hid. apply (bool_decide_unpack (id ∈ running t)).
    cbn in Hid. rewrite !elem_of_cons, elem_of_nil in Hid. destruct Hid as [->|[->|[->|[]]]]; by vm_compute.
  - rewrite H. by vm_compute.
Defined.

(** The flags behave as a set: removing a subsystem removes it and no other. *)
Lemma without_spec (s flag : Subsystems) i :
  0 <= i < 8 -> Z.testbit (without s flag) i = Z.testbit s i && negb (Z.testbit flag i).
Proof.
  intros Hi. unfold without. rewrite Z.land_spec, Z.lxor_spec.
  assert (Z.testbit 255 i = true) as ->; [|by rewrite xorb_true_r].
  change 255 with (Z.ones 8). apply Z.ones_spec_low. lia.
Qed.
