(* ===== verification/Runtime.v ===== *)
(** * Runtime: from declared roles to running loops

    Models [src/crates/kafkaman/src/runtime/builder.rs], [context.rs] and the
    received-table constructors of [src/crates/kafkaman-sqlx/src/tables.rs]:
    declaring roles, the staged boot ([build]) and the loops it starts
    ([into_tasks_with]). It composes [Roles], [Config], [TopicBoot], [Changelog],
    [Migrations] and [Supervisor]. Loops are named by what they run on; their
    bodies are modelled in [Worker] and [Ingest]. *)

From S2P Require Import Prelude Text Vocabulary Trace Identity Topics Registry Retry Outbox Received Lifecycle Relay Cache Dispatch Worker Wire Decimal Schema Changelog Roles Config TopicBoot Supervisor Migrations QueueMetrics.
Open Scope string_scope.
Open Scope list_scope.
Open Scope Z_scope.

(** ** Tables with their policies *)

(** [ReceivedTable], which carries the retry policy of its type. *)
Record ReceivedTable := { rt_table : Table; rt_retry : RetryPolicy }.

(** [OutboxTable::for_descriptor] and [ReceivedTable::for_descriptor]. *)
Definition outbox_for_descriptor (cfg : Resolved) (d : MessageDescriptor) : result Error Table :=
  table_new OutboxKind (schema (base cfg)) d.
Definition received_for_descriptor (cfg : Resolved) (d : MessageDescriptor) : result Error ReceivedTable :=
  t ← table_new ReceivedKind (schema (base cfg)) d;
  Ok {| rt_table := t; rt_retry := policy_for (rc_retry cfg) (message_type d) |}.

Definition received_for_message (P : Type) `{KafkaMessage P} (cfg : Resolved) : result Error ReceivedTable :=
  d ← descriptor_for P (base cfg); received_for_descriptor cfg d.

(** [RuntimeContext], what a host and a handler can reach: the pool, by its size,
    and the resolved configuration. *)
Record RuntimeContext := { cx_pool : Z; cx_config : Resolved }.

Definition cache_table (P : Type) `{KafkaMessage P} (cx : RuntimeContext) : result Error Table :=
  for_message CacheKind P (base (cx_config cx)).
Definition outbox_table (P : Type) `{KafkaMessage P} (cx : RuntimeContext) : result Error Table :=
  for_message OutboxKind P (base (cx_config cx)).
Definition received_table (P : Type) `{KafkaMessage P} (cx : RuntimeContext) : result Error ReceivedTable :=
  received_for_message P (cx_config cx).

(** [table_for]. *)
Definition table_for {T} (cfg : Resolved) (d : MessageDescriptor)
  (build : Resolved -> MessageDescriptor -> result Error T) : result BuildError T :=
  match (r ← ok_or (EUnknownMessageType (message_type d)) (registered (base cfg) d); build cfg r) with
  | Ok t => Ok t
  | Err source => Err (BTable (message_type d) source)
  end.

(** ** The builder *)

Section builder.
Context {App : Type}.
Abbreviation router := (@MessageRouter App) (only parsing).

(** [RuntimeBuilder]. The pool is known by its size; an installer puts a handler
    into the router once the configuration is resolved. *)
Record RuntimeBuilder := {
  b_config : option Config;
  b_pool : option Z;
  b_brokers : option string;
  b_consumer_group : option string;
  b_migration_context : option MigrationContext;
  b_subsystems : Subsystems;
  b_roles : RoleRegistry;
  b_installers : list (router -> Resolved -> router);
  b_consumed : gmap string MessageDescriptor;
  b_errors : list BuildError;
}.

Definition builder_new : RuntimeBuilder :=
  {| b_config := None; b_pool := None; b_brokers := None; b_consumer_group := None;
     b_migration_context := None; b_subsystems := all_subsystems; b_roles := ∅; b_installers := [];
     b_consumed := ∅; b_errors := [] |}.

(** The wiring the host supplies. *)
Definition set_config (x : Config) (b : RuntimeBuilder) : RuntimeBuilder :=
  {| b_config := Some x; b_pool := b_pool b; b_brokers := b_brokers b;
     b_consumer_group := b_consumer_group b; b_migration_context := b_migration_context b;
     b_subsystems := b_subsystems b; b_roles := b_roles b; b_installers := b_installers b;
     b_consumed := b_consumed b; b_errors := b_errors b |}.
Definition set_pool (x : Z) (b : RuntimeBuilder) : RuntimeBuilder :=
  {| b_config := b_config b; b_pool := Some x; b_brokers := b_brokers b;
     b_consumer_group := b_consumer_group b; b_migration_context := b_migration_context b;
     b_subsystems := b_subsystems b; b_roles := b_roles b; b_installers := b_installers b;
     b_consumed := b_consumed b; b_errors := b_errors b |}.
Definition set_brokers (x : string) (b : RuntimeBuilder) : RuntimeBuilder :=
  {| b_config := b_config b; b_pool := b_pool b; b_brokers := Some x;
     b_consumer_group := b_consumer_group b; b_migration_context := b_migration_context b;
     b_subsystems := b_subsystems b; b_roles := b_roles b; b_installers := b_installers b;
     b_consumed := b_consumed b; b_errors := b_errors b |}.
Definition set_consumer_group (x : string) (b : RuntimeBuilder) : RuntimeBuilder :=
  {| b_config := b_config b; b_pool := b_pool b; b_brokers := b_brokers b;
     b_consumer_group := Some x; b_migration_context := b_migration_context b;
     b_subsystems := b_subsystems b; b_roles := b_roles b; b_installers := b_installers b;
     b_consumed := b_consumed b; b_errors := b_errors b |}.
Definition set_migration_context (x : MigrationContext) (b : RuntimeBuilder) : RuntimeBuilder :=
  {| b_config := b_config b; b_pool := b_pool b; b_brokers := b_brokers b;
     b_consumer_group := b_consumer_group b; b_migration_context := Some x;
     b_subsystems := b_subsystems b; b_roles := b_roles b; b_installers := b_installers b;
     b_consumed := b_consumed b; b_errors := b_errors b |}.
Definition set_subsystems (x : Subsystems) (b : RuntimeBuilder) : RuntimeBuilder :=
  {| b_config := b_config b; b_pool := b_pool b; b_brokers := b_brokers b;
     b_consumer_group := b_consumer_group b; b_migration_context := b_migration_context b;
     b_subsystems := x; b_roles := b_roles b; b_installers := b_installers b;
     b_consumed := b_consumed b; b_errors := b_errors b |}.

(** [RuntimeBuilder::declare]: an error is kept for [build]. *)
Definition b_declare (P : Type) `{KafkaMessage P} (r : Role) (b : RuntimeBuilder) : RuntimeBuilder :=
  match (d ← lift_core (descriptor_of P); declare (b_roles b) d r) with
  | Ok roles =>
      {| b_config := b_config b; b_pool := b_pool b; b_brokers := b_brokers b;
         b_consumer_group := b_consumer_group b; b_migration_context := b_migration_context b;
         b_subsystems := b_subsystems b; b_roles := roles; b_installers := b_installers b;
         b_consumed := b_consumed b; b_errors := b_errors b |}
  | Err e =>
      {| b_config := b_config b; b_pool := b_pool b; b_brokers := b_brokers b;
         b_consumer_group := b_consumer_group b; b_migration_context := b_migration_context b;
         b_subsystems := b_subsystems b; b_roles := b_roles b; b_installers := b_installers b;
         b_consumed := b_consumed b; b_errors := b_errors b ++ [BRoles e] |}
  end.

(** [RuntimeBuilder::register_consumer]: once per type. *)
Definition register_consumer (P : Type) `{KafkaMessage P} (b : RuntimeBuilder) : RuntimeBuilder :=
  match descriptor_of P with
  | Err _ => b
  | Ok d =>
      if bool_decide (is_Some (b_consumed b !! message_type d)) then b
      else {| b_config := b_config b; b_pool := b_pool b; b_brokers := b_brokers b;
              b_consumer_group := b_consumer_group b; b_migration_context := b_migration_context b;
              b_subsystems := b_subsystems b; b_roles := b_roles b; b_installers := b_installers b;
              b_consumed := <[message_type d := d]> (b_consumed b); b_errors := b_errors b |}
  end.

Definition install (i : router -> Resolved -> router) (b : RuntimeBuilder) : RuntimeBuilder :=
  {| b_config := b_config b; b_pool := b_pool b; b_brokers := b_brokers b;
     b_consumer_group := b_consumer_group b; b_migration_context := b_migration_context b;
     b_subsystems := b_subsystems b; b_roles := b_roles b; b_installers := b_installers b ++ [i];
     b_consumed := b_consumed b; b_errors := b_errors b |}.

Definition publish (P : Type) `{KafkaMessage P} (b : RuntimeBuilder) : RuntimeBuilder := b_declare P Publish b.

(** The no-op handler of a type that is only cached. *)
Definition noop_handler (P : Type) (decode : json -> result string P) : @Handler App unit :=
  typed_handler decode (fun _ _ db => ({| polled := Returned (Ok tt); dropped := Returned tt |}, db, Active)).

Definition cache (P : Type) `{KafkaMessage P} (decode : json -> result string P) (b : RuntimeBuilder)
  : RuntimeBuilder :=
  install (fun r _ => handler P (noop_handler P decode) r) (register_consumer P (b_declare P Roles.Cache b)).

(** A handler of the application sees the resolved configuration. *)
Definition handle (P : Type) `{KafkaMessage P} (h : Resolved -> @Handler App unit) (b : RuntimeBuilder)
  : RuntimeBuilder :=
  install (fun r cfg => handler P (h cfg) r) (register_consumer P (b_declare P Handle b)).

Definition handle_before (P : Type) `{KafkaMessage P} (h : Resolved -> @Handler App HandlerFlow)
  (b : RuntimeBuilder) : RuntimeBuilder :=
  install (fun r cfg => handler_before P (h cfg) r) (register_consumer P (b_declare P HandleBefore b)).

(** The builders a chain of calls can reach. *)
Inductive builder_reach : RuntimeBuilder -> Prop :=
| br_new : builder_reach builder_new
| br_config x b : builder_reach b -> builder_reach (set_config x b)
| br_pool x b : builder_reach b -> builder_reach (set_pool x b)
| br_brokers x b : builder_reach b -> builder_reach (set_brokers x b)
| br_consumer_group x b : builder_reach b -> builder_reach (set_consumer_group x b)
| br_migration_context x b : builder_reach b -> builder_reach (set_migration_context x b)
| br_subsystems x b : builder_reach b -> builder_reach (set_subsystems x b)
| br_publish P `{KafkaMessage P} b : builder_reach b -> builder_reach (publish P b)
| br_cache P `{KafkaMessage P} decode b : builder_reach b -> builder_reach (cache P decode b)
| br_handle P `{KafkaMessage P} h b : builder_reach b -> builder_reach (handle P h b)
| br_handle_before P `{KafkaMessage P} h b : builder_reach b -> builder_reach (handle_before P h b).

(** ** The assembled runtime *)

Record ConsumedPlan := { cp_message_type : string; cp_topic : string; cp_received : ReceivedTable }.

Record Runtime := {
  rn_pool : Z;
  rn_config : Resolved;
  rn_brokers : string;
  rn_consumer_group : option string;
  rn_retention : option PurgeConfig;
  rn_subsystems : Subsystems;
  rn_router : router;
  rn_published : list Table;
  rn_consumed : list ConsumedPlan;
}.

Definition context (rt : Runtime) : RuntimeContext := {| cx_pool := rn_pool rt; cx_config := rn_config rt |}.

(** The two table loops at the end of [build]. *)
Fixpoint plan_published (cfg : Resolved) (ds : list MessageDescriptor) : result BuildError (list Table) :=
  match ds with
  | [] => Ok []
  | d :: ds => t ← table_for cfg d outbox_for_descriptor; ts ← plan_published cfg ds; Ok (t :: ts)
  end.

Fixpoint plan_consumed (cfg : Resolved) (ds : list (string * MessageDescriptor))
  : result BuildError (list ConsumedPlan) :=
  match ds with
  | [] => Ok []
  | (_, d) :: ds =>
      t ← table_for cfg d received_for_descriptor;
      ts ← plan_consumed cfg ds;
      Ok ({| cp_message_type := message_type d; cp_topic := desc_topic (tbl_desc (rt_table t)); cp_received := t |} :: ts)
  end.

(** ** What the calls maintain *)

(** The router the installers make. *)
Definition router_of (b : RuntimeBuilder) (cfg : Resolved) : router :=
  fold_left (fun r i => i r cfg) (b_installers b) router_new.

(** Recorded errors are refused declarations; and as long as none is recorded, the
    types with an ingester are exactly the types with a consuming role, and each
    of them has a handler. *)
Record builder_inv (b : RuntimeBuilder) : Prop := {
  bi_errors : forall e, e ∈ b_errors b -> exists source, e = BRoles source;
  bi_consumed : b_errors b = [] -> forall mt, is_Some (b_consumed b !! mt) <->
    exists e, b_roles b !! mt = Some e /\ entry_consumes e = true;
  bi_types : forall mt d, b_consumed b !! mt = Some d -> (message_type d : string) = mt;
  bi_entries : forall mt e, b_roles b !! mt = Some e -> (message_type (entry_descriptor e) : string) = mt;
  bi_routed : b_errors b = [] -> forall cfg mt, is_Some (b_consumed b !! mt) -> routes (router_of b cfg) mt = true;
}.

Lemma descriptor_of_type P `{KafkaMessage P} d : descriptor_of P = Ok d -> (message_type d : string) = MESSAGE_TYPE P.
Proof.
  unfold descriptor_of, descriptor_new. destruct (is_empty _); [done|].
  unfold identifier_new. intros (i & Hi & [= <-])%bind_Ok. by apply bind_Ok in Hi as (u & _ & [= <-]).
Qed.

(** Declaring a consuming role, registering the consumer and installing. *)
Lemma declare_entry reg d r reg' :
  declare reg d r = Ok reg' ->
  exists e e', (reg !! (message_type d) = Some e \/ (reg !! (message_type d) = None /\ e = entry_new d))
    /\ reg' = <[(message_type d) := e']> reg /\ entry_descriptor e' = entry_descriptor e
    /\ forall r', flag r' e' = bool_decide (r' = r) || flag r' e.
Proof.
  unfold declare. intros (e & He & (e' & Hm & [= <-])%bind_Ok)%bind_Ok.
  exists e, e'. destruct (mark_role_Ok _ _ _ _ Hm) as [Hd Hf]. split_and!; [|done..].
  destruct (reg !! (message_type d)) as [e0|] eqn:E.
  - case_bool_decide; [done|]. injection He as <-. by left.
  - injection He as <-. by right.
Qed.

(** The consuming roles after a declaration. *)
Lemma declare_consumes reg d r reg' :
  declare reg d r = Ok reg' ->
  forall mt, (exists e, reg' !! mt = Some e /\ entry_consumes e = true) <->
    (mt = message_type d /\ role_consumes r = true) \/ exists e, reg !! mt = Some e /\ entry_consumes e = true.
Proof.
  intros (e & e' & He & -> & _ & Hf)%declare_entry mt.
  assert (Hc : entry_consumes e' = role_consumes r || entry_consumes e).
  { change (entry_consumes e') with (flag Roles.Cache e' || flag Handle e' || flag HandleBefore e').
    change (entry_consumes e) with (flag Roles.Cache e || flag Handle e || flag HandleBefore e).
    rewrite !Hf. by destruct r, (flag Roles.Cache e), (flag Handle e), (flag HandleBefore e). }
  destruct (decide (mt = message_type d)) as [->|Hne].
  - split.
    + intros (x & Hx & Hcx). rewrite lookup_insert_eq in Hx. injection Hx as <-.
      rewrite Hc in Hcx. apply orb_true_iff in Hcx as [Hr|Hx]; [by left|].
      destruct He as [He|[_ ->]]; [right; by exists e|done].
    + intros Hor. exists e'. split; [apply lookup_insert_eq|]. rewrite Hc. apply orb_true_iff.
      destruct Hor as [[_ Hr]|(x & Hx & Hcx)]; [by left|right].
      destruct He as [He|[He _]]; rewrite He in Hx; [|done]. by injection Hx as <-.
  - rewrite lookup_insert_ne by done. split; [by right|]. by intros [[? _]|?].
Qed.

(** Entries stay under the type of their descriptor. *)
Lemma declare_entries reg d r reg' :
  declare reg d r = Ok reg' ->
  (forall mt e, reg !! mt = Some e -> (message_type (entry_descriptor e) : string) = mt) ->
  forall mt e, reg' !! mt = Some e -> (message_type (entry_descriptor e) : string) = mt.
Proof.
  intros (e & e' & He & -> & Hd & _)%declare_entry Hreg mt x [[<- <-]|[_ Hx]]%lookup_insert_Some; [|auto].
  rewrite Hd. destruct He as [He|[_ ->]]; auto.
Qed.

(** An installer that gives a type a handler and takes none away. *)
Definition routes_type (mt : string) (i : router -> Resolved -> router) : Prop :=
  forall r cfg mt', routes (i r cfg) mt' = bool_decide (mt' = mt) || routes r mt'.

Lemma insert_is_Some {V} (m : gmap string V) k v k' :
  bool_decide (is_Some (<[k := v]> m !! k')) = bool_decide (k' = k) || bool_decide (is_Some (m !! k')).
Proof.
  rewrite <- bool_decide_or. apply bool_decide_ext. rewrite lookup_insert_is_Some'. naive_solver.
Qed.

Lemma handler_routes (P : Type) `{KafkaMessage P} (h : Resolved -> @Handler App unit) :
  routes_type (MESSAGE_TYPE P) (fun r cfg => handler P (h cfg) r).
Proof. intros r cfg mt'. unfold routes, handler. simpl. by rewrite insert_is_Some, orb_assoc. Qed.

Lemma handler_before_routes (P : Type) `{KafkaMessage P} (h : Resolved -> @Handler App HandlerFlow) :
  routes_type (MESSAGE_TYPE P) (fun r cfg => handler_before P (h cfg) r).
Proof.
  intros r cfg mt'. unfold routes, handler_before. simpl. rewrite insert_is_Some.
  by destruct (bool_decide (mt' = _)), (bool_decide (is_Some (handlers r !! mt'))).
Qed.

(** What registering a consumer and declaring a role touch. *)
Definition add_consumer (d : MessageDescriptor) (m : gmap string MessageDescriptor) : gmap string MessageDescriptor :=
  if bool_decide (is_Some (m !! message_type d)) then m else <[message_type d := d]> m.

Lemma register_fields (P : Type) `{KafkaMessage P} (b : RuntimeBuilder) :
  let b' := register_consumer P b in
  b_errors b' = b_errors b /\ b_roles b' = b_roles b /\ b_installers b' = b_installers b
  /\ b_consumed b' = match descriptor_of P with Ok d => add_consumer d (b_consumed b) | Err _ => b_consumed b end.
Proof.
  cbv zeta. unfold register_consumer, add_consumer. destruct (descriptor_of P) as [d|]; [|done]. by case_bool_decide.
Qed.

Lemma declare_fields (P : Type) `{KafkaMessage P} r (b : RuntimeBuilder) :
  let b' := b_declare P r b in
  b_installers b' = b_installers b /\ b_consumed b' = b_consumed b
  /\ ((exists d, descriptor_of P = Ok d /\ declare (b_roles b) d r = Ok (b_roles b') /\ b_errors b' = b_errors b)
      \/ exists e, b_errors b' = b_errors b ++ [BRoles e] /\ b_roles b' = b_roles b).
Proof.
  cbv zeta. unfold b_declare. destruct (descriptor_of P) as [d|e]; cbn [lift_core mbind result_bind].
  - destruct (declare (b_roles b) d r) as [roles|e] eqn:E; (split_and!; [done..|]); [left|right]; eauto.
  - split_and!; [done..|]. right. eauto.
Qed.

Lemma add_consumer_spec d m mt :
  is_Some (add_consumer d m !! mt) <-> mt = (message_type d : string) \/ is_Some (m !! mt).
Proof.
  unfold add_consumer. case_bool_decide as Hs.
  - split; [by right|]. by intros [->|?].
  - rewrite lookup_insert_is_Some'. naive_solver.
Qed.

(** A declared consumer: role, ingester and handler together. *)
Lemma consuming_step (P : Type) `{KafkaMessage P} (r : Role) i (b : RuntimeBuilder) :
  role_consumes r = true -> routes_type (MESSAGE_TYPE P) i -> builder_inv b ->
  builder_inv (install i (register_consumer P (b_declare P r b))).
Proof.
  intros Hr Hi [He Hc Ht Hen Hro]. set (b1 := b_declare P r b). set (b2 := register_consumer P b1).
  destruct (declare_fields P r b) as (Hi1 & Hc1 & Hcase). fold b1 in Hi1, Hc1, Hcase.
  destruct (register_fields P b1) as (He2 & Hr2 & Hi2 & Hc2). fold b2 in He2, Hr2, Hi2, Hc2. rewrite Hc1 in Hc2.
  assert (Htypes : forall mt d, b_consumed b2 !! mt = Some d -> (message_type d : string) = mt).
  { intros mt d0. rewrite Hc2. destruct (descriptor_of P) as [d|]; [|apply Ht]. unfold add_consumer.
    case_bool_decide; [apply Ht|]. intros [[<- <-]|[_ ?]]%lookup_insert_Some; auto. }
  destruct Hcase as [(d & Hd & Hdec & He1)|(e & He1 & Hr1)].
  - rewrite Hd in Hc2. pose proof (descriptor_of_type P d Hd) as Hmt.
    split; cbn [install b_errors b_consumed b_roles]; [|..]; [rewrite He2, He1; done| |exact Htypes|rewrite Hr2; by eapply declare_entries|].
    + rewrite He2, He1, Hc2, Hr2. intros Hno mt.
      rewrite add_consumer_spec, (declare_consumes _ _ _ _ Hdec), (Hc Hno). naive_solver.
    + rewrite He2, He1, Hc2. intros Hno cfg mt Hs. apply add_consumer_spec in Hs.
      unfold router_of. cbn [install b_installers]. rewrite Hi2, Hi1, fold_left_app. simpl. rewrite Hi.
      apply orb_true_iff. destruct Hs as [->|Hs]; [left; by apply bool_decide_eq_true|right]. by apply Hro.
  - assert (Hne : b_errors b2 <> []) by (rewrite He2, He1; by destruct (b_errors b)).
    split; cbn [install b_errors b_consumed b_roles]; try done; [|by rewrite Hr2, Hr1].
    rewrite He2, He1. intros x [Hx|Hx]%elem_of_app; [auto|]. apply list_elem_of_singleton in Hx as ->. eauto.
Qed.

Lemma reach_inv b : builder_reach b -> builder_inv b.
Proof.
  induction 1 as [|x b _ IH|x b _ IH|x b _ IH|x b _ IH|x b _ IH|x b _ IH|P HP b _ IH|P HP dec b _ IH|P HP h b _ IH|P HP h b _ IH].
  1: { split; cbn; [by intros e ?%elem_of_nil| |intros mt d; by rewrite lookup_empty..|].
       - intros _ mt. rewrite !lookup_empty. split; [by intros [? ?]|]. by intros (? & ? & _).
       - intros _ cfg mt. rewrite lookup_empty. by intros [? ?]. }
  1-6: by destruct IH.
  - destruct IH as [He Hc Ht Hen Hro]. destruct (declare_fields P Publish b) as (Hi1 & Hc1 & Hcase). unfold publish.
    set (b1 := b_declare P Publish b) in *. destruct Hcase as [(d & Hd & Hdec & He1)|(e & He1 & Hr1)].
    + split; unfold router_of; rewrite ?He1, ?Hc1, ?Hi1; [done| |done|by eapply declare_entries|done].
      intros Hno mt. rewrite (declare_consumes _ _ _ _ Hdec), (Hc Hno). naive_solver.
    + assert (Hne : b_errors b1 <> []) by (rewrite He1; by destruct (b_errors b)).
      split; try done; [|by rewrite Hc1|by rewrite Hr1].
      rewrite He1. intros x [Hx|Hx]%elem_of_app; [auto|]. apply list_elem_of_singleton in Hx as ->. eauto.
  - by apply consuming_step; [..|apply (handler_routes P (fun _ => noop_handler P dec))|].
  - by apply consuming_step; [..|apply handler_routes|].
  - by apply consuming_step; [..|apply handler_before_routes|].
Qed.
End builder.
Arguments RuntimeBuilder : clear implicits.
Arguments Runtime : clear implicits.

(** ** Boot *)

Section boot.
Context {App B Catalog : Type} `{Sha256} `{Decoders} `{Texts} `{AdminClient B}.
(** PostgreSQL, as in [Migrations]; the text of a configuration error; opening
    the admin client; the random worker id, the environment's topic prefix and
    its migration context. *)
Context (exec : string -> Catalog -> result SqlxError Catalog).
Context (config_text : ConfigError -> string) (open_admin : string -> result RdError unit).
Context (worker : string) (prefix_env : option string) (env_context : MigrationContext) (w : Weather).

Abbreviation world := (B * Db Catalog)%type (only parsing).

(** What [build] checks and resolves without any input or output. *)
Record LocalPlan := {
  lp_pool : Z;
  lp_brokers : string;
  lp_group : option string;
  lp_retention : option PurgeConfig;
  lp_config : Resolved;
}.

(** The group a consuming runtime must have. *)
Definition consumer_group_of (b : RuntimeBuilder App) : result BuildError (option string) :=
  match btree_items (b_consumed b) with
  | [] => Ok (b_consumer_group b)
  | (_, d) :: _ =>
      if negb (has_subsystem (b_subsystems b) INGEST) then Ok (b_consumer_group b)
      else g ← ok_or (MissingConsumerGroup (message_type d)) (b_consumer_group b); Ok (Some g)
  end.

Definition retention_of (cfg : Config) : result BuildError (option PurgeConfig) :=
  match config_retention cfg with
  | Err e => Err (BConfig (EConfig (config_text e)))
  | Ok None => Ok None
  | Ok (Some s) => match into_purge_config s with Ok p => Ok (Some p) | Err text => Err (BRetention text) end
  end.

Definition map_err {E F A} (f : E -> F) (r : result E A) : result F A :=
  match r with Ok a => Ok a | Err e => Err (f e) end.

Definition local_checks (b : RuntimeBuilder App) : result BuildError LocalPlan :=
  match b_errors b with
  | e :: _ => Err e
  | [] =>
      if registry_is_empty (b_roles b) then Err NoRoles
      else
        group ← consumer_group_of b;
        config ← ok_or MissingConfig (b_config b);
        pool ← ok_or MissingPool (b_pool b);
        brokers ← ok_or MissingBrokers (b_brokers b);
        retention ← retention_of config;
        cfg ← map_err BConfig (from_config worker (Some config) (descriptors (b_roles b)) prefix_env);
        _ ← map_err (BTransport brokers) (open_admin brokers);
        Ok {| lp_pool := pool; lp_brokers := brokers; lp_group := group; lp_retention := retention; lp_config := cfg |}
  end.

(** The table handles and the router, after the schema has converged. *)
Definition assemble (b : RuntimeBuilder App) (p : LocalPlan) : result BuildError (Runtime App) :=
  let cfg := lp_config p in
  let router := fold_left (fun r i => i r cfg) (b_installers b) router_new in
  published ← plan_published cfg (published (b_roles b));
  consumed ← plan_consumed cfg (btree_items (b_consumed b));
  Ok {| rn_pool := lp_pool p; rn_config := cfg; rn_brokers := lp_brokers p; rn_consumer_group := lp_group p;
        rn_retention := lp_retention p; rn_subsystems := b_subsystems b; rn_router := router;
        rn_published := published; rn_consumed := consumed |}.

(** [RuntimeBuilder::build]. *)
Definition build (b : RuntimeBuilder App) : eff BuildError world (Runtime App) := fun '(broker, db) =>
  match local_checks b with
  | Err e => (Err e, (broker, db))
  | Ok p =>
      let cfg := lp_config p in
      match converge_topics (rc_topics cfg) (messages (base cfg)) broker with
      | (Err e, broker) => (Err (BTopics e), (broker, db))
      | (Ok _, broker) =>
          match changelog (b_roles b) with
          | Err e => (Err (BRoles e), (broker, db))
          | Ok cl =>
              let ctx := default env_context (b_migration_context b) in
              match migrate exec (lp_pool p) (base cfg) w ctx (map lib_changeset cl) db with
              | (Err e, db) => (Err (BMigrate e), (broker, db))
              | (Ok _, db) => (assemble b p, (broker, db))
              end
          end
      end
  end.
End boot.

(** ** Loops *)

(** What a loop runs on. *)
Inductive LoopBody :=
| RelayLoop (table : Table) (cfg : RelayConfig)
| PurgerLoop (table : Table) (cfg : PurgeConfig)
| IngestLoop (topic group : string) (retry_delay : interval)
| DispatchLoop (received : ReceivedTable) (cfg : DispatcherConfig)
| QueueMetricsLoop (outbox : list Table) (received : list ReceivedTable) (cfg : QueueMetricsConfig).

Section loops.
Context {App : Type}.
(** The clients librdkafka opens, and the [metrics] feature. *)
Context (open_publisher : string -> result RdError unit)
  (open_consumer : string -> string -> result RdError unit)
  (subscribe : string -> result RdError unit) (metrics : bool).

Definition transport (rt : Runtime App) {A} (r : result RdError A) : result BuildError A :=
  map_err (BTransport (rn_brokers rt)) r.

(** One published type: its relay, and its purger when retention is configured. *)
Definition published_loops (rt : Runtime App) (t : Table) : result BuildError (list (string * LoopBody)) :=
  let mt := message_type (tbl_desc t) in
  relay ← (if has_subsystem (rn_subsystems rt) RELAY then
             _ ← transport rt (open_publisher (rn_brokers rt));
             Ok [("relay:" +:+ mt, RelayLoop t (rc_relay (rn_config rt)))]
           else Ok []);
  Ok (relay
      ++ (if has_subsystem (rn_subsystems rt) PURGE then
            match rn_retention rt with
            | Some p => [("purger:" +:+ mt, PurgerLoop t p)]
            | None => []
            end
          else [])).

(** The dispatcher configuration of a type: its own lifecycle policy. *)
Definition dispatcher_cfg_of (cfg : Resolved) (mt : string) : DispatcherConfig :=
  let c := rc_dispatcher cfg in
  {| dispatcher_poll_interval := dispatcher_poll_interval c;
     dispatcher_lifecycle := lifecycle_emission (observability_policy_for (rc_observability cfg) mt);
     max_consecutive_panicking_rows := max_consecutive_panicking_rows c |}.

(** One consumed type: its ingester and its dispatcher. *)
Definition consumed_loops (rt : Runtime App) (p : ConsumedPlan) : result BuildError (list (string * LoopBody)) :=
  let mt := cp_message_type p in
  ingest ← (if has_subsystem (rn_subsystems rt) INGEST then
              group ← ok_or (MissingConsumerGroup mt) (rn_consumer_group rt);
              _ ← transport rt (open_consumer (rn_brokers rt) group);
              _ ← transport rt (subscribe (cp_topic p));
              Ok [("ingester:" +:+ mt, IngestLoop (cp_topic p) group (retry_after (rc_relay (rn_config rt))))]
            else Ok []);
  Ok (ingest
      ++ (if has_subsystem (rn_subsystems rt) DISPATCH
          then [("dispatcher:" +:+ mt, DispatchLoop (cp_received p) (dispatcher_cfg_of (rn_config rt) mt))]
          else [])).

(** A [for] loop that stops at the first error. *)
Fixpoint concat_results {E A C} (f : A -> result E (list C)) (l : list A) : result E (list C) :=
  match l with
  | [] => Ok []
  | x :: l => xs ← f x; rest ← concat_results f l; Ok (xs ++ rest)
  end.

Definition metrics_loop (rt : Runtime App) : list (string * LoopBody) :=
  if metrics && has_subsystem (rn_subsystems rt) QUEUE_METRICS
     && negb (bool_decide (rn_published rt = []) && Nat.eqb (length (rn_consumed rt)) 0)
  then [("queue-metrics",
         QueueMetricsLoop (rn_published rt) (map cp_received (rn_consumed rt))
           {| qm_refresh_interval := qm_refresh_interval queue_metrics_default;
              qm_query_timeout := qm_query_timeout queue_metrics_default;
              qm_max_queue_age := op_max_queue_age (ob_defaults (rc_observability (rn_config rt))) |})]
  else [].

(** The end of the queue loop: when another runtime of the process samples already,
    the loop waits for the shutdown instead of failing. *)
Definition queue_loop_end (text : WorkerError -> box_error) (r : result WorkerError unit) : result box_error unit :=
  match r with
  | Ok _ | Err QueueMetricsAlreadyRunning => Ok tt
  | Err e => Err (text e)
  end.

(** [Runtime::into_tasks_with], up to the spawning of the tasks. *)
Definition into_loops (rt : Runtime App) : result BuildError (list (string * LoopBody)) :=
  relays ← concat_results (published_loops rt) (rn_published rt);
  consumers ← concat_results (consumed_loops rt) (rn_consumed rt);
  Ok (relays ++ consumers ++ metrics_loop rt).

Definition into_tasks_with (token : bool) (rt : Runtime App) : result BuildError RuntimeTasks :=
  loops ← into_loops rt; Ok (spawn token (map fst loops)).

(** [Runtime::run], on the completions the supervisor meets. *)
Definition runtime_run (token token' : bool) (first : N * Completion) (ready arrivals : list (N * Completion))
  (rt : Runtime App) : result RuntimeError unit :=
  tasks ← map_err RBuild (into_tasks_with token rt); run_tasks first token' ready arrivals tasks.

(** [Serve::run]: the runtime's loops and the HTTP server under one supervisor. *)
Definition serve_run (addr : result string string) (token token' : bool) (first : N * Completion)
  (ready arrivals : list (N * Completion)) (rt : option (Runtime App)) : result RuntimeError unit :=
  service ← map_err RBuild (serve_spawn addr token ((fun rt => map fst <$> into_loops rt) <$> rt));
  run_tasks first token' ready arrivals service.2.
End loops.

(** ** Boot in stages *)

Lemma bind_Err {E A C} (m : result E A) (f : A -> result E C) e :
  m ≫= f = Err e <-> m = Err e \/ exists a, m = Ok a /\ f a = Err e.
Proof. destruct m; simpl; naive_solver. Qed.

Section staged.
Context {App B Catalog : Type} `{Sha256} `{Decoders} `{Texts} `{FaithfulAdmin B}.
Context (exec : string -> Catalog -> result SqlxError Catalog).
Context (config_text : ConfigError -> string) (open_admin : string -> result RdError unit).
Context (worker : string) (prefix_env : option string) (env_context : MigrationContext) (w : Weather).

(** A library changeset has no context of its own, so every run wants it. *)
Lemma lib_wanted ctx c : wanted (Catalog := Catalog) ctx (lib_changeset c) = true.
Proof. done. Qed.

(** What a successful boot has established. *)
Definition converged (b : RuntimeBuilder App) (rt : Runtime App) (broker : B) (db : Db Catalog) : Prop :=
  (rc_topics (rn_config rt) <> Off -> forall d, d ∈ messages (base (rn_config rt)) ->
     exists d0, first_of (messages (base (rn_config rt))) (desc_topic d) = Some d0 /\ compliant d0 broker)
  /\ exists cl, changelog (b_roles b) = Ok cl /\ forall c, c ∈ cl -> recorded db (lib_changeset c).

(** How far a boot that failed had come. An error of the roles is one of the
    declarations, met first, or one of the changelog they imply, which is derived
    when the topics have been converged. *)
Definition stopped (b : RuntimeBuilder App) (e : BuildError) (broker broker' : B) (db db' : Db Catalog)
  : Prop :=
  match e with
  | BMigrate _ | BTable _ _ => True
  | BTopics _ => db' = db
  | BRoles source =>
      db' = db
      /\ match b_errors b with
         | declared :: _ => declared = e /\ broker' = broker
         | [] => changelog (b_roles b) = Err source
         end
  | _ => broker' = broker /\ db' = db
  end.

Lemma local_error (b : RuntimeBuilder App) e :
  local_checks config_text open_admin worker prefix_env b = Err e -> b_errors b = [] ->
  match e with BMigrate _ | BTable _ _ | BTopics _ | BRoles _ => False | _ => True end.
Proof.
  unfold local_checks. intros Hl He. rewrite He in Hl. destruct (registry_is_empty _); [by injection Hl as <-|].
  apply bind_Err in Hl as [Hl|(g & _ & Hl)].
  { unfold consumer_group_of in Hl. destruct (btree_items _) as [|[k d] l]; [done|].
    destruct (negb _); [done|]. by destruct (b_consumer_group b); first [done|injection Hl as <-]. }
  apply bind_Err in Hl as [Hl|(c & _ & Hl)]; [by destruct (b_config b); first [done|injection Hl as <-]|].
  apply bind_Err in Hl as [Hl|(p & _ & Hl)]; [by destruct (b_pool b); first [done|injection Hl as <-]|].
  apply bind_Err in Hl as [Hl|(bs & _ & Hl)]; [by destruct (b_brokers b); first [done|injection Hl as <-]|].
  apply bind_Err in Hl as [Hl|(rt & _ & Hl)].
  { unfold retention_of in Hl. destruct (config_retention c) as [[s|]|]; [|done|by injection Hl as <-].
    by destruct (into_purge_config s); first [done|injection Hl as <-]. }
  apply bind_Err in Hl as [Hl|(cfg & _ & Hl)]; [by destruct (from_config _ _ _ _); first [done|injection Hl as <-]|].
  apply bind_Err in Hl as [Hl|(u & _ & Hl)]; [by destruct (open_admin bs); first [done|injection Hl as <-]|done].
Qed.

Lemma assemble_error (b : RuntimeBuilder App) p e : assemble b p = Err e -> exists mt s, e = BTable mt s.
Proof.
  assert (Ht : forall T cfg d (f : Resolved -> MessageDescriptor -> result Error T) e',
             table_for cfg d f = Err e' -> exists mt s, e' = BTable mt s).
  { intros T cfg d f e'. unfold table_for. destruct (mbind _ _); [done|]. intros [= <-]. eauto. }
  assert (Hp : forall cfg ds e', plan_published cfg ds = Err e' -> exists mt s, e' = BTable mt s).
  { intros cfg ds e'. induction ds as [|d ds IH]; [done|]. cbn [plan_published].
    destruct (table_for cfg d _) eqn:E; cbn [mbind result_bind]; [|intros [= <-]; eauto].
    destruct (plan_published cfg ds); cbn [mbind result_bind]; [done|]. intros [= <-]. auto. }
  assert (Hc : forall cfg ds e', plan_consumed cfg ds = Err e' -> exists mt s, e' = BTable mt s).
  { intros cfg ds e'. induction ds as [|[k d] ds IH]; [done|]. cbn [plan_consumed].
    destruct (table_for cfg d _) eqn:E; cbn [mbind result_bind]; [|intros [= <-]; eauto].
    destruct (plan_consumed cfg ds); cbn [mbind result_bind]; [done|]. intros [= <-]. auto. }
  unfold assemble. destruct (plan_published _ _) eqn:E1; cbn [mbind result_bind]; [|intros [= <-]; eauto].
  destruct (plan_consumed _ _) eqn:E2; cbn [mbind result_bind]; [done|]. intros [= <-]. eauto.
Qed.

(** C9. Boot is staged. A boot refused for conflicting declarations, missing
    wiring, configuration, retention or transport has touched neither the broker
    nor the database; one refused over topics has not touched the database, and
    neither has one refused because no changelog can be derived from the roles, a
    check that comes after the topics, so that it may have created some; whatever
    happens, no existing topic is altered. And a runtime that was built has
    converged: unless topic checking is off, every declared topic exists with
    the required policy, and every changeset its roles imply is recorded in the
    schema's history. *)
Theorem build_staged (b : RuntimeBuilder App) (broker broker' : B) (db db' : Db Catalog)
  (r : result BuildError (Runtime App)) (Hreach : builder_reach b)
  (Hbuild : build exec config_text open_admin worker prefix_env env_context w b (broker, db) = (r, (broker', db'))) :
  topics broker ⊆ topics broker'
  /\ match r with
     | Err e => stopped b e broker broker' db db'
     | Ok rt => converged b rt broker' db'
     end.
Proof.
  revert Hbuild. unfold build.
  destruct (local_checks config_text open_admin worker prefix_env b) as [p|e] eqn:Hl.
  2: { intros [= <- <- <-]. split; [done|]. destruct (b_errors b) as [|e0 es] eqn:He.
       - pose proof (local_error b e Hl He). by destruct e.
       - unfold local_checks in Hl. rewrite He in Hl. injection Hl as <-.
         destruct (bi_errors _ (reach_inv b Hreach) e0) as [source ->]; [rewrite He; by left|].
         simpl. by rewrite He. }
  assert (Hne : b_errors b = []) by (unfold local_checks in Hl; by destruct (b_errors b)).
  destruct (converge_topics _ _ broker) as [rt b1] eqn:Ht.
  assert (Hcv : topics broker ⊆ topics b1 /\ forall drifts, rt = Ok drifts -> rc_topics (lp_config p) <> Off ->
      forall d, d ∈ messages (base (lp_config p)) ->
      exists d0, first_of (messages (base (lp_config p))) (desc_topic d) = Some d0 /\ compliant d0 b1).
  { revert Ht. unfold converge_topics. case_bool_decide as Hm; [by intros [= <- <-]|].
    intros Ht. destruct (converge_loop_spec _ Hm _ _ _ _ _ _ (fun _ _ => eq_refl) Ht) as [[Hs _] Hok].
    split; [done|]. intros drifts -> _ d Hd. apply (Hok drifts eq_refl); [done|]. apply not_elem_of_empty. }
  destruct Hcv as [Hsub Hcv]. destruct rt as [drifts|e]; [|by intros [= <- <- <-]].
  destruct (changelog (b_roles b)) as [cl|e] eqn:Hcl.
  2: { intros [= <- <- <-]. split; [done|]. simpl. by rewrite Hne, Hcl. }
  destruct (migrate _ _ _ _ _ _ db) as [[report|e] db1] eqn:Hm; [|by intros [= <- <- <-]].
  intros [= <- <- <-]. split; [done|]. destruct (assemble b p) as [rt|e] eqn:Ha.
  - assert (Hcfg : rn_config rt = lp_config p).
    { unfold assemble in Ha. apply bind_Ok in Ha as (ps & _ & Ha). apply bind_Ok in Ha as (cs & _ & [= <-]). done. }
    split; rewrite ?Hcfg; [by eapply Hcv|]. exists cl. split; [done|]. intros c Hc.
    apply migrate_Ok in Hm as (_ & _ & db0 & _ & Hrun). apply run_changesets_records in Hrun as [Hrec _].
    apply Hrec; [|apply lib_wanted]. by apply list_elem_of_In, in_map, list_elem_of_In.
  - by destruct (assemble_error _ _ _ Ha) as (mt & s & ->).
Qed.
End staged.

(** ** Wiring *)

Section wiring.
Context {App : Type}.

Lemma table_for_Ok {T} cfg d (f : Resolved -> MessageDescriptor -> result Error T) t :
  table_for cfg d f = Ok t ->
  exists r, r ∈ messages (base cfg) /\ message_type r = message_type d /\ f cfg r = Ok t.
Proof.
  unfold table_for. destruct (mbind _ _) as [t'|] eqn:E; [|done]. intros [= <-].
  apply bind_Ok in E as (r & Hr & Hf). exists r.
  destruct (registered (base cfg) d) as [r'|] eqn:Hreg; [|done]. injection Hr as <-.
  destruct (registered_Some _ _ _ Hreg). done.
Qed.

Lemma plan_published_types cfg ds ts :
  plan_published cfg ds = Ok ts ->
  map (fun t => message_type (tbl_desc t)) ts = map message_type ds
  /\ forall t, t ∈ ts -> tbl_desc t ∈ messages (base cfg).
Proof.
  revert ts. induction ds as [|d ds IH]; intros ts; cbn [plan_published].
  { intros [= <-]. split; [done|]. by intros t ?%elem_of_nil. }
  intros (t & (r & Hr & Hmt & Hf)%table_for_Ok & (ts' & Hts & [= <-])%bind_Ok)%bind_Ok.
  destruct (IH _ Hts) as [Hm Hin]. unfold outbox_for_descriptor, table_new in Hf.
  apply bind_Ok in Hf as (n & _ & [= <-]). simpl. rewrite Hm, Hmt. split; [done|].
  intros t [->|Ht]%elem_of_cons; auto.
Qed.

(** A plan runs on the registered descriptor, with the configured policy. *)
Definition plan_ok (cfg : Resolved) (p : ConsumedPlan) : Prop :=
  exists r, r ∈ messages (base cfg) /\ (message_type r : string) = cp_message_type p /\ cp_topic p = desc_topic r
  /\ tbl_desc (rt_table (cp_received p)) = r
  /\ rt_retry (cp_received p) = policy_for (rc_retry cfg) (cp_message_type p).

Lemma plan_consumed_types cfg ds ps :
  plan_consumed cfg ds = Ok ps ->
  map cp_message_type ps = map (fun kd => message_type kd.2 : string) ds /\ forall p, p ∈ ps -> plan_ok cfg p.
Proof.
  revert ps. induction ds as [|[k d] ds IH]; intros ps; cbn [plan_consumed].
  { intros [= <-]. split; [done|]. by intros t ?%elem_of_nil. }
  intros (t & (r & Hr & Hmt & Hf)%table_for_Ok & (ps' & Hps & [= <-])%bind_Ok)%bind_Ok.
  destruct (IH _ Hps) as [Hm Hin]. unfold received_for_descriptor, table_new in Hf.
  apply bind_Ok in Hf as (t0 & Ht0 & [= <-]). apply bind_Ok in Ht0 as (n & _ & [= <-]). simpl. rewrite Hm.
  split; [done|]. intros p [->|Hp]%elem_of_cons; [|auto]. exists r. simpl. by rewrite Hmt.
Qed.

Lemma item_keys_NoDup {V} (m : gmap string V) : NoDup (map fst (btree_items m)).
Proof. unfold btree_items. rewrite merge_sort_Permutation. apply NoDup_fst_map_to_list. Qed.

Lemma elem_of_item_keys {V} (m : gmap string V) k : k ∈ map fst (btree_items m) <-> is_Some (m !! k).
Proof.
  rewrite list_elem_of_In, in_map_iff. setoid_rewrite <- list_elem_of_In. split.
  - intros ([k' v] & <- & Hin%elem_of_btree_items). eauto.
  - intros [v Hv%elem_of_btree_items]. exists (k, v). done.
Qed.

Lemma published_keys (reg : RoleRegistry) :
  (forall mt e, reg !! mt = Some e -> (message_type (entry_descriptor e) : string) = mt) ->
  map (fun d => message_type d : string) (published reg) = map fst (List.filter (fun kv : string * RoleEntry => e_publish kv.2) (btree_items reg)).
Proof.
  intros Hk. unfold published, values.
  assert (Hall : forall kv, kv ∈ btree_items reg -> (message_type (entry_descriptor kv.2) : string) = kv.1)
    by (intros [k v] Hin%elem_of_btree_items; by apply Hk).
  revert Hall. generalize (btree_items reg). induction l as [|kv l IH]; intros Hall; [done|]. simpl.
  assert (Hl : forall kv', kv' ∈ l -> (message_type (entry_descriptor kv'.2) : string) = kv'.1) by (intros; apply Hall; by right).
  destruct (e_publish kv.2); simpl; [|by apply IH]. f_equal; [apply Hall; by left|by apply IH].
Qed.

(** What a successful assembly looks like. *)
Lemma assemble_Ok (b : RuntimeBuilder App) p rt :
  assemble b p = Ok rt ->
  rn_config rt = lp_config p /\ rn_subsystems rt = b_subsystems b /\ rn_consumer_group rt = lp_group p
  /\ rn_retention rt = lp_retention p /\ rn_router rt = router_of b (lp_config p)
  /\ plan_published (lp_config p) (published (b_roles b)) = Ok (rn_published rt)
  /\ plan_consumed (lp_config p) (btree_items (b_consumed b)) = Ok (rn_consumed rt).
Proof.
  unfold assemble. intros (ps & Hps & (cs & Hcs & [= <-])%bind_Ok)%bind_Ok. by split_and!.
Qed.

(** The types of the two kinds of loops. *)
Definition published_types (rt : Runtime App) : list string := map (fun t => message_type (tbl_desc t) : string) (rn_published rt).
Definition consumed_types (rt : Runtime App) : list string := map cp_message_type (rn_consumed rt).

(** The types a builder declares. *)
Definition publishes (b : RuntimeBuilder App) (mt : string) : Prop :=
  exists e, b_roles b !! mt = Some e /\ e_publish e = true.
Definition consumes (b : RuntimeBuilder App) (mt : string) : Prop :=
  exists e, b_roles b !! mt = Some e /\ entry_consumes e = true.

(** How a runtime corresponds to the builder it came from. *)
Record wired (b : RuntimeBuilder App) (rt : Runtime App) : Prop := {
  wi_published : NoDup (published_types rt) /\ forall mt, mt ∈ published_types rt <-> publishes b mt;
  wi_consumed : NoDup (consumed_types rt) /\ forall mt, mt ∈ consumed_types rt <-> consumes b mt;
  wi_plans : forall p, p ∈ rn_consumed rt -> plan_ok (rn_config rt) p /\ routes (rn_router rt) (cp_message_type p) = true;
  wi_group : rn_consumed rt <> [] -> has_subsystem (rn_subsystems rt) INGEST = true -> is_Some (rn_consumer_group rt);
}.

Lemma assemble_wired (b : RuntimeBuilder App) p rt :
  builder_reach b -> b_errors b = [] -> consumer_group_of b = Ok (lp_group p) -> assemble b p = Ok rt -> wired b rt.
Proof.
  intros Hb He Hg (Hcfg & Hsub & Hgrp & _ & Hrt & Hpub & Hcon)%assemble_Ok.
  destruct (reach_inv b Hb) as [_ Hc Ht Hen Hro].
  destruct (plan_published_types _ _ _ Hpub) as [Hpm _].
  destruct (plan_consumed_types _ _ _ Hcon) as [Hcm Hplans].
  assert (Hck : consumed_types rt = map fst (btree_items (b_consumed b))).
  { unfold consumed_types. rewrite Hcm. apply map_ext_in. intros [k d] Hin%list_elem_of_In%elem_of_btree_items. by apply Ht. }
  assert (Hpk : published_types rt = map fst (List.filter (fun kv : string * RoleEntry => e_publish kv.2) (btree_items (b_roles b)))).
  { rewrite <- (published_keys _ Hen). exact Hpm. }
  split.
  - rewrite Hpk. split; [apply NoDup_key_filter, item_keys_NoDup|]. intros mt.
    rewrite list_elem_of_In, in_map_iff. setoid_rewrite <- list_elem_of_In. split.
    + intros ([k e] & <- & [Hin%elem_of_btree_items Hp]%elem_of_sfilter). by exists e.
    + intros (e & Hin%elem_of_btree_items & Hp). exists (mt, e). split; [done|]. by apply elem_of_sfilter.
  - rewrite Hck. split; [apply item_keys_NoDup|]. intros mt. by rewrite elem_of_item_keys, (Hc He).
  - intros q Hq. rewrite Hcfg, Hrt. split; [by apply Hplans|]. apply Hro; [done|]. apply elem_of_item_keys.
    rewrite <- Hck. unfold consumed_types. by apply list_elem_of_In, in_map, list_elem_of_In.
  - intros Hne Hi. rewrite Hgrp. rewrite Hsub in Hi. unfold consumer_group_of in Hg.
    destruct (btree_items (b_consumed b)) as [|[k d] l] eqn:E.
    { cbn in Hcon. by injection Hcon as Hcon. }
    rewrite Hi in Hg. simpl in Hg. apply bind_Ok in Hg as (g & _ & [= <-]). eauto.
Qed.
End wiring.

(** What a successful boot went through. *)
Lemma build_Ok {App B Catalog : Type} `{Sha256} `{Decoders} `{Texts} `{AdminClient B}
  (exec : string -> Catalog -> result SqlxError Catalog) config_text open_admin worker prefix_env env_context w
  (b : RuntimeBuilder App) (start finish : B * Db Catalog) rt :
  build exec config_text open_admin worker prefix_env env_context w b start = (Ok rt, finish) ->
  exists p config, assemble b p = Ok rt /\ b_errors b = [] /\ consumer_group_of b = Ok (lp_group p)
    /\ from_config worker (Some config) (descriptors (b_roles b)) prefix_env = Ok (lp_config p)
    /\ b_config b = Some config.
Proof.
  unfold build. destruct start as [broker db].
  destruct (local_checks _ _ _ _ b) as [p|e] eqn:Hl; [|done].
  destruct (converge_topics _ _ broker) as [[drifts|] b1]; [|done].
  destruct (changelog (b_roles b)) as [cl|]; [|done].
  destruct (migrate _ _ _ _ _ _ db) as [[report|] db1]; [|done]. intros [= Ha _].
  unfold local_checks in Hl. destruct (b_errors b) eqn:He; [|done]. destruct (registry_is_empty _); [done|].
  apply bind_Ok in Hl as (g & Hg & Hl). apply bind_Ok in Hl as (c & Hcfg & Hl). apply bind_Ok in Hl as (pool & _ & Hl).
  apply bind_Ok in Hl as (bs & _ & Hl). apply bind_Ok in Hl as (ret & _ & Hl). apply bind_Ok in Hl as (cfg & Hc & Hl).
  apply bind_Ok in Hl as (u & _ & [= <-]). eexists _, c. split_and!; [exact Ha|done|exact Hg| |].
  - unfold map_err in Hc. by destruct (from_config worker (Some c) _ _); [injection Hc as ->|].
  - destruct (b_config b); [by injection Hcfg as ->|done].
Qed.

Lemma build_wired {App B Catalog : Type} `{Sha256} `{Decoders} `{Texts} `{AdminClient B}
  (exec : string -> Catalog -> result SqlxError Catalog) config_text open_admin worker prefix_env env_context w
  (b : RuntimeBuilder App) (start finish : B * Db Catalog) rt :
  builder_reach b ->
  build exec config_text open_admin worker prefix_env env_context w b start = (Ok rt, finish) -> wired b rt.
Proof. intros Hb (p & c & Ha & He & Hg & _)%build_Ok. by eapply assemble_wired. Qed.

(** A built runtime is wired to its roles. The types it has an outbox for are
    the types declared published and the types it has an ingester and dispatcher
    for are the types declared consumed, each once. Every consumed type has a
    handler, so no row of it can fail for the lack of one; its loops run on the
    descriptor that was registered, topic prefix included, and on the retry policy
    the configuration gives the type. A runtime that ingests has a consumer
    group. *)
Theorem runtime_wired {App B Catalog : Type} `{Sha256} `{Decoders} `{Texts} `{AdminClient B}
  (exec : string -> Catalog -> result SqlxError Catalog) (config_text : ConfigError -> string)
  (open_admin : string -> result RdError unit) (worker : string) (prefix_env : option string)
  (env_context : MigrationContext) (w : Weather)
  (b : RuntimeBuilder App) (start finish : B * Db Catalog) (rt : Runtime App) (Hreach : builder_reach b)
  (Hbuild : build exec config_text open_admin worker prefix_env env_context w b start = (Ok rt, finish)) :
  wired b rt.
Proof. by eapply build_wired. Qed.

(** The registered types are the declared ones. *)
Lemma register_all_types ds : forall cfg cfg' r,
  register_all cfg ds = Ok cfg' -> r ∈ messages cfg' ->
  r ∈ messages cfg \/ exists d, d ∈ ds /\ message_type r = message_type d.
Proof.
  induction ds as [|d ds IH]; intros cfg cfg' r; cbn [register_all]; [intros [= <-]; by left|].
  intros (cfg1 & H1 & H2)%bind_Ok Hr. destruct (IH _ _ _ H2 Hr) as [Hin|(d' & Hd & Ht)].
  2: { right. exists d'. split; [by right|done]. }
  unfold try_with_message in H1. destruct (registered cfg _).
  - case_bool_decide; [done|]. injection H1 as <-. by left.
  - injection H1 as <-. cbn in Hin. apply elem_of_app in Hin as [Hin|Hin]; [by left|].
    apply list_elem_of_singleton in Hin as ->. right. exists d. split; [by left|done].
Qed.

Lemma from_config_types `{Decoders} `{Texts} worker cfg ms env r x :
  from_config worker (Some cfg) ms env = Ok r -> x ∈ messages (base r) ->
  exists d, d ∈ ms /\ message_type x = message_type d.
Proof.
  unfold from_config. destruct (negb _); [done|].
  intros (? & _ & (s & _ & (? & _ & (? & _ & (? & _ & (? & _ & (? & _ & (? & _ & Hf)%bind_Ok)%bind_Ok)%bind_Ok)%bind_Ok)%bind_Ok)%bind_Ok)%bind_Ok)%bind_Ok Hx.
  apply bind_Ok in Hf as (b & Hb & [= <-]). destruct (register_all_types _ _ _ _ Hb Hx) as [Hn|?]; [|done].
  by apply elem_of_nil in Hn.
Qed.

(** Tables are found by type, so a type of the program and the role it was declared
    under give the same one. *)
Lemma registered_by_type cfg d d' : message_type d = message_type d' -> registered cfg d = registered cfg d'.
Proof. unfold registered. by intros ->. Qed.

Lemma descriptor_for_type P `{KafkaMessage P} cfg dP d :
  descriptor_of P = Ok dP -> (message_type d : string) = MESSAGE_TYPE P ->
  descriptor_for P cfg = ok_or (EUnknownMessageType (message_type d)) (registered cfg d).
Proof.
  intros Hd Ht. unfold descriptor_for. rewrite Hd. cbn [lift_core mbind result_bind].
  assert (E : message_type dP = message_type d) by (rewrite Ht; by apply descriptor_of_type).
  by rewrite (registered_by_type _ _ _ E), E.
Qed.

Lemma planned_outbox P `{KafkaMessage P} cfg dP ds ts :
  descriptor_of P = Ok dP -> plan_published cfg ds = Ok ts ->
  forall d, d ∈ ds -> (message_type d : string) = MESSAGE_TYPE P ->
  exists t, for_message OutboxKind P (base cfg) = Ok t /\ t ∈ ts.
Proof.
  intros HP. revert ts. induction ds as [|d0 ds IH]; intros ts Hts d Hin Ht; [by apply elem_of_nil in Hin|].
  cbn [plan_published] in Hts. apply bind_Ok in Hts as (t & Hf & (ts' & Hts' & [= <-])%bind_Ok).
  apply elem_of_cons in Hin as [->|Hin].
  - exists t. split; [|by left]. unfold for_message. rewrite (descriptor_for_type P (base cfg) dP d0) by done.
    unfold table_for in Hf. destruct (mbind _ _); [by injection Hf as <-|done].
  - destruct (IH _ Hts' d Hin Ht) as (t' & ? & ?). exists t'. split; [done|by right].
Qed.

Lemma planned_received P `{KafkaMessage P} cfg dP ds ps :
  descriptor_of P = Ok dP -> plan_consumed cfg ds = Ok ps ->
  forall k d, (k, d) ∈ ds -> (message_type d : string) = MESSAGE_TYPE P ->
  exists p, received_for_message P cfg = Ok (cp_received p) /\ p ∈ ps /\ cp_message_type p = MESSAGE_TYPE P.
Proof.
  intros HP. revert ps. induction ds as [|[k0 d0] ds IH]; intros ps Hps k d Hin Ht; [by apply elem_of_nil in Hin|].
  cbn [plan_consumed] in Hps. apply bind_Ok in Hps as (t & Hf & (ps' & Hps' & [= <-])%bind_Ok).
  apply elem_of_cons in Hin as [[= -> ->]|Hin].
  - eexists. split; [|split; [by left|exact Ht]]. unfold received_for_message.
    rewrite (descriptor_for_type P (base cfg) dP d0) by done.
    unfold table_for in Hf. destruct (mbind _ _); [by injection Hf as <-|done].
  - destruct (IH _ Hps' k d Hin Ht) as (p & ? & ? & ?). exists p. split_and!; [done|by right|done].
Qed.

(** The tables a host names are the tables the loops run on. Through the
    context of a built runtime, a published type resolves to the very outbox its
    relay drains and a consumed type to the received table, retry policy included,
    its dispatcher works on; a type no role declares is refused by name, whichever
    table is asked for. *)
Theorem context_agrees {App B Catalog : Type} `{Sha256} `{Decoders} `{Texts} `{AdminClient B}
  (exec : string -> Catalog -> result SqlxError Catalog) (config_text : ConfigError -> string)
  (open_admin : string -> result RdError unit) (worker : string) (prefix_env : option string)
  (env_context : MigrationContext) (w : Weather)
  (b : RuntimeBuilder App) (start finish : B * Db Catalog) (rt : Runtime App) (Hreach : builder_reach b)
  (Hbuild : build exec config_text open_admin worker prefix_env env_context w b start = (Ok rt, finish))
  (P : Type) {HP : KafkaMessage P} (d : MessageDescriptor) (Hd : descriptor_of P = Ok d) :
  (publishes b (MESSAGE_TYPE P) -> exists t, outbox_table P (context rt) = Ok t /\ t ∈ rn_published rt)
  /\ (consumes b (MESSAGE_TYPE P) -> exists p, received_table P (context rt) = Ok (cp_received p)
        /\ p ∈ rn_consumed rt /\ cp_message_type p = MESSAGE_TYPE P)
  /\ (b_roles b !! MESSAGE_TYPE P = None ->
        outbox_table P (context rt) = Err (EUnknownMessageType (MESSAGE_TYPE P))
        /\ received_table P (context rt) = Err (EUnknownMessageType (MESSAGE_TYPE P))
        /\ cache_table P (context rt) = Err (EUnknownMessageType (MESSAGE_TYPE P))).
Proof.
  destruct (build_Ok _ _ _ _ _ _ _ _ _ _ _ Hbuild) as (p & c & Ha & He & _ & Hc & _).
  destruct (reach_inv b Hreach) as [_ Hcons Htypes Hent _].
  apply assemble_Ok in Ha as (Hcfg & _ & _ & _ & _ & Hpub & Hcon). rewrite <- Hcfg in Hpub, Hcon, Hc.
  split_and!.
  - intros (e & Hl & Hp). eapply planned_outbox; [exact Hd|exact Hpub| |apply (Hent _ _ Hl)].
    unfold published. apply list_elem_of_In, in_map, list_elem_of_In, elem_of_sfilter.
    split; [apply elem_of_values; eauto|done].
  - intros Hco. destruct (proj2 (Hcons He (MESSAGE_TYPE P)) Hco) as [d' Hd'].
    eapply planned_received; [exact Hd|exact Hcon|apply elem_of_btree_items, Hd'|by apply Htypes].
  - intros Hno. assert (Hfor : descriptor_for P (base (rn_config rt)) = Err (EUnknownMessageType (MESSAGE_TYPE P))).
    { pose proof (descriptor_of_type P d Hd) as Ht. rewrite (descriptor_for_type P _ d d Hd Ht), Ht.
      destruct (registered _ d) as [x|] eqn:Hx; [|done]. exfalso. apply registered_Some in Hx as [Hin Hxt].
      destruct (from_config_types _ _ _ _ _ _ Hc Hin) as (d' & Hd' & Hdt). unfold descriptors in Hd'.
      apply list_elem_of_In, in_map_iff in Hd' as (e & <- & (mt & Hl)%list_elem_of_In%elem_of_values).
      pose proof (Hent _ _ Hl) as Hmt. congruence. }
    unfold outbox_table, received_table, cache_table, received_for_message, for_message, context; cbn [cx_config].
    by rewrite Hfor.
Qed.

(** ** The loops *)

Section loop_set.
Context {App : Type}.
Context (open_publisher : string -> result RdError unit)
  (open_consumer : string -> string -> result RdError unit)
  (subscribe : string -> result RdError unit) (metrics : bool).

Definition published_names (rt : Runtime App) (mt : string) : list string :=
  (if has_subsystem (rn_subsystems rt) RELAY then ["relay:" +:+ mt] else [])
  ++ (if has_subsystem (rn_subsystems rt) PURGE && bool_decide (is_Some (rn_retention rt)) then ["purger:" +:+ mt] else []).
Definition consumed_names (rt : Runtime App) (mt : string) : list string :=
  (if has_subsystem (rn_subsystems rt) INGEST then ["ingester:" +:+ mt] else [])
  ++ (if has_subsystem (rn_subsystems rt) DISPATCH then ["dispatcher:" +:+ mt] else []).

Lemma concat_results_names {A} (f : A -> result BuildError (list (string * LoopBody))) (g : A -> list string) l ls :
  (forall x xs, f x = Ok xs -> map fst xs = g x) -> concat_results f l = Ok ls -> map fst ls = l ≫= g.
Proof.
  intros Hf. revert ls. induction l as [|x l IH]; intros ls; cbn [concat_results]; [by intros [= <-]|].
  intros (xs & Hx & (rest & Hr & [= <-])%bind_Ok)%bind_Ok. rewrite map_app. simpl. by rewrite (Hf _ _ Hx), (IH _ Hr).
Qed.

Lemma published_loops_names rt t ls :
  published_loops open_publisher rt t = Ok ls -> map fst ls = published_names rt (message_type (tbl_desc t)).
Proof.
  unfold published_loops, published_names. intros (rl & Hrl & [= <-])%bind_Ok. rewrite map_app. f_equal.
  - destruct (has_subsystem _ RELAY); [|by injection Hrl as <-]. by apply bind_Ok in Hrl as (u & _ & [= <-]).
  - destruct (has_subsystem _ PURGE); [|done]. by destruct (rn_retention rt).
Qed.

Lemma consumed_loops_names rt p ls :
  consumed_loops open_consumer subscribe rt p = Ok ls -> map fst ls = consumed_names rt (cp_message_type p).
Proof.
  unfold consumed_loops, consumed_names. intros (rl & Hrl & [= <-])%bind_Ok. rewrite map_app. f_equal.
  - destruct (has_subsystem _ INGEST); [|by injection Hrl as <-]. apply bind_Ok in Hrl as (g & _ & Hrl).
    apply bind_Ok in Hrl as (u & _ & Hrl). by apply bind_Ok in Hrl as (u' & _ & [= <-]).
  - by destruct (has_subsystem _ DISPATCH).
Qed.

Lemma bind_map {A C D} (f : A -> C) (g : C -> list D) (l : list A) : map f l ≫= g = l ≫= (fun x => g (f x)).
Proof. induction l as [|x l IH]; [done|]. simpl. f_equal. exact IH. Qed.

Lemma loop_names rt loops :
  into_loops open_publisher open_consumer subscribe metrics rt = Ok loops ->
  map fst loops = (published_types rt ≫= published_names rt) ++ (consumed_types rt ≫= consumed_names rt)
                  ++ map fst (metrics_loop metrics rt).
Proof.
  unfold into_loops. intros (ps & Hps & (cs & Hcs & [= <-])%bind_Ok)%bind_Ok. rewrite !map_app.
  unfold published_types, consumed_types. rewrite !bind_map. f_equal; [|f_equal].
  - eapply concat_results_names; [|exact Hps]. apply published_loops_names.
  - eapply concat_results_names; [|exact Hcs]. apply consumed_loops_names.
Qed.

Lemma elem_of_published_names rt mt name :
  name ∈ published_names rt mt <->
  (has_subsystem (rn_subsystems rt) RELAY = true /\ name = "relay:" +:+ mt)
  \/ (has_subsystem (rn_subsystems rt) PURGE = true /\ is_Some (rn_retention rt) /\ name = "purger:" +:+ mt).
Proof.
  unfold published_names. rewrite elem_of_app.
  destruct (has_subsystem _ RELAY), (has_subsystem _ PURGE); simpl; try case_bool_decide; simpl;
    rewrite ?list_elem_of_singleton, ?elem_of_nil; naive_solver.
Qed.

Lemma elem_of_consumed_names rt mt name :
  name ∈ consumed_names rt mt <->
  (has_subsystem (rn_subsystems rt) INGEST = true /\ name = "ingester:" +:+ mt)
  \/ (has_subsystem (rn_subsystems rt) DISPATCH = true /\ name = "dispatcher:" +:+ mt).
Proof.
  unfold consumed_names. rewrite elem_of_app.
  destruct (has_subsystem _ INGEST), (has_subsystem _ DISPATCH); simpl;
    rewrite ?list_elem_of_singleton, ?elem_of_nil; naive_solver.
Qed.

Lemma NoDup_guarded (p q : bool) (x y : string) :
  x <> y -> NoDup ((if p then [x] else []) ++ (if q then [y] else [])).
Proof.
  intros Hne. destruct p, q; simpl; rewrite ?NoDup_cons, ?list_elem_of_singleton, ?elem_of_nil; naive_solver apply NoDup_nil_2.
Qed.

(** No two loops share a name. *)
Lemma loop_names_nodup (rt : Runtime App) :
  NoDup (published_types rt) -> NoDup (consumed_types rt) ->
  NoDup ((published_types rt ≫= published_names rt) ++ (consumed_types rt ≫= consumed_names rt)
         ++ map fst (metrics_loop metrics rt)).
Proof.
  intros Hp Hc.
  assert (Hmetrics : forall name, name ∈ map fst (metrics_loop metrics rt) -> name = "queue-metrics").
  { intros name. unfold metrics_loop. destruct (_ && _ && _); [by intros ?%list_elem_of_singleton|by intros ?%elem_of_nil]. }
  rewrite !NoDup_app. split_and!.
  - apply NoDup_bind; [|intros mt _|done].
    + intros x1 x2 y _ _ H1%elem_of_published_names H2%elem_of_published_names.
      destruct H1 as [[_ ->]|(_ & _ & ->)], H2 as [[_ E]|(_ & _ & E)]; by simplify_eq.
    + by apply NoDup_guarded.
  - intros name (mt & Hn%elem_of_published_names & _)%list_elem_of_bind [Hc'|Hm%Hmetrics]%elem_of_app; [|subst name].
    + apply list_elem_of_bind in Hc' as (mt' & Hn'%elem_of_consumed_names & _). destruct Hn as [[_ ->]|(_ & _ & ->)], Hn' as [[_ E]|[_ E]]; by simplify_eq.
    + destruct Hn as [[_ E]|(_ & _ & E)]; by simplify_eq.
  - apply NoDup_bind; [|intros mt _|done].
    + intros x1 x2 y _ _ H1%elem_of_consumed_names H2%elem_of_consumed_names.
      destruct H1 as [[_ ->]|[_ ->]], H2 as [[_ E]|[_ E]]; by simplify_eq.
    + by apply NoDup_guarded.
  - intros name (mt & Hn%elem_of_consumed_names & _)%list_elem_of_bind Hm%Hmetrics. subst name.
    destruct Hn as [[_ E]|[_ E]]; by simplify_eq.
  - unfold metrics_loop. destruct (_ && _ && _); [apply NoDup_singleton|apply NoDup_nil_2].
Qed.

(** Once every ingester has its group, only the transport can refuse. *)
Lemma into_loops_error (rt : Runtime App) e :
  (rn_consumed rt <> [] -> has_subsystem (rn_subsystems rt) INGEST = true -> is_Some (rn_consumer_group rt)) ->
  into_loops open_publisher open_consumer subscribe metrics rt = Err e ->
  exists source, e = BTransport (rn_brokers rt) source.
Proof.
  intros Hg.
  assert (Htr : forall A (r : result RdError A) e', transport rt r = Err e' -> exists s, e' = BTransport (rn_brokers rt) s).
  { intros A [a|s] e' [=]. eauto. }
  assert (Hcat : forall A (f : A -> result BuildError (list (string * LoopBody))) l,
             (forall x e', x ∈ l -> f x = Err e' -> exists s, e' = BTransport (rn_brokers rt) s) ->
             forall e', concat_results f l = Err e' -> exists s, e' = BTransport (rn_brokers rt) s).
  { intros A f l Hf. induction l as [|x l IH]; [done|]. cbn [concat_results]. intros e' [Hx|(xs & _ & Hx)]%bind_Err.
    - eapply Hf; [by left|done].
    - apply bind_Err in Hx as [Hx|(? & _ & ?)]; [|done]. apply IH; [|done]. intros y e0 Hy. apply Hf. by right. }
  unfold into_loops. intros [Hl|(ps & _ & Hl)]%bind_Err.
  - revert Hl. apply Hcat. intros t e' _. unfold published_loops.
    intros [Hr|(? & _ & ?)]%bind_Err; [|done]. destruct (has_subsystem _ RELAY); [|done].
    apply bind_Err in Hr as [Hr|(? & _ & ?)]; [by eapply Htr|done].
  - apply bind_Err in Hl as [Hl|(? & _ & ?)]; [|done]. revert Hl. apply Hcat. intros p e' Hp. unfold consumed_loops.
    intros [Hr|(? & _ & ?)]%bind_Err; [|done]. destruct (has_subsystem _ INGEST) eqn:Hi; [|done].
    assert (Hne : rn_consumed rt <> []) by (intros E; rewrite E in Hp; by apply elem_of_nil in Hp).
    destruct (Hg Hne eq_refl) as [g Hgr]. rewrite Hgr in Hr.
    apply bind_Err in Hr as [Hr|(? & _ & Hr)]; [done|].
    apply bind_Err in Hr as [Hr|(? & _ & Hr)]; [by eapply Htr|].
    apply bind_Err in Hr as [Hr|(? & _ & ?)]; [by eapply Htr|done].
Qed.

(** The loops of a runtime, by what its builder declared. *)
Definition loop_wanted (b : RuntimeBuilder App) (rt : Runtime App) (name : string) : Prop :=
  let on := has_subsystem (rn_subsystems rt) in
  (exists mt, publishes b mt /\ on RELAY = true /\ name = "relay:" +:+ mt)
  \/ (exists mt, publishes b mt /\ on PURGE = true /\ is_Some (rn_retention rt) /\ name = "purger:" +:+ mt)
  \/ (exists mt, consumes b mt /\ on INGEST = true /\ name = "ingester:" +:+ mt)
  \/ (exists mt, consumes b mt /\ on DISPATCH = true /\ name = "dispatcher:" +:+ mt)
  \/ (metrics = true /\ on QUEUE_METRICS = true /\ (exists mt, publishes b mt \/ consumes b mt) /\ name = "queue-metrics").

Lemma elem_of_metrics_loop (b : RuntimeBuilder App) rt name :
  wired b rt ->
  name ∈ map fst (metrics_loop metrics rt) <->
  metrics = true /\ has_subsystem (rn_subsystems rt) QUEUE_METRICS = true
  /\ (exists mt, publishes b mt \/ consumes b mt) /\ name = "queue-metrics".
Proof.
  intros [[_ Hp] [_ Hc] _ _].
  assert (Hex : (exists mt, publishes b mt \/ consumes b mt) <->
                bool_decide (rn_published rt = []) && Nat.eqb (length (rn_consumed rt)) 0 = false).
  { setoid_rewrite <- Hp. setoid_rewrite <- Hc. unfold published_types, consumed_types.
    destruct (rn_published rt) as [|t ts].
    - rewrite bool_decide_true by done. destruct (rn_consumed rt) as [|p ps]; simpl.
      + split; [|done]. by intros (mt & [?%elem_of_nil|?%elem_of_nil]).
      + split; [done|]. intros _. exists (cp_message_type p). right. by left.
    - rewrite bool_decide_false by done. split; [done|]. intros _. eexists. left. by left. }
  unfold metrics_loop. rewrite Hex. destruct metrics, (has_subsystem _ QUEUE_METRICS), (_ && Nat.eqb _ _); simpl;
    rewrite ?list_elem_of_singleton, ?elem_of_nil; naive_solver.
Qed.

Lemma elem_of_loops (b : RuntimeBuilder App) rt loops name :
  wired b rt -> into_loops open_publisher open_consumer subscribe metrics rt = Ok loops ->
  name ∈ map fst loops <-> loop_wanted b rt name.
Proof.
  intros Hw Hl. rewrite (loop_names _ _ Hl), !elem_of_app, (elem_of_metrics_loop b), !list_elem_of_bind by done.
  setoid_rewrite elem_of_published_names. setoid_rewrite elem_of_consumed_names.
  setoid_rewrite (proj2 (wi_published _ _ Hw)). setoid_rewrite (proj2 (wi_consumed _ _ Hw)).
  unfold loop_wanted. cbv zeta. split.
  - intros [(mt & [[? ?]|(? & ? & ?)] & ?)|[(mt & [[? ?]|[? ?]] & ?)|?]]; eauto 10.
  - intros [(mt & ? & ? & ?)|[(mt & ? & ? & ? & ?)|[(mt & ? & ? & ?)|[(mt & ? & ? & ?)|?]]]]; [..|by right; right].
    + left. exists mt. auto.
    + left. exists mt. auto 6.
    + right. left. exists mt. auto.
    + right. left. exists mt. auto.
Qed.

(** The loops follow the roles. A built runtime starts, once each, a relay per
    published type, a purger per published type when retention is configured, an
    ingester and a dispatcher per consumed type, and one queue sampler when there is
    anything to sample: all of them subject to the subsystems that are enabled and
    no other loop. Starting them can be refused by the transport alone, never for
    the lack of a consumer group. *)
Theorem loops_follow_roles {B Catalog : Type} `{Sha256} `{Decoders} `{Texts} `{AdminClient B}
  (exec : string -> Catalog -> result SqlxError Catalog) (config_text : ConfigError -> string)
  (open_admin : string -> result RdError unit) (worker : string) (prefix_env : option string)
  (env_context : MigrationContext) (w : Weather)
  (b : RuntimeBuilder App) (start finish : B * Db Catalog) (rt : Runtime App) (Hreach : builder_reach b)
  (Hbuild : build exec config_text open_admin worker prefix_env env_context w b start = (Ok rt, finish)) :
  match into_loops open_publisher open_consumer subscribe metrics rt with
  | Err e => exists source, e = BTransport (rn_brokers rt) source
  | Ok loops => NoDup (map fst loops) /\ forall name, name ∈ map fst loops <-> loop_wanted b rt name
  end.
Proof.
  pose proof (build_wired _ _ _ _ _ _ _ _ _ _ _ Hreach Hbuild) as Hw.
  destruct (into_loops _ _ _ _ rt) as [loops|e] eqn:Hl.
  - split; [|intros name; by apply elem_of_loops]. rewrite (loop_names _ _ Hl).
    by apply loop_names_nodup; [apply (wi_published _ _ Hw)|apply (wi_consumed _ _ Hw)].
  - by eapply into_loops_error; [apply (wi_group _ _ Hw)|].
Qed.
End loop_set.

(** ** Example: a service that publishes one type and caches another *)

Module RtSample.
#[local] Existing Instance sample_sha.
#[local] Existing Instance CSample.sample_decoders.
#[local] Existing Instance CSample.sample_texts.
#[local] Existing Instance TopicSample.client.
#[local] Existing Instance TopicSample.faithful.

Definition purchase : Type := string.
#[local] Instance purchase_message : KafkaMessage purchase := {|
  MESSAGE_TYPE := "purchase"; TOPIC_NAME := "purchase.v1"; partition_key _ := Returned None;
  entity_key p := Returned p; to_value p := Returned (Ok p) |}.
Definition product : Type := bool.
#[local] Instance product_message : KafkaMessage product := {|
  MESSAGE_TYPE := "product"; TOPIC_NAME := "product.v1"; partition_key _ := Returned None;
  entity_key _ := Returned "p"; to_value _ := Returned (Ok "null") |}.

Definition service : RuntimeBuilder unit :=
  cache product (fun _ => Ok true)
    (publish purchase (set_consumer_group "shop" (set_brokers "kafka:9092" (set_pool 5 (set_config CSample.file builder_new))))).

Lemma service_reach : builder_reach service.
Proof. repeat constructor. Qed.

(** The two topics are there. *)
Definition broker : TopicSample.Broker :=
  TopicSample.add "purchase.v1" (3, "compact") (TopicSample.add "product.v1" (3, "compact") TopicSample.empty_broker eq_refl) eq_refl.

Abbreviation boot b :=
  (build MSample.record_sql (fun _ => "invalid") (fun _ => Ok tt) "w" None context_new MSample.calm service (b, MSample.fresh)).

(** The outcome of a boot, compared without the handlers. *)
Definition booted (r : result BuildError (Runtime unit)) : option (list string * list string * Subsystems) :=
  match r with Ok rt => Some (published_types rt, consumed_types rt, rn_subsystems rt) | Err _ => None end.

Lemma boot_Ok : booted (boot broker).1 = Some (["purchase"], ["product"], all_subsystems).
Proof. vm_compute. reflexivity. Qed.
Lemma boot_refused : match (boot TopicSample.empty_broker).1 with Err (BTopics (RdCore (TopicMissing _))) => true | _ => false end = true.
Proof. vm_compute. reflexivity. Qed.

Lemma build_staged_witness :
  TopicSample.held broker ⊆ TopicSample.held (boot broker).2.1 /\ (boot TopicSample.empty_broker).2.2 = MSample.fresh.
Proof.
  split.
  - destruct (boot broker) as [r [b' db']] eqn:E.
    exact (proj1 (build_staged MSample.record_sql (fun _ => "invalid") (fun _ => Ok tt) "w" None context_new MSample.calm
      service broker b' MSample.fresh db' r service_reach E)).
  - pose proof boot_refused as Hr. destruct (boot TopicSample.empty_broker) as [r [b' db']] eqn:E.
    pose proof (build_staged MSample.record_sql (fun _ => "invalid") (fun _ => Ok tt) "w" None context_new MSample.calm
      service TopicSample.empty_broker b' MSample.fresh db' r service_reach E) as [_ Hu].
    cbn [fst snd] in *. destruct r as [rt|e]; [discriminate Hr|]. destruct e; try discriminate Hr. exact Hu.
Defined.

Lemma runtime_wired_witness :
  match (boot broker).1 with
  | Ok rt => wired service rt /\ consumed_types rt = ["product"]
  | Err _ => False
  end.
Proof.
  pose proof boot_Ok as Hb. destruct (boot broker) as [r [b' db']] eqn:E. cbn [fst] in *.
  destruct r as [rt|e]; [|discriminate Hb]. split; [|by injection Hb].
  exact (runtime_wired MSample.record_sql (fun _ => "invalid") (fun _ => Ok tt) "w" None context_new MSample.calm
    service (broker, MSample.fresh) (b', db') rt service_reach E).
Defined.

Lemma context_agrees_witness :
  match (boot broker).1 with
  | Ok rt => exists t, outbox_table purchase (context rt) = Ok t /\ t ∈ rn_published rt
  | Err _ => False
  end.
Proof.
  pose proof boot_Ok as Hb. destruct (boot broker) as [r [b' db']] eqn:E. cbn [fst] in *.
  destruct r as [rt|e]; [|discriminate Hb].
  apply (proj1 (context_agrees MSample.record_sql (fun _ => "invalid") (fun _ => Ok tt) "w" None context_new MSample.calm
    service (broker, MSample.fresh) (b', db') rt service_reach E purchase (HP := purchase_message)
    (Build_MessageDescriptor "purchase" "purchase.v1" compacted) ltac:(vm_compute; reflexivity))).
  eexists. split; [vm_compute; reflexivity|reflexivity].
Defined.

Lemma loops_follow_roles_witness :
  match (boot broker).1 with
  | Ok rt =>
      match into_loops (fun _ => Ok tt) (fun _ _ => Ok tt) (fun _ => Ok tt) true rt with
      | Ok loops => NoDup (map fst loops) /\ map fst loops = ["relay:purchase"; "ingester:product"; "dispatcher:product"; "queue-metrics"]
      | Err _ => False
      end
  | Err _ => False
  end.
Proof.
  assert (Hn : match (boot broker).1 with
               | Ok rt => match into_loops (fun _ => Ok tt) (fun _ _ => Ok tt) (fun _ => Ok tt) true rt with
                          | Ok loops => map fst loops | Err _ => [] end
               | Err _ => [] end = ["relay:purchase"; "ingester:product"; "dispatcher:product"; "queue-metrics"])
    by (vm_compute; reflexivity).
  destruct (boot broker) as [r [b' db']] eqn:E. cbn [fst] in *. destruct r as [rt|e]; [|discriminate Hn].
  pose proof (loops_follow_roles (fun _ => Ok tt) (fun _ _ => Ok tt) (fun _ => Ok tt) true
    MSample.record_sql (fun _ => "invalid") (fun _ => Ok tt) "w" None context_new MSample.calm
    service (broker, MSample.fresh) (b', db') rt service_reach E) as Hl.
  destruct (into_loops _ _ _ _ rt) as [loops|e]; [|discriminate Hn]. split; [exact (proj1 Hl)|exact Hn].
Defined.
End RtSample.
