(* ===== verification/Serving.v ===== *)
(** * Serving: the handles a host holds

    Models the rest of [src/crates/kafkaman/src/axum.rs]: composing an HTTP
    service with a runtime ([Serve]) and the handle of what is running
    ([RunningService]), over [Supervisor] and [Runtime]. The theorem says what
    the module exists for: the HTTP server shares the fate of the loops. What
    axum does with requests is not represented, so a service is the address of
    its listener, its runtime and its token. *)

From S2P Require Import Prelude Text Vocabulary Trace Identity Topics Registry Retry Outbox Received.
From S2P Require Import Lifecycle Relay Cache Dispatch Worker Wire Decimal Schema Changelog Roles Config.
From S2P Require Import TopicBoot Supervisor Migrations QueueMetrics Runtime.
Open Scope string_scope.
Open Scope list_scope.
Open Scope Z_scope.

Section serving.
Context {App : Type}.
Context (open_publisher : string -> result RdError unit)
  (open_consumer : string -> string -> result RdError unit)
  (subscribe : string -> result RdError unit) (metrics : bool).

(** [Serve]: the listener by the address it answers, or its error. *)
Record Serve := {
  sv_listener : result string string;
  sv_runtime : option (Runtime App);
  sv_shutdown : bool;
}.

Definition serve (listener : result string string) : Serve :=
  {| sv_listener := listener; sv_runtime := None; sv_shutdown := false |}.
Definition with_runtime (rt : Runtime App) (s : Serve) : Serve :=
  {| sv_listener := sv_listener s; sv_runtime := Some rt; sv_shutdown := sv_shutdown s |}.
Definition with_shutdown (token : bool) (s : Serve) : Serve :=
  {| sv_listener := sv_listener s; sv_runtime := sv_runtime s; sv_shutdown := token |}.
Definition local_addr (s : Serve) : result string string := sv_listener s.

(** [RunningService]; the token is the one of the tasks. *)
Record RunningService := { rs_addr : string; rs_tasks : RuntimeTasks }.

(** [Serve::spawn]. *)
Definition service_spawn (s : Serve) : result BuildError RunningService :=
  '(addr, tasks) ← serve_spawn (local_addr s) (sv_shutdown s)
      ((fun rt => map fst <$> into_loops open_publisher open_consumer subscribe metrics rt) <$> sv_runtime s);
  Ok {| rs_addr := addr; rs_tasks := tasks |}.

(** [RunningService::wait], [shutdown], [shutdown_with_timeout] and [run], on the
    completions they meet. *)
Definition service_wait (first : N * Completion) (token : bool) (s : RunningService)
  : result RuntimeError unit * RunningService :=
  let '(r, tasks) := wait first token (rs_tasks s) in (r, {| rs_addr := rs_addr s; rs_tasks := tasks |}).
Definition service_shutdown (ready arrivals : list (N * Completion)) (s : RunningService)
  : result RuntimeError unit := shutdown ready arrivals (rs_tasks s).
Definition service_shutdown_with_timeout (timeout : interval) (ready arrivals : list (N * Completion))
  (s : RunningService) : result RuntimeError unit :=
  shutdown_with_timeout timeout ready arrivals (rs_tasks s).
Definition service_run (first : N * Completion) (token : bool) (ready arrivals : list (N * Completion))
  (s : RunningService) : result RuntimeError unit :=
  let '(r, s) := service_wait first token s in result_and r (service_shutdown ready arrivals s).

(** ** One supervised set *)

(** The loops of a service in the order they are spawned, the server last. *)
Definition service_loops (s : Serve) : result BuildError (list string) :=
  loops ← match sv_runtime s with
          | Some rt => map fst <$> into_loops open_publisher open_consumer subscribe metrics rt
          | None => Ok []
          end;
  Ok (loops ++ ["http"]).

Lemma spawn_snoc token loops name : spawn token (loops ++ [name]) = spawn_loop name (spawn token loops).
Proof. unfold spawn. by rewrite fold_left_app. Qed.

Lemma spawn_next token loops : next_id (spawn token loops) = N.of_nat (length loops).
Proof.
  induction loops as [|name loops IH] using rev_ind; [done|].
  rewrite spawn_snoc, length_app. simpl. rewrite IH. lia.
Qed.

(** The loop spawned at position [i] has the id [i] and keeps its name. *)
Lemma spawn_names token loops i : names (spawn token loops) !! N.of_nat i = loops !! i.
Proof.
  revert i. induction loops as [|name loops IH] using rev_ind; intros i; [done|].
  rewrite spawn_snoc. simpl. rewrite spawn_next.
  destruct (decide (i = length loops)) as [->|Hne].
  - by rewrite lookup_insert_eq, lookup_app_r, Nat.sub_diag by lia.
  - rewrite lookup_insert_ne, IH by lia. destruct (decide (i < length loops)%nat).
    + by rewrite lookup_app_l.
    + rewrite !lookup_ge_None_2; [done| |lia]. rewrite length_app. simpl. lia.
Qed.

Lemma service_spawn_Ok s svc :
  service_spawn s = Ok svc ->
  exists loops, service_loops s = Ok loops /\ Ok (rs_addr svc) = sv_listener s
    /\ rs_tasks svc = spawn (sv_shutdown s) loops.
Proof.
  unfold service_spawn, service_loops, serve_spawn, local_addr. intros Hs.
  destruct (sv_listener s) as [addr|text]; [|done].
  destruct (sv_runtime s) as [rt|]; simpl in *; [|simplify_eq/=; by exists ["http"]].
  destruct (into_loops _ _ _ _ rt) as [loops|e]; simplify_eq/=.
  eexists. split; [done|]. split; [done|]. by rewrite spawn_snoc.
Qed.

(** What the end of a loop is to a service that was not told to stop. *)
Definition early_end (name : string) (c : Completion) : option RuntimeError :=
  match c with
  | Finished (Err source) => Some (LoopFailed name source)
  | Finished (Ok _) => Some (LoopExited name "completed before shutdown")
  | JoinCancelled => None
  | JoinPanicked => Some (LoopPanicked name)
  end.

Lemma waited_early t loops i name c ready arrivals e :
  t = spawn (cancelled t) loops -> loops !! i = Some name -> early_end name c = Some e ->
  run_tasks (N.of_nat i, c) false ready arrivals t = Err e.
Proof.
  intros Ht Hi He. unfold run_tasks, wait, tasks_is_empty. cbn [running fst snd].
  pose proof (spawn_names (cancelled t) loops i) as Hn. rewrite <- Ht, Hi in Hn.
  rewrite bool_decide_eq_false_2.
  - rewrite classify_spec. unfold verdict. cbn [names fst snd]. rewrite Hn. simpl.
    destruct c as [[[]|]| |]; simplify_eq/=; done.
  - pose proof (sup_names _ (spawn_supervised (cancelled t) loops)) as Hd. rewrite <- Ht in Hd.
    rewrite <- Hd. intros Hempty. apply dom_empty_iff_L in Hempty. by rewrite Hempty in Hn.
Qed.

Lemma spawn_running token loops i :
  (i < length loops)%nat -> N.of_nat i ∈ running (spawn token loops).
Proof.
  intros Hi. rewrite <- (sup_names _ (spawn_supervised token loops)). apply elem_of_dom.
  rewrite spawn_names. by apply lookup_lt_is_Some_2.
Qed.

Lemma spawn_size token loops : size (running (spawn token loops)) = length loops.
Proof.
  induction loops as [|name loops IH] using rev_ind; [done|].
  rewrite spawn_snoc, length_app. simpl. rewrite size_union, size_singleton, IH; [lia|].
  intros id ->%elem_of_singleton Hid. apply (sup_ids _ (spawn_supervised token loops)) in Hid. lia.
Qed.

Lemma omap_none {A C} (f : A -> option C) l : (forall x, x ∈ l -> f x = None) -> omap f l = [].
Proof.
  induction l as [|x l IH]; intros Hf; [done|]. rewrite omap_cons, Hf by left. apply IH.
  intros y Hy. apply Hf. by right.
Qed.

(** Clean ends of all loops after the shutdown was requested. *)
Lemma clean_ends token loops first ready arrivals :
  first :: ready ++ arrivals ≡ₚ map (fun i => (N.of_nat i, Finished (Ok tt))) (seq 0 (length loops)) ->
  run_tasks first true ready arrivals (spawn token loops) = Ok tt.
Proof.
  intros Hp.
  assert (Hclean : forall ev, ev ∈ first :: ready ++ arrivals ->
    verdict (names (spawn token loops)) false ev = None /\ ev.1 ∈ running (spawn token loops)).
  { intros ev Hev. rewrite Hp in Hev. apply list_elem_of_fmap in Hev as (i & -> & Hi).
    apply elem_of_seq in Hi. split; [done|]. apply spawn_running. lia. }
  destruct (run_reports_first_failure (spawn token loops) true first ready arrivals) as [-> _].
  - apply spawn_supervised.
  - split.
    + rewrite Hp, map_map. apply (NoDup_fmap_2 N.of_nat), NoDup_seq.
    + intros id Hid. apply list_elem_of_fmap in Hid as (ev & -> & Hev). by apply Hclean.
  - simpl negb. rewrite <- omap_app. change ((first :: ready) ++ arrivals) with (first :: ready ++ arrivals).
    rewrite omap_none. 2: { intros ev Hev. by apply Hclean. }
    apply Permutation_length in Hp. rewrite Hp, length_map, length_seq, spawn_size, Nat.sub_diag. done.
Qed.

(** A service stops as one. Whatever a spawned service is made of, its loops
    and the HTTP server are supervised together, and the address is the one the
    listener bound. When any of them, the server included, ends before it was
    told to, by an error, a panic or a clean return, running the service
    answers that under the loop's own name, whatever the drain meets after it.
    When the service was told to stop and all of them return cleanly before the
    deadline, in any order, it answers success. *)
Theorem service_shares_fate (s : Serve) (svc : RunningService) (Hspawn : service_spawn s = Ok svc) :
  exists loops, service_loops s = Ok loops /\ last loops = Some "http" /\ Ok (rs_addr svc) = sv_listener s
  /\ (forall i name c ready arrivals e, loops !! i = Some name -> early_end name c = Some e ->
        service_run (N.of_nat i, c) false ready arrivals svc = Err e)
  /\ (forall first ready arrivals,
        first :: ready ++ arrivals ≡ₚ map (fun i => (N.of_nat i, Finished (Ok tt))) (seq 0 (length loops)) ->
        service_run first true ready arrivals svc = Ok tt).
Proof.
  destruct (service_spawn_Ok _ _ Hspawn) as (loops & Hl & Ha & Ht). exists loops.
  assert (Hrun : forall first token ready arrivals,
    service_run first token ready arrivals svc = run_tasks first token ready arrivals (rs_tasks svc)).
  { intros. unfold service_run, service_wait, run_tasks. by destruct (wait _ _ _). }
  split_and!; [done| |done| |].
  - unfold service_loops in Hl. destruct (match sv_runtime s with Some _ => _ | None => _ end) as [l|]; [|done].
    simplify_eq/=. apply last_snoc.
  - intros i name c ready arrivals e Hi He. rewrite Hrun. eapply (waited_early _ loops); [|done..].
    rewrite Ht at 1. f_equal. rewrite Ht. clear. unfold spawn.
    induction loops as [|x loops IH] using rev_ind; [done|]. by rewrite fold_left_app.
  - intros first ready arrivals Hp. rewrite Hrun, Ht. by apply clean_ends.
Qed.
End serving.

(** A service without a runtime: stopped from outside it ends well, and a server
    that fails is reported. *)
Example http_only :
  let closed (_ : string) : result RdError unit := Ok tt in
  let spawned := service_spawn (App := unit) closed (fun _ _ => Ok tt) closed false (serve (Ok "127.0.0.1:0")) in
  (svc ← spawned; Ok (service_run (0%N, Finished (Ok tt)) true [] [] svc)) = Ok (Ok tt)
  /\ (svc ← spawned; Ok (service_run (0%N, Finished (Err "reset")) false [] [] svc))
     = Ok (Err (LoopFailed "http" "reset"))
  /\ (svc ← spawned; Ok (service_shutdown_with_timeout 50 [] [] svc)) = Ok (Err (DrainTimeout 50 1))
  /\ (svc ← spawned; Ok (base_url (rs_addr svc))) = Ok "http://127.0.0.1:0".
Proof. by vm_compute. Qed.
