(* ===== verification/Contracts.v ===== *)
(** * Contracts: the wire contract of the example services

    Models [src/examples/contracts/src/lib.rs]: the two lifecycle enums with
    their open wire spelling, the two snapshots and their [KafkaMessage]
    declarations. [envelope_new] and the functions after it are the envelope
    constructors of [src/crates/kafkaman-core/src/envelope.rs] the services call.

    A snapshot travels as JSON. What serde derives is the two structs with the
    status as a plain string, so the codec of those wire structs is a parameter
    ([SnapshotFormats]) and the conversion of the status is the code's own. The
    same class holds the JSONB operators PostgreSQL applies to a stored payload,
    the digest and the canonical form behind an idempotency key. *)

From S2P Require Import Prelude Text Vocabulary Trace Identity Topics Registry Outbox Wire.
Open Scope string_scope.
Open Scope list_scope.
Open Scope Z_scope.

(** ** Lifecycle statuses *)

Inductive ProductStatus :=
| Draft | Available | Discontinued
| ProductUnrecognized (raw : string).
#[global] Instance ProductStatus_eq_dec : EqDecision ProductStatus.
Proof. solve_decision. Defined.

Inductive OrderStatus :=
| Placed | Fulfilled | Cancelled
| OrderUnrecognized (raw : string).
#[global] Instance OrderStatus_eq_dec : EqDecision OrderStatus.
Proof. solve_decision. Defined.

Definition ORDER_STATUS_FULFILLED_WIRE := "Fulfilled".

Definition product_status_from (value : string) : ProductStatus :=
  if String.eqb value "Draft" then Draft
  else if String.eqb value "Available" then Available
  else if String.eqb value "Discontinued" then Discontinued
  else ProductUnrecognized value.

Definition product_status_into (value : ProductStatus) : string :=
  match value with
  | Draft => "Draft"
  | Available => "Available"
  | Discontinued => "Discontinued"
  | ProductUnrecognized raw => raw
  end.

Definition order_status_from (value : string) : OrderStatus :=
  if String.eqb value "Placed" then Placed
  else if String.eqb value ORDER_STATUS_FULFILLED_WIRE then Fulfilled
  else if String.eqb value "Cancelled" then Cancelled
  else OrderUnrecognized value.

Definition order_status_into (value : OrderStatus) : string :=
  match value with
  | Placed => "Placed"
  | Fulfilled => ORDER_STATUS_FULFILLED_WIRE
  | Cancelled => "Cancelled"
  | OrderUnrecognized raw => raw
  end.

(** ** Snapshots *)

Record ProductSnapshot := {
  ps_product_id : uuid;
  ps_name : string;
  ps_price_cents : Z;
  ps_status : ProductStatus;
  ps_available : Z;
}.

Record OrderSnapshot := {
  os_order_id : uuid;
  os_product_id : uuid;
  os_quantity : Z;
  os_status : OrderStatus;
}.

(** The shapes serde derives, [#[serde(from = "String", into = "String")]]
    applied to the status. *)
Record ProductWire := {
  pw_product_id : uuid; pw_name : string; pw_price_cents : Z; pw_status : string; pw_available : Z }.
Record OrderWire := {
  ow_order_id : uuid; ow_product_id : uuid; ow_quantity : Z; ow_status : string }.

Definition product_wire (s : ProductSnapshot) : ProductWire :=
  {| pw_product_id := ps_product_id s; pw_name := ps_name s; pw_price_cents := ps_price_cents s;
     pw_status := product_status_into (ps_status s); pw_available := ps_available s |}.
Definition product_unwire (w : ProductWire) : ProductSnapshot :=
  {| ps_product_id := pw_product_id w; ps_name := pw_name w; ps_price_cents := pw_price_cents w;
     ps_status := product_status_from (pw_status w); ps_available := pw_available w |}.
Definition order_wire (s : OrderSnapshot) : OrderWire :=
  {| ow_order_id := os_order_id s; ow_product_id := os_product_id s; ow_quantity := os_quantity s;
     ow_status := order_status_into (os_status s) |}.
Definition order_unwire (w : OrderWire) : OrderSnapshot :=
  {| os_order_id := ow_order_id w; os_product_id := ow_product_id w; os_quantity := ow_quantity w;
     os_status := order_status_from (ow_status w) |}.

(** ** Third-party forms *)

Class SnapshotFormats := {
  (** The derived [Serialize] and [Deserialize] of the wire structs. *)
  product_json : ProductWire -> json;
  product_of_json : json -> result string ProductWire;
  order_json : OrderWire -> json;
  order_of_json : json -> result string OrderWire;
  (** [payload->>'field'] and [(payload->>'field')::bigint]. *)
  jsonb_text : json -> string -> option string;
  jsonb_bigint : json -> string -> result SqlxError (option Z);
  (** The JSON of an [(id, version)] pair, its canonical text and SHA-256. *)
  version_source : uuid -> Z -> json;
  canonical_json : json -> string;
  sha256 : string -> IdempotencyKey;
}.

(** What serde and PostgreSQL document: a value the derived serializer wrote
    reads back, and its fields are what the JSONB operators find; a digest has
    thirty-two bytes and the canonical text names the pair. *)
Class SnapshotLaws `{Formats} `{SnapshotFormats} : Prop := {
  product_reads_back w : product_of_json (product_json w) = Ok w;
  order_reads_back w : order_of_json (order_json w) = Ok w;
  order_product_text w : jsonb_text (order_json w) "product_id" = Some (uuid_to_string (ow_product_id w));
  order_status_text w : jsonb_text (order_json w) "status" = Some (ow_status w);
  order_quantity_value w : jsonb_bigint (order_json w) "quantity" = Ok (Some (ow_quantity w));
  source_names i v i' v' :
    canonical_json (version_source i v) = canonical_json (version_source i' v') -> i = i' /\ v = v';
  digest_ok s : key_ok (sha256 s);
}.

Section contracts.
Context `{Formats} `{SnapshotFormats}.

Definition product_to_value (s : ProductSnapshot) : json := product_json (product_wire s).
Definition order_to_value (s : OrderSnapshot) : json := order_json (order_wire s).

(** [serde_json::from_value]. *)
Definition product_from_value (v : json) : result string ProductSnapshot :=
  product_unwire <$> product_of_json v.
Definition order_from_value (v : json) : result string OrderSnapshot :=
  order_unwire <$> order_of_json v.

#[global] Instance product_snapshot_message : KafkaMessage ProductSnapshot := {|
  MESSAGE_TYPE := "product_snapshot";
  TOPIC_NAME := "products";
  partition_key s := Returned (Some (uuid_to_string (ps_product_id s)));
  entity_key s := Returned (uuid_to_string (ps_product_id s));
  to_value s := Returned (Ok (product_to_value s));
|}.

#[global] Instance order_snapshot_message : KafkaMessage OrderSnapshot := {|
  MESSAGE_TYPE := "order_snapshot";
  TOPIC_NAME := "orders";
  partition_key s := Returned (Some (uuid_to_string (os_order_id s)));
  entity_key s := Returned (uuid_to_string (os_order_id s));
  to_value s := Returned (Ok (order_to_value s));
|}.
End contracts.

(** ** Envelopes *)

(** [Envelope::new]: two random ids and the clock. *)
Definition envelope_new {P} (ids : uuid * uuid) (now : instant) (payload : P) : Envelope P :=
  {| env_message_id := ids.1; env_idempotency_key := None; env_correlation_id := ids.2;
     env_causation_id := None; env_headers := ∅; env_payload := payload; env_occurred_at := now |}.

(** [with_idempotency_identity], and [try_with_idempotency_key] with an identity
    that is already derived. *)
Definition with_identity {P} (identity : IdempotencyIdentity) (e : Envelope P) : Envelope P :=
  {| env_message_id := env_message_id e; env_idempotency_key := Some identity;
     env_correlation_id := env_correlation_id e; env_causation_id := env_causation_id e;
     env_headers := env_headers e; env_payload := env_payload e; env_occurred_at := env_occurred_at e |}.

(** [Envelope::with_message_id] and [with_correlation_id]. *)
Definition with_message_id {P} (id : uuid) (e : Envelope P) : Envelope P :=
  {| env_message_id := id; env_idempotency_key := env_idempotency_key e;
     env_correlation_id := env_correlation_id e; env_causation_id := env_causation_id e;
     env_headers := env_headers e; env_payload := env_payload e; env_occurred_at := env_occurred_at e |}.
Definition with_correlation_id {P} (id : uuid) (e : Envelope P) : Envelope P :=
  {| env_message_id := env_message_id e; env_idempotency_key := env_idempotency_key e;
     env_correlation_id := id; env_causation_id := env_causation_id e;
     env_headers := env_headers e; env_payload := env_payload e; env_occurred_at := env_occurred_at e |}.

(** The envelope of an entity's snapshot at a version: [order_snapshot_envelope]
    and [product_snapshot_envelope] are this with their own namespace. *)
Definition snapshot_envelope `{SnapshotFormats} {P} (namespace : string) (ids : uuid * uuid)
  (now : instant) (id : uuid) (version : Z) (payload : P) : result Error (Envelope P) :=
  identity ← lift_core (derive sha256 canonical_json namespace (version_source id version));
  Ok (with_identity identity (envelope_new ids now payload)).

(** ** Properties *)

Lemma product_status_into_from (value : string) :
  product_status_into (product_status_from value) = value.
Proof.
  unfold product_status_from.
  repeat match goal with |- context [String.eqb value ?t] =>
    destruct (String.eqb_spec value t) as [->|_]; [done|] end. done.
Qed.

Lemma order_status_into_from (value : string) : order_status_into (order_status_from value) = value.
Proof.
  unfold order_status_from.
  repeat match goal with |- context [String.eqb value ?t] =>
    destruct (String.eqb_spec value t) as [->|_]; [done|] end. done.
Qed.

(** A status is canonical when its unknown spelling, if it has one, is really
    unknown. Every status read off the wire is. *)
Definition product_status_canonical (s : ProductStatus) : bool :=
  match s with ProductUnrecognized raw => bool_decide (product_status_from raw = s) | _ => true end.
Definition order_status_canonical (s : OrderStatus) : bool :=
  match s with OrderUnrecognized raw => bool_decide (order_status_from raw = s) | _ => true end.

Lemma product_status_from_into (s : ProductStatus) :
  product_status_from (product_status_into s) = s <-> product_status_canonical s = true.
Proof. destruct s; simpl; rewrite ?bool_decide_eq_true; done. Qed.

Lemma order_status_from_into (s : OrderStatus) :
  order_status_from (order_status_into s) = s <-> order_status_canonical s = true.
Proof. destruct s; simpl; rewrite ?bool_decide_eq_true; done. Qed.

Lemma fulfilled_wire_iff (s : OrderStatus) :
  order_status_canonical s = true ->
  order_status_into s = ORDER_STATUS_FULFILLED_WIRE <-> s = Fulfilled.
Proof.
  intros Hs%order_status_from_into. split; [|by intros ->].
  intros E. rewrite <- Hs, E. reflexivity.
Qed.

#[local] Instance Ok_inj {E A} : Inj eq eq (@Ok E A).
Proof. by intros a b [=]. Qed.

Section laws.
Context `{SnapshotLaws}.

Lemma order_value_reads_back (s : OrderSnapshot) :
  order_status_canonical (os_status s) = true -> order_from_value (order_to_value s) = Ok s.
Proof.
  intros Hs%order_status_from_into. unfold order_from_value, order_to_value.
  rewrite order_reads_back. destruct s. unfold order_unwire. simpl in *. by rewrite Hs.
Qed.

Lemma product_value_reads_back (s : ProductSnapshot) :
  product_status_canonical (ps_status s) = true -> product_from_value (product_to_value s) = Ok s.
Proof.
  intros Hs%product_status_from_into. unfold product_from_value, product_to_value.
  rewrite product_reads_back. destruct s. unfold product_unwire. simpl in *. by rewrite Hs.
Qed.

(** C26. The open enums carry every status across the wire. A payload the
    derived serializer wrote, whatever spelling its status has, decodes; what it
    decodes to serializes to the same payload, the unknown spelling kept; the
    status is usable ([Available], [Fulfilled]) exactly when the wire says so;
    and a snapshot with a canonical status comes back as itself. *)
Theorem snapshot_roundtrip (o : OrderWire) (p : ProductWire) :
  (exists s, order_from_value (order_json o) = Ok s /\ order_to_value s = order_json o
             /\ order_status_canonical (os_status s) = true
             /\ (os_status s = Fulfilled
                 <-> jsonb_text (order_json o) "status" = Some ORDER_STATUS_FULFILLED_WIRE))
  /\ (exists s, product_from_value (product_json p) = Ok s /\ product_to_value s = product_json p
                /\ product_status_canonical (ps_status s) = true
                /\ (ps_status s = Available <-> pw_status p = "Available"))
  /\ (forall s : OrderSnapshot, order_status_canonical (os_status s) = true <->
        order_from_value (order_to_value s) = Ok s)
  /\ (forall s : ProductSnapshot, product_status_canonical (ps_status s) = true <->
        product_from_value (product_to_value s) = Ok s).
Proof.
  assert (Hoc : forall v, order_status_canonical (order_status_from v) = true)
    by (intros v; apply order_status_from_into; by rewrite order_status_into_from).
  assert (Hpc : forall v, product_status_canonical (product_status_from v) = true)
    by (intros v; apply product_status_from_into; by rewrite product_status_into_from).
  split_and!.
  - exists (order_unwire o). unfold order_from_value. rewrite order_reads_back.
    unfold order_to_value, order_wire. simpl. rewrite order_status_into_from, order_status_text.
    split_and!; [done|by destruct o|apply Hoc|].
    rewrite <- (fulfilled_wire_iff _ (Hoc _)), order_status_into_from.
    split; [by intros ->|by intros [=]].
  - exists (product_unwire p). unfold product_from_value. rewrite product_reads_back.
    unfold product_to_value, product_wire. simpl. rewrite product_status_into_from.
    split_and!; [done|by destruct p|apply Hpc|]. split.
    + intros E. by rewrite <- (product_status_into_from (pw_status p)), E.
    + by intros ->.
  - intros s. split; [apply order_value_reads_back|]. unfold order_from_value, order_to_value.
    rewrite order_reads_back. intros E%(inj Ok). apply order_status_from_into.
    exact (f_equal os_status E).
  - intros s. split; [apply product_value_reads_back|]. unfold product_from_value, product_to_value.
    rewrite product_reads_back. intros E%(inj Ok). apply product_status_from_into.
    exact (f_equal ps_status E).
Qed.
End laws.

(** ** Forms that satisfy the laws *)

Module CoSample.
Import WSample.

Definition order_tuple (w : OrderWire) : uuid * uuid * Z * string :=
  (ow_order_id w, ow_product_id w, ow_quantity w, ow_status w).
Definition order_of_tuple (t : uuid * uuid * Z * string) : OrderWire :=
  let '(o, p, q, s) := t in {| ow_order_id := o; ow_product_id := p; ow_quantity := q; ow_status := s |}.
Definition product_tuple (w : ProductWire) : uuid * string * Z * string * Z :=
  (pw_product_id w, pw_name w, pw_price_cents w, pw_status w, pw_available w).
Definition product_of_tuple (t : uuid * string * Z * string * Z) : ProductWire :=
  let '(i, n, p, s, a) := t in
  {| pw_product_id := i; pw_name := n; pw_price_cents := p; pw_status := s; pw_available := a |}.

Definition read_order (v : json) : option OrderWire := order_of_tuple <$> parse_of v.

#[export] Instance snapshot_formats : SnapshotFormats := {|
  product_json w := text_of (product_tuple w);
  product_of_json v := ok_or "not a product" (product_of_tuple <$> parse_of v);
  order_json w := text_of (order_tuple w);
  order_of_json v := ok_or "not an order" (read_order v);
  jsonb_text v field :=
    w ← read_order v;
    if String.eqb field "product_id" then Some (text_of (ow_product_id w))
    else if String.eqb field "status" then Some (ow_status w) else None;
  jsonb_bigint v field :=
    Ok (w ← read_order v; if String.eqb field "quantity" then Some (ow_quantity w) else None);
  version_source i v := text_of (i, v);
  canonical_json v := v;
  sha256 s := repeat (Z.of_nat (String.length s) mod 256) 32;
|}.

Lemma read_order_json w : read_order (text_of (order_tuple w)) = Some w.
Proof. unfold read_order. rewrite parse_text. by destruct w. Qed.

#[export] Instance snapshot_laws : SnapshotLaws.
Proof.
  split.
  - intros w. simpl. rewrite parse_text. by destruct w.
  - intros w. simpl. by rewrite read_order_json.
  - intros w. cbn [jsonb_text snapshot_formats order_json]. by rewrite read_order_json.
  - intros w. cbn [jsonb_text snapshot_formats order_json]. by rewrite read_order_json.
  - intros w. cbn [jsonb_bigint snapshot_formats order_json]. by rewrite read_order_json.
  - intros i v i' v' E. simpl in E.
    assert (E' : parse_of (A := N * Z) (text_of (i, v)) = parse_of (text_of (i', v'))) by by rewrite E.
    rewrite !parse_text in E'. by simplify_eq.
  - intros s. split; [done|]. cbn [sha256 snapshot_formats]. apply Forall_forall.
    intros b Hb. apply list_elem_of_In, repeat_spec in Hb as ->. apply Z.mod_pos_bound. lia.
Qed.
End CoSample.

#[local] Existing Instance WSample.formats.
#[local] Existing Instance CoSample.snapshot_formats.
#[local] Existing Instance CoSample.snapshot_laws.

(** A producer that gained a status this build does not know. *)
Lemma snapshot_roundtrip_witness :
  let o := {| ow_order_id := 1; ow_product_id := 2; ow_quantity := 3; ow_status := "Backordered" |} in
  exists s, order_from_value (order_json o) = Ok s /\ order_to_value s = order_json o
            /\ os_status s = OrderUnrecognized "Backordered".
Proof.
  destruct (snapshot_roundtrip
    {| ow_order_id := 1; ow_product_id := 2; ow_quantity := 3; ow_status := "Backordered" |}
    {| pw_product_id := 2; pw_name := "lamp"; pw_price_cents := 5; pw_status := "Withdrawn";
       pw_available := 0 |}) as [(s & Hs & Hv & _) _].
  exists s. split_and!; [exact Hs|exact Hv|]. vm_compute in Hs. by injection Hs as <-.
Defined.
