(* ===== verification/WriteTx.v ===== *)
(** * WriteTx: a request that changes an entity and announces it

    The shape shared by the write handlers of [src/examples/order/src/http.rs]
    and [src/examples/product/src/http.rs]: begin, statements, [enqueue] on the
    same transaction, commit; every error leaves through [?], which drops the
    transaction and rolls it back.

    A handler is one step on the service's database. The statements of two
    requests on one entity are kept apart by its row lock ([FOR UPDATE]) or its
    primary key. [Ambience] is what the request cannot know: which statements
    the driver reports as failed, whether a commit whose answer was lost took
    effect, the clocks and the random ids. *)

From S2P Require Import Prelude Text Vocabulary Trace Identity Topics Registry Outbox OutboxOrder.
From S2P Require Import Received Cache Dispatch.
Open Scope string_scope.
Open Scope list_scope.
Open Scope Z_scope.

Record Ambience := {
  am_fault : string -> option SqlxError;
  am_lands : bool;
  am_clock : instant;
  am_occurred_at : instant;
  am_ids : uuid * uuid;
  am_new_id : uuid;
  am_trace : option TraceContext;
}.

(** Nothing fails. *)
Definition calm (am : Ambience) : Prop := forall stage, am_fault am stage = None.

(** ** A service's tables beside its outbox *)

(** The outbox among the tables of an application, as a lens. *)
Class Announcing (App : Type) := {
  app_outbox : App -> Outbox;
  with_outbox : App -> Outbox -> App;
}.

Class AnnouncingLaws (App : Type) `{Announcing App} : Prop := {
  outbox_of_with a ob : app_outbox (with_outbox a ob) = ob;
  with_outbox_of a : with_outbox a (app_outbox a) = a;
  with_outbox_with a x y : with_outbox (with_outbox a x) y = with_outbox a y;
}.

Section write.
Context {App : Type} `{Announcing App}.

Definition with_app (db : @Db App) (a : App) : Db :=
  {| db_received := db_received db; db_cache := db_cache db; db_app := a |}.

(** Dropping a transaction: every row comes back, the sequence does not. *)
Definition rollback_db (before after : @Db App) : Db :=
  with_app before (with_outbox (db_app before)
    (rollback (app_outbox (db_app before)) (app_outbox (db_app after)))).

Context (am : Ambience).

(** A statement, unless the driver reports that it failed. *)
Definition statement {A} (stage : string) (m : eff SqlxError (@Db App) A) : eff SqlxError Db A :=
  fun db => match am_fault am stage with Some e => (Err e, db) | None => m db end.

(** [map_err]. *)
Definition map_err {E E' S A} (f : E -> E') (m : eff E S A) : eff E' S A := fun s =>
  match m s with (Ok a, s') => (Ok a, s') | (Err e, s') => (Err (f e), s') end.

(** [enqueue] on the open transaction, which sees every committed row. *)
Definition enqueue {P} `{KafkaMessage P} (cfg : ResolvedConfig) (evt : Envelope P)
  : eff Error (@Db App) unit := fun db =>
  match am_fault am "enqueue" with
  | Some e => (Err (ESqlx e), db)
  | None =>
      let (r, ob) := enqueue_inner cfg (am_clock am) (fun _ => true) evt (am_trace am)
                       (app_outbox (db_app db)) in
      (r, with_app db (with_outbox (db_app db) ob))
  end.

(** [pool.begin()], the body, [tx.commit()]. *)
Definition transaction {E A} (internal : string -> SqlxError -> E) (body : eff E (@Db App) A)
  : eff E Db A := fun db =>
  match am_fault am "begin" with
  | Some e => (Err (internal "begin" e), db)
  | None =>
      match body db with
      | (Err e, db') => (Err e, rollback_db db db')
      | (Ok a, db') =>
          match am_fault am "commit" with
          | None => (Ok a, db')
          | Some e => (Err (internal "commit" e), if am_lands am then db' else rollback_db db db')
          end
      end
  end.
End write.

Definition is_unique_violation (e : SqlxError) : bool :=
  match e with SqlxDatabase _ (Some code) _ => String.eqb code "23505" | _ => false end.

Lemma map_err_Ok {E E' S A} (f : E -> E') (m : eff E S A) s a s' :
  map_err f m s = (Ok a, s') -> m s = (Ok a, s').
Proof. unfold map_err. destruct (m s) as [[]]; [|done]. by intros [= -> ->]. Qed.

Lemma statement_Ok {App A} am stage (m : eff SqlxError (@Db App) A) db a db' :
  statement am stage m db = (Ok a, db') -> m db = (Ok a, db').
Proof. unfold statement. by destruct (am_fault am stage). Qed.

(** ** What such a request leaves behind *)

(** The rows of the outbox after [evt] was accepted: the pending rows of the
    entity superseded, and one new pending row that carries the snapshot and
    its identity. *)
Definition announced {P} `{KafkaMessage P} (evt : Envelope P) (ob ob' : Outbox) : Prop :=
  exists ek idem row,
    entity_key (env_payload evt) = Returned ek /\ env_idempotency_key evt = Some idem
    /\ rows ob' = rows (snd (supersede_pending_outbox_rows (fun _ => true) ek ob)) ++ [row]
    /\ status row = Pending /\ entity_col row = Some ek
    /\ to_value (env_payload evt) = Returned (Ok (payload row))
    /\ idempotency_key row = Some (to_hex (idem_key idem))
    /\ idempotency_source row = idem_source idem.

Lemma enqueue_inner_effect {P} `{KafkaMessage P} cfg now (evt : Envelope P) trace ob :
  env_idempotency_key evt <> None ->
  match enqueue_inner cfg now (fun _ => true) evt trace ob with
  | (Ok _, ob') => announced evt ob ob'
  | (Err _, ob') => rows ob' = rows ob
  end.
Proof.
  intros Hid. unfold enqueue_inner, mbind, eff_bind, lift.
  destruct (for_message OutboxKind P cfg) as [table|e]; simpl; [|done].
  destruct (reserved_header (env_headers evt)) as [h|]; simpl; [done|].
  destruct (partition_key (env_payload evt)) as [pk|p]; simpl; [|done].
  destruct (entity_key (env_payload evt)) as [ek|p] eqn:Hek; simpl; [|done].
  destruct (to_value (env_payload evt)) as [[v|t]|p] eqn:Hv; simpl; [|done..].
  destruct (env_idempotency_key evt) as [idem|] eqn:E; [|done]. unfold undoing.
  match goal with |- context [insert_outbox_row now ?m Pending None ?ob1] =>
    pose proof (insert_cases now m Pending None ob1) as Hc;
    destruct (insert_outbox_row now m Pending None ob1) as [res ob'] end.
  destruct Hc as [(e & -> & _)|(-> & row & ((Hob & _) & Hm & Hs & _))]; [done..|done|].
  exists ek, idem, row. rewrite Hob, Hm. simpl. rewrite Hek, E. done.
Qed.

Section outcomes.
Context {App : Type} `{AnnouncingLaws App}.

(** The same database, but for gaps in the outbox sequence. *)
Definition unwritten (db db' : @Db App) : Prop :=
  db_received db' = db_received db /\ db_cache db' = db_cache db
  /\ exists ob, rows ob = rows (app_outbox (db_app db)) /\ db_app db' = with_outbox (db_app db) ob.

Lemma unwritten_refl db : unwritten db db.
Proof. split_and!; [done..|]. exists (app_outbox (db_app db)). by rewrite with_outbox_of. Qed.

Lemma rollback_unwritten db db' : unwritten db (rollback_db db db').
Proof. split_and!; [done..|]. eexists. split; [|reflexivity]. done. Qed.

(** What a transaction leaves: its answer with the whole of its body, or an
    error with nothing of it, unless the answer of the commit was lost. *)
Lemma transaction_cases {E A} am (internal : string -> SqlxError -> E) (body : eff E (@Db App) A) db :
  match transaction am internal body db with
  | (Ok a, db') => body db = (Ok a, db')
  | (Err e, db') =>
      unwritten db db'
      \/ (exists a x, body db = (Ok a, db') /\ am_lands am = true
                    /\ am_fault am "commit" = Some x /\ e = internal "commit" x)
  end.
Proof.
  unfold transaction. destruct (am_fault am "begin"); [left; apply unwritten_refl|].
  destruct (body db) as [[a|e] db'] eqn:Hb; [|left; apply rollback_unwritten].
  destruct (am_fault am "commit") as [x|] eqn:Hc; [|done]. destruct (am_lands am) eqn:Hl.
  - right. by exists a, x.
  - left. apply rollback_unwritten.
Qed.

Lemma transaction_calm {E A} am (internal : string -> SqlxError -> E) (body : eff E (@Db App) A) db :
  calm am ->
  transaction am internal body db
  = match body db with (Ok a, db') => (Ok a, db') | (Err e, db') => (Err e, rollback_db db db') end.
Proof. intros Hc. unfold transaction. by rewrite (Hc "begin"), (Hc "commit"). Qed.

(** A request settled: it answered and did what [made] says; or it failed and
    wrote nothing; or the answer of its commit was lost after the whole of the
    write had taken effect, which the caller sees as an [hidden] error. *)
Definition settled {E A} (am : Ambience) (hidden : E -> Prop) (db : @Db App) (made : A -> Db -> Prop)
  (out : result E A * Db) : Prop :=
  match out with
  | (Ok a, db') => made a db'
  | (Err e, db') =>
      unwritten db db'
      \/ (am_lands am = true /\ am_fault am "commit" <> None /\ hidden e /\ exists a, made a db')
  end.

Lemma transaction_settled {E A} am (hidden : E -> Prop) (internal : string -> SqlxError -> E)
  (body : eff E (@Db App) A) db (made : A -> Db -> Prop) :
  (forall x, hidden (internal "commit" x)) ->
  (forall a db', body db = (Ok a, db') -> made a db') ->
  settled am hidden db made (transaction am internal body db).
Proof.
  intros Hh Hb. unfold settled. pose proof (transaction_cases am internal body db) as Hc.
  destruct (transaction am internal body db) as [[a|e] db']; [by apply Hb|].
  destruct Hc as [?|(a & x & Ha & Hl & Hx & ->)]; [by left|]. right.
  split_and!; [done|by rewrite Hx|done|]. exists a. by apply Hb.
Qed.

Lemma settled_effect {E A} am (hidden : E -> Prop) db (made : A -> Db -> Prop) out (change : @Db App -> Prop) :
  settled am hidden db made out ->
  (forall a db', made a db' -> db' = db \/ change db') ->
  unwritten db (snd out) \/ change (snd out).
Proof.
  intros Hs Hm. destruct out as [[a|e] db']; simpl in *.
  - destruct (Hm _ _ Hs) as [->|?]; [left; apply unwritten_refl|by right].
  - destruct Hs as [?|(_ & _ & _ & a & Ha)]; [by left|].
    destruct (Hm _ _ Ha) as [->|?]; [left; apply unwritten_refl|by right].
Qed.

Lemma enqueue_Ok {P} `{KafkaMessage P} am cfg (evt : Envelope P) (db db' : @Db App) :
  env_idempotency_key evt <> None -> enqueue am cfg evt db = (Ok tt, db') ->
  exists ob, db' = with_app db (with_outbox (db_app db) ob) /\ announced evt (app_outbox (db_app db)) ob.
Proof.
  intros Hid. unfold enqueue. destruct (am_fault am "enqueue"); [done|].
  pose proof (enqueue_inner_effect cfg (am_clock am) evt (am_trace am) (app_outbox (db_app db)) Hid) as He.
  destruct (enqueue_inner _ _ _ _ _ _) as [[[]|e] ob]; [|done]. intros [= <-]. by exists ob.
Qed.
End outcomes.
