(* ===== verification/OrderService.v ===== *)
(** * OrderService: orders admitted against a cache of products

    Models [src/examples/order/src/lib.rs] and the handlers of
    [src/examples/order/src/http.rs]: admission of an order against the cached
    product, the order's lifecycle, and the snapshot enqueued with every change.

    The service's database is kafkaman's received table and product cache
    ([Dispatch.Db]) beside its own [orders] table and its outbox. *)

From S2P Require Import Prelude Text Vocabulary Trace Identity Topics Registry Outbox OutboxOrder.
From S2P Require Import Received Cache Dispatch Wire Decimal Contracts WriteTx.
Open Scope string_scope.
Open Scope list_scope.
Open Scope Z_scope.

#[local] Arguments String.append !_ _ : simpl nomatch.

(** ** State *)

(** A row of [orders]; the key is [order_id]. *)
Record OrderRow := {
  or_product_id : uuid;
  or_quantity : Z;
  or_status : string;
  or_version : Z;
  or_created_at : instant;
  or_updated_at : instant;
}.

Record OrderApp := { orders : gmap uuid OrderRow; order_outbox : Outbox }.

#[global] Instance order_announcing : Announcing OrderApp := {|
  app_outbox := order_outbox;
  with_outbox a ob := {| orders := orders a; order_outbox := ob |};
|}.
#[global] Instance order_announcing_laws : AnnouncingLaws OrderApp.
Proof. split; [done| |done]. by intros []. Qed.

Abbreviation ODb := (@Db OrderApp).

Definition with_orders (db : ODb) (t : gmap uuid OrderRow) : ODb :=
  with_app db {| orders := t; order_outbox := order_outbox (db_app db) |}.

(** [AppState], without the pool. *)
Record AppState := { st_cfg : ResolvedConfig; st_product_cache : string }.

Record OrderRecord := {
  o_order_id : uuid;
  o_product_id : uuid;
  o_quantity : Z;
  o_status : OrderStatus;
  o_version : Z;
}.

Record CachedProduct := {
  cp_product_id : uuid;
  cp_name : string;
  cp_price_cents : Z;
  cp_status : ProductStatus;
  cp_available : Z;
  cp_applied_partition : Z;
  cp_applied_offset : Z;
}.

Definition is_orderable (p : CachedProduct) (quantity : Z) : bool :=
  bool_decide (cp_status p = Available) && (quantity <=? cp_available p).

Definition ORDER_SNAPSHOT_IDEMPOTENCY_NAMESPACE := "example-order:order-snapshot:v1".

Definition order_snapshot (o : OrderRecord) : OrderSnapshot :=
  {| os_order_id := o_order_id o; os_product_id := o_product_id o; os_quantity := o_quantity o;
     os_status := o_status o |}.

Definition order_from_row (id : uuid) (r : OrderRow) : OrderRecord :=
  {| o_order_id := id; o_product_id := or_product_id r; o_quantity := or_quantity r;
     o_status := order_status_from (or_status r); o_version := or_version r |}.

(** ** Errors *)

Inductive OrderError :=
| InvalidRequest (message : string)
| OrderNotFound
| DuplicateOrder
| ProductNotCached
| NotOrderable (message : string)
| IllegalTransition (message : string)
| OrderInternal (detail : string).

(** [impl IntoResponse for OrderError]: the status code and the error text. The
    detail of an internal error goes to the log alone. *)
Definition into_response (e : OrderError) : Z * string :=
  match e with
  | InvalidRequest message => (400, message)
  | OrderNotFound => (404, "no such order")
  | DuplicateOrder => (409, "an order with this id already exists")
  | ProductNotCached => (409, "product has not propagated to this service yet")
  | NotOrderable message => (409, message)
  | IllegalTransition message => (409, message)
  | OrderInternal _ => (500, "internal error")
  end.

Record CreateOrderRequest := {
  req_order_id : option uuid; req_product_id : uuid; req_quantity : Z }.

Definition is_legal_transition (from to : OrderStatus) : bool :=
  match from, to with
  | Placed, Fulfilled | Placed, Cancelled | Fulfilled, Cancelled => true
  | _, _ => false
  end.

Section service.
Context `{Formats} `{SnapshotFormats}.
(** The [Display] texts of driver and library errors. *)
Context (sqlx_text : SqlxError -> string) (error_text : Error -> string).

Definition internal (stage : string) (e : SqlxError) : OrderError :=
  OrderInternal (stage +:+ ": " +:+ sqlx_text e).

Definition app_state_new (cfg : ResolvedConfig) : result Error AppState :=
  table ← for_message CacheKind ProductSnapshot cfg;
  Ok {| st_cfg := cfg; st_product_cache := qualified_name table |}.

Definition order_snapshot_envelope (ids : uuid * uuid) (now : instant) (o : OrderRecord)
  : result Error (Envelope OrderSnapshot) :=
  snapshot_envelope ORDER_SNAPSHOT_IDEMPOTENCY_NAMESPACE ids now (o_order_id o) (o_version o)
    (order_snapshot o).

(** [cached_product]: the live row of the entity, its payload decoded. *)
Definition cached_product (product_id : uuid) : eff SqlxError ODb (option CachedProduct) := fun db =>
  (match db_cache db !! uuid_to_string product_id with
   | Some row =>
       if c_deleted row then Ok None
       else match product_from_value (c_payload row) with
            | Err text => Err (SqlxOther text)
            | Ok s => Ok (Some {| cp_product_id := ps_product_id s; cp_name := ps_name s;
                                  cp_price_cents := ps_price_cents s; cp_status := ps_status s;
                                  cp_available := ps_available s;
                                  cp_applied_partition := applied_partition row;
                                  cp_applied_offset := applied_offset row |})
            end
   | None => Ok None
   end, db).

Section request.
Context (am : Ambience) (cfg : ResolvedConfig).

(** [INSERT INTO orders], with the table's checks and primary key. *)
Definition insert_order (o : OrderRecord) : eff SqlxError ODb unit := fun db =>
  if negb (0 <? o_quantity o) || negb (0 <? o_version o)
  then (Err (SqlxDatabase CheckViolation (Some "23514") "orders check"), db)
  else match orders (db_app db) !! o_order_id o with
  | Some _ => (Err (SqlxDatabase UniqueViolation (Some "23505") "orders primary key"), db)
  | None =>
      let row := {| or_product_id := o_product_id o; or_quantity := o_quantity o;
                    or_status := order_status_into (o_status o); or_version := o_version o;
                    or_created_at := am_clock am; or_updated_at := am_clock am |} in
      (Ok tt, with_orders db (<[o_order_id o := row]> (orders (db_app db))))
  end.

(** [UPDATE orders .. RETURNING]: [version + 1] is a [BIGINT]. *)
Definition update_order (id : uuid) (target : OrderStatus) : eff SqlxError ODb OrderRecord := fun db =>
  match orders (db_app db) !! id with
  | None => (Err (SqlxOther "no rows returned"), db)
  | Some r =>
      if i64_max <? or_version r + 1
      then (Err (SqlxDatabase OtherKind (Some "22003") "bigint out of range"), db)
      else
        let row := {| or_product_id := or_product_id r; or_quantity := or_quantity r;
                      or_status := order_status_into target; or_version := or_version r + 1;
                      or_created_at := or_created_at r; or_updated_at := am_clock am |} in
        (Ok (order_from_row id row), with_orders db (<[id := row]> (orders (db_app db))))
  end.

(** Build the snapshot of an order and enqueue it on the transaction. *)
Definition announce (o : OrderRecord) : eff OrderError ODb unit :=
  envelope ← map_err (fun e => OrderInternal ("build snapshot: " +:+ error_text e))
               (lift (order_snapshot_envelope (am_ids am) (am_occurred_at am) o));
  map_err (fun e => OrderInternal ("enqueue snapshot: " +:+ error_text e)) (enqueue am cfg envelope).

(** The transaction of [create_order], from the cache read to the enqueue. *)
Definition admit_order (request : CreateOrderRequest) (order_id : uuid)
  : eff OrderError ODb (Z * OrderRecord) :=
  product ← map_err (internal "read product cache")
              (statement am "read product cache" (cached_product (req_product_id request)));
  product ← lift (ok_or ProductNotCached product);
  if negb (bool_decide (cp_status product = Available)) then
    raise (NotOrderable ("product is not available: status is "
                         +:+ product_status_into (cp_status product)))
  else if cp_available product <? req_quantity request then
    raise (NotOrderable ("product has " +:+ pretty (cp_available product)
                         +:+ " available, requested " +:+ pretty (req_quantity request)))
  else
    let o := {| o_order_id := order_id; o_product_id := req_product_id request;
                o_quantity := req_quantity request; o_status := Placed; o_version := 1 |} in
    _ ← map_err (fun e => if is_unique_violation e then DuplicateOrder
                          else OrderInternal ("insert order: " +:+ sqlx_text e))
          (statement am "insert order" (insert_order o));
    _ ← announce o;
    mret (201, o).

Definition create_order (request : CreateOrderRequest) : eff OrderError ODb (Z * OrderRecord) :=
  if req_quantity request <=? 0 then raise (InvalidRequest "quantity must be greater than zero")
  else transaction am internal
         (admit_order request (default (am_new_id am) (req_order_id request))).

(** [SELECT .. FROM orders WHERE order_id = $1], with or without [FOR UPDATE]. *)
Definition select_order (id : uuid) : eff SqlxError ODb (option OrderRecord) :=
  gets (fun db => order_from_row id <$> orders (db_app db) !! id).

(** The transaction of [transition]. *)
Definition move_order (id : uuid) (target : OrderStatus) : eff OrderError ODb OrderRecord :=
  row ← map_err (internal "read order") (statement am "read order" (select_order id));
  current ← lift (ok_or OrderNotFound row);
  if bool_decide (o_status current = target) then mret current
  else if negb (is_legal_transition (o_status current) target) then
    raise (IllegalTransition ("cannot move order from " +:+ order_status_into (o_status current)
                              +:+ " to " +:+ order_status_into target))
  else
    updated ← map_err (internal "update order") (statement am "update order" (update_order id target));
    _ ← announce updated;
    mret updated.

Definition transition (id : uuid) (target : OrderStatus) : eff OrderError ODb OrderRecord :=
  transaction am internal (move_order id target).

Definition fulfil_order (id : uuid) : eff OrderError ODb OrderRecord := transition id Fulfilled.
Definition cancel_order (id : uuid) : eff OrderError ODb OrderRecord := transition id Cancelled.

Definition read_order (id : uuid) : eff OrderError ODb OrderRecord :=
  row ← map_err (internal "read order") (statement am "read order" (select_order id));
  lift (ok_or OrderNotFound row).

(** [ORDER BY created_at, order_id]. *)
Definition list_orders : eff OrderError ODb (list OrderRecord) :=
  rows ← map_err (internal "list orders") (statement am "list orders"
           (gets (fun db => sql_order_by_lex (fun p => [or_created_at p.2; Z.of_N p.1])
                              (map_to_list (orders (db_app db))))));
  mret (map (fun p => order_from_row p.1 p.2) rows).

Definition read_cached_product (product_id : uuid) : eff OrderError ODb CachedProduct :=
  product ← map_err (internal "read product cache")
              (statement am "read product cache" (cached_product product_id));
  lift (ok_or ProductNotCached product).
End request.

(** ** What a request writes *)

(** The text an order's idempotency key digests. *)
Definition key_text (o : OrderRecord) : string :=
  ORDER_SNAPSHOT_IDEMPOTENCY_NAMESPACE
  +:+ String "000"%char (canonical_json (version_source (o_order_id o) (o_version o))).

(** The announcement of an order in its current state. *)
Definition order_event (am : Ambience) (o : OrderRecord) : Envelope OrderSnapshot :=
  with_identity
    {| idem_key := sha256 (key_text o);
       idem_source := Some (version_source (o_order_id o) (o_version o)) |}
    (envelope_new (am_ids am) (am_occurred_at am) (order_snapshot o)).

Lemma order_envelope_ok am o :
  order_snapshot_envelope (am_ids am) (am_occurred_at am) o = Ok (order_event am o).
Proof. reflexivity. Qed.

(** The order is stored and its announcement is in the outbox; nothing else of
    the database moved. *)
Definition written (am : Ambience) (o : OrderRecord) (db db' : ODb) : Prop :=
  db_received db' = db_received db /\ db_cache db' = db_cache db
  /\ (exists row, orders (db_app db') = <[o_order_id o := row]> (orders (db_app db))
                  /\ order_from_row (o_order_id o) row = o /\ or_status row = order_status_into (o_status o))
  /\ announced (order_event am o) (order_outbox (db_app db)) (order_outbox (db_app db')).

Lemma announce_Ok am cfg o db db' :
  announce am cfg o db = (Ok tt, db') ->
  exists ob, db' = with_app db {| orders := orders (db_app db); order_outbox := ob |}
             /\ announced (order_event am o) (order_outbox (db_app db)) ob.
Proof.
  unfold announce, mbind, eff_bind, lift. rewrite order_envelope_ok. unfold map_err at 1.
  intros He%map_err_Ok. apply (enqueue_Ok (P := OrderSnapshot)) in He; [exact He|].
  unfold order_event. discriminate.
Qed.

(** An admitted order was orderable by the cache, new, and is written whole. *)
Lemma admit_order_Ok am cfg request id db r db' :
  0 < req_quantity request -> admit_order am cfg request id db = (Ok r, db') ->
  exists o p, r = (201, o)
  /\ o = {| o_order_id := id; o_product_id := req_product_id request;
            o_quantity := req_quantity request; o_status := Placed; o_version := 1 |}
  /\ fst (cached_product (req_product_id request) db) = Ok (Some p)
  /\ is_orderable p (req_quantity request) = true
  /\ orders (db_app db) !! id = None /\ written am o db db'.
Proof.
  intros Hq. unfold admit_order.
  intros (mp & db1 & Hp%map_err_Ok%statement_Ok & Hk)%eff_bind_Ok.
  assert (db1 = db) as -> by (unfold cached_product in Hp; by injection Hp).
  apply eff_bind_Ok in Hk as (p & db2 & Hmp & Hk).
  destruct mp as [p'|]; [|done]. injection Hmp as <- <-.
  destruct (bool_decide_reflect (cp_status p' = Available)) as [Hs|]; [|done].
  destruct (Z.ltb_spec (cp_available p') (req_quantity request)) as [|Ha]; [done|].
  cbn [negb] in Hk. apply eff_bind_Ok in Hk as ([] & db3 & Hi%map_err_Ok%statement_Ok & Hk).
  apply eff_bind_Ok in Hk as ([] & db4 & Hann%announce_Ok & Hk). injection Hk as <- <-.
  unfold insert_order in Hi. cbn [o_quantity o_version o_order_id] in Hi.
  destruct (Z.ltb_spec 0 (req_quantity request)); [|lia]. cbn [negb orb] in Hi.
  change (0 <? 1) with true in Hi. cbn [negb] in Hi.
  destruct (orders (db_app db) !! id) eqn:Hnew; [done|]. injection Hi as <-.
  destruct Hann as (ob & -> & Hann). eexists _, p'. rewrite Hp. split_and!; try done.
  - unfold is_orderable. rewrite bool_decide_true by done. by apply Z.leb_le.
  - split_and!; [done..| |exact Hann]. eexists. split_and!; [reflexivity|done..].
Qed.

(** A transition that answered either found the order in its target state and
    wrote nothing, or took a legal step to it, one version on. *)
Lemma move_order_Ok am cfg id target db o db' :
  order_status_canonical target = true -> move_order am cfg id target db = (Ok o, db') ->
  exists r, orders (db_app db) !! id = Some r
  /\ ((o = order_from_row id r /\ o_status o = target /\ db' = db)
      \/ (is_legal_transition (o_status (order_from_row id r)) target = true
          /\ o = {| o_order_id := id; o_product_id := or_product_id r; o_quantity := or_quantity r;
                    o_status := target; o_version := or_version r + 1 |}
          /\ or_version r < i64_max /\ written am o db db')).
Proof.
  intros Hcan. unfold move_order.
  intros (mr & db1 & Hr%map_err_Ok%statement_Ok & Hk)%eff_bind_Ok.
  unfold select_order, gets in Hr. injection Hr as <- <-.
  apply eff_bind_Ok in Hk as (cur & db2 & Hcur & Hk).
  destruct (orders (db_app db) !! id) as [r|] eqn:Hrow; [|done]. injection Hcur as <- <-.
  exists r. split; [done|].
  destruct (bool_decide_reflect (o_status (order_from_row id r) = target)) as [E|E].
  { injection Hk as <- <-. by left. }
  destruct (is_legal_transition _ target) eqn:Hl; [|done]. cbn [negb] in Hk.
  apply eff_bind_Ok in Hk as (u & db3 & Hu%map_err_Ok%statement_Ok & Hk).
  apply eff_bind_Ok in Hk as ([] & db4 & Hann%announce_Ok & Hk). injection Hk as <- <-.
  unfold update_order in Hu. rewrite Hrow in Hu.
  destruct (Z.ltb_spec i64_max (or_version r + 1)); [done|]. injection Hu as <- <-.
  destruct Hann as (ob & -> & Hann). right.
  assert (Ho : forall row, or_status row = order_status_into target ->
            order_status_from (or_status row) = target)
    by (intros row ->; by apply order_status_from_into).
  split_and!; [done| |lia|].
  - unfold order_from_row. cbn. by rewrite (proj2 (order_status_from_into target) Hcan).
  - split_and!; [done..| |exact Hann]. eexists. split_and!; [reflexivity|done|].
    cbn. by rewrite order_status_into_from.
Qed.

(** The two ways an order changes: it is placed, or it takes a legal step one
    version on. *)
Inductive advances (t : gmap uuid OrderRow) (o : OrderRecord) : Prop :=
| advance_placed :
    t !! o_order_id o = None -> o_status o = Placed -> o_version o = 1 -> 0 < o_quantity o ->
    advances t o
| advance_moved r :
    t !! o_order_id o = Some r ->
    is_legal_transition (order_status_from (or_status r)) (o_status o) = true ->
    o_version o = or_version r + 1 -> o_product_id o = or_product_id r ->
    o_quantity o = or_quantity r -> advances t o.

(** The caller is told of an internal error. *)
Definition opaque (e : OrderError) : Prop := fst (into_response e) = 500.

Definition placed (am : Ambience) (request : CreateOrderRequest) (db : ODb) (r : Z * OrderRecord)
  (db' : ODb) : Prop :=
  exists o p, r = (201, o)
  /\ o = {| o_order_id := default (am_new_id am) (req_order_id request);
            o_product_id := req_product_id request; o_quantity := req_quantity request;
            o_status := Placed; o_version := 1 |}
  /\ fst (cached_product (req_product_id request) db) = Ok (Some p)
  /\ is_orderable p (req_quantity request) = true
  /\ advances (orders (db_app db)) o /\ written am o db db'.

Definition moved (am : Ambience) (id : uuid) (target : OrderStatus) (db : ODb) (o : OrderRecord)
  (db' : ODb) : Prop :=
  o_order_id o = id /\ o_status o = target
  /\ ((db' = db /\ exists r, orders (db_app db) !! id = Some r /\ o = order_from_row id r)
      \/ (advances (orders (db_app db)) o /\ written am o db db')).

Lemma create_order_settled am cfg request db :
  settled am opaque db (placed am request db) (create_order am cfg request db).
Proof.
  unfold create_order. destruct (Z.leb_spec (req_quantity request) 0).
  { left. apply unwritten_refl. }
  apply transaction_settled; [done|]. intros r db' (o & p & -> & Ho & Hp & Hor & Hn & Hw)%admit_order_Ok; [|done].
  exists o, p. split_and!; try done. apply advance_placed; by rewrite Ho.
Qed.

Lemma transition_settled am cfg id target db :
  order_status_canonical target = true ->
  settled am opaque db (moved am id target db) (transition am cfg id target db).
Proof.
  intros Hcan. apply transaction_settled; [done|].
  intros o db' (r & Hr & [(-> & Hs & ->)|(Hl & -> & Hv & Hw)])%move_order_Ok; [| |done].
  - split_and!; [done..|]. left. split; [done|]. by exists r.
  - split_and!; [done..|]. right. split; [|done]. by eapply advance_moved.
Qed.

(** C11. A write of the order service and its announcement are one. Whatever
    statement fails and whether or not the commit's answer arrives: an accepted
    order was orderable by the live cached product and new, and is stored in
    its first version with exactly one pending announcement of that state; a
    fulfilment or cancellation either answers with the state the order was
    already in and writes nothing, or stores a legal step one version on with
    its announcement; a refused or failed request leaves every row as it was,
    except when the commit's answer alone was lost, where the whole write is
    there and the caller is told of an internal error. *)
Theorem order_write_atomic (am : Ambience) (cfg : ResolvedConfig) (request : CreateOrderRequest)
  (id : uuid) (db : ODb) :
  settled am opaque db (placed am request db) (create_order am cfg request db)
  /\ settled am opaque db (moved am id Fulfilled db) (fulfil_order am cfg id db)
  /\ settled am opaque db (moved am id Cancelled db) (cancel_order am cfg id db).
Proof. split_and!; [apply create_order_settled|by apply transition_settled..]. Qed.

(** Why the cached product forbids the order. *)
Definition refusal (p : CachedProduct) (quantity : Z) : string :=
  if bool_decide (cp_status p = Available)
  then "product has " +:+ pretty (cp_available p) +:+ " available, requested " +:+ pretty quantity
  else "product is not available: status is " +:+ product_status_into (cp_status p).

(** The answers of [create_order] when nothing fails under it, branch by
    branch. The test it makes is [is_orderable]; a retry with the id of an
    order that was accepted is a duplicate and writes nothing. *)
Theorem create_order_answers (am : Ambience) (cfg : ResolvedConfig) (request : CreateOrderRequest)
  (db : ODb) (Hcalm : calm am) :
  let quantity := req_quantity request in
  let o := {| o_order_id := default (am_new_id am) (req_order_id request);
              o_product_id := req_product_id request; o_quantity := quantity;
              o_status := Placed; o_version := 1 |} in
  fst (create_order am cfg request db) =
  if quantity <=? 0 then Err (InvalidRequest "quantity must be greater than zero")
  else match fst (cached_product (req_product_id request) db) with
  | Err e => Err (internal "read product cache" e)
  | Ok None => Err ProductNotCached
  | Ok (Some p) =>
      if negb (is_orderable p quantity) then Err (NotOrderable (refusal p quantity))
      else match orders (db_app db) !! o_order_id o with
      | Some _ => Err DuplicateOrder
      | None =>
          match fst (enqueue_inner cfg (am_clock am) (fun _ => true) (order_event am o) (am_trace am)
                       (order_outbox (db_app db))) with
          | Ok _ => Ok (201, o)
          | Err e => Err (OrderInternal ("enqueue snapshot: " +:+ error_text e))
          end
      end
  end.
Proof.
  intros quantity o. unfold create_order. fold quantity. destruct (Z.leb_spec quantity 0) as [|Hq]; [done|].
  rewrite transaction_calm by done. unfold admit_order, mbind, eff_bind, map_err at 1, statement at 1.
  rewrite (Hcalm "read product cache").
  destruct (cached_product (req_product_id request) db) as [[mp|e] db1] eqn:Hp; [|done].
  assert (db1 = db) as -> by (unfold cached_product in Hp; by injection Hp). cbn [fst].
  destruct mp as [p|]; [|done]. unfold lift at 1. cbn [ok_or]. unfold is_orderable, refusal.
  destruct (bool_decide_reflect (cp_status p = Available)); cbn [negb andb]; [|done].
  rewrite Z.ltb_antisym. fold quantity. destruct (quantity <=? cp_available p); cbn [negb]; [|done].
  fold o. unfold map_err at 1, statement. rewrite (Hcalm "insert order"). unfold insert_order.
  replace (negb (0 <? o_quantity o) || negb (0 <? o_version o)) with false
    by (cbn; by destruct (Z.ltb_spec 0 quantity); [|lia]).
  destruct (orders (db_app db) !! o_order_id o); [done|].
  unfold announce, mbind, eff_bind, lift. rewrite order_envelope_ok. unfold map_err at 1.
  unfold map_err at 1, enqueue. rewrite (Hcalm "enqueue"). cbn [with_orders with_app db_app app_outbox order_announcing order_outbox].
  by destruct (enqueue_inner _ _ _ _ _ _) as [[[]|x] ob].
Qed.

(** A transition that succeeded can be repeated by anyone: it answers the same
    order and writes nothing. *)
Theorem transition_repeats (am am' : Ambience) (cfg : ResolvedConfig) (id : uuid)
  (target : OrderStatus) (db db' : ODb) (o : OrderRecord)
  (Hcan : order_status_canonical target = true) (Hcalm : calm am')
  (Hdone : transition am cfg id target db = (Ok o, db')) :
  transition am' cfg id target db' = (Ok o, db').
Proof.
  assert (Hrow : exists r, orders (db_app db') !! id = Some r /\ order_from_row id r = o
                           /\ o_status o = target).
  { pose proof (transition_settled am cfg id target db Hcan) as Hs. rewrite Hdone in Hs.
    destruct Hs as (Hid & Hs & [(-> & r & Hr & ->)|(_ & _ & _ & (r & Ht & Hr & _) & _)]); [by exists r|].
    exists r. rewrite Hid in *. rewrite Ht, lookup_insert. by case_decide. }
  destruct Hrow as (r & Hr & <- & Hs). unfold transition. rewrite transaction_calm by done.
  unfold move_order, mbind, eff_bind, map_err at 1, statement at 1. rewrite (Hcalm "read order").
  unfold select_order, gets. rewrite Hr. cbn [fmap option_fmap option_map ok_or lift].
  by rewrite bool_decide_true.
Qed.

(** ** The lifecycle of an order *)

(** The database and every message enqueued so far. *)
Record World := { wdb : ODb; wlog : list OutboxMsg }.

Definition obx (db : ODb) : list DbRow := rows (order_outbox (db_app db)).

(** What a step added to the outbox. *)
Definition after (w : World) (db' : ODb) : World :=
  {| wdb := db'; wlog := wlog w ++ map msg (drop (length (obx (wdb w))) (obx db')) |}.

(** The requests, and everything else that runs beside them: the relay, the
    purger, the ingester and the dispatcher, none of which touch [orders]. *)
Inductive order_step (cfg : ResolvedConfig) : World -> World -> Prop :=
| step_create am request w : order_step cfg w (after w (snd (create_order am cfg request (wdb w))))
| step_fulfil am id w : order_step cfg w (after w (snd (fulfil_order am cfg id (wdb w))))
| step_cancel am id w : order_step cfg w (after w (snd (cancel_order am cfg id (wdb w))))
| step_rest w db' : orders (db_app db') = orders (db_app (wdb w)) ->
    order_step cfg w {| wdb := db'; wlog := wlog w |}.

Record announces (m : OutboxMsg) (o : OrderRecord) : Prop := {
  ann_entity : entity_col m = Some (uuid_to_string (o_order_id o));
  ann_payload : payload m = order_to_value (order_snapshot o);
  ann_source : idempotency_source m = Some (version_source (o_order_id o) (o_version o));
  ann_key : idempotency_key m = Some (to_hex (sha256 (key_text o)));
}.

(** The states one order went through, and the one it is in. *)
Inductive life : list OrderRecord -> OrderRecord -> Prop :=
| life_placed o : o_status o = Placed -> o_version o = 1 -> 0 < o_quantity o -> life [o] o
| life_moved l o o' :
    life l o -> is_legal_transition (o_status o) (o_status o') = true ->
    o_version o' = o_version o + 1 -> o_order_id o' = o_order_id o ->
    o_product_id o' = o_product_id o -> o_quantity o' = o_quantity o ->
    life (l ++ [o']) o'.

Definition states_of (id : uuid) (hist : list OrderRecord) : list OrderRecord :=
  List.filter (fun o => bool_decide (o_order_id o = id)) hist.

Definition lived (t : gmap uuid OrderRow) (hist : list OrderRecord) (id : uuid) : Prop :=
  match t !! id with
  | None => states_of id hist = []
  | Some r => life (states_of id hist) (order_from_row id r)
  end.

Lemma create_effect am cfg request db :
  let db' := snd (create_order am cfg request db) in
  unwritten db db' \/ exists o, advances (orders (db_app db)) o /\ written am o db db'.
Proof.
  eapply (settled_effect am opaque db _ _ (fun db' => exists o, _ o /\ written am o db db'));
    [apply create_order_settled|].
  intros r db' (o & p & _ & _ & _ & _ & Ha & Hw). right. by exists o.
Qed.

Lemma transition_effect am cfg id target db :
  order_status_canonical target = true ->
  let db' := snd (transition am cfg id target db) in
  unwritten db db' \/ exists o, advances (orders (db_app db)) o /\ written am o db db'.
Proof.
  intros Hc. eapply (settled_effect am opaque db _ _ (fun db' => exists o, _ o /\ written am o db db'));
    [by apply transition_settled|].
  intros o db' (_ & _ & [[-> _]|[Ha Hw]]); [by left|]. right. by exists o.
Qed.

(** What the log gains. *)
Lemma unwritten_log (db db' : ODb) :
  unwritten db db' -> orders (db_app db') = orders (db_app db) /\ drop (length (obx db)) (obx db') = [].
Proof.
  intros (_ & _ & ob & Hr & E). unfold obx. rewrite E. simpl in *. rewrite Hr. split; [done|].
  apply drop_all.
Qed.

Lemma written_log am o (db db' : ODb) :
  written am o db db' ->
  exists r, drop (length (obx db)) (obx db') = [r] /\ announces r o.
Proof.
  intros (_ & _ & _ & ek & idem & r & Hek & Hid & Hr & _ & Hent & Hv & Hkey & Hsrc).
  exists r. unfold obx. rewrite Hr.
  rewrite <- (length_update (fun x : DbRow => true && pending_of ek x) (supersede_row id)
                (rows (order_outbox (db_app db)))).
  split; [apply drop_app_length|]. injection Hek as <-. injection Hid as <-. injection Hv as Hv.
  by split.
Qed.

(** ** One life per order *)

Lemma life_bounds l o :
  life l o ->
  o_version o = Z.of_nat (length l) /\ 0 < o_quantity o
  /\ ((o_status o = Placed /\ length l = 1%nat) \/ (o_status o = Fulfilled /\ length l = 2%nat)
      \/ (o_status o = Cancelled /\ (2 <= length l <= 3)%nat))
  /\ forall x, x ∈ l -> o_version x <= o_version o.
Proof.
  induction 1 as [o Hs Hv Hq|l o o' Hl (IHv & IHq & IHs & IHx) Ht Hv Hid Hp Hq].
  - split_and!; [done..|by left|]. intros x ->%list_elem_of_singleton. done.
  - rewrite length_app. simpl. split_and!; [lia..| |].
    + destruct IHs as [[E ?]|[[E ?]|[E ?]]], (o_status o'); rewrite E in Ht; try done.
      * right; left. split; [done|lia].
      * right; right. split; [done|lia].
      * right; right. split; [done|lia].
    + intros x [Hx|Hx]%elem_of_app; [specialize (IHx x Hx); lia|].
      apply list_elem_of_singleton in Hx as ->. done.
Qed.

Lemma states_of_snoc id hist o :
  states_of id (hist ++ [o]) = states_of id hist ++ (if bool_decide (o_order_id o = id) then [o] else []).
Proof. unfold states_of. rewrite List.filter_app. simpl. by destruct (bool_decide _). Qed.

Lemma lived_snoc t t' hist o row :
  advances t o -> t' = <[o_order_id o := row]> t -> order_from_row (o_order_id o) row = o ->
  (forall id, lived t hist id) -> forall id, lived t' (hist ++ [o]) id.
Proof.
  intros Ha -> Hrow Hl id. unfold lived. rewrite states_of_snoc.
  destruct (decide (o_order_id o = id)) as [<-|Hne].
  - rewrite bool_decide_true, lookup_insert by done. case_decide; [|done]. rewrite Hrow.
    specialize (Hl (o_order_id o)). unfold lived in Hl.
    destruct Ha as [Hn Hs Hv Hq|r Hr Ht Hv Hp Hq].
    + rewrite Hn in Hl. rewrite Hl. by apply life_placed.
    + rewrite Hr in Hl. by eapply life_moved.
  - rewrite bool_decide_false, lookup_insert_ne, app_nil_r by done. apply Hl.
Qed.

Definition stamp (o : OrderRecord) : uuid * Z := (o_order_id o, o_version o).

(** The new state's version is above every earlier version of the order. *)
Lemma stamp_fresh t hist o :
  advances t o -> (forall id, lived t hist id) -> stamp o ∉ map stamp hist.
Proof.
  intros Ha Hl (x & E & Hx)%list_elem_of_In%in_map_iff. injection E as Eid Ev.
  assert (Hin : x ∈ states_of (o_order_id o) hist)
    by (apply elem_of_sfilter; rewrite list_elem_of_In, bool_decide_true; done).
  specialize (Hl (o_order_id o)). unfold lived in Hl.
  destruct Ha as [Hn|r Hr Ht Hv].
  - rewrite Hn in Hl. rewrite Hl in Hin. by apply elem_of_nil in Hin.
  - rewrite Hr in Hl. apply life_bounds in Hl as (_ & _ & _ & Hx').
    specialize (Hx' x Hin). simpl in Hx'. lia.
Qed.

Record world_inv (w : World) (hist : list OrderRecord) : Prop := {
  wi_announced : Forall2 announces (wlog w) hist;
  wi_lived : forall id, lived (orders (db_app (wdb w))) hist id;
  wi_stamps : NoDup (map stamp hist);
}.

Lemma effect_inv am w hist db' :
  world_inv w hist ->
  (unwritten (wdb w) db' \/ exists o, advances (orders (db_app (wdb w))) o /\ written am o (wdb w) db') ->
  exists hist', world_inv (after w db') hist'.
Proof.
  intros [Ha Hl Hn] [Hu|(o & Hadv & Hw)].
  - exists hist. destruct (unwritten_log _ _ Hu) as [Ho Hd]. split; simpl; [|by rewrite Ho|done].
    rewrite Hd, app_nil_r. done.
  - exists (hist ++ [o]). destruct (written_log _ _ _ _ Hw) as (r & Hd & Hr).
    destruct Hw as (_ & _ & (row & Ho & Hrow & _) & _). split; simpl.
    + rewrite Hd. apply Forall2_app; [done|]. repeat constructor; apply Hr.
    + by eapply lived_snoc.
    + rewrite map_app. apply NoDup_app. split_and!; [done| |by apply NoDup_singleton].
      intros x Hx ->%list_elem_of_singleton. by eapply stamp_fresh.
Qed.

Lemma order_step_inv cfg w w' hist :
  world_inv w hist -> order_step cfg w w' -> exists hist', world_inv w' hist'.
Proof.
  intros Hi. destruct 1 as [am request w|am id w|am id w|w db' Ho].
  - eapply effect_inv; [done|apply create_effect].
  - eapply effect_inv; [done|by apply transition_effect].
  - eapply effect_inv; [done|by apply transition_effect].
  - exists hist. destruct Hi as [Ha Hl Hn]. split; simpl; [done|by rewrite Ho|done].
Qed.
End service.

Section lifecycle.
Context `{SnapshotLaws} (sqlx_text : SqlxError -> string) (error_text : Error -> string).

Lemma key_text_inj o o' : key_text o = key_text o' -> stamp o = stamp o'.
Proof.
  intros E%(inj (String.append ORDER_SNAPSHOT_IDEMPOTENCY_NAMESPACE)). injection E as E.
  apply source_names in E as [E1 E2]. unfold stamp. by rewrite E1, E2.
Qed.

Lemma to_hex_inj k k' : key_ok k -> key_ok k' -> to_hex k = to_hex k' -> k = k'.
Proof.
  intros Hk Hk' E. apply from_hex_to_hex in Hk, Hk'. rewrite E, Hk' in Hk. by injection Hk.
Qed.

(** C16. The lifecycle of an order and what consumers are told of it. From a
    service that starts without orders, after any requests with any failures
    and any work of the relay, the ingester and the dispatcher between them:
    the messages enqueued for one order are the states it went through, from
    placed in version 1 by legal steps of one version each to the row stored
    now, and nothing was announced of an order that is not stored; versions
    stay between 1 and 3, so the increment never overflows; and two messages
    that share an idempotency key exhibit a collision of the digest. *)
Theorem order_lifecycle (cfg : ResolvedConfig) (db0 : ODb) (w : World)
  (Hempty : orders (db_app db0) = ∅)
  (Hr : rtc (order_step sqlx_text error_text cfg) {| wdb := db0; wlog := [] |} w) :
  exists hist, Forall2 announces (wlog w) hist
  /\ (forall id, orders (db_app (wdb w)) !! id = None -> states_of id hist = [])
  /\ (forall id r, orders (db_app (wdb w)) !! id = Some r ->
        life (states_of id hist) (order_from_row id r) /\ 1 <= or_version r <= 3 /\ 0 < or_quantity r)
  /\ (forall i j m m', wlog w !! i = Some m -> wlog w !! j = Some m' -> i <> j ->
        idempotency_key m = idempotency_key m' -> exists x y, x <> y /\ sha256 x = sha256 y).
Proof.
  assert (Hinv : exists hist, world_inv w hist).
  { remember {| wdb := db0; wlog := [] |} as w0 eqn:E0.
    assert (Hi0 : exists hist, world_inv w0 hist).
    { subst w0. exists []. split; simpl; [constructor| |constructor]. intros id. unfold lived.
      by rewrite Hempty, lookup_empty. }
    clear E0. induction Hr as [|w0 w1 w2 Hs _ IH]; [done|]. apply IH.
    destruct Hi0 as [h Hh]. by eapply order_step_inv. }
  destruct Hinv as (hist & [Ha Hl Hn]). exists hist. split_and!; [done|..].
  - intros id Hid. specialize (Hl id). unfold lived in Hl. by rewrite Hid in Hl.
  - intros id r Hid. specialize (Hl id). unfold lived in Hl. rewrite Hid in Hl.
    split; [done|]. apply life_bounds in Hl as (Hv & Hq & Hs & _). simpl in *. lia.
  - intros i j m m' Hi Hj Hij E.
    destruct (Forall2_lookup_l _ _ _ _ _ Ha Hi) as (o & Ho & Hm).
    destruct (Forall2_lookup_l _ _ _ _ _ Ha Hj) as (o' & Ho' & Hm').
    rewrite (ann_key _ _ Hm), (ann_key _ _ Hm') in E. injection E as E.
    apply to_hex_inj in E; [|apply digest_ok..]. exists (key_text o), (key_text o'). split; [|done].
    intros Es%key_text_inj. apply Hij. eapply (NoDup_lookup _ _ _ (stamp o) Hn).
    + by rewrite list_lookup_fmap, Ho.
    + by rewrite list_lookup_fmap, Ho', Es.
Qed.
End lifecycle.

(** ** The model evaluated *)

Module OSample.
#[export] Existing Instance WSample.formats.
#[export] Existing Instance CoSample.snapshot_formats.
#[export] Existing Instance CoSample.snapshot_laws.

Definition describe (mt topic : string) : MessageDescriptor :=
  {| Registry.message_type := mt; desc_topic := topic; topic_spec := compacted |}.
Definition cfg : ResolvedConfig := {|
  schema := "shop"; topic_prefix := "";
  messages := [describe "order_snapshot" "orders"; describe "product_snapshot" "products"] |}.

Definition lamp : ProductSnapshot :=
  {| ps_product_id := 2; ps_name := "lamp"; ps_price_cents := 900; ps_status := Available; ps_available := 5 |}.

Definition cached (s : ProductSnapshot) : Cache :=
  {[ uuid_to_string (ps_product_id s) :=
       {| c_payload := product_to_value s; applied_topic := "products"; applied_partition := 0;
          applied_offset := 7; c_deleted := false; c_updated_at := 1 |} ]}.

Definition empty_db (s : ProductSnapshot) : ODb :=
  {| db_received := []; db_cache := cached s;
     db_app := {| orders := ∅; order_outbox := empty_outbox |} |}.

Definition am (now : instant) (mid : uuid) : Ambience :=
  {| am_fault := fun _ => None; am_lands := true; am_clock := now; am_occurred_at := now;
     am_ids := (mid, mid); am_new_id := 1; am_trace := None |}.

(** The connection goes down while the commit is on its way. *)
Definition lost_commit (now : instant) (mid : uuid) (lands : bool) : Ambience :=
  {| am_fault := fun stage => if String.eqb stage "commit" then Some (SqlxOther "closed") else None;
     am_lands := lands; am_clock := now; am_occurred_at := now; am_ids := (mid, mid); am_new_id := 1;
     am_trace := None |}.

Definition text (e : SqlxError) : string := "driver error".
Definition etext (e : Error) : string := "error".

Definition ask (q : Z) : CreateOrderRequest :=
  {| req_order_id := Some 1%N; req_product_id := 2; req_quantity := q |}.

Abbreviation create am request db := (create_order text etext am cfg request db).
Abbreviation fulfil am id db := (fulfil_order text etext am cfg id db).
Abbreviation cancel am id db := (cancel_order text etext am cfg id db).

Definition db1 : ODb := snd (create (am 10 100) (ask 3) (empty_db lamp)).
Definition db2 : ODb := snd (fulfil (am 20 101) 1%N db1).
Definition db3 : ODb := snd (cancel (am 30 102) 1%N db2).

Example order_runs :
  fst (fulfil (am 20 101) 1%N db1)
  = Ok {| o_order_id := 1; o_product_id := 2; o_quantity := 3; o_status := Fulfilled; o_version := 2 |}
  /\ map status (rows (order_outbox (db_app db3))) = [Superseded; Superseded; Pending]
  /\ fst (create (am 40 103) (ask 3) db3) = Err DuplicateOrder
  /\ fst (create (am 40 103) (ask 6) (empty_db lamp))
     = Err (NotOrderable "product has 5 available, requested 6")
  /\ fst (fulfil (am 40 103) 1%N db3)
     = Err (IllegalTransition "cannot move order from Cancelled to Fulfilled")
  /\ fst (fulfil (am 40 103) 9%N db3) = Err OrderNotFound.
Proof. vm_compute. done. Qed.

(** The caller hears of an internal error whether or not the order is there. *)
Example lost_answers :
  fst (create (lost_commit 10 100 true) (ask 3) (empty_db lamp)) = Err (OrderInternal "commit: driver error")
  /\ fst (create (lost_commit 10 100 false) (ask 3) (empty_db lamp)) = Err (OrderInternal "commit: driver error")
  /\ snd (create (lost_commit 10 100 true) (ask 3) (empty_db lamp)) = db1
  /\ orders (db_app (snd (create (lost_commit 10 100 false) (ask 3) (empty_db lamp)))) = ∅.
Proof. vm_compute. done. Qed.

Definition w0 : World := {| wdb := empty_db lamp; wlog := [] |}.
Definition w3 : World := after (after (after w0 db1) db2) db3.
End OSample.

Import OSample.

Lemma order_lifecycle_witness :
  exists hist, Forall2 announces (wlog w3) hist
  /\ (forall r, orders (db_app (wdb w3)) !! 1%N = Some r -> life (states_of 1%N hist) (order_from_row 1%N r))
  /\ map idempotency_source (wlog w3)
     = [Some (version_source 1%N 1); Some (version_source 1%N 2); Some (version_source 1%N 3)].
Proof.
  destruct (order_lifecycle text etext cfg (empty_db lamp) w3) as (hist & Ha & _ & Hl & _).
  - reflexivity.
  - eapply rtc_l; [exact (step_create text etext cfg (am 10 100) (ask 3) w0)|].
    eapply rtc_l; [exact (step_fulfil text etext cfg (am 20 101) 1%N (after w0 db1))|].
    eapply rtc_l; [exact (step_cancel text etext cfg (am 30 102) 1%N (after (after w0 db1) db2))|].
    apply rtc_refl.
  - exists hist. split_and!; [exact Ha| |vm_compute; reflexivity]. intros r Hr. by apply (Hl 1%N r).
Defined.

Lemma create_order_answers_witness :
  fst (create (am 10 100) (ask 6) (empty_db lamp)) = Err (NotOrderable (refusal
    {| cp_product_id := 2; cp_name := "lamp"; cp_price_cents := 900; cp_status := Available;
       cp_available := 5; cp_applied_partition := 0; cp_applied_offset := 7 |} 6)).
Proof.
  rewrite (create_order_answers text etext (am 10 100) cfg (ask 6) (empty_db lamp)); [|done].
  vm_compute. reflexivity.
Defined.

Lemma transition_repeats_witness :
  exists o, fulfil (am 20 101) 1%N db1 = (Ok o, db2) /\ transition text etext (am 50 104) cfg 1%N Fulfilled db2 = (Ok o, db2).
Proof.
  eexists. split; [vm_compute; reflexivity|].
  apply (transition_repeats text etext (am 20 101) (am 50 104) cfg 1%N Fulfilled db1 db2); try done.
Defined.
