(* ===== verification/Faults.v ===== *)
(** * Faults: the switch that makes the product handler fail

    Models [src/examples/product/src/faults.rs]: one process-wide value behind a
    mutex, armed and disarmed over HTTP and consumed one unit per handler call.
    Every operation holds the lock for the whole of its work, so it is one step
    on [FaultState]; a poisoned lock is entered all the same. *)

From S2P Require Import Prelude Text Vocabulary Registry Dispatch Decimal.
Open Scope string_scope.
Open Scope list_scope.
Open Scope Z_scope.

#[local] Arguments String.append !_ _ : simpl nomatch.

Inductive FaultMode := FOff | FError | FPanic | FConstraint | FContention | FStatement.
#[global] Instance FaultMode_eq_dec : EqDecision FaultMode.
Proof. solve_decision. Defined.

Definition sqlstate (m : FaultMode) : option string :=
  match m with
  | FOff | FError | FPanic => None
  | FConstraint => Some "23514"
  | FContention => Some "40P01"
  | FStatement => Some "22012"
  end.

(** [remaining] is a [u32] and [fired] a [u64]. *)
Record ArmRequest := { ar_mode : FaultMode; ar_remaining : option Z }.
Record FaultStatus := { fs_mode : FaultMode; fs_remaining : option Z; fs_fired : Z }.
Record FaultState := { f_mode : FaultMode; f_remaining : option Z; f_fired : Z }.

Definition fault_state_new : FaultState := {| f_mode := FOff; f_remaining := None; f_fired := 0 |}.

Definition status_from (s : FaultState) : FaultStatus :=
  {| fs_mode := f_mode s;
     fs_remaining := if bool_decide (f_mode s = FOff) then None else f_remaining s;
     fs_fired := f_fired s |}.

Definition arm (request : ArmRequest) : eff string FaultState FaultStatus := fun s =>
  if negb (bool_decide (ar_mode request = FOff)) && bool_decide (ar_remaining request = Some 0)
  then (Err "remaining must be greater than zero when mode is not off", s)
  else
    let s' := {| f_mode := ar_mode request;
                 f_remaining := match ar_mode request with
                                | FOff => None
                                | FError | FPanic | FConstraint | FContention | FStatement =>
                                    ar_remaining request
                                end;
                 f_fired := 0 |} in
    (Ok (status_from s'), s').

Definition disarm (s : FaultState) : FaultStatus * FaultState :=
  let s' := {| f_mode := FOff; f_remaining := None; f_fired := f_fired s |} in (status_from s', s').

(** [claim_fault]; the decrement of a [u32] and the increment of a [u64] wrap. *)
Definition claim_fault (s : FaultState) : option (FaultMode * Z) * FaultState :=
  if bool_decide (f_mode s = FOff) then (None, s)
  else
    let remaining := (fun r => wrap 32 (r - 1)) <$> f_remaining s in
    let fired := wrap 64 (f_fired s + 1) in
    (Some (f_mode s, fired),
     if bool_decide (remaining = Some 0)
     then {| f_mode := FOff; f_remaining := None; f_fired := fired |}
     else {| f_mode := f_mode s; f_remaining := remaining; f_fired := fired |}).

(** The kind sqlx reads off a SQLSTATE. *)
Definition pg_error_kind (code : string) : DbErrorKind :=
  if String.eqb code "23505" then UniqueViolation
  else if String.eqb code "23503" then ForeignKeyViolation
  else if String.eqb code "23502" then NotNullViolation
  else if String.eqb code "23514" then CheckViolation
  else OtherKind.

(** [raise]: the server refuses the block with the code, which aborts the
    transaction; [broken] is a connection that does not get that far. *)
Definition raise_sqlstate (broken : option SqlxError) (code : string) (fired : Z) : Error * TxStatus :=
  match broken with
  | Some e => (ESqlx e, LostTx)
  | None =>
      (ESqlx (SqlxDatabase (pg_error_kind code) (Some code)
                ("injected fault: the product handler hit a database error on call " +:+ pretty fired)),
       AbortedTx)
  end.

(** [check]: what the call does, the state it leaves the transaction in, and
    the switch after it. *)
Definition check (broken : option SqlxError) (s : FaultState)
  : unwinding (result Error unit) * TxStatus * FaultState :=
  let (claimed, s') := claim_fault s in
  match claimed with
  | None => (Returned (Ok tt), Active, s')
  | Some (mode, fired) =>
      if bool_decide (mode = FPanic) then
        (Panicked (PanicString ("injected fault: the product handler panicked on call " +:+ pretty fired)),
         Active, s')
      else match sqlstate mode with
      | Some code => let (e, st) := raise_sqlstate broken code fired in (Returned (Err e), st, s')
      | None =>
          (Returned (Err (EHandler ("injected fault: the product handler failed on call " +:+ pretty fired))),
           Active, s')
      end
  end.

(** The HTTP routes. *)
Definition read_fault (s : FaultState) : FaultStatus := status_from s.
Definition arm_fault (request : ArmRequest) : eff string FaultState FaultStatus := arm request.
Definition disarm_fault (s : FaultState) : FaultStatus * FaultState := disarm s.

(** ** The switch as a state machine *)

Inductive fault_step : FaultState -> FaultState -> Prop :=
| fstep_arm request s :
    (forall n, ar_remaining request = Some n -> 0 <= n <= u32_max) ->
    fault_step s (snd (arm request s))
| fstep_disarm s : fault_step s (snd (disarm s))
| fstep_claim s : fault_step s (snd (claim_fault s)).

(** Off carries no budget, and an armed budget is a positive [u32]. *)
Definition fault_inv (s : FaultState) : Prop :=
  match f_mode s, f_remaining s with
  | FOff, r => r = None
  | _, Some n => 0 < n <= u32_max
  | _, None => True
  end.

Lemma fault_inv_cases s :
  fault_inv s ->
  (f_mode s = FOff /\ f_remaining s = None)
  \/ (f_mode s <> FOff /\ forall n, f_remaining s = Some n -> 0 < n <= u32_max).
Proof.
  unfold fault_inv. destruct (f_mode s); [by left|..]; right; (split; [done|]);
    intros n E; by rewrite E in *.
Qed.

Lemma fault_inv_on s :
  f_mode s <> FOff -> (forall n, f_remaining s = Some n -> 0 < n <= u32_max) -> fault_inv s.
Proof.
  intros Hm Hr. unfold fault_inv. destruct (f_mode s), (f_remaining s) as [n|]; try done; by apply Hr.
Qed.

(** A claim on an armed switch. *)
Lemma claim_armed s :
  f_mode s <> FOff -> (forall n, f_remaining s = Some n -> 0 < n <= u32_max) ->
  claim_fault s
  = (Some (f_mode s, wrap 64 (f_fired s + 1)),
     if bool_decide (f_remaining s = Some 1)
     then {| f_mode := FOff; f_remaining := None; f_fired := wrap 64 (f_fired s + 1) |}
     else {| f_mode := f_mode s; f_remaining := Z.pred <$> f_remaining s;
             f_fired := wrap 64 (f_fired s + 1) |}).
Proof.
  intros Hm Hr. unfold claim_fault. rewrite bool_decide_false by done.
  destruct (f_remaining s) as [n|]; [|done]. specialize (Hr n eq_refl). cbn [fmap option_fmap option_map].
  assert (E : wrap 32 (n - 1) = Z.pred n)
    by (unfold wrap, u32_max in *; rewrite Z.mod_small by lia; lia).
  rewrite E. destruct (decide (n = 1)) as [->|Hn]; [done|].
  rewrite !bool_decide_false; [done|congruence|]. intros [=]. lia.
Qed.

Lemma fault_step_inv s s' : fault_inv s -> fault_step s s' -> fault_inv s'.
Proof.
  intros Hs. destruct 1 as [request s Hn|s|s].
  - unfold arm. destruct (negb _ && _) eqn:E; [done|]. cbn [snd].
    destruct (decide (ar_mode request = FOff)) as [Eo|Eo]; [unfold fault_inv; cbn; by rewrite Eo|].
    apply fault_inv_on; [done|]. cbn. intros n En. rewrite bool_decide_false in E by done. cbn in E.
    apply bool_decide_eq_false in E.
    assert (Ear : ar_remaining request = Some n) by by destruct (ar_mode request).
    specialize (Hn n Ear). rewrite Ear in E. assert (n <> 0) by congruence. lia.
  - done.
  - destruct (fault_inv_cases s Hs) as [[Hm Hr]|[Hm Hr]].
    + unfold claim_fault. by rewrite bool_decide_true.
    + rewrite claim_armed by done. cbn [snd]. case_bool_decide as E; [done|].
      apply fault_inv_on; [done|]. cbn. intros n (k & Ek & ->)%fmap_Some.
      specialize (Hr k Ek). assert (k <> 1) by congruence. lia.
Qed.

(** ** Budgets *)

(** [k] handler calls, one after another. *)
Fixpoint claims (k : nat) (s : FaultState) : list (option (FaultMode * Z)) * FaultState :=
  match k with
  | O => ([], s)
  | S k => let (c, s') := claim_fault s in let (cs, s'') := claims k s' in (c :: cs, s'')
  end.

Lemma claims_off k s : f_mode s = FOff -> claims k s = (repeat None k, s).
Proof.
  intros Hm. induction k as [|k IH]; [done|]. simpl. unfold claim_fault.
  rewrite bool_decide_true by done. by rewrite IH.
Qed.

(** The calls numbered from [fired + 1]. *)
Fixpoint firings (mode : FaultMode) (fired : Z) (k : nat) : list (option (FaultMode * Z)) :=
  match k with
  | O => []
  | S k => Some (mode, wrap 64 (fired + 1)) :: firings mode (wrap 64 (fired + 1)) k
  end.

Lemma claims_bounded n : forall s, f_mode s <> FOff -> f_remaining s = Some (Z.of_nat (S n)) ->
  Z.of_nat (S n) <= u32_max ->
  fst (claims (S n) s) = firings (f_mode s) (f_fired s) (S n)
  /\ f_mode (snd (claims (S n) s)) = FOff
  /\ f_fired (snd (claims (S n) s)) = wrap 64 (f_fired s + Z.of_nat (S n)).
Proof.
  induction n as [|n IH]; intros s Hm Hr Hn.
  - cbn [claims]. rewrite claim_armed by (done || (intros m E; rewrite Hr in E; simplify_eq; lia)).
    by rewrite Hr.
  - cbn [claims]. rewrite claim_armed by (done || (intros m E; rewrite Hr in E; simplify_eq; lia)).
    rewrite Hr, bool_decide_false by (intros [=]; lia). cbn [fmap option_fmap option_map].
    edestruct (IH {| f_mode := f_mode s; f_remaining := Some (Z.pred (Z.of_nat (S (S n))));
                     f_fired := wrap 64 (f_fired s + 1) |}) as (E1 & E2 & E3);
      [done|cbn; f_equal; lia|lia|].
    cbn [claims] in E1, E2, E3. destruct (claim_fault _) as [c s1]. destruct (claims n s1) as [cs s2].
    cbn in E1, E2, E3 |- *. split_and!; [by rewrite E1|done|]. rewrite E3. unfold wrap.
    rewrite Zplus_mod_idemp_l. f_equal. lia.
Qed.

Lemma claims_unbounded k : forall s, f_mode s <> FOff -> f_remaining s = None ->
  fst (claims k s) = firings (f_mode s) (f_fired s) k
  /\ f_mode (snd (claims k s)) = f_mode s /\ f_remaining (snd (claims k s)) = None.
Proof.
  induction k as [|k IH]; intros s Hm Hr; [done|]. cbn [claims].
  rewrite claim_armed by (done || (intros m E; by rewrite Hr in E)). rewrite Hr.
  rewrite bool_decide_false by done. cbn [fmap option_fmap option_map].
  edestruct (IH {| f_mode := f_mode s; f_remaining := None; f_fired := wrap 64 (f_fired s + 1) |})
    as (E1 & E2 & E3); [done..|].
  destruct (claims k _) as [cs s2]. cbn in E1, E2, E3 |- *. by rewrite E1.
Qed.

Lemma claims_app j k s :
  claims (j + k) s = (fst (claims j s) ++ fst (claims k (snd (claims j s))), snd (claims k (snd (claims j s)))).
Proof.
  revert s. induction j as [|j IH]; intros s; cbn [claims Nat.add fst snd].
  { by destruct (claims k s). }
  destruct (claim_fault s) as [c s1]. rewrite IH. by destruct (claims j s1).
Qed.

Lemma firings_seq mode fired k :
  0 <= fired -> fired + Z.of_nat k <= u64_max ->
  firings mode fired k = map (fun i => Some (mode, fired + Z.of_nat (S i))) (seq 0 k).
Proof.
  revert fired. induction k as [|k IH]; intros fired H0 Hk; [done|]. cbn [firings seq map].
  assert (E : wrap 64 (fired + 1) = fired + 1)
    by (unfold wrap, u64_max in *; rewrite Z.mod_small by lia; done).
  rewrite E, IH by lia. f_equal. rewrite <- seq_shift, map_map. apply map_ext. intros i. do 2 f_equal. lia.
Qed.

(** The fault switch. Whatever was armed, disarmed and claimed since the
    process started, a switch that is off holds no budget and an armed budget
    is never zero, so the decrement never underflows and arming a live mode
    with zero is refused without a change. Arming a mode with a budget of [n]
    makes exactly the next [n] handler calls fail in that mode, numbered from 1,
    and every call after them pass, with the switch reporting off and [n] fired;
    arming without a budget makes every call fail until it is disarmed. *)
Theorem fault_budget (s : FaultState) (Hs : rtc fault_step fault_state_new s) :
  fault_inv s
  /\ (forall mode, mode <> FOff -> arm {| ar_mode := mode; ar_remaining := Some 0 |} s
        = (Err "remaining must be greater than zero when mode is not off", s))
  /\ (forall mode n j, mode <> FOff -> Z.of_nat (S n) <= u32_max ->
        let armed := arm {| ar_mode := mode; ar_remaining := Some (Z.of_nat (S n)) |} s in
        let (fired, rest) := claims (S n + j) (snd armed) in
        fst armed = Ok {| fs_mode := mode; fs_remaining := Some (Z.of_nat (S n)); fs_fired := 0 |}
        /\ fired = map (fun i => Some (mode, Z.of_nat (S i))) (seq 0 (S n)) ++ repeat None j
        /\ read_fault rest = {| fs_mode := FOff; fs_remaining := None; fs_fired := Z.of_nat (S n) |})
  /\ (forall mode k, mode <> FOff -> Z.of_nat k <= u64_max ->
        fst (claims k (snd (arm {| ar_mode := mode; ar_remaining := None |} s)))
        = map (fun i => Some (mode, Z.of_nat (S i))) (seq 0 k)).
Proof.
  split_and!.
  - remember fault_state_new as s0 eqn:E. assert (H0 : fault_inv s0) by by subst. clear E.
    induction Hs as [|a b c Hab _ IH]; [done|]. apply IH. by eapply fault_step_inv.
  - intros mode Hm. unfold arm. cbn. by rewrite bool_decide_false.
  - intros mode n j Hm Hn armed. unfold armed, arm. cbn [ar_mode ar_remaining].
    rewrite (bool_decide_false (Some (Z.of_nat (S n)) = Some 0)) by (intros [=]; lia).
    rewrite andb_false_r. cbn [fst snd].
    set (s1 := {| f_mode := mode |}).
    destruct (claims_bounded n s1) as (E1 & E2 & E3); [done|unfold s1; cbn; by destruct mode|done|].
    rewrite claims_app, E1, (claims_off j _ E2). cbn [fst snd]. rewrite firings_seq by (cbn; unfold u32_max, u64_max in *; lia).
    split_and!; [|done|].
    + unfold status_from. cbn. rewrite bool_decide_false by done. by destruct mode.
    + unfold read_fault, status_from. rewrite E2, E3. cbn [f_fired s1]. f_equal.
      unfold wrap. rewrite Z.mod_small by (unfold u32_max in *; lia). lia.
  - intros mode k Hm Hk. unfold arm. cbn [ar_mode ar_remaining]. rewrite (bool_decide_false (None = Some 0)) by done.
    rewrite andb_false_r. cbn [snd].
    set (s1 := {| f_mode := mode |}).
    destruct (claims_unbounded k s1) as (-> & _); [done|unfold s1; cbn; by destruct mode|].
    by rewrite firings_seq.
Qed.

Lemma fault_budget_witness :
  let armed := {| ar_mode := FConstraint; ar_remaining := Some 2 |} in
  let s := snd (disarm (snd (claim_fault (snd (arm armed fault_state_new))))) in
  rtc fault_step fault_state_new s /\ fault_inv s
  /\ fst (claims 3 (snd (arm armed s))) = [Some (FConstraint, 1); Some (FConstraint, 2); None].
Proof.
  intros armed s. assert (Hr : rtc fault_step fault_state_new s).
  { eapply rtc_l; [apply (fstep_arm armed)|].
    { intros n [= <-]. by vm_compute. }
    eapply rtc_l; [apply fstep_claim|]. eapply rtc_l; [apply fstep_disarm|]. apply rtc_refl. }
  split; [exact Hr|]. destruct (fault_budget s Hr) as (Hi & _ & Hb & _). split; [exact Hi|].
  specialize (Hb FConstraint 1%nat 1%nat ltac:(done) ltac:(by vm_compute)). cbn zeta in Hb.
  destruct (claims _ _) as [cs rest] eqn:E in Hb. destruct Hb as (_ & Hc & _).
  change (claims 3 (snd (arm armed s))) with (claims (2 + 1) (snd (arm armed s))).
  change (snd (arm armed s)) with
    (snd (arm {| ar_mode := FConstraint; ar_remaining := Some (Z.of_nat 2) |} s)).
  rewrite E. exact Hc.
Defined.
