(* ===== verification/ProductService.v ===== *)
(** * ProductService: availability derived from a cache of orders

    Models [src/examples/product/src/lib.rs] and the handlers of
    [src/examples/product/src/http.rs]: products and their announcements, the
    dispatch handler that recomputes a product's availability from the cached
    orders, and its two registrations (through the runtime builder's handler
    context and through a plain router).

    The service's database is kafkaman's received table and order cache
    ([Dispatch.Db]) beside its own [products] table and its outbox. *)

From S2P Require Import Prelude Text Vocabulary Trace Identity Topics Registry Retry Outbox OutboxOrder.
From S2P Require Import Lifecycle Received Cache Dispatch Wire Decimal Contracts WriteTx Faults.
Open Scope string_scope.
Open Scope list_scope.
Open Scope Z_scope.

#[local] Arguments String.append !_ _ : simpl nomatch.

(** ** State *)

(** A row of [products]; the key is [product_id]. *)
Record ProductRow := {
  pr_name : string;
  pr_price_cents : Z;
  pr_status : string;
  pr_on_hand : Z;
  pr_available : Z;
  pr_version : Z;
  pr_created_at : instant;
  pr_updated_at : instant;
}.
#[global] Instance ProductRow_eq_dec : EqDecision ProductRow.
Proof. solve_decision. Defined.

Record ProductApp := { products : gmap uuid ProductRow; product_outbox : Outbox }.

#[global] Instance product_announcing : Announcing ProductApp := {|
  app_outbox := product_outbox;
  with_outbox a ob := {| products := products a; product_outbox := ob |};
|}.
#[global] Instance product_announcing_laws : AnnouncingLaws ProductApp.
Proof. split; [done| |done]. by intros []. Qed.

Abbreviation PDb := (@Db ProductApp).

Definition with_products (db : PDb) (t : gmap uuid ProductRow) : PDb :=
  with_app db {| products := t; product_outbox := product_outbox (db_app db) |}.

Record ProductRecord := {
  p_product_id : uuid;
  p_name : string;
  p_price_cents : Z;
  p_status : ProductStatus;
  p_on_hand : Z;
  p_available : Z;
  p_version : Z;
}.

Definition PRODUCT_SNAPSHOT_IDEMPOTENCY_NAMESPACE := "example-product:product-snapshot:v1".

(** The snapshot leaves [on_hand] out. *)
Definition product_snapshot (p : ProductRecord) : ProductSnapshot :=
  {| ps_product_id := p_product_id p; ps_name := p_name p; ps_price_cents := p_price_cents p;
     ps_status := p_status p; ps_available := p_available p |}.

Definition product_from_row (id : uuid) (r : ProductRow) : ProductRecord :=
  {| p_product_id := id; p_name := pr_name r; p_price_cents := pr_price_cents r;
     p_status := product_status_from (pr_status r); p_on_hand := pr_on_hand r;
     p_available := pr_available r; p_version := pr_version r |}.

Inductive ProductError :=
| PInvalidRequest (message : string)
| ProductNotFound
| DuplicateProduct
| ProductInternal (detail : string).

Definition product_into_response (e : ProductError) : Z * string :=
  match e with
  | PInvalidRequest message => (400, message)
  | ProductNotFound => (404, "no such product")
  | DuplicateProduct => (409, "a product with this id already exists")
  | ProductInternal _ => (500, "internal error")
  end.

(** The request body; serde turns the status text into a [ProductStatus]. *)
Record CreateProductRequest := {
  rq_product_id : option uuid; rq_name : string; rq_price_cents : Z; rq_on_hand : Z;
  rq_status : option string }.

Definition i64_range (z : Z) : bool := (- 2 ^ 63 <=? z) && (z <=? i64_max).
Definition bigint_out_of_range : SqlxError := SqlxDatabase OtherKind (Some "22003") "bigint out of range".

Section service.
Context `{Formats} `{SnapshotFormats}.
Context (sqlx_text : SqlxError -> string) (error_text : Error -> string).

Definition product_internal (stage : string) (e : SqlxError) : ProductError :=
  ProductInternal (stage +:+ ": " +:+ sqlx_text e).

Definition product_snapshot_envelope (ids : uuid * uuid) (now : instant) (p : ProductRecord)
  : result Error (Envelope ProductSnapshot) :=
  snapshot_envelope PRODUCT_SNAPSHOT_IDEMPOTENCY_NAMESPACE ids now (p_product_id p) (p_version p)
    (product_snapshot p).

Section request.
Context (am : Ambience) (cfg : ResolvedConfig).

(** [INSERT INTO products], with the table's checks and primary key. *)
Definition insert_product (p : ProductRecord) : eff SqlxError PDb unit := fun db =>
  if negb (0 <=? p_price_cents p) || negb (0 <=? p_on_hand p) || negb (0 <=? p_available p)
     || negb (0 <? p_version p)
  then (Err (SqlxDatabase CheckViolation (Some "23514") "products check"), db)
  else match products (db_app db) !! p_product_id p with
  | Some _ => (Err (SqlxDatabase UniqueViolation (Some "23505") "products primary key"), db)
  | None =>
      let row := {| pr_name := p_name p; pr_price_cents := p_price_cents p;
                    pr_status := product_status_into (p_status p); pr_on_hand := p_on_hand p;
                    pr_available := p_available p; pr_version := p_version p;
                    pr_created_at := am_clock am; pr_updated_at := am_clock am |} in
      (Ok tt, with_products db (<[p_product_id p := row]> (products (db_app db))))
  end.

Definition announce_product (p : ProductRecord) : eff ProductError PDb unit :=
  envelope ← map_err (fun e => ProductInternal ("build snapshot: " +:+ error_text e))
               (lift (product_snapshot_envelope (am_ids am) (am_occurred_at am) p));
  map_err (fun e => ProductInternal ("enqueue snapshot: " +:+ error_text e)) (enqueue am cfg envelope).

(** The product a request asks for. *)
Definition requested_product (request : CreateProductRequest) : ProductRecord :=
  {| p_product_id := default (am_new_id am) (rq_product_id request);
     p_name := trim (rq_name request); p_price_cents := rq_price_cents request;
     p_status := default Available (product_status_from <$> rq_status request); p_on_hand := rq_on_hand request;
     p_available := rq_on_hand request; p_version := 1 |}.

Definition create_product (request : CreateProductRequest) : eff ProductError PDb (Z * ProductRecord) :=
  if is_empty (trim (rq_name request)) then raise (PInvalidRequest "name must not be empty")
  else if (rq_on_hand request <? 0) || (rq_price_cents request <? 0)
  then raise (PInvalidRequest "on_hand and price_cents must not be negative")
  else
    let product := requested_product request in
    transaction am product_internal (
      _ ← map_err (fun e => if is_unique_violation e then DuplicateProduct
                            else ProductInternal ("insert product: " +:+ sqlx_text e))
            (statement am "insert product" (insert_product product));
      _ ← announce_product product;
      mret (201, product)).

Definition select_product (id : uuid) : eff SqlxError PDb (option ProductRecord) :=
  gets (fun db => product_from_row id <$> products (db_app db) !! id).

(** [UPDATE products SET status = $1, version = version + 1 .. RETURNING]. *)
Definition update_status (id : uuid) (target : ProductStatus) : eff SqlxError PDb ProductRecord := fun db =>
  match products (db_app db) !! id with
  | None => (Err (SqlxOther "no rows returned"), db)
  | Some r =>
      if negb (i64_range (pr_version r + 1)) then (Err bigint_out_of_range, db)
      else
        let row := {| pr_name := pr_name r; pr_price_cents := pr_price_cents r;
                      pr_status := product_status_into target; pr_on_hand := pr_on_hand r;
                      pr_available := pr_available r; pr_version := pr_version r + 1;
                      pr_created_at := pr_created_at r; pr_updated_at := am_clock am |} in
        (Ok (product_from_row id row), with_products db (<[id := row]> (products (db_app db))))
  end.

(** The transaction of [discontinue]. *)
Definition withdraw (id : uuid) : eff ProductError PDb ProductRecord :=
  row ← map_err (product_internal "read product") (statement am "read product" (select_product id));
  current ← lift (ok_or ProductNotFound row);
  if bool_decide (p_status current = Discontinued) then mret current
  else
    updated ← map_err (product_internal "update product")
                (statement am "update product" (update_status id Discontinued));
    _ ← announce_product updated;
    mret updated.

Definition discontinue (id : uuid) : eff ProductError PDb ProductRecord :=
  transaction am product_internal (withdraw id).

Definition read_product (id : uuid) : eff ProductError PDb ProductRecord :=
  row ← map_err (product_internal "read product") (statement am "read product" (select_product id));
  lift (ok_or ProductNotFound row).

Definition list_products : eff ProductError PDb (list ProductRecord) :=
  rows ← map_err (product_internal "list products") (statement am "list products"
           (gets (fun db => sql_order_by_lex (fun p => [pr_created_at p.2; Z.of_N p.1])
                              (map_to_list (products (db_app db))))));
  mret (map (fun p => product_from_row p.1 p.2) rows).

(** ** The dispatch handler *)

(** [WHERE deleted = false AND payload->>'product_id' = $1 AND payload->>'status' = $2]. *)
Definition fulfilled_row (product_id : string) (r : CacheRow) : bool :=
  negb (c_deleted r)
  && sql_eq (jsonb_text (c_payload r) "product_id") (Some product_id)
  && sql_eq (jsonb_text (c_payload r) "status") (Some ORDER_STATUS_FULFILLED_WIRE).

(** [SUM((payload->>'quantity')::bigint)]: exact, and [NULL] counts nothing. *)
Fixpoint sum_quantities (rows : list CacheRow) : result SqlxError Z :=
  match rows with
  | [] => Ok 0
  | r :: rows =>
      q ← jsonb_bigint (c_payload r) "quantity";
      total ← sum_quantities rows;
      Ok (default 0 q + total)
  end.

(** The first query of [recompute_availability], with its [::bigint]. *)
Definition sum_fulfilled (product_id : uuid) (c : Cache) : result SqlxError Z :=
  total ← sum_quantities
            (List.filter (fulfilled_row (uuid_to_string product_id)) (map snd (map_to_list c)));
  if i64_range total then Ok total else Err bigint_out_of_range.

(** The second: [SET available = GREATEST(on_hand - $1, 0), version = version + 1]. *)
Definition update_available (product_id : uuid) (fulfilled : Z)
  : eff SqlxError PDb (option ProductRecord) := fun db =>
  match products (db_app db) !! product_id with
  | None => (Ok None, db)
  | Some r =>
      if negb (i64_range (pr_on_hand r - fulfilled)) || negb (i64_range (pr_version r + 1))
      then (Err bigint_out_of_range, db)
      else
        let row := {| pr_name := pr_name r; pr_price_cents := pr_price_cents r;
                      pr_status := pr_status r; pr_on_hand := pr_on_hand r;
                      pr_available := Z.max (pr_on_hand r - fulfilled) 0;
                      pr_version := pr_version r + 1; pr_created_at := pr_created_at r;
                      pr_updated_at := am_clock am |} in
        (Ok (Some (product_from_row product_id row)),
         with_products db (<[product_id := row]> (products (db_app db))))
  end.

Definition recompute_availability (order : OrderSnapshot) : eff Error PDb (option ProductRecord) :=
  fulfilled ← map_err ESqlx (statement am "sum fulfilled orders from cache"
                (fun db => (sum_fulfilled (os_product_id order) (db_cache db), db)));
  map_err ESqlx (statement am "recompute product availability"
    (update_available (os_product_id order) fulfilled)).

(** After the fault switch, the two registrations do this. *)
Definition republish (order : OrderSnapshot) : eff Error PDb unit :=
  product ← recompute_availability order;
  match product with
  | None => mret tt
  | Some p =>
      envelope ← lift (product_snapshot_envelope (am_ids am) (am_occurred_at am) p);
      enqueue am cfg envelope
  end.

(** The state an error of the handler leaves the transaction in. *)
Definition tx_after (e : Error) : TxStatus :=
  match e with
  | ESqlx (SqlxDatabase _ _ _) => AbortedTx
  | ESqlx (SqlxOther _) => LostTx
  | _ => Active
  end.

Definition finished (r : unwinding (result Error unit)) : HandlerRun unit :=
  {| polled := r; dropped := Returned tt |}.

(** [faults::check] and then the work. *)
Definition guarded (fs : FaultState) (work : eff Error PDb unit) (db : PDb)
  : HandlerRun unit * PDb * TxStatus :=
  match check (am_fault am "raise") fs with
  | (Returned (Ok _), _, _) =>
      match work db with
      | (Ok _, db') => (finished (Returned (Ok tt)), db', Active)
      | (Err e, db') => (finished (Returned (Err e)), db', tx_after e)
      end
  | (failed, st, _) => (finished failed, db, st)
  end.

(** [derive_availability], registered with [handle]: the cache table is looked
    up in the handler's context. *)
Definition derive_availability (fs : FaultState) (order : OrderSnapshot)
  : PDb -> HandlerRun unit * PDb * TxStatus :=
  guarded fs (_ ← lift (for_message CacheKind OrderSnapshot cfg); republish order).

(** [apply_order_snapshot], registered by [dispatch_router], which looks the
    table up once. *)
Definition apply_order_snapshot (fs : FaultState) (order : OrderSnapshot)
  : PDb -> HandlerRun unit * PDb * TxStatus :=
  guarded fs (republish order).

Definition builder_router (fs : FaultState) : @MessageRouter ProductApp :=
  handler OrderSnapshot (typed_handler order_from_value (fun _ => derive_availability fs)) router_new.

Definition dispatch_router (fs : FaultState) : result Error (@MessageRouter ProductApp) :=
  _ ← for_message CacheKind OrderSnapshot cfg;
  Ok (handler OrderSnapshot (typed_handler order_from_value (fun _ => apply_order_snapshot fs)) router_new).
End request.
End service.

(** ** The derived value *)

(** What availability means, read off decoded snapshots. *)
Definition fulfils `{Formats} `{SnapshotFormats} (product_id : uuid) (r : CacheRow) : Z :=
  if c_deleted r then 0
  else match order_from_value (c_payload r) with
       | Ok o => if bool_decide (os_product_id o = product_id) && bool_decide (os_status o = Fulfilled)
                 then os_quantity o else 0
       | Err _ => 0
       end.

Definition fulfilled_quantity `{Formats} `{SnapshotFormats} (product_id : uuid) (c : Cache) : Z :=
  map_fold (fun _ r acc => fulfils product_id r + acc) 0 c.

(** A cache of payloads the order service's serializer wrote. *)
Definition encoded `{Formats} `{SnapshotFormats} (c : Cache) : Prop :=
  forall ek r, c !! ek = Some r -> exists w, c_payload r = order_json w.

Section derived.
Context `{FormatLaws} `{!SnapshotFormats} `{!SnapshotLaws}.

Lemma fulfilled_list product_id (c : Cache) :
  fulfilled_quantity product_id c = foldr Z.add 0 (map (fulfils product_id) (map snd (map_to_list c))).
Proof.
  unfold fulfilled_quantity. rewrite map_fold_foldr. induction (map_to_list c) as [|[k r] l IH]; [done|].
  cbn [foldr map uncurry fst snd]. by rewrite IH.
Qed.

Lemma fulfilled_insert product_id ek r (c : Cache) :
  fulfilled_quantity product_id (<[ek := r]> c)
  = fulfils product_id r + fulfilled_quantity product_id (delete ek c).
Proof.
  unfold fulfilled_quantity. rewrite <- insert_delete_eq.
  apply (map_fold_insert_L (fun (_ : string) r acc => fulfils product_id r + acc)); [intros; lia|].
  apply lookup_delete_eq.
Qed.

Lemma fulfilled_delete product_id ek r (c : Cache) :
  c !! ek = Some r ->
  fulfilled_quantity product_id c = fulfils product_id r + fulfilled_quantity product_id (delete ek c).
Proof. intros E. rewrite <- (insert_id c ek r E) at 1. apply fulfilled_insert. Qed.

(** A row of another product changes nothing for this one. *)
Lemma fulfilled_other product_id ek r (c : Cache) :
  fulfils product_id r = 0 -> (forall cur, c !! ek = Some cur -> fulfils product_id cur = 0) ->
  fulfilled_quantity product_id (<[ek := r]> c) = fulfilled_quantity product_id c.
Proof.
  intros Hr Hc. rewrite fulfilled_insert, Hr. destruct (c !! ek) as [cur|] eqn:E.
  - rewrite (fulfilled_delete product_id ek cur c E), (Hc cur eq_refl). done.
  - by rewrite delete_id.
Qed.

Lemma uuid_to_string_inj u v : uuid_to_string u = uuid_to_string v -> u = v.
Proof.
  intros E. destruct (uuid_text u) as [Hu _], (uuid_text v) as [Hv _]. rewrite E, Hv in Hu.
  by injection Hu.
Qed.

Lemma status_from_fulfilled v : order_status_from v = Fulfilled <-> v = ORDER_STATUS_FULFILLED_WIRE.
Proof.
  split; [|by intros ->]. intros E. by rewrite <- (order_status_into_from v), E.
Qed.

(** One row: the SQL test and the decoded snapshot agree. *)
Lemma fulfilled_row_spec product_id (r : CacheRow) w :
  c_payload r = order_json w ->
  fulfils product_id r
  = if fulfilled_row (uuid_to_string product_id) r then ow_quantity w else 0.
Proof.
  intros E. unfold fulfils, fulfilled_row, order_from_value. rewrite E, order_reads_back.
  rewrite order_product_text, order_status_text. destruct (c_deleted r); [done|].
  cbn [negb andb sql_eq]. cbn [fmap result_fmap order_unwire os_product_id os_status os_quantity].
  assert (E1 : bool_decide (uuid_to_string (ow_product_id w) = uuid_to_string product_id)
               = bool_decide (ow_product_id w = product_id))
    by (apply bool_decide_ext; split; [apply uuid_to_string_inj|by intros ->]).
  assert (E2 : bool_decide (ow_status w = ORDER_STATUS_FULFILLED_WIRE)
               = bool_decide (order_status_from (ow_status w) = Fulfilled))
    by (apply bool_decide_ext; by rewrite status_from_fulfilled).
  by rewrite E1, E2.
Qed.

Lemma fulfils_other product_id (r : CacheRow) w :
  c_payload r = order_json w -> product_id <> ow_product_id w -> fulfils product_id r = 0.
Proof.
  intros E Hne. unfold fulfils, order_from_value. rewrite E, order_reads_back. cbn.
  rewrite bool_decide_false by congruence. by destruct (c_deleted r).
Qed.

Lemma sum_rows product_id (rs : list CacheRow) :
  (forall r, r ∈ rs -> exists w, c_payload r = order_json w) ->
  sum_quantities (List.filter (fulfilled_row (uuid_to_string product_id)) rs)
  = Ok (foldr Z.add 0 (map (fulfils product_id) rs)).
Proof.
  induction rs as [|r rs IH]; intros He; [done|]. cbn [List.filter map foldr].
  destruct (He r) as [w Hw]; [by left|]. rewrite (fulfilled_row_spec _ _ _ Hw).
  assert (He' : forall x, x ∈ rs -> exists w, c_payload x = order_json w) by (intros x Hx; apply He; by right).
  specialize (IH He').
  destruct (fulfilled_row _ r); [|exact IH]. cbn [sum_quantities].
  rewrite Hw, order_quantity_value. cbn [mbind result_bind]. by rewrite IH.
Qed.

(** The query of [recompute_availability] computes the reference. *)
Lemma sum_fulfilled_spec product_id (c : Cache) :
  encoded c ->
  sum_fulfilled product_id c
  = (if i64_range (fulfilled_quantity product_id c)
     then Ok (fulfilled_quantity product_id c) else Err bigint_out_of_range).
Proof.
  intros He. unfold sum_fulfilled. rewrite sum_rows, <- fulfilled_list; [done|].
  intros r ([k r'] & Hr & Hin)%list_elem_of_In%in_map_iff. simpl in Hr. subst r'.
  apply (He k). by apply elem_of_map_to_list, list_elem_of_In.
Qed.
End derived.

(** ** What a request and the handler write *)

Section effects.
Context `{Formats} `{SnapshotFormats}.
Context (sqlx_text : SqlxError -> string) (error_text : Error -> string).

Definition product_event (am : Ambience) (p : ProductRecord) : Envelope ProductSnapshot :=
  with_identity
    {| idem_key := sha256 (PRODUCT_SNAPSHOT_IDEMPOTENCY_NAMESPACE
                           +:+ String "000"%char (canonical_json (version_source (p_product_id p) (p_version p))));
       idem_source := Some (version_source (p_product_id p) (p_version p)) |}
    (envelope_new (am_ids am) (am_occurred_at am) (product_snapshot p)).

Lemma product_envelope_ok am p :
  product_snapshot_envelope (am_ids am) (am_occurred_at am) p = Ok (product_event am p).
Proof. reflexivity. Qed.

(** The product is stored and its announcement is in the outbox; nothing else
    of the database moved. *)
Definition product_written (am : Ambience) (p : ProductRecord) (db db' : PDb) : Prop :=
  db_received db' = db_received db /\ db_cache db' = db_cache db
  /\ (exists row, products (db_app db') = <[p_product_id p := row]> (products (db_app db))
                  /\ product_from_row (p_product_id p) row = p)
  /\ announced (product_event am p) (product_outbox (db_app db)) (product_outbox (db_app db')).

Lemma announce_product_Ok am cfg p db db' :
  announce_product error_text am cfg p db = (Ok tt, db') ->
  exists ob, db' = with_app db {| products := products (db_app db); product_outbox := ob |}
             /\ announced (product_event am p) (product_outbox (db_app db)) ob.
Proof.
  unfold announce_product, mbind, eff_bind, lift. rewrite product_envelope_ok. unfold map_err at 1.
  intros He%map_err_Ok. apply (enqueue_Ok (P := ProductSnapshot)) in He; [exact He|].
  unfold product_event. discriminate.
Qed.

(** The product with a new availability, one version on. *)
Definition rederived (id : uuid) (r : ProductRow) (fulfilled : Z) : ProductRecord :=
  {| p_product_id := id; p_name := pr_name r; p_price_cents := pr_price_cents r;
     p_status := product_status_from (pr_status r); p_on_hand := pr_on_hand r;
     p_available := Z.max (pr_on_hand r - fulfilled) 0; p_version := pr_version r + 1 |}.

Lemma recompute_Ok am order db mp db' :
  recompute_availability am order db = (Ok mp, db') ->
  exists fulfilled, sum_fulfilled (os_product_id order) (db_cache db) = Ok fulfilled
  /\ match products (db_app db) !! os_product_id order with
     | None => mp = None /\ db' = db
     | Some r => mp = Some (rederived (os_product_id order) r fulfilled)
         /\ exists row, db' = with_products db (<[os_product_id order := row]> (products (db_app db)))
                        /\ product_from_row (os_product_id order) row
                           = rederived (os_product_id order) r fulfilled
     end.
Proof.
  unfold recompute_availability.
  intros (n & db1 & Hs%map_err_Ok%statement_Ok & Hu%map_err_Ok%statement_Ok)%eff_bind_Ok.
  cbn beta in Hs. injection Hs as Hs <-. exists n. split; [done|]. unfold update_available in Hu.
  destruct (products (db_app db) !! os_product_id order) as [r|]; [|by injection Hu as <- <-].
  destruct (negb _ || negb _); [done|]. injection Hu as <- <-. split; [done|]. eexists. split; [done|]. done.
Qed.

Lemma republish_Ok am cfg order db db' :
  republish am cfg order db = (Ok tt, db') ->
  exists fulfilled, sum_fulfilled (os_product_id order) (db_cache db) = Ok fulfilled
  /\ match products (db_app db) !! os_product_id order with
     | None => db' = db
     | Some r => product_written am (rederived (os_product_id order) r fulfilled) db db'
     end.
Proof.
  unfold republish. intros (mp & db1 & (n & Hs & Hm)%recompute_Ok & Hk)%eff_bind_Ok.
  exists n. split; [done|]. destruct (products (db_app db) !! os_product_id order) as [r|].
  - destruct Hm as (-> & row & -> & Hrow). apply eff_bind_Ok in Hk as (env & db2 & He & Hk).
    unfold lift in He. rewrite product_envelope_ok in He. injection He as <- <-.
    apply (enqueue_Ok (P := ProductSnapshot)) in Hk as (ob & -> & Hann);
      [|unfold product_event; discriminate].
    split_and!; [done..| |exact Hann]. by exists row.
  - destruct Hm as [-> ->]. by injection Hk.
Qed.

(** The handler leaves the received table to the dispatcher, also on an error. *)
Lemma republish_received am cfg order db :
  db_received (snd (republish am cfg order db)) = db_received db.
Proof.
  unfold republish, recompute_availability, mbind, eff_bind, map_err, statement, lift.
  destruct (am_fault am "sum fulfilled orders from cache"); [done|].
  destruct (sum_fulfilled _ _) as [n|]; [|done].
  destruct (am_fault am "recompute product availability"); [done|]. unfold update_available.
  destruct (products _ !! _) as [r|]; [|done]. destruct (negb _ || negb _); [done|].
  rewrite product_envelope_ok. unfold enqueue. destruct (am_fault am "enqueue"); [done|].
  by destruct (enqueue_inner _ _ _ _ _ _).
Qed.

Lemma guarded_Ok am fs work db run db' st :
  guarded am fs work db = (run, db', st) -> run_handler run = Ok tt -> work db = (Ok tt, db').
Proof.
  unfold guarded. destruct (check _ _) as [[[[[]|e]|p] st'] fs'] eqn:Ec.
  - destruct (work db) as [[[]|e] db1]; intros [= <- <- <-]; done.
  - intros [= <- <- <-]. done.
  - intros [= <- <- <-]. done.
Qed.

Lemma guarded_received am fs work db :
  db_received (snd (work db)) = db_received db ->
  db_received (snd (fst (guarded am fs work db))) = db_received db.
Proof.
  intros Hw. unfold guarded. destruct (check _ _) as [[[[[]|e]|p] st'] fs']; [|done..].
  by destruct (work db) as [[]].
Qed.

Lemma derive_received am cfg order db :
  db_received (snd ((_ ← lift (for_message CacheKind OrderSnapshot cfg); republish am cfg order) db))
  = db_received db.
Proof.
  unfold mbind, eff_bind, lift. destruct (for_message CacheKind OrderSnapshot cfg); [|done].
  apply republish_received.
Qed.

Lemma typed_respects {P} (decode : json -> result string P)
  (f : ReceivedMeta -> P -> PDb -> HandlerRun unit * PDb * TxStatus) :
  (forall m p db, db_received (snd (fst (f m p db))) = db_received db) ->
  respects (typed_handler decode f).
Proof. intros Hf m v db. unfold typed_handler. destruct (decode v); [apply Hf|done]. Qed.

Lemma builder_handlers am cfg fs :
  handlers (builder_router am cfg fs) !! "order_snapshot"
  = Some (typed_handler order_from_value (fun _ => derive_availability am cfg fs)).
Proof. apply lookup_insert_eq. Qed.

Lemma builder_router_respects am cfg fs : router_respects (builder_router am cfg fs).
Proof.
  split; intros mt h; simpl; [|by rewrite lookup_empty].
  intros Hh. apply lookup_insert_Some in Hh as [[_ <-]|[_ Hh]]; [|by rewrite lookup_empty in Hh].
  apply typed_respects. intros m o db. apply guarded_received, derive_received.
Qed.
End effects.

(** ** One dispatched order *)

Section dispatched.
Context `{FormatLaws} `{!SnapshotFormats} `{!SnapshotLaws}.

(** What a dispatch cycle of the product service does to the cache and to the
    products: nothing, or it caches the claimed order and recomputes that
    order's product, if the service knows it, from the cache with the order in
    it. *)
Inductive cycle_effect (am : Ambience) (now : instant) (before after : PDb) : Prop :=
| effect_quiet :
    db_cache after = db_cache before -> db_app after = db_app before -> cycle_effect am now before after
| effect_applied (row : RRow) ek b w :
    row ∈ db_received before -> received_entity_key row = Ok ek -> r_payload row = order_json w ->
    db_cache after = <[ek := cache_row_of now b row]> (db_cache before) ->
    match products (db_app before) !! ow_product_id w with
    | None => db_app after = db_app before
    | Some r =>
        exists p, p = rederived (ow_product_id w) r (fulfilled_quantity (ow_product_id w) (db_cache after))
        /\ (exists row', products (db_app after) = <[ow_product_id w := row']> (products (db_app before))
                         /\ product_from_row (ow_product_id w) row' = p)
        /\ announced (product_event am p) (product_outbox (db_app before)) (product_outbox (db_app after))
    end ->
    cycle_effect am now before after.

(** The received table of the order snapshots, written by their serializer. *)
Definition order_inputs (t : Received) : Prop :=
  forall r : RRow, r ∈ t -> r_message_type r = "order_snapshot" /\ exists w, r_payload r = order_json w.

Lemma upsert_effect now schema_ desc (row : RRow) (c c' : Cache) applied :
  upsert_cache_from_received alone now schema_ desc row c = (Ok applied, c') ->
  exists ek, received_entity_key row = Ok ek
  /\ ((applied = Ignored /\ c' = c)
      \/ (applied <> Ignored /\ exists b, c' = <[ek := cache_row_of now b row]> c)).
Proof.
  destruct (table_new CacheKind schema_ desc) as [tb|e] eqn:Et.
  2: { unfold upsert_cache_from_received, mbind, eff_bind, lift. by rewrite Et. }
  destruct (received_entity_key row) as [ek|e] eqn:Ek.
  2: { unfold upsert_cache_from_received, mbind, eff_bind, lift. by rewrite Et, Ek. }
  rewrite (upsert_unfold now schema_ desc row c tb ek Et Ek), apply_row_cases. intros Hc.
  exists ek. split; [done|].
  repeat case_match; simplify_eq; first [by left|right; split; [done|by eexists]].
Qed.

Lemma encoded_insert now b (row : RRow) ek w c :
  encoded c -> r_payload row = order_json w -> encoded (<[ek := cache_row_of now b row]> c).
Proof.
  intros He Hw k r Hk. apply lookup_insert_Some in Hk as [[_ <-]|[_ Hk]]; [by exists w|by eapply He].
Qed.

Context (lost : Stmt -> bool) (commit_lands : bool) (display : Error -> string).
Context (schema_ : SqlIdentifier) (desc : MessageDescriptor) (policy : RetryPolicy)
  (wait : Z -> interval) (now due_at : instant) (locked : uuid -> bool).
Context (am : Ambience) (cfg : ResolvedConfig) (fs : FaultState).

(** One cycle of the service's dispatcher, the only one at work. *)
Definition cycle (before : PDb) : Cycle :=
  dispatch_once lost commit_lands id display schema_ desc policy wait now due_at locked
    (builder_router am cfg fs) before.

Lemma handler_effect order db run db' :
  encoded (db_cache db) ->
  derive_availability am cfg fs order db = (run, db', Active) -> run_handler run = Ok tt ->
  match products (db_app db) !! os_product_id order with
  | None => db' = db
  | Some r => product_written am (rederived (os_product_id order) r
                (fulfilled_quantity (os_product_id order) (db_cache db))) db db'
  end.
Proof.
  intros He Hd Hr. apply guarded_Ok in Hd; [|done].
  apply eff_bind_Ok in Hd as (tb & db1 & Ht & (n & Hs & Hk)%republish_Ok).
  unfold lift in Ht. destruct (for_message CacheKind OrderSnapshot cfg); [|done].
  injection Ht as <- <-. rewrite sum_fulfilled_spec in Hs by done.
  destruct (i64_range _); [|done]. by injection Hs as <-.
Qed.

Lemma cycle_effects before :
  received_inv (db_received before) -> encoded (db_cache before) -> order_inputs (db_received before) ->
  cycle_effect am now before (cy_db (cycle before)).
Proof.
  intros Hinv He Hin0. unfold cycle.
  assert (Hmt : forall r : RRow, r ∈ db_received before -> r_message_type r = "order_snapshot")
    by (intros r Hr; apply Hin0, Hr).
  assert (Hw : forall r : RRow, r ∈ db_received before -> exists w, r_payload r = order_json w)
    by (intros r Hr; apply Hin0, Hr).
  destruct (dispatch_ending lost commit_lands id display schema_ desc policy wait now due_at locked
              (builder_router am cfg fs) before Hinv (builder_router_respects am cfg fs))
    as [row tx' Hcl Hc Hdb Hrec _|Hdb _|row d e base _ _ Hb [Hca [Hap _]] _].
  2: { by apply effect_quiet; rewrite Hdb. }
  2: { apply effect_quiet; destruct Hb as [->| ->]; done. }
  destruct (claimed_open due_at locked before row Hinv Hcl) as [Hin _].
  destruct (processed_path _ _ _ _ _ _ _ _ _ _ Hc)
    as (flow & db1 & applied & c & db2 & Hbefore & Hup & Hh & Hmark).
  cbn [before_handlers builder_router handler router_new] in Hbefore. rewrite lookup_empty in Hbefore.
  destruct Hbefore as [-> ->]. cbn [tx_db] in *.
  assert (Hdb2 : db_cache (tx_db tx') = db_cache db2 /\ db_app (tx_db tx') = db_app db2)
    by (unfold on_received in Hmark; destruct (mark_received_processed _ _ _); by injection Hmark as _ <-).
  destruct Hdb2 as [Hca Hap].
  destruct (upsert_effect _ _ _ _ _ _ _ Hup) as (ek & Hek & [[-> ->]|[Hne (b & ->)]]).
  { rewrite !bool_decide_true in Hh by done. cbn [andb negb] in Hh. subst db2.
    apply effect_quiet; rewrite Hdb, ?Hca, ?Hap; by destruct before. }
  rewrite bool_decide_true, (bool_decide_false (applied = Ignored)) in Hh by done. cbn [andb negb] in Hh.
  rewrite (Hmt _ Hin), builder_handlers in Hh. destruct (Hw _ Hin) as [w Hpay].
  destruct Hh as (run & Hrun & Hok). unfold typed_handler in Hrun.
  assert (Hdec : order_from_value (r_payload (row_db row)) = Ok (order_unwire w))
    by (unfold order_from_value; by rewrite Hpay, order_reads_back).
  rewrite Hdec in Hrun. apply handler_effect in Hrun; [|by eapply encoded_insert|done].
  cbn [os_product_id order_unwire with_cache db_app db_cache] in Hrun.
  eapply (effect_applied _ _ _ _ (row_db row) ek b w); [done..| |].
  - rewrite Hdb, Hca. by destruct (products (db_app before) !! ow_product_id w);
      [destruct Hrun as (_ & -> & _)|subst db2].
  - rewrite Hdb, Hca, Hap. destruct (products (db_app before) !! ow_product_id w) as [r|]; [|by subst db2].
    destruct Hrun as (_ & -> & (row' & Hp & Hr') & Hann). eexists. split; [reflexivity|].
    split; [by exists row'|exact Hann].
Qed.
End dispatched.

(** ** The requests *)

Section requests.
Context `{Formats} `{SnapshotFormats}.
Context (sqlx_text : SqlxError -> string) (error_text : Error -> string).

Definition product_opaque (e : ProductError) : Prop := fst (product_into_response e) = 500.

Definition product_created (am : Ambience) (request : CreateProductRequest) (db : PDb)
  (r : Z * ProductRecord) (db' : PDb) : Prop :=
  let p := requested_product am request in
  r = (201, p) /\ p_name p <> "" /\ 0 <= p_price_cents p /\ 0 <= p_on_hand p
  /\ products (db_app db) !! p_product_id p = None /\ product_written am p db db'.

(** A discontinued product: as it was, or one version on with everything but
    the status kept. *)
Definition withdrawn (am : Ambience) (id : uuid) (db : PDb) (p : ProductRecord) (db' : PDb) : Prop :=
  exists r, products (db_app db) !! id = Some r
  /\ ((p = product_from_row id r /\ p_status p = Discontinued /\ db' = db)
      \/ (p = {| p_product_id := id; p_name := pr_name r; p_price_cents := pr_price_cents r;
                 p_status := Discontinued; p_on_hand := pr_on_hand r; p_available := pr_available r;
                 p_version := pr_version r + 1 |} /\ product_written am p db db')).

Lemma create_product_settled am cfg request db :
  settled am product_opaque db (product_created am request db)
    (create_product sqlx_text error_text am cfg request db).
Proof.
  unfold create_product. destruct (is_empty (trim (rq_name request))) eqn:Hn.
  { left. apply unwritten_refl. }
  destruct ((rq_on_hand request <? 0) || (rq_price_cents request <? 0)) eqn:Hz.
  { left. apply unwritten_refl. }
  apply transaction_settled; [done|]. set (p := requested_product am request).
  intros r db' ([] & db1 & Hi%map_err_Ok%statement_Ok & Hk)%eff_bind_Ok.
  apply eff_bind_Ok in Hk as ([] & db2 & (ob & -> & Hann)%announce_product_Ok & Hk).
  injection Hk as <- <-. reflect_bools. unfold insert_product in Hi.
  destruct (negb _ || negb _ || negb _ || negb _); [done|].
  destruct (products (db_app db) !! p_product_id p) eqn:Hnew; [done|]. injection Hi as <-.
  split_and!; [done| |cbn; lia..|done|].
  - unfold p. cbn. intros E. by rewrite E in Hn.
  - split_and!; [done..| |exact Hann]. eexists. split; [reflexivity|].
    unfold product_from_row, p, requested_product. cbn. f_equal.
    destruct (rq_status request) as [v|]; cbn; [by rewrite product_status_into_from|done].
Qed.

Lemma discontinue_settled am cfg id db :
  settled am product_opaque db (withdrawn am id db) (discontinue sqlx_text error_text am cfg id db).
Proof.
  apply transaction_settled; [done|]. unfold withdraw.
  intros p db' (mr & db1 & Hr%map_err_Ok%statement_Ok & Hk)%eff_bind_Ok.
  unfold select_product, gets in Hr. injection Hr as <- <-.
  apply eff_bind_Ok in Hk as (cur & db2 & Hcur & Hk).
  destruct (products (db_app db) !! id) as [r|] eqn:Hrow; [|done]. injection Hcur as <- <-.
  exists r. split; [done|].
  destruct (bool_decide_reflect (p_status (product_from_row id r) = Discontinued)) as [E|E].
  { injection Hk as <- <-. by left. }
  apply eff_bind_Ok in Hk as (u & db3 & Hu%map_err_Ok%statement_Ok & Hk).
  apply eff_bind_Ok in Hk as ([] & db4 & (ob & -> & Hann)%announce_product_Ok & Hk).
  injection Hk as <- <-. unfold update_status in Hu. rewrite Hrow in Hu.
  destruct (negb _); [done|]. injection Hu as <- <-. right. split; [done|].
  split_and!; [done..| |exact Hann]. eexists. split; [reflexivity|done].
Qed.

(** A write of the product service and its announcement are one. Whatever
    statement fails and whether or not the commit's answer arrives: a created
    product has a name, no negative number and a new id, and is stored in
    version 1 with exactly one pending announcement; a product is discontinued
    with everything but its status kept, one version on and announced, or it
    already was and nothing is written; a refused or failed request leaves
    every row as it was, except when the commit's answer alone was lost, where
    the whole write is there and the caller is told of an internal error. *)
Theorem product_write_atomic (am : Ambience) (cfg : ResolvedConfig) (request : CreateProductRequest)
  (id : uuid) (db : PDb) :
  settled am product_opaque db (product_created am request db)
    (create_product sqlx_text error_text am cfg request db)
  /\ settled am product_opaque db (withdrawn am id db) (discontinue sqlx_text error_text am cfg id db).
Proof. split; [apply create_product_settled|apply discontinue_settled]. Qed.
End requests.

(** ** Availability at all times *)

Section always.
Context `{FormatLaws} `{!SnapshotFormats} `{!SnapshotLaws}.
Context (sqlx_text : SqlxError -> string) (error_text : Error -> string).
(** The product each order is for, by the order's entity key: the order service
    never changes it. *)
Context (product_of : string -> uuid).

Definition derived_from (db : PDb) (id : uuid) (r : ProductRow) : Prop :=
  pr_available r = Z.max (pr_on_hand r - fulfilled_quantity id (db_cache db)) 0.

(** The orders the service receives. *)
Definition orders_received (t : Received) : Prop :=
  forall r : RRow, r ∈ t -> r_message_type r = "order_snapshot"
  /\ exists w, r_payload r = order_json w
     /\ forall ek, received_entity_key r = Ok ek -> ow_product_id w = product_of ek.

Definition orders_cached (c : Cache) : Prop :=
  forall ek r, c !! ek = Some r -> exists w, c_payload r = order_json w /\ ow_product_id w = product_of ek.

(** The requests, the dispatcher, and everything else that runs beside them:
    the relay and the purger on the outbox, the ingester on the received table.
    Beside the database a state has the products that were created when the cache
    already held fulfilled orders for them and that no dispatch has written
    since. *)
Definition rewritten (db db' : PDb) (id : uuid) : bool :=
  negb (bool_decide (products (db_app db') !! id = products (db_app db) !! id)).
Definition over_orders (db db' : PDb) (id : uuid) (over : list uuid) : list uuid :=
  if rewritten db db' id && negb (fulfilled_quantity id (db_cache db) =? 0) then id :: over else over.

Inductive product_step (cfg : ResolvedConfig) : PDb * list uuid -> PDb * list uuid -> Prop :=
| pstep_create am request db over :
    let db' := snd (create_product sqlx_text error_text am cfg request db) in
    product_step cfg (db, over)
      (db', over_orders db db' (p_product_id (requested_product am request)) over)
| pstep_discontinue am id db over :
    product_step cfg (db, over) (snd (discontinue sqlx_text error_text am cfg id db), over)
| pstep_dispatch lost commit_lands display schema_ desc policy wait now due_at locked am fs db over :
    received_inv (db_received db) -> orders_received (db_received db) ->
    let db' := cy_db (cycle lost commit_lands display schema_ desc policy wait now due_at
                        locked am cfg fs db) in
    product_step cfg (db, over) (db', List.filter (fun id => negb (rewritten db db' id)) over)
| pstep_rest db db' over :
    products (db_app db') = products (db_app db) -> db_cache db' = db_cache db ->
    product_step cfg (db, over) (db', over).

Record product_inv (db : PDb) (over : list uuid) : Prop := {
  pinv_cache : orders_cached (db_cache db);
  pinv_derived : forall id r, products (db_app db) !! id = Some r -> id ∉ over -> derived_from db id r;
  pinv_over : forall id, id ∈ over -> exists r, products (db_app db) !! id = Some r
                                      /\ pr_available r = pr_on_hand r;
  pinv_rows : forall id r, products (db_app db) !! id = Some r -> 0 <= pr_on_hand r /\ 1 <= pr_version r;
}.

Lemma unwritten_inv (db db' : PDb) over : unwritten db db' -> product_inv db over -> product_inv db' over.
Proof.
  intros (_ & Hc & ob & _ & Ha) [Q1 Q2 Q3 Q4].
  assert (Hp : products (db_app db') = products (db_app db)) by by rewrite Ha.
  split; unfold derived_from; rewrite ?Hc, ?Hp; [done|exact Q2|exact Q3|exact Q4].
Qed.

(** A stored product keeps the invariant when it has the availability its place
    asks for. *)
Lemma written_inv am (p : ProductRecord) (db db' : PDb) over over' :
  product_written am p db db' -> product_inv db over ->
  (forall id, id <> p_product_id p -> id ∈ over' <-> id ∈ over) ->
  (p_product_id p ∉ over' ->
   p_available p = Z.max (p_on_hand p - fulfilled_quantity (p_product_id p) (db_cache db)) 0) ->
  (p_product_id p ∈ over' -> p_available p = p_on_hand p) ->
  0 <= p_on_hand p -> 1 <= p_version p -> product_inv db' over'.
Proof.
  intros (_ & Hc & (row & Hp & Hrow) & _) [Q1 Q2 Q3 Q4] Hover Hav Hov Hon Hv.
  split; unfold derived_from; rewrite ?Hc, ?Hp; [done|..].
  - intros id r [[<- <-]|[Hne Hr]]%lookup_insert_Some Hno.
    + specialize (Hav Hno). rewrite <- Hrow in *. done.
    + apply Q2; [done|]. rewrite <- Hover; [done|congruence].
  - intros id Hid. destruct (decide (id = p_product_id p)) as [->|Hne].
    + specialize (Hov Hid). rewrite lookup_insert_eq. eexists. split; [done|]. rewrite <- Hrow in Hov. done.
    + rewrite lookup_insert_ne by congruence. apply Q3. by apply Hover.
  - intros id r [[<- <-]|[_ Hr]]%lookup_insert_Some; [|by apply (Q4 id)].
    rewrite <- Hrow in *. done.
Qed.

Lemma create_inv am cfg request db over :
  let db' := snd (create_product sqlx_text error_text am cfg request db) in
  product_inv db over ->
  product_inv db' (over_orders db db' (p_product_id (requested_product am request)) over).
Proof.
  intros db' Hi. unfold over_orders.
  destruct (settled_effect am product_opaque db _ _ (fun db' => exists r, product_created am request db r db')
              (create_product_settled sqlx_text error_text am cfg request db)) as [Hu|(r & Hw)].
  - intros a x Ha. right. by exists a.
  - assert (rewritten db db' (p_product_id (requested_product am request)) = false) as ->.
    { unfold rewritten. rewrite bool_decide_true; [done|]. destruct Hu as (_ & _ & ob & _ & Ha). unfold db'. by rewrite Ha. }
    by eapply unwritten_inv.
  - destruct Hw as (_ & _ & _ & Hon & Hnew & Hw).
    assert (Hno : p_product_id (requested_product am request) ∉ over).
    { intros (r' & Hr' & _)%(pinv_over _ _ Hi). congruence. }
    assert (rewritten db db' (p_product_id (requested_product am request)) = true) as ->.
    { unfold rewritten. rewrite bool_decide_false; [done|]. rewrite Hnew.
      pose proof Hw as (_ & _ & (row & Hp & _) & _). fold db' in Hp. by rewrite Hp, lookup_insert_eq. }
    cbn [andb]. destruct (Z.eqb_spec (fulfilled_quantity (p_product_id (requested_product am request)) (db_cache db)) 0)
      as [Hz|Hz]; cbn [negb]; eapply written_inv; try exact Hw; try exact Hi; try done; try (cbn; lia).
    + intros _. rewrite Hz. cbn in *. lia.
    + intros id Hne. rewrite elem_of_cons. naive_solver.
    + intros Hnot. destruct Hnot. left.
Qed.

Lemma discontinue_inv am cfg id db over :
  product_inv db over -> product_inv (snd (discontinue sqlx_text error_text am cfg id db)) over.
Proof.
  intros Hi.
  destruct (settled_effect am product_opaque db _ _
              (fun db' => exists r p, products (db_app db) !! id = Some r /\ product_written am p db db'
                 /\ p_product_id p = id /\ p_on_hand p = pr_on_hand r /\ p_available p = pr_available r
                 /\ p_version p = pr_version r + 1)
              (discontinue_settled sqlx_text error_text am cfg id db)) as [Hu|(r & p & Hr & Hw & <- & Ho & Ha & Hv)].
  - intros p db' (r & Hr & [(_ & _ & ->)|(-> & Hw)]); [by left|]. right. by eexists r, _.
  - by eapply unwritten_inv.
  - destruct (pinv_rows _ _ Hi _ _ Hr).
    eapply written_inv; [done|done|done| | |lia..]; rewrite Ha, Ho.
    + intros Hno. by apply (pinv_derived _ _ Hi _ _ Hr).
    + intros (r' & Hr' & Hav)%(pinv_over _ _ Hi). congruence.
Qed.

Lemma dispatch_inv lost commit_lands display schema_ desc policy wait now due_at locked am cfg fs db over :
  let db' := cy_db (cycle lost commit_lands display schema_ desc policy wait now due_at locked am cfg fs db) in
  received_inv (db_received db) -> orders_received (db_received db) -> product_inv db over ->
  product_inv db' (List.filter (fun id => negb (rewritten db db' id)) over).
Proof.
  intros db' Hri Hor Hi. pose proof Hi as [Q1 Q2 Q3 Q4].
  assert (He : encoded (db_cache db)) by (intros ek r Hr; destruct (Q1 _ _ Hr) as (w & ? & _); by exists w).
  assert (Hin : order_inputs (db_received db))
    by (intros r Hr; destruct (Hor _ Hr) as (? & w & ? & _); split; [done|by exists w]).
  assert (Hkeep : forall id, id ∈ List.filter (fun id => negb (rewritten db db' id)) over <->
    id ∈ over /\ products (db_app db') !! id = products (db_app db) !! id).
  { intros id. rewrite elem_of_sfilter. unfold rewritten. by rewrite negb_involutive, bool_decide_eq_true. }
  assert (Hover : forall id, id ∈ List.filter (fun id => negb (rewritten db db' id)) over ->
    exists r, products (db_app db') !! id = Some r /\ pr_available r = pr_on_hand r).
  { intros id [Hid ->]%Hkeep. by apply Q3. }
  destruct (cycle_effects lost commit_lands display schema_ desc policy wait now due_at locked am cfg fs
              db Hri He Hin) as [Hc Ha|row ek b w Hr Hek Hpay Hc Hp].
  { fold db' in Hc, Ha. split; [by rewrite Hc| |done|by rewrite Ha].
    intros id r Hid Hno. unfold derived_from. rewrite Ha in Hid. rewrite Hc. apply Q2; [done|].
    intros Hov. apply Hno, Hkeep. by rewrite Ha. }
  fold db' in Hc, Hp. destruct (Hor _ Hr) as (_ & w' & Hpay' & Hprod).
  assert (Hw : forall pid, pid <> ow_product_id w -> fulfils pid (cache_row_of now b row) = 0).
  { intros pid Hne. by apply (fulfils_other pid (cache_row_of now b row) w Hpay). }
  assert (Hsame : ow_product_id w = product_of ek).
  { rewrite <- (Hprod ek Hek). rewrite Hpay in Hpay'.
    assert (E : order_of_json (order_json w) = order_of_json (order_json w')) by by rewrite Hpay'.
    rewrite !order_reads_back in E. by injection E as ->. }
  assert (Hother : forall pid, pid <> ow_product_id w ->
            fulfilled_quantity pid (db_cache db') = fulfilled_quantity pid (db_cache db)).
  { intros pid Hne. rewrite Hc. apply fulfilled_other; [by apply Hw|]. intros cur Hcur.
    destruct (Q1 _ _ Hcur) as (v & Hv & Hpv). apply (fulfils_other pid cur v Hv). congruence. }
  assert (Hrest : forall pid r, pid <> ow_product_id w -> products (db_app db') !! pid = Some r ->
    products (db_app db') !! pid = products (db_app db) !! pid ->
    pid ∉ List.filter (fun id => negb (rewritten db db' id)) over -> derived_from db' pid r).
  { intros pid r Hne Hk Heq Hno. unfold derived_from. rewrite Hother by done. apply Q2; [congruence|].
    intros Hov. by apply Hno, Hkeep. }
  split; [|..|done|].
  - rewrite Hc. intros k r [[<- <-]|[_ Hk]]%lookup_insert_Some; [by exists w|by apply Q1].
  - intros pid r. destruct (products (db_app db) !! ow_product_id w) as [r0|] eqn:Hr0.
    + destruct Hp as (p & Ep & (row' & Hpr & Hrow) & _). intros Hk Hno.
      destruct (decide (pid = ow_product_id w)) as [->|Hne].
      * rewrite Hpr, lookup_insert_eq in Hk. injection Hk as <-. unfold derived_from.
        rewrite Ep in Hrow. by injection Hrow as _ _ _ -> -> _.
      * apply Hrest; [done..|by rewrite Hpr, lookup_insert_ne by done|done].
    + intros Hk Hno. apply Hrest; [|done|by rewrite Hp|done]. rewrite Hp in Hk. congruence.
  - intros pid r. destruct (products (db_app db) !! ow_product_id w) as [r0|] eqn:Hr0.
    + destruct Hp as (p & Ep & (row' & -> & Hrow) & _).
      intros [[<- <-]|[Hne Hk]]%lookup_insert_Some; [|by apply (Q4 pid)].
      destruct (Q4 _ _ Hr0). rewrite Ep in Hrow. injection Hrow as _ _ _ -> _ ->. lia.
    + rewrite Hp. apply Q4.
Qed.

(** C10. Availability is derived. From a service that starts empty, with one
    dispatcher and orders that keep their product, after any requests, any
    dispatch cycles (retried, redelivered, failed, rolled back, with faults
    injected or connections lost) and any work of the ingester and the relay
    between them: every product's availability is its stock on hand less the
    quantities of the orders the cache holds as fulfilled for it, and never below
    zero, so nothing is counted twice and an order that is cancelled after it was
    fulfilled gives its quantity back; except for a product that was created when
    the cache already held fulfilled orders for it, whose whole stock is
    available until a dispatch writes it. *)
Theorem availability_derived (cfg : ResolvedConfig) (db0 db : PDb) (over : list uuid)
  (Hp0 : products (db_app db0) = ∅) (Hc0 : db_cache db0 = ∅)
  (Hsteps : rtc (product_step cfg) (db0, []) (db, over)) (id : uuid) (r : ProductRow)
  (Hr : products (db_app db) !! id = Some r) :
  pr_available r = if bool_decide (id ∈ over) then pr_on_hand r
                   else Z.max (pr_on_hand r - fulfilled_quantity id (db_cache db)) 0.
Proof.
  assert (Hi : product_inv db0 [])
    by (split; [intros ? ?; rewrite ?Hc0, lookup_empty; done|intros ? ?; rewrite Hp0, lookup_empty; done
               |by intros ? ?%elem_of_nil|intros ? ?; rewrite Hp0, lookup_empty; done]).
  enough (product_inv db over) as [_ Q2 Q3 _].
  { case_bool_decide as Ho; [|by apply Q2]. destruct (Q3 _ Ho) as (r' & Hr' & Hav). congruence. }
  change (product_inv (db, over).1 (db, over).2). clear Hr Hp0 Hc0.
  remember (db0, [] : list uuid) as st eqn:E. assert (Hst : product_inv st.1 st.2) by (by subst).
  clear E Hi. revert Hst Hsteps. generalize (db, over). intros st' Hi Hsteps.
  induction Hsteps as [|a b c Hab _ IH]; [done|]. apply IH.
  destruct Hab as [am request a o|am i a o|????????????? o Hri Hor|a b o Hp Hc]; cbn [fst snd] in *.
  - by apply create_inv.
  - by apply discontinue_inv.
  - by apply dispatch_inv.
  - destruct Hi as [R1 R2 R3 R4]. split; unfold derived_from; rewrite ?Hc, ?Hp; done.
Qed.
End always.

(** ** Injected faults *)

(** The problem type each live mode is documented to produce. *)
Definition mode_problem (m : FaultMode) : string :=
  match m with
  | FOff | FError => HANDLER
  | FPanic => HANDLER_PANICKED
  | FConstraint => CONSTRAINT
  | FContention => CONTENTION
  | FStatement => STATEMENT
  end.

(** An armed switch makes the handler fail before it touched anything, with an
    error of its mode's class, and leaves the connection open. *)
Lemma check_armed fs :
  f_mode fs <> FOff ->
  exists out st fs' e, check None fs = (out, st, fs') /\ st <> LostTx
  /\ run_handler (finished out) = Err e /\ problem_type e = mode_problem (f_mode fs)
  /\ is_handler_panic (HandlerFailure e) = bool_decide (f_mode fs = FPanic)
  /\ (forall x, out <> Returned (Ok x)).
Proof.
  intros Hm. unfold check, claim_fault. rewrite bool_decide_false by done.
  destruct (f_mode fs) eqn:E; [done|..]; cbn [sqlstate raise_sqlstate];
    rewrite ?(bool_decide_true (FPanic = FPanic)) by done;
    repeat rewrite bool_decide_false by done; cbn [negb];
    eexists _, _, _, _; (split; [reflexivity|]); split_and!; try done.
Qed.

Section faulty.
Context `{Formats} `{SnapshotFormats}.
Context (commit_lands : bool) (display : Error -> string).
Context (schema_ : SqlIdentifier) (desc : MessageDescriptor) (policy : RetryPolicy)
  (wait : Z -> interval) (now due_at : instant) (locked : uuid -> bool).
Context (am : Ambience) (cfg : ResolvedConfig) (fs : FaultState).

(** C21. An armed fault is a clean failure. While the network holds, a cycle
    whose order would have been applied fails instead, in the handler, with an
    error of the problem type its mode documents (a panic is also counted and
    named); the row carries the failure under its retry schedule; and the
    cache, the products and the outbox are those of before. *)
Theorem injected_fault_recorded (before : PDb) (row : ReceivedRow) (o : OrderSnapshot)
  (applied : CacheApplyOutcome) (c : Cache)
  (Hinv : received_inv (db_received before))
  (Hcl : claim_received_row locked due_at (db_received before) = Ok (Some row))
  (Hatt : r_attempts (row_db row) < i32_max)
  (Hmt : r_message_type (row_db row) = "order_snapshot")
  (Hdec : order_from_value (r_payload (row_db row)) = Ok o)
  (Hup : upsert_cache_from_received alone now schema_ desc (row_db row) (db_cache before) = (Ok applied, c))
  (Hnew : applied <> Ignored) (Hraise : am_fault am "raise" = None) (Harmed : f_mode fs <> FOff) :
  exists e, problem_type e = mode_problem (f_mode fs)
  /\ cycle (fun _ => false) commit_lands display schema_ desc policy wait now due_at locked am cfg fs before
     = ends {| ds_claimed := 1; ds_processed := 0; ds_failed := 1;
               ds_panicked := if bool_decide (f_mode fs = FPanic) then 1 else 0;
               ds_panicked_message_id :=
                 if bool_decide (f_mode fs = FPanic) then Some (rrow_id (row_db row)) else None |}
         {| db_received := sql_update (has_id (rrow_id (row_db row)))
                             (failure_row display policy wait due_at (HandlerFailure e) row)
                             (db_received before);
            db_cache := db_cache before; db_app := db_app before |} (Some SavepointPath).
Proof.
  destruct (check_armed fs Harmed) as (out & st & fs' & e & Hck & Hst & Hrun & Hpt & Hpan & Hout).
  exists e. split; [done|]. rewrite <- Hpan. unfold cycle.
  eapply (failure_cycle (fun _ => false) commit_lands id display schema_ desc policy wait now due_at locked
            (builder_router am cfg fs) before row (HandlerFailure e)); [done..| | |].
  - unfold routes. rewrite Hmt, builder_handlers. done.
  - unfold converge_and_dispatch, mbind, eff_bind, bookkeeping.
    cbn [before_handlers builder_router handler router_new]. rewrite lookup_empty.
    unfold exec at 1. cbn [tx_status tx_db mret eff_ret]. unfold on_cache. cbn [db_cache].
    rewrite Hup. rewrite bool_decide_true, (bool_decide_false (applied = Ignored)) by done.
    cbn [andb negb]. rewrite Hmt, builder_handlers. unfold call, typed_handler. rewrite Hdec. unfold derive_availability, guarded.
    rewrite Hraise, Hck.
    destruct out as [[x|x]|p]; [by destruct (Hout x)|..]; rewrite Hrun; reflexivity.
  - done.
Qed.
End faulty.

(** ** Two dispatchers *)

Section race.
Context `{FormatLaws} `{!SnapshotFormats} `{!SnapshotLaws}.

(** Two dispatch transactions of one product, side by side under [READ
    COMMITTED]. Each has upserted its own order and sums the committed cache
    with that row alone; the first then updates the product and commits; the
    update of the second, which waited for the row lock, runs on the row the
    first left, with the sum it already has; both orders are then cached. *)
Definition interleaved (am1 am2 : Ambience) (product_id : uuid) (a b : string * CacheRow) (db : PDb)
  : result SqlxError PDb :=
  sum_a ← sum_fulfilled product_id (<[a.1 := a.2]> (db_cache db));
  sum_b ← sum_fulfilled product_id (<[b.1 := b.2]> (db_cache db));
  match update_available am1 product_id sum_a db with
  | (Err e, _) => Err e
  | (Ok _, db1) =>
      match update_available am2 product_id sum_b db1 with
      | (Err e, _) => Err e
      | (Ok _, db2) => Ok (with_cache db2 (<[b.1 := b.2]> (<[a.1 := a.2]> (db_cache db))))
      end
  end.

(** C38. Recomputing is not enough when two dispatchers share the table. The
    sum is taken before the product row is locked, so of two orders for one
    product dispatched side by side the second to update writes a value that
    misses the first: its availability is higher than the stock less what the
    cache holds as fulfilled, by the whole quantity of the other order while
    the stock covers both, and stays so until a further order for the product
    is dispatched. *)
Theorem concurrent_dispatch_stale (am1 am2 : Ambience) (product_id : uuid) (a b : string * CacheRow)
  (wa : OrderWire) (db db' : PDb) (r : ProductRow)
  (Hrun : interleaved am1 am2 product_id a b db = Ok db')
  (Henc : encoded (<[b.1 := b.2]> (<[a.1 := a.2]> (db_cache db))))
  (Hdist : a.1 <> b.1) (Ha : db_cache db !! a.1 = None)
  (Hwa : c_payload a.2 = order_json wa) (Hlive : c_deleted a.2 = false)
  (Hpa : ow_product_id wa = product_id) (Hsa : ow_status wa = "Fulfilled") (Hqa : 0 < ow_quantity wa)
  (Hr : products (db_app db) !! product_id = Some r)
  (Hstock : fulfilled_quantity product_id (db_cache db') <= pr_on_hand r) :
  exists r', products (db_app db') !! product_id = Some r' /\ pr_on_hand r' = pr_on_hand r
  /\ pr_available r' = pr_on_hand r' - fulfilled_quantity product_id (db_cache db') + ow_quantity wa.
Proof.
  assert (Hfa : fulfils product_id a.2 = ow_quantity wa).
  { rewrite (fulfilled_row_spec product_id _ wa Hwa). unfold fulfilled_row.
    rewrite Hwa, Hlive, order_product_text, order_status_text, Hpa, Hsa. cbn [sql_eq negb andb].
    by rewrite !bool_decide_true. }
  assert (Hb : db_cache db !! a.1 = None /\ encoded (<[b.1 := b.2]> (db_cache db))).
  { split; [done|]. intros k x Hk. apply (Henc k).
    apply lookup_insert_Some in Hk as [[<- <-]|[Hne Hk]]; [apply lookup_insert_eq|].
    rewrite !lookup_insert_ne; [done| |done]. intros <-. congruence. }
  destruct Hb as [_ Hencb]. unfold interleaved in Hrun.
  apply bind_Ok in Hrun as (sa & _ & Hrun). apply bind_Ok in Hrun as (sb & Hsb & Hrun).
  rewrite sum_fulfilled_spec in Hsb by done. destruct (i64_range _); [|done]. injection Hsb as <-.
  unfold update_available in Hrun at 1. rewrite Hr in Hrun.
  destruct (negb _ || negb _); [done|]. unfold update_available in Hrun.
  cbn [with_products with_app db_app products] in Hrun. rewrite lookup_insert_eq in Hrun.
  destruct (negb _ || negb _); [done|]. injection Hrun as <-.
  cbn [with_cache with_products with_app db_app db_cache products] in *.
  eexists. split; [apply lookup_insert_eq|]. cbn. split; [done|].
  assert (Hsum : fulfilled_quantity product_id (<[b.1 := b.2]> (<[a.1 := a.2]> (db_cache db)))
                 = ow_quantity wa + fulfilled_quantity product_id (<[b.1 := b.2]> (db_cache db))).
  { rewrite insert_insert_ne by done. rewrite fulfilled_insert, Hfa, delete_id; [done|].
    by rewrite lookup_insert_ne. }
  rewrite Hsum in *. lia.
Qed.
End race.

(** ** The two registrations *)

(** Where the order type is registered, the handler of [dispatch_router] and
    the one the builder registers are the same function. *)
Theorem registrations_agree `{Formats} `{SnapshotFormats} (am : Ambience) (cfg : ResolvedConfig)
  (fs : FaultState) (router : @MessageRouter ProductApp)
  (Hrouter : dispatch_router am cfg fs = Ok router) :
  before_handlers router = before_handlers (builder_router am cfg fs)
  /\ dom (handlers router) = dom (handlers (builder_router am cfg fs))
  /\ forall mt h h', handlers router !! mt = Some h -> handlers (builder_router am cfg fs) !! mt = Some h' ->
       forall meta v db, h meta v db = h' meta v db.
Proof.
  unfold dispatch_router in Hrouter. destruct (for_message CacheKind OrderSnapshot cfg) as [tb|] eqn:Ht; [|done].
  injection Hrouter as <-. split_and!; [done| |].
  - unfold builder_router, handler. cbn [handlers router_new]. by rewrite !dom_insert_L.
  - intros mt h h'. unfold builder_router, handler. cbn [handlers router_new].
    intros [[_ <-]|[_ Hx]]%lookup_insert_Some [[_ <-]|[Hne Hy]]%lookup_insert_Some;
      rewrite ?lookup_empty in *; try done.
    intros meta v db. unfold typed_handler. destruct (order_from_value v) as [o|]; [|done].
    unfold apply_order_snapshot, derive_availability, guarded, mbind, eff_bind, lift. by rewrite Ht.
Qed.

(** A product created under an id the cache already holds fulfilled orders for
    starts with its whole stock available, not with the derived value. *)
Theorem created_over_cached_orders `{Formats} `{SnapshotFormats} (sqlx_text : SqlxError -> string)
  (error_text : Error -> string) (am : Ambience) (cfg : ResolvedConfig)
  (request : CreateProductRequest) (db db' : PDb) (p : ProductRecord)
  (Hdone : create_product sqlx_text error_text am cfg request db = (Ok (201, p), db'))
  (Hstock : 0 < p_on_hand p) (Hcached : 0 < fulfilled_quantity (p_product_id p) (db_cache db)) :
  db_cache db' = db_cache db
  /\ p_available p <> Z.max (p_on_hand p - fulfilled_quantity (p_product_id p) (db_cache db')) 0.
Proof.
  pose proof (create_product_settled sqlx_text error_text am cfg request db) as Hs.
  rewrite Hdone in Hs. destruct Hs as ([= ->] & _ & _ & _ & _ & _ & Hc & _). rewrite Hc.
  split; [done|]. cbn in *. lia.
Qed.

(** ** The model evaluated *)

Module PSample.
#[export] Existing Instance WSample.formats.
#[export] Existing Instance WSample.format_laws.
#[export] Existing Instance CoSample.snapshot_formats.
#[export] Existing Instance CoSample.snapshot_laws.

Definition describe (mt topic : string) : MessageDescriptor :=
  {| Registry.message_type := mt; desc_topic := topic; topic_spec := compacted |}.
Definition cfg : ResolvedConfig := {|
  schema := "shop"; topic_prefix := "";
  messages := [describe "product_snapshot" "products"; describe "order_snapshot" "orders"] |}.

Definition am (now : instant) (mid : uuid) : Ambience :=
  {| am_fault := fun _ => None; am_lands := true; am_clock := now; am_occurred_at := now;
     am_ids := (mid, mid); am_new_id := 1; am_trace := None |}.
Definition text (e : SqlxError) : string := "driver error".
Definition etext (e : Error) : string := "error".

Definition lamp : CreateProductRequest :=
  {| rq_product_id := Some 2%N; rq_name := " lamp "; rq_price_cents := 900; rq_on_hand := 10;
     rq_status := None |}.

(** States of order 1 for product 2, at successive offsets. *)
Definition state (o : uuid) (q : Z) (status : string) : OrderWire :=
  {| ow_order_id := o; ow_product_id := 2; ow_quantity := q; ow_status := status |}.
Definition arrived (mid : uuid) (key offset : Z) (w : OrderWire) : RRow :=
  fresh_row
    {| r_message_id := mid; r_idempotency_key := RSample.hex key; r_idempotency_source := None;
       r_source_topic := "orders"; r_source_partition := 0; r_source_offset := offset;
       r_key := Some (uuid_to_string (ow_order_id w)); r_entity_key := None;
       r_message_type := "order_snapshot"; r_message_version := 1; r_headers := ∅;
       r_payload := order_json w; r_correlation_id := None; r_causation_id := None;
       r_traceparent := None; r_tracestate := None; r_occurred_at := 0; r_created_at := offset |}.
Definition inbox : Received := [arrived 11 1 5 (state 1 3 "Fulfilled"); arrived 12 2 6 (state 1 3 "Cancelled")].

Definition db0 : PDb :=
  {| db_received := inbox; db_cache := ∅; db_app := {| products := ∅; product_outbox := empty_outbox |} |}.

Abbreviation create am request db := (create_product text etext am cfg request db).
Abbreviation dispatch now am fs db :=
  (cycle (fun _ => false) true etext "shop" (describe "order_snapshot" "orders") retry_default (fun _ => 5)
     now now (fun _ => false) am cfg fs db).

Definition db1 : PDb := snd (create (am 10 100) lamp db0).
Definition db2 : PDb := cy_db (dispatch 20 (am 20 101) fault_state_new db1).
Definition db3 : PDb := cy_db (dispatch 30 (am 30 102) fault_state_new db2).

Definition available (db : PDb) : option Z := pr_available <$> products (db_app db) !! 2%N.

(** Three of ten units go with the fulfilled order and come back with its
    cancellation, and each value was announced. *)
Example product_runs :
  (available db1, available db2, available db3) = (Some 10, Some 7, Some 10)
  /\ map (fun r : DbRow => product_from_value (payload r)) (rows (product_outbox (db_app db2)))
     = map (fun a => Ok {| ps_product_id := 2; ps_name := "lamp"; ps_price_cents := 900;
                           ps_status := Available; ps_available := a |}) [10; 7].
Proof. vm_compute. done. Qed.

Definition armed : FaultState := snd (arm {| ar_mode := FContention; ar_remaining := Some 1 |} fault_state_new).
Definition claimed : ReceivedRow :=
  {| row_db := arrived 11 1 5 (state 1 3 "Fulfilled"); row_key := repeat 1 32; row_status := RPending;
     row_trace := None |}.

Lemma inbox_inv : received_inv inbox.
Proof.
  split; [by apply (bool_decide_unpack _); vm_compute|by apply (bool_decide_unpack _); vm_compute|].
  apply Forall_forall. repeat constructor.
Qed.

Definition product_of : string -> uuid := fun _ => 2%N.

Lemma inbox_orders : orders_received product_of inbox.
Proof.
  refine (proj1 (Forall_forall _ _) _).
  repeat constructor; (eexists; split; [reflexivity|]; done).
Qed.

(** A second order, racing the first. *)
Definition cached (w : OrderWire) (offset : Z) : string * CacheRow :=
  (uuid_to_string (ow_order_id w),
   {| c_payload := order_json w; applied_topic := "orders"; applied_partition := 0;
      applied_offset := offset; c_deleted := false; c_updated_at := 0 |}).
Definition order_a := cached (state 1 3 "Fulfilled") 5.
Definition order_b := cached (state 4 5 "Fulfilled") 6.
End PSample.

Import PSample.

Lemma availability_derived_witness :
  exists r, products (db_app db2) !! 2%N = Some r
  /\ pr_available r = Z.max (pr_on_hand r - fulfilled_quantity 2%N (db_cache db2)) 0 /\ pr_available r = 7.
Proof.
  eexists. split; [vm_compute; reflexivity|]. split; [|reflexivity].
  refine (availability_derived text etext product_of cfg db0 db2 [] eq_refl eq_refl _ 2%N _ eq_refl).
  eapply rtc_l; [apply (pstep_create text etext product_of cfg (am 10 100) lamp db0 [])|].
  eapply rtc_l; [|apply rtc_refl].
  apply (pstep_dispatch text etext product_of cfg (fun _ => false) true etext "shop"
           (describe "order_snapshot" "orders") retry_default (fun _ => 5) 20 20 (fun _ => false)
           (am 20 101) fault_state_new db1 []); [exact inbox_inv|exact inbox_orders].
Defined.

Lemma injected_fault_recorded_witness :
  exists e db, problem_type e = CONTENTION
  /\ dispatch 20 (am 20 101) armed db1
     = ends {| ds_claimed := 1; ds_processed := 0; ds_failed := 1; ds_panicked := 0;
               ds_panicked_message_id := None |} db (Some SavepointPath)
  /\ db_app db = db_app db1.
Proof.
  edestruct (injected_fault_recorded true etext "shop" (describe "order_snapshot" "orders") retry_default
    (fun _ => 5) 20 20 (fun _ => false) (am 20 101) cfg armed db1 claimed
    (order_unwire (state 1 3 "Fulfilled"))) as (e & Hp & Hc).
  - exact inbox_inv.
  - vm_compute. reflexivity.
  - vm_compute. reflexivity.
  - reflexivity.
  - vm_compute. reflexivity.
  - vm_compute. reflexivity.
  - discriminate.
  - reflexivity.
  - discriminate.
  - exists e. eexists. split; [exact Hp|]. split; [exact Hc|reflexivity].
Defined.

Lemma concurrent_dispatch_stale_witness :
  exists db' r', interleaved (am 20 101) (am 21 102) 2%N order_a order_b db1 = Ok db'
  /\ products (db_app db') !! 2%N = Some r' /\ pr_available r' = 5
  /\ pr_available r' = pr_on_hand r' - fulfilled_quantity 2%N (db_cache db') + 3
  /\ fulfilled_quantity 2%N (db_cache db') = 8.
Proof.
  eexists. edestruct (concurrent_dispatch_stale (am 20 101) (am 21 102) 2%N order_a order_b
    (state 1 3 "Fulfilled") db1) as (r' & Hr' & Ho & Ha).
  - vm_compute. reflexivity.
  - intros k x [[_ <-]|[_ Hx]]%lookup_insert_Some; [by eexists|].
    apply lookup_insert_Some in Hx as [[_ <-]|[_ Hx]]; [by eexists|]. by vm_compute in Hx.
  - vm_compute. discriminate.
  - vm_compute. reflexivity.
  - reflexivity.
  - reflexivity.
  - reflexivity.
  - reflexivity.
  - reflexivity.
  - vm_compute. reflexivity.
  - vm_compute. discriminate.
  - exists r'. split; [vm_compute; reflexivity|]. split; [exact Hr'|].
    vm_compute in Hr'. injection Hr' as <-. split_and!; [reflexivity|exact Ha|vm_compute; reflexivity].
Defined.
