(* ===== verification/ServiceBoot.v ===== *)
(** * ServiceBoot: how the example services start

    Models [src/examples/order/src/service.rs], [src/examples/product/src/service.rs],
    [service_manual.rs], [boot.rs] and the role declarations of [bin/worker.rs]:
    the services as chains of calls on the runtime builder, and the product
    service assembled by hand from the same primitives, with its hand-numbered
    changelog and its own supervision.

    The environment of a boot is that of [Runtime]: the broker, the database,
    the configuration and what may fail on the way. *)

From S2P Require Import Prelude Text Vocabulary Trace Identity Topics Registry Retry Outbox Lifecycle.
From S2P Require Import Relay Received Cache Dispatch Worker Wire Ingest Schema Changelog Migrations Roles Config.
From S2P Require Import Operability QueueMetrics Admin TopicBoot Supervisor Runtime.
From S2P Require Import Contracts WriteTx OrderService Faults ProductService.
Open Scope string_scope.
Open Scope list_scope.
Open Scope Z_scope.

Record ServiceOptions := {
  so_database_url : string;
  so_brokers : string;
  so_bind : string;
  so_consumer_group : string;
  so_config : option Config;
}.

Inductive BootMode := BuilderBoot | ManualBoot.

(** What stops a boot. *)
Inductive BootError :=
| BootConfig (e : Error)
| BootTransport (e : RdError)
| BootTopics (e : RdError)
| BootDatabase (e : SqlxError)
| BootMigrate (e : Error)
| BootTable (e : Error)
| BootBind (text : string)
| BootBuild (e : BuildError).

Definition or_boot {E A} (f : E -> BootError) (r : result E A) : result BootError A := Runtime.map_err f r.

(** ** The services as declarations *)

Section declared.
Context `{Formats} `{SnapshotFormats}.

Definition wired_builder {App} (options : ServiceOptions) : RuntimeBuilder App :=
  set_consumer_group (so_consumer_group options) (set_brokers (so_brokers options) (set_pool 10 builder_new)).

(** The configuration is left unset when absent, so that [build] reports it. *)
Definition configured {App} (options : ServiceOptions) (b : RuntimeBuilder App) : RuntimeBuilder App :=
  match so_config options with Some c => set_config c b | None => b end.

Definition order_service (options : ServiceOptions) : RuntimeBuilder OrderApp :=
  configured options
    (cache ProductSnapshot product_from_value (publish OrderSnapshot (wired_builder options))).

(** The handler the builder registers, on the configuration it resolved. *)
Definition order_handler (am : Ambience) (fs : FaultState) (cfg : Resolved) : @Dispatch.Handler ProductApp unit :=
  typed_handler order_from_value (fun _ => derive_availability am (base cfg) fs).

Definition product_service (am : Ambience) (fs : FaultState) (options : ServiceOptions)
  : RuntimeBuilder ProductApp :=
  configured options
    (handle OrderSnapshot (order_handler am fs) (publish ProductSnapshot (wired_builder options))).

(** The no-HTTP worker: the same roles, the pipeline's loops. *)
Definition product_worker (am : Ambience) (fs : FaultState) (options : ServiceOptions)
  : RuntimeBuilder ProductApp :=
  configured options
    (handle OrderSnapshot (order_handler am fs)
       (publish ProductSnapshot (set_subsystems PIPELINE (wired_builder options)))).

(** ** The product service by hand *)

(** The hand-numbered changelog. *)
Definition manual_changelog : result Error (list LibraryChangeset) :=
  product ← lift_core (descriptor_of ProductSnapshot);
  order ← lift_core (descriptor_of OrderSnapshot);
  let cl := [InitSchema; CreateOutboxTable 2 product; CreateReceivedTable 3 order;
             CreateCacheTable 4 order; AddOutboxEnqueueOrder 5 product] in
  _ ← assert_changelog_order (D := unit) (map lib_changeset cl);
  Ok cl.

Definition BUSINESS_TABLE := "products".

Section boot.
Context {B Catalog : Type} `{Sha256} `{Decoders} `{Texts} `{AdminClient B}.
Context (exec : string -> Catalog -> result SqlxError Catalog).
Context (config_text : ConfigError -> string) (open_admin : string -> result RdError unit).
Context (worker : string) (prefix_env : option string) (env_context : MigrationContext) (w : Weather).
(** Connecting the pool, the clients, the subscription and the listener. *)
Context (connect : string -> result SqlxError unit)
  (open_publisher : string -> result RdError unit)
  (open_consumer : string -> string -> result RdError unit)
  (subscribe : string -> result RdError unit) (bind : string -> result string string).
Context (am : Ambience) (fs : FaultState) (options : ServiceOptions).

Abbreviation world := (B * Migrations.Db Catalog)%type (only parsing).

(** [ensure_business_schema]: [CREATE TABLE IF NOT EXISTS]. *)
Definition ensure_business_schema (db : Migrations.Db Catalog)
  : result BootError unit * Migrations.Db Catalog :=
  match exec BUSINESS_TABLE (catalog db) with
  | Err e => (Err (BootDatabase e), db)
  | Ok c => (Ok tt, {| has_schema := has_schema db; history := history db;
                       has_ingest_failures := has_ingest_failures db; catalog := c |})
  end.

(** [PgPoolOptions::connect] and the business schema. *)
Definition open_database (db : Migrations.Db Catalog) : result BootError unit * Migrations.Db Catalog :=
  match connect (so_database_url options) with
  | Err e => (Err (BootDatabase e), db)
  | Ok _ => ensure_business_schema db
  end.

(** A service wired by hand: its configuration, loops, router and address. *)
Record ManualService := {
  ms_config : Resolved;
  ms_loops : list LoopBody;
  ms_router : @MessageRouter ProductApp;
  ms_addr : string;
}.

(** The clients, tables and loops, after the schema has converged. *)
Definition manual_wiring (cfg : Resolved) : result BootError ManualService :=
  outbox ← or_boot BootTable (for_message OutboxKind ProductSnapshot (base cfg));
  _ ← or_boot BootTransport (open_publisher (so_brokers options));
  _ ← or_boot BootTransport (open_consumer (so_brokers options) (so_consumer_group options));
  _ ← or_boot BootTransport (subscribe (TOPIC_NAME OrderSnapshot));
  received ← or_boot BootTable (received_for_message OrderSnapshot cfg);
  router ← or_boot BootTable (dispatch_router am (base cfg) fs);
  addr ← or_boot BootBind (bind (so_bind options));
  Ok {| ms_config := cfg;
        ms_loops := [RelayLoop outbox (rc_relay cfg);
                     IngestLoop (TOPIC_NAME OrderSnapshot) (so_consumer_group options)
                       (retry_after (rc_relay cfg));
                     DispatchLoop received (dispatcher_cfg_of cfg (MESSAGE_TYPE OrderSnapshot))];
        ms_router := router; ms_addr := addr |}.

(** [service_manual::start]. *)
Definition manual_start : eff BootError world ManualService := fun '(broker, db) =>
  match (product ← or_boot (BootConfig ∘ ECore) (descriptor_of ProductSnapshot);
         order ← or_boot (BootConfig ∘ ECore) (descriptor_of OrderSnapshot);
         cfg ← or_boot BootConfig (from_config worker (so_config options) [product; order] prefix_env);
         _ ← or_boot BootTransport (open_admin (so_brokers options));
         Ok cfg) with
  | Err e => (Err e, (broker, db))
  | Ok cfg =>
      match converge_topics (rc_topics cfg) (messages (base cfg)) broker with
      | (Err e, broker) => (Err (BootTopics e), (broker, db))
      | (Ok _, broker) =>
          match open_database db with
          | (Err e, db) => (Err e, (broker, db))
          | (Ok _, db) =>
              match manual_changelog with
              | Err e => (Err (BootConfig e), (broker, db))
              | Ok cl =>
                  match migrate exec 10 (base cfg) w env_context (map lib_changeset cl) db with
                  | (Err e, db) => (Err (BootMigrate e), (broker, db))
                  | (Ok _, db) => (manual_wiring cfg, (broker, db))
                  end
              end
          end
      end
  end.

(** [service::start]: the database first, then the builder, then the listener. *)
Definition builder_start : eff BootError world (Runtime ProductApp * string) := fun '(broker, db) =>
  match open_database db with
  | (Err e, db) => (Err e, (broker, db))
  | (Ok _, db) =>
      match build exec config_text open_admin worker prefix_env env_context w
              (product_service am fs options) (broker, db) with
      | (Err e, world) => (Err (BootBuild e), world)
      | (Ok rt, world) => ((fun addr => (rt, addr)) <$> or_boot BootBind (bind (so_bind options)), world)
      end
  end.

(** A service that is up, by either path. *)
Inductive RunningService :=
| BuilderService (rt : Runtime ProductApp) (addr : string)
| HandService (ms : ManualService).

Definition running_addr (s : RunningService) : string :=
  match s with BuilderService _ addr => addr | HandService ms => ms_addr ms end.
Definition base_url (s : RunningService) : string := "http://" +:+ running_addr s.

(** [boot::start_with] and [boot::start]. *)
Definition start_with (mode : BootMode) : eff BootError world RunningService :=
  match mode with
  | BuilderBoot => '(rt, addr) ← builder_start; mret (BuilderService rt addr)
  | ManualBoot => ms ← manual_start; mret (HandService ms)
  end.
Definition start : eff BootError world RunningService := start_with BuilderBoot.
End boot.
End declared.

(** ** Supervision by hand *)

(** [ManualService::wait], on the first task to end. *)
Definition manual_wait (first : option Completion) : result string unit :=
  match first with
  | Some (Finished r) => r
  | Some JoinCancelled => Err "task was cancelled"
  | Some JoinPanicked => Err "task panicked"
  | None => Ok tt
  end.

(** [ManualService::shutdown]: every task is awaited, the first failure kept. *)
Fixpoint manual_drain (first_error : option string) (ended : list Completion) : result string unit :=
  match ended with
  | [] => match first_error with Some e => Err e | None => Ok tt end
  | c :: ended =>
      manual_drain (match first_error, manual_wait (Some c) with
                    | None, Err e => Some e
                    | kept, _ => kept
                    end) ended
  end.
Definition manual_shutdown (ended : list Completion) : result string unit := manual_drain None ended.

(** The first failure among the tasks, in the order they ended, is what a
    shutdown reports; all of them are awaited. *)
Lemma manual_shutdown_first ended :
  manual_shutdown ended
  = match List.find (fun c => negb (is_ok (manual_wait (Some c)))) ended with
    | Some c => manual_wait (Some c)
    | None => Ok tt
    end.
Proof.
  unfold manual_shutdown.
  assert (Hk : forall e l, manual_drain (Some e) l = Err e) by (intros e l; induction l; [done|by cbn]).
  induction ended as [|c ended IH]; [done|]. cbn [manual_drain List.find].
  destruct (manual_wait (Some c)) as [[]|e] eqn:E; cbn [is_ok negb]; [exact IH|]. by rewrite Hk, E.
Qed.

(** ** The two boots compared *)

(** The registration every successful boot ends in. *)
Lemma from_config_registers `{Decoders} `{Texts} worker cfg ms env r :
  from_config worker cfg ms env = Ok r -> ms <> [] ->
  exists c s prefix, cfg = Some c /\ (topics_part c env).2 = Some prefix
  /\ register_all {| schema := s; topic_prefix := prefix; messages := [] |} ms = Ok (base r).
Proof.
  unfold from_config. destruct cfg as [c|]; [|case_bool_decide; [by intros|done]].
  destruct (negb _); [done|].
  intros (? & _ & (s & _ & (? & _ & (? & _ & (? & _ & (? & _ & (? & _ & (p & Hp & Hf)%bind_Ok)%bind_Ok)%bind_Ok)%bind_Ok)%bind_Ok)%bind_Ok)%bind_Ok)%bind_Ok _.
  apply bind_Ok in Hf as (b & Hb & [= <-]). exists c, s, p. split_and!; [done| |exact Hb].
  destruct (topics_part c env).2; [|done]. by injection Hp as ->.
Qed.

(** The topics the ingesters of a list of loops subscribe to. *)
Definition ingest_topics (loops : list LoopBody) : list string :=
  omap (fun l => match l with IngestLoop topic _ _ => Some topic | _ => None end) loops.

Lemma ingest_topics_app l l' : ingest_topics (l ++ l') = ingest_topics l ++ ingest_topics l'.
Proof. apply omap_app. Qed.

Section loops.
Context {App : Type} (open_publisher : string -> result RdError unit)
  (open_consumer : string -> string -> result RdError unit)
  (subscribe : string -> result RdError unit) (metrics : bool).

Lemma published_ingests_nothing (rt : Runtime App) ts : forall loops,
  concat_results (published_loops open_publisher rt) ts = Ok loops -> ingest_topics (map snd loops) = [].
Proof.
  induction ts as [|t ts IH]; intros loops; cbn [concat_results]; [by intros [= <-]|].
  intros (xs & Hx & (ys & Hy & [= <-])%bind_Ok)%bind_Ok. rewrite map_app, ingest_topics_app, (IH _ Hy), app_nil_r.
  unfold published_loops in Hx. apply bind_Ok in Hx as (rs & Hr & [= <-]).
  rewrite map_app, ingest_topics_app.
  assert (ingest_topics (map snd rs) = []) as ->.
  { destruct (has_subsystem (rn_subsystems rt) RELAY); [|by injection Hr as <-].
    by apply bind_Ok in Hr as (? & _ & [= <-]). }
  destruct (has_subsystem (rn_subsystems rt) PURGE); [|done]. by destruct (rn_retention rt).
Qed.

(** A runtime that ingests subscribes to the topic of each of its plans. *)
Lemma loops_ingest_topics (rt : Runtime App) loops :
  has_subsystem (rn_subsystems rt) INGEST = true ->
  into_loops open_publisher open_consumer subscribe metrics rt = Ok loops ->
  ingest_topics (map snd loops) = map cp_topic (rn_consumed rt).
Proof.
  intros Hs. unfold into_loops. intros (rs & Hr & (cs & Hc & [= <-])%bind_Ok)%bind_Ok.
  rewrite !map_app, !ingest_topics_app, (published_ingests_nothing _ _ _ Hr). cbn [app].
  assert (ingest_topics (map snd (metrics_loop metrics rt)) = []) as ->.
  { unfold metrics_loop. by destruct (_ && _). }
  rewrite app_nil_r. clear Hr. revert cs Hc. induction (rn_consumed rt) as [|p ps IH]; intros cs; cbn [concat_results].
  { by intros [= <-]. }
  intros (xs & Hx & (ys & Hy & [= <-])%bind_Ok)%bind_Ok. rewrite map_app, ingest_topics_app, (IH _ Hy).
  unfold consumed_loops in Hx. rewrite Hs in Hx. apply bind_Ok in Hx as (ig & Hi & [= <-]).
  apply bind_Ok in Hi as (g & _ & Hi). apply bind_Ok in Hi as (? & _ & Hi). apply bind_Ok in Hi as (? & _ & [= <-]).
  by destruct (has_subsystem (rn_subsystems rt) DISPATCH).
Qed.
End loops.

Section compared.
Context `{Formats} `{SnapshotFormats}.

Definition order_desc : MessageDescriptor := Build_MessageDescriptor "order_snapshot" "orders" compacted.
Definition product_desc : MessageDescriptor := Build_MessageDescriptor "product_snapshot" "products" compacted.

Lemma snapshot_descriptors :
  descriptor_of OrderSnapshot = Ok order_desc /\ descriptor_of ProductSnapshot = Ok product_desc.
Proof. split; vm_compute; reflexivity. Qed.

Lemma product_service_fields am fs options :
  let b := product_service am fs options in
  b_config b = so_config options /\ b_consumed b = {["order_snapshot" := order_desc]}
  /\ b_subsystems b = all_subsystems /\ tables (b_roles b)
     = [(ReceivedKind, order_desc); (CacheKind, order_desc); (OutboxKind, product_desc)]
  /\ descriptors (b_roles b) = [order_desc; product_desc].
Proof. unfold product_service, configured. destruct (so_config options); split_and!; vm_compute; reflexivity. Qed.

(** The registered topic of a type carries the prefix. *)
Lemma registered_topic s prefix ms cfg (d r : MessageDescriptor) :
  register_all {| schema := s; topic_prefix := prefix; messages := [] |} ms = Ok cfg ->
  d ∈ ms -> r ∈ messages cfg -> message_type r = message_type d -> desc_topic r = prefix +:+ desc_topic d.
Proof.
  intros Hr Hd Hin Ht. apply register_all_Ok in Hr as (Hwf & _ & _ & Hall); [|constructor].
  destruct (Hall d Hd) as (r' & Hin' & Ht' & Htop). cbn [topic_prefix] in Htop. rewrite <- Htop.
  rewrite (NoDup_key_inj message_type (messages cfg) r r'); [done|exact Hwf|done|done|congruence].
Qed.

(** The hand-written changelog and the one derived from the roles issue the
    same statements; the numbers they are recorded under differ. *)
Theorem manual_changelog_same_schema `{Sha256} (am : Ambience) (fs : FaultState) (options : ServiceOptions)
  (cfg : ResolvedConfig) (cl : list LibraryChangeset)
  (Hcl : changelog (b_roles (product_service am fs options)) = Ok cl) :
  exists manual, manual_changelog = Ok manual
  /\ map (fun c => lib_build c cfg) cl ≡ₚ map (fun c => lib_build c cfg) manual
  /\ map lib_version manual = [1; 2; 3; 4; 5]
  /\ (forall c, c ∈ cl -> c <> InitSchema -> 1000 <= lib_version c).
Proof.
  eexists. split; [vm_compute; reflexivity|]. unfold changelog in Hcl.
  destruct (product_service_fields am fs options) as (_ & _ & _ & Ht & _). rewrite Ht in Hcl.
  pose proof (build_changelog_cases [(ReceivedKind, order_desc); (CacheKind, order_desc); (OutboxKind, product_desc)]) as Hc.
  rewrite Hcl in Hc. destruct Hc as (gs & -> & Hp & _).
  assert (Hd : distinct_tables [] [(ReceivedKind, order_desc); (CacheKind, order_desc); (OutboxKind, product_desc)]
               = [(ReceivedKind, order_desc); (CacheKind, order_desc); (OutboxKind, product_desc)])
    by (vm_compute; reflexivity).
  rewrite Hd in Hp. split_and!; [|done|].
  - cbn [map]. apply Permutation_cons; [done|]. rewrite Hp. cbn [flat_map table_changesets changesets_for create upgrades app map fst snd].
    cbn [lib_build]. solve_Permutation.
  - intros c [->|Hin]%elem_of_cons Hne; [done|]. rewrite Hp in Hin.
    apply list_elem_of_In, in_flat_map in Hin as (t & _ & Hin).
    destruct (table_changesets_versions t (lib_version c)) as [_ Hge]; [by apply list_elem_of_In, in_map|].
    unfold RESERVED_CEILING in Hge. lia.
Qed.

(** What a hand-wired boot that came up went through. *)
Lemma manual_start_Ok {B Catalog : Type} `{Sha256} `{Decoders} `{Texts} `{AdminClient B}
  (exec : string -> Catalog -> result SqlxError Catalog) open_admin worker prefix_env env_context w connect
  open_publisher open_consumer subscribe bind am fs options (start finish : B * Migrations.Db Catalog) ms :
  manual_start exec open_admin worker prefix_env env_context w connect open_publisher open_consumer
    subscribe bind am fs options start = (Ok ms, finish) ->
  exists cfg outbox received,
    from_config worker (so_config options) [product_desc; order_desc] prefix_env = Ok cfg
    /\ ms_config ms = cfg /\ received_for_message OrderSnapshot cfg = Ok received
    /\ ms_loops ms = [RelayLoop outbox (rc_relay cfg);
                      IngestLoop "orders" (so_consumer_group options) (retry_after (rc_relay cfg));
                      DispatchLoop received (dispatcher_cfg_of cfg "order_snapshot")].
Proof.
  unfold manual_start. destruct start as [broker db].
  destruct snapshot_descriptors as [-> ->]. cbn [or_boot Runtime.map_err mbind result_bind].
  destruct (from_config worker (so_config options) [product_desc; order_desc] prefix_env) as [cfg|e] eqn:Hc;
    cbn [or_boot Runtime.map_err mbind result_bind]; [|done].
  destruct (open_admin (so_brokers options)); cbn [or_boot Runtime.map_err mbind result_bind]; [|done].
  destruct (converge_topics _ _ broker) as [[|] broker']; [|done].
  destruct (open_database _ _ _ db) as [[|] db1]; [|done].
  destruct manual_changelog as [cl|]; [|done].
  destruct (migrate _ _ _ _ _ _ db1) as [[|] db2]; [|done]. intros [= Hw _].
  unfold manual_wiring in Hw.
  apply bind_Ok in Hw as (outbox & _ & Hw). apply bind_Ok in Hw as (? & _ & Hw).
  apply bind_Ok in Hw as (? & _ & Hw). apply bind_Ok in Hw as (? & _ & Hw).
  apply bind_Ok in Hw as (received & Hrec & Hw). apply bind_Ok in Hw as (router & _ & Hw).
  apply bind_Ok in Hw as (addr & _ & [= <-]).
  exists cfg, outbox, received. split_and!; [done..| |done].
  unfold or_boot, Runtime.map_err in Hrec. by destruct (received_for_message OrderSnapshot cfg); [injection Hrec as ->|].
Qed.

(** What the builder's boot went through. *)
Lemma builder_start_Ok {B Catalog : Type} `{Sha256} `{Decoders} `{Texts} `{AdminClient B}
  (exec : string -> Catalog -> result SqlxError Catalog) config_text open_admin worker prefix_env env_context w
  connect bind am fs options (start finish : B * Migrations.Db Catalog) rt addr :
  builder_start exec config_text open_admin worker prefix_env env_context w connect bind am fs options start
  = (Ok (rt, addr), finish) ->
  from_config worker (so_config options) [order_desc; product_desc] prefix_env = Ok (rn_config rt)
  /\ rn_subsystems rt = all_subsystems
  /\ plan_consumed (rn_config rt) [("order_snapshot", order_desc)] = Ok (rn_consumed rt).
Proof.
  unfold builder_start. destruct start as [broker db].
  destruct (open_database _ _ _ db) as [[|] db1]; [|done].
  destruct (build _ _ _ _ _ _ _ _ _) as [[rt'|e] world'] eqn:Hb; [|done].
  destruct (or_boot BootBind _); cbn [fmap result_fmap]; [|done]. intros [= -> _ _].
  apply build_Ok in Hb as (p & c & Ha & _ & _ & Hc & Hcfg).
  destruct (product_service_fields am fs options) as (Ec & Econ & Esub & _ & Ed).
  rewrite Ec in Hcfg. rewrite Ed in Hc. rewrite Hcfg.
  unfold assemble in Ha. apply bind_Ok in Ha as (ps & _ & Ha). apply bind_Ok in Ha as (cs & Hcs & [= <-]).
  cbn [rn_config rn_subsystems rn_consumed]. split_and!; [done|exact Esub|].
  rewrite Econ in Hcs. rewrite <- Hcs. f_equal.
Qed.

(** C39. The two boots of the product service are not interchangeable. When
    both come up from the same options and environment, the builder's ingester
    subscribes to the topic the order type is registered under, prefix
    included, and the hand-wired one to the bare topic of the type, though the
    schema, the checked topics and the dispatcher of both are those of the
    prefixed topic: they agree exactly when no topic prefix is configured. And
    a loop that ends cleanly before shutdown, be it the HTTP server or any of the
    loops the builder's service runs beside it, ends that service with an error
    that names it, whatever the others do, and is a success to the hand-rolled
    supervisor. *)
Theorem boot_paths_differ {B Catalog : Type} `{Sha256} `{Decoders} `{Texts} `{AdminClient B}
  (exec : string -> Catalog -> result SqlxError Catalog) (config_text : ConfigError -> string)
  (open_admin : string -> result RdError unit) (worker : string) (prefix_env : option string)
  (env_context : MigrationContext) (w : Weather) (connect : string -> result SqlxError unit)
  (open_publisher : string -> result RdError unit) (open_consumer : string -> string -> result RdError unit)
  (subscribe : string -> result RdError unit) (bind : string -> result string string) (metrics : bool)
  (am : Ambience) (fs : FaultState) (options : ServiceOptions)
  (start start' finish finish' : B * Migrations.Db Catalog) (ms : ManualService) (rt : Runtime ProductApp)
  (addr : string) (loops : list (string * LoopBody))
  (Hmanual : manual_start exec open_admin worker prefix_env env_context w connect open_publisher open_consumer
               subscribe bind am fs options start = (Ok ms, finish))
  (Hbuilder : builder_start exec config_text open_admin worker prefix_env env_context w connect bind am fs
                options start' = (Ok (rt, addr), finish'))
  (Hloops : into_loops open_publisher open_consumer subscribe metrics rt = Ok loops) :
  exists prefix, topic_prefix (base (ms_config ms)) = prefix /\ topic_prefix (base (rn_config rt)) = prefix
  /\ ingest_topics (ms_loops ms) = ["orders"]
  /\ ingest_topics (map snd loops) = [prefix +:+ "orders"]
  /\ (ingest_topics (ms_loops ms) = ingest_topics (map snd loops) <-> prefix = "")
  /\ (forall l, l ∈ ms_loops ms -> match l with
        | DispatchLoop received _ => desc_topic (tbl_desc (rt_table received)) = prefix +:+ "orders"
        | _ => True end)
  /\ manual_wait (Some (Finished (Ok tt))) = Ok tt
  /\ (forall address, exists t, serve_spawn (Ok address) false (Some (Ok (map fst loops))) = Ok (address, t)
      /\ size (running t) = S (length loops)
      /\ forall id, id ∈ running t -> exists name, names t !! id = Some name /\ name ∈ "http" :: map fst loops
         /\ forall ready arrivals, run_tasks (id, Finished (Ok tt)) false ready arrivals t
              = Err (LoopExited name "completed before shutdown")).
Proof.
  apply manual_start_Ok in Hmanual as (cfg & outbox & received & Hcm & <- & Hrec & Hml).
  apply builder_start_Ok in Hbuilder as (Hcb & Hsub & Hplan).
  apply from_config_registers in Hcm as (c & s & prefix & Hc & Hp & Hm); [|done].
  apply from_config_registers in Hcb as (c' & s' & prefix' & Hc' & Hp' & Hb); [|done].
  rewrite Hc in Hc'. injection Hc' as <-. rewrite Hp in Hp'. injection Hp' as <-.
  exists prefix. rewrite Hml.
  assert (Hing : ingest_topics (map snd loops) = [prefix +:+ "orders"]).
  { rewrite (loops_ingest_topics _ _ _ _ _ _ (eq_trans (f_equal (fun s => has_subsystem s INGEST) Hsub) eq_refl) Hloops).
    apply plan_consumed_types in Hplan as [Hty Hok]. cbn [map] in Hty.
    destruct (rn_consumed rt) as [|p [|]]; [done| |done]. injection Hty as Hty.
    destruct (Hok p) as (r & Hr & Hrt & Htop & _); [by left|]. cbn [map]. f_equal. rewrite Htop.
    apply (registered_topic s' prefix _ _ order_desc r Hb); [by left|done|]. rewrite Hrt. exact Hty. }
  pose proof (register_all_Ok _ _ _ Hm ltac:(constructor)) as (_ & -> & _).
  pose proof (register_all_Ok _ _ _ Hb ltac:(constructor)) as (_ & -> & _).
  rewrite Hing. split_and!; [done..| | |done|].
  - cbn. split; [|by intros ->]. intros [= E]. destruct prefix as [|a prefix]; [done|].
    apply (f_equal String.length) in E. rewrite length_append in E. cbn in E. lia.
  - intros l Hl. repeat (apply elem_of_cons in Hl as [->|Hl]; [try done|]); [|by apply elem_of_nil in Hl].
    unfold received_for_message in Hrec. apply bind_Ok in Hrec as (d & Hd & Hrec).
    unfold descriptor_for in Hd. rewrite (proj1 snapshot_descriptors) in Hd. cbn [lift_core mbind result_bind] in Hd.
    destruct (registered (base (ms_config ms)) order_desc) as [r|] eqn:Hreg; [|done]. injection Hd as <-.
    apply registered_Some in Hreg as [Hin Ht].
    unfold received_for_descriptor in Hrec. apply bind_Ok in Hrec as (t0 & Ht0 & [= <-]).
    unfold table_new in Ht0. apply bind_Ok in Ht0 as (n & _ & [= <-]). cbn.
    apply (registered_topic s prefix _ _ order_desc r Hm); [set_solver|done|done].
  - intros address. eexists. split; [reflexivity|].
    destruct (spawn_loop_runs "http" _ _ (spawn_supervised false (map fst loops)) (spawn_runs false (map fst loops)))
      as [Hsize Hnames].
    split; [rewrite Hsize; cbn [length]; by rewrite length_rev, length_map|].
    intros id Hid. destruct (Hnames id Hid) as (name & Hn & Hin). exists name. split; [done|]. split.
    { apply elem_of_cons in Hin as [->|Hin]; [by left|right]. by rewrite list_elem_of_In, <- in_rev, <- list_elem_of_In in Hin. }
    intros ready arrivals. unfold run_tasks. pose proof (wait_clean_exit id name _ Hid Hn) as Hw.
    destruct (wait _ _ _) as [r t']. cbn [fst] in Hw. by subst r.
Qed.
End compared.

(** ** A deployment with a topic prefix *)

Module BootSample.
#[local] Existing Instance sample_sha.
#[local] Existing Instance CSample.sample_decoders.
#[local] Existing Instance CSample.sample_texts.
#[local] Existing Instance TopicSample.client.
#[local] Existing Instance WSample.formats.
#[local] Existing Instance CoSample.snapshot_formats.

Definition options : ServiceOptions := {|
  so_database_url := "postgres://products"; so_brokers := "kafka:9092"; so_bind := "0.0.0.0:3000";
  so_consumer_group := "product-service"; so_config := Some CSample.file |}.

Definition broker : TopicSample.Broker :=
  TopicSample.add "dev.orders" (3, "compact")
    (TopicSample.add "dev.products" (3, "compact") TopicSample.empty_broker eq_refl) eq_refl.

Abbreviation manual_run :=
  (manual_start MSample.record_sql (fun _ => Ok tt) "w" (Some "dev.") context_new MSample.calm (fun _ => Ok tt)
     (fun _ => Ok tt) (fun _ _ => Ok tt) (fun _ => Ok tt) Ok (PSample.am 0 1) fault_state_new options (broker, MSample.fresh)).
Abbreviation builder_run :=
  (builder_start MSample.record_sql (fun _ => "invalid") (fun _ => Ok tt) "w" (Some "dev.") context_new MSample.calm
     (fun _ => Ok tt) Ok (PSample.am 0 1) fault_state_new options (broker, MSample.fresh)).
Abbreviation loops_of rt := (into_loops (fun _ => Ok tt) (fun _ _ => Ok tt) (fun _ => Ok tt) false rt).

Lemma boots_Ok :
  (match manual_run.1 with Ok ms => Some (topic_prefix (base (ms_config ms))) | Err _ => None end,
   match builder_run.1 with
   | Ok (rt, _) => match loops_of rt with Ok loops => map fst loops | Err _ => [] end
   | Err _ => []
   end)
  = (Some "dev.", ["relay:product_snapshot"; "ingester:order_snapshot"; "dispatcher:order_snapshot"]).
Proof. vm_compute. reflexivity. Qed.

Lemma boot_paths_differ_witness :
  match manual_run.1, builder_run.1 with
  | Ok ms, Ok (rt, _) =>
      ingest_topics (ms_loops ms) = ["orders"]
      /\ match loops_of rt with
         | Ok loops => ingest_topics (map snd loops) = ["dev.orders"]
         | Err _ => False
         end
  | _, _ => False
  end.
Proof.
  pose proof boots_Ok as Hb. destruct manual_run as [[ms|e] finish] eqn:Em; [|discriminate Hb].
  destruct builder_run as [[[rt addr]|e] finish'] eqn:Eb; [|discriminate Hb].
  cbn [fst] in *. destruct (loops_of rt) as [loops|e] eqn:El; [|discriminate Hb].
  injection Hb as Hp _.
  destruct (boot_paths_differ _ _ _ _ _ _ _ _ _ _ _ _ _ _ _ _ _ _ _ _ _ _ _ _ Em Eb El)
    as (prefix & Hm & _ & Hi & Hl & _).
  rewrite Hp in Hm. subst prefix. split; [exact Hi|exact Hl].
Defined.
End BootSample.
