(* ===== verification/Provision.v ===== *)
(** * Provision: building the environment the services boot into

    Models [src/examples/provision/src/lib.rs] and [main.rs]: the databases are
    created, then the entity topics converge in mode [Create].

    The database server is the class [PgServer]: a connection and the execution
    of a statement's text. [FaithfulServer] states what [CREATE DATABASE] does,
    truncation of a long name included; the broker is that of [TopicBoot]. *)

From S2P Require Import Prelude Text Vocabulary Trace Identity Topics Registry Decimal Wire TopicBoot.
From S2P Require Import Contracts.
Open Scope string_scope.
Open Scope list_scope.
Open Scope Z_scope.

(** ** Names *)

Definition PRODUCT_DATABASE := "product_service".
Definition ORDER_DATABASE := "order_service".
Definition EXAMPLE_DATABASES : list string := [PRODUCT_DATABASE; ORDER_DATABASE].
Definition DEFAULT_PARTITIONS : Z := 1.
Definition MAX_IDENTIFIER_BYTES : nat := 63.

Inductive ProvisionError :=
| InvalidDatabaseName (name reason : string)
| PDatabase (e : SqlxError)
| PContract (e : CoreError)
| PBroker (e : RdError).

Inductive DatabaseOutcome := Created | AlreadyExisted.
#[global] Instance DatabaseOutcome_eq_dec : EqDecision DatabaseOutcome.
Proof. solve_decision. Defined.

Definition is_ascii_alphabetic (c : ascii) : bool := byte_in 65 90 c || byte_in 97 122 c.
Definition is_ascii_alphanumeric (c : ascii) : bool := is_ascii_alphabetic c || is_digit c.
Definition underscore : ascii := "_"%char.

(** [validate_database_name]. The first character of a non-ASCII name starts
    with a byte that is neither a letter nor an underscore. *)
Definition validate_database_name (name : string) : result ProvisionError unit :=
  let invalid reason := Err (InvalidDatabaseName name reason) in
  match name with
  | EmptyString => invalid "it is empty"
  | String first _ =>
      if Nat.ltb MAX_IDENTIFIER_BYTES (String.length name)
      then invalid "it is longer than 63 bytes, which Postgres truncates rather than rejects"
      else if negb (is_ascii_alphabetic first || Ascii.eqb first underscore)
      then invalid "it must start with an ASCII letter or underscore"
      else if negb (all_bytes (fun c => is_ascii_alphanumeric c || Ascii.eqb c underscore) name)
      then invalid "it may contain only ASCII letters, digits, and underscores"
      else Ok tt
  end.

(** ** Databases *)

(** A statement sent in autocommit, and the connection. *)
Class PgServer (S : Type) := {
  pg_connect : string -> S -> result SqlxError unit * S;
  pg_execute : string -> S -> result SqlxError unit * S;
}.

(** [is_duplicate_database]. *)
Definition is_duplicate_database (err : SqlxError) : bool :=
  match err with
  | SqlxDatabase _ (Some code) _ => String.eqb code "42P04" || String.eqb code "23505"
  | _ => false
  end.

Definition create_database_sql (name : string) : string := "CREATE DATABASE " +:+ quoted name.

Section databases.
Context {S : Type} `{PgServer S}.

(** [ensure_database]. *)
Definition ensure_database (name : string) : eff ProvisionError S DatabaseOutcome := fun s =>
  match validate_database_name name with
  | Err e => (Err e, s)
  | Ok _ =>
      match pg_execute (create_database_sql name) s with
      | (Ok _, s) => (Ok Created, s)
      | (Err err, s) => if is_duplicate_database err then (Ok AlreadyExisted, s) else (Err (PDatabase err), s)
      end
  end.

(** The loop of [ensure_databases]. *)
Fixpoint ensure_loop (names : list string) : eff ProvisionError S (list (string * DatabaseOutcome)) :=
  match names with
  | [] => mret []
  | name :: names =>
      outcome ← ensure_database name;
      rest ← ensure_loop names;
      mret ((name, outcome) :: rest)
  end.

(** [names.iter().map(validate).collect()]: the first unusable name. *)
Fixpoint validate_all (names : list string) : result ProvisionError unit :=
  match names with
  | [] => Ok tt
  | name :: names => _ ← validate_database_name name; validate_all names
  end.

(** [ensure_databases]. *)
Definition ensure_databases (url : string) (names : list string)
  : eff ProvisionError S (list (string * DatabaseOutcome)) := fun s =>
  match validate_all names with
  | Err e => (Err e, s)
  | Ok _ =>
      match pg_connect url s with
      | (Err e, s) => (Err (PDatabase e), s)
      | (Ok _, s) => ensure_loop names s
      end
  end.
End databases.

(** ** Topics *)

(** [MessageDescriptor::with_topic_spec]. *)
Definition with_topic_spec (d : MessageDescriptor) (spec : TopicSpec) : MessageDescriptor :=
  {| message_type := message_type d; desc_topic := desc_topic d; topic_spec := spec |}.

Definition contract {A} (r : result CoreError A) : result ProvisionError A :=
  match r with Ok a => Ok a | Err e => Err (PContract e) end.

(** [entity_topics]. *)
Definition entity_topics `{Formats} `{SnapshotFormats} (n : Z) : result ProvisionError (list MessageDescriptor) :=
  spec ← contract (with_partitions compacted n);
  product ← contract (descriptor_of ProductSnapshot);
  order ← contract (descriptor_of OrderSnapshot);
  Ok [with_topic_spec product spec; with_topic_spec order spec].

(** [provision_topics]. *)
Definition provision_topics {B} `{AdminClient B} (from_brokers : string -> result RdError unit)
  (brokers : string) (ds : list MessageDescriptor) : eff ProvisionError B (list PartitionDrift) := fun b =>
  match from_brokers brokers with
  | Err e => (Err (PBroker e), b)
  | Ok _ =>
      match converge_topics Create ds b with
      | (Err e, b) => (Err (PBroker e), b)
      | (Ok drifts, b) => (Ok drifts, b)
      end
  end.

(** ** The run *)

Record ProvisionOptions := {
  admin_database_url : string;
  po_databases : list string;
  po_brokers : string;
  po_topics : list MessageDescriptor;
}.
Record ProvisionReport := { report_databases : list (string * DatabaseOutcome); report_drifts : list PartitionDrift }.

Section run.
Context {S B : Type} `{PgServer S} `{AdminClient B} (from_brokers : string -> result RdError unit).

(** [provision]. *)
Definition provision (options : ProvisionOptions) : eff ProvisionError (S * B) ProvisionReport := fun '(s, b) =>
  match ensure_databases (admin_database_url options) (po_databases options) s with
  | (Err e, s) => (Err e, (s, b))
  | (Ok databases, s) =>
      match provision_topics from_brokers (po_brokers options) (po_topics options) b with
      | (Err e, b) => (Err e, (s, b))
      | (Ok drifts, b) => (Ok {| report_databases := databases; report_drifts := drifts |}, (s, b))
      end
  end.
End run.

(** *** [main] *)

Inductive MainError :=
| Message (text : string)
| Failed (e : ProvisionError).

(** [required_env]. *)
Definition required_env (var : string -> option string) (name purpose : string) : result MainError string :=
  match var name with
  | Some v => Ok v
  | None => Err (Message (name +:+ " must be set: " +:+ purpose))
  end.

(** [databases]. *)
Definition databases_of (var : string -> option string) : list string :=
  match var "PROVISION_DATABASES" with
  | Some l => List.filter (fun name => negb (is_empty name)) (map trim (split_on ","%char l))
  | None => EXAMPLE_DATABASES
  end.

(** [i32::from_str]: the digits one at a time, each step checked. *)
Definition EMPTY_INT := "cannot parse integer from empty string".
Definition INVALID_DIGIT := "invalid digit found in string".
Definition POS_OVERFLOW := "number too large to fit in target type".
Definition NEG_OVERFLOW := "number too small to fit in target type".
Definition in_i32 (z : Z) : bool := (- 2 ^ 31 <=? z) && (z <=? i32_max).

Fixpoint parse_digits (negative : bool) (acc : Z) (s : string) : result string Z :=
  let overflow := if negative then NEG_OVERFLOW else POS_OVERFLOW in
  match s with
  | EmptyString => Ok acc
  | String c s =>
      if negb (is_digit c) then Err INVALID_DIGIT
      else if negb (in_i32 (acc * 10)) then Err overflow
      else
        let acc := if negative then acc * 10 - digit_value c else acc * 10 + digit_value c in
        if negb (in_i32 acc) then Err overflow else parse_digits negative acc s
  end.

Definition parse_i32 (s : string) : result string Z :=
  match s with
  | EmptyString => Err EMPTY_INT
  | String c rest =>
      if Ascii.eqb c "+"%char || Ascii.eqb c "-"%char then
        if is_empty rest then Err INVALID_DIGIT else parse_digits (Ascii.eqb c "-"%char) 0 rest
      else parse_digits false 0 s
  end.

(** [partitions]. *)
Definition partitions_of (var : string -> option string) : result MainError Z :=
  match var "TOPIC_PARTITIONS" with
  | Some raw =>
      match parse_i32 (trim raw) with
      | Ok n => Ok n
      | Err err => Err (Message ("TOPIC_PARTITIONS must be a positive integer: " +:+ err))
      end
  | None => Ok DEFAULT_PARTITIONS
  end.

Definition failed {A} (r : result ProvisionError A) : result MainError A :=
  match r with Ok a => Ok a | Err e => Err (Failed e) end.

Section main.
Context {S B : Type} `{PgServer S} `{AdminClient B} (from_brokers : string -> result RdError unit).
Context `{Formats} `{SnapshotFormats}.

(** The options [main] reads from the environment. *)
Definition main_options (var : string -> option string) : result MainError ProvisionOptions :=
  url ← required_env var "ADMIN_DATABASE_URL"
          "points at an existing database on the target server, such as `postgres`";
  let names := databases_of var in
  brokers ← required_env var "KAFKA_BROKERS" "points to Kafka/Redpanda";
  n ← partitions_of var;
  topics ← failed (entity_topics n);
  Ok {| admin_database_url := url; po_databases := names; po_brokers := brokers; po_topics := topics |}.

Definition main (var : string -> option string) : eff MainError (S * B) ProvisionReport := fun w =>
  match main_options var with
  | Err e => (Err e, w)
  | Ok options =>
      let '(r, w) := provision from_brokers options w in (failed r, w)
  end.
End main.

(** ** What the server does *)

(** The databases a server has. Connecting changes none. A [CREATE DATABASE]
    with an ASCII name that leaves its quotes alone adds the database of the
    name's first 63 bytes, which was not there, or fails, and then it adds at most
    that database, as when the answer to a creation is lost; the two duplicate
    codes are reported for a database that is there. *)
Class FaithfulServer (S : Type) `{PgServer S} := {
  databases : S -> gset string;
  connect_reads : forall url s r s', pg_connect url s = (r, s') -> databases s' = databases s;
  create_database_does : forall name s r s',
    avoids dquote name = true -> all_bytes (byte_in 0 127) name = true ->
    pg_execute (create_database_sql name) s = (r, s') ->
    match r with
    | Ok _ => str_take 63 name ∉ databases s /\ databases s' = {[ str_take 63 name ]} ∪ databases s
    | Err e => (databases s' = databases s \/ databases s' = {[ str_take 63 name ]} ∪ databases s)
               /\ forall kind code text, e = SqlxDatabase kind (Some code) text ->
                    code = "42P04" \/ code = "23505" -> str_take 63 name ∈ databases s
    end;
}.

(** ** Names that are accepted *)

Lemma str_take_all n s : (String.length s <= n)%nat -> str_take n s = s.
Proof.
  unfold str_take. revert n. induction s as [|c s IH]; intros [|n]; cbn; try done; [lia|].
  intros Hn. f_equal. apply IH. lia.
Qed.

Definition name_byte (c : ascii) : bool := is_ascii_alphanumeric c || Ascii.eqb c underscore.

(** A name byte is ASCII and never ends the quoted identifier. *)
Lemma name_byte_plain c : name_byte c = true -> byte_in 0 127 c = true /\ Ascii.eqb c dquote = false.
Proof. destruct c as [[] [] [] [] [] [] [] []]; vm_compute; done. Qed.

Lemma validate_Ok name :
  validate_database_name name = Ok tt <->
  name <> "" /\ (String.length name <= 63)%nat
  /\ (exists c rest, name = String c rest /\ is_ascii_alphabetic c || Ascii.eqb c underscore = true)
  /\ all_bytes name_byte name = true.
Proof.
  unfold validate_database_name. destruct name as [|c rest]; [naive_solver|].
  destruct (Nat.ltb_spec MAX_IDENTIFIER_BYTES (String.length (String c rest))) as [Hl|Hl];
    unfold MAX_IDENTIFIER_BYTES in Hl; [split; [done|intros (_ & ? & _); lia]|].
  destruct (is_ascii_alphabetic c || Ascii.eqb c underscore) eqn:Hc; cbn [negb];
    [|split; [done|intros (_ & _ & (? & ? & [= <- <-] & ?) & _); congruence]].
  fold name_byte. destruct (all_bytes name_byte (String c rest)); cbn [negb]; [|naive_solver].
  split; [|done]. intros _. split_and!; [done..| |done]. eauto.
Qed.

(** What an accepted name gives the server. *)
Lemma validated_plain name :
  validate_database_name name = Ok tt ->
  avoids dquote name = true /\ all_bytes (byte_in 0 127) name = true /\ str_take 63 name = name.
Proof.
  intros (_ & Hl & _ & Hb)%validate_Ok. split_and!; [| |by apply str_take_all];
    (eapply all_bytes_impl; [|exact Hb]); intros c [? He]%name_byte_plain; [by rewrite He|done].
Qed.

Lemma validate_all_Ok names :
  validate_all names = Ok tt <-> forall name, name ∈ names -> validate_database_name name = Ok tt.
Proof.
  induction names as [|n names IH]; [split; [intros _ ? []%elem_of_nil|done]|]. cbn [validate_all]. split.
  - intros ([] & Hn & Hr)%bind_Ok name [->|Hin]%elem_of_cons; [done|]. by apply IH.
  - intros Hall. rewrite (Hall n) by by left. apply IH. intros. apply Hall. by right.
Qed.

(** ** The databases after a run *)

Section server.
Context {S : Type} `{FaithfulServer S}.

Lemma ensure_database_does name s r s' :
  validate_database_name name = Ok tt -> ensure_database name s = (r, s') ->
  match r with
  | Ok Created => name ∉ databases s /\ databases s' = {[ name ]} ∪ databases s
  | Ok AlreadyExisted => name ∈ databases s /\ databases s' = databases s
  | Err _ => databases s ⊆ databases s' /\ databases s' ⊆ {[ name ]} ∪ databases s
  end.
Proof.
  intros Hv. unfold ensure_database. rewrite Hv. apply validated_plain in Hv as (Hq & Ha & Ht).
  destruct (pg_execute _ s) as [q s1] eqn:E. apply (create_database_does name s q s1 Hq Ha) in E. rewrite Ht in E.
  destruct q as [u|e]; [by intros [= <- <-]|]. destruct E as [Hs Hdup].
  destruct (is_duplicate_database e) eqn:Hd; intros [= <- <-]; [|set_solver].
  destruct e as [kind [code|] text|]; try discriminate Hd.
  assert (Hin : name ∈ databases s); [|split; [done|destruct Hs; set_solver]].
  apply (Hdup kind code text eq_refl). cbn in Hd. apply orb_true_iff in Hd. by rewrite !String.eqb_eq in Hd.
Qed.

(** What the loop leaves and reports: only requested databases are added, all of
    them are there after a success, and the ones reported created are those that
    were not. *)
Lemma ensure_loop_spec names : forall s r s',
  (forall name, name ∈ names -> validate_database_name name = Ok tt) ->
  ensure_loop names s = (r, s') ->
  databases s ⊆ databases s' /\ databases s' ⊆ list_to_set names ∪ databases s
  /\ forall outs, r = Ok outs ->
     map fst outs = names /\ list_to_set names ⊆ databases s'
     /\ forall name, (name, Created) ∈ outs <-> name ∈ names /\ name ∉ databases s.
Proof.
  induction names as [|n names IH]; intros s r s' Hv Hrun.
  { injection Hrun as <- <-. split_and!; [set_solver..|]. intros outs [= <-]. split_and!; [done|set_solver..]. }
  cbn [ensure_loop] in Hrun. apply bind_step in Hrun as [(o & s1 & Hn & Hrun)|(e & Hn & ->)];
    apply ensure_database_does in Hn; try (apply Hv; by left); [|split_and!; [set_solver..|done]].
  assert (Hv' : forall name, name ∈ names -> validate_database_name name = Ok tt) by (intros; apply Hv; by right).
  apply bind_step in Hrun as [(rest & s2 & Hl & [= <- <-])|(e & Hl & ->)]; cbn [list_to_set];
    apply (IH _ _ _ Hv') in Hl as (Hsub & Hsup & Hok).
  - destruct (Hok rest eq_refl) as (Hf & Hin & Hc). clear Hok IH Hv Hv'.
    destruct o; destruct Hn as [Hn Heq]; rewrite Heq in *;
      (split_and!; [clear Hc; set_solver..|]); intros outs [= <-]; cbn [map fst]; rewrite Hf;
      (split_and!; [done|clear Hc; set_solver|]); intros name;
      rewrite !elem_of_cons, Hc, ?not_elem_of_union, ?not_elem_of_singleton;
      destruct (decide (name = n)) as [->|]; naive_solver.
  - clear Hok IH Hv Hv'. destruct o; destruct Hn as [Hn Heq]; rewrite Heq in *; (split_and!; [set_solver..|done]).
Qed.

Lemma ensure_databases_spec url names s r s' :
  ensure_databases url names s = (r, s') ->
  databases s ⊆ databases s' /\ databases s' ⊆ list_to_set names ∪ databases s
  /\ forall outs, r = Ok outs ->
     map fst outs = names /\ list_to_set names ⊆ databases s'
     /\ forall name, (name, Created) ∈ outs <-> name ∈ names /\ name ∉ databases s.
Proof.
  unfold ensure_databases. destruct (validate_all names) as [[]|e] eqn:Hv; [|intros [= <- <-]; split_and!; [set_solver..|done]].
  destruct (pg_connect url s) as [[u|e] s1] eqn:Hc; apply connect_reads in Hc; rewrite <- Hc;
    [|intros [= <- <-]; split_and!; [set_solver..|done]].
  apply ensure_loop_spec. by apply validate_all_Ok.
Qed.

(** An unusable name is refused before anything is asked of the server. *)
Lemma ensure_databases_refuses {S'} `{PgServer S'} url names (s s' : S') name r :
  name ∈ names -> validate_database_name name <> Ok tt -> ensure_databases url names s = (r, s') ->
  s' = s /\ exists bad reason, bad ∈ names /\ r = Err (InvalidDatabaseName bad reason).
Proof.
  intros Hin Hbad. unfold ensure_databases.
  assert (exists bad reason, bad ∈ names /\ validate_all names = Err (InvalidDatabaseName bad reason))
    as (bad & reason & Hb & ->); [|intros [= <- <-]; eauto].
  induction names as [|n names IH]; [by apply elem_of_nil in Hin|]. cbn [validate_all].
  destruct (validate_database_name n) as [[]|e] eqn:Hn; cbn [mbind result_bind].
  - apply elem_of_cons in Hin as [->|Hin]; [done|]. destruct (IH Hin) as (bad & reason & ? & ?).
    exists bad, reason. split; [by right|done].
  - revert Hn. unfold validate_database_name. destruct n; repeat case_match; intros [= <-];
      (eexists _, _; split; [by left|done]).
Qed.
End server.

(** ** The topics after a run *)

Section topics.
Context {B : Type} `{FaithfulAdmin B} (from_brokers : string -> result RdError unit).

(** Convergence leaves every declared topic there. *)
Lemma provision_topics_spec brokers ds b r b' :
  provision_topics from_brokers brokers ds b = (r, b') ->
  only_creates Create ds b b'
  /\ forall drifts, r = Ok drifts ->
     forall d, d ∈ ds -> exists d0, first_of ds (desc_topic d) = Some d0 /\ compliant d0 b'.
Proof.
  assert (Hrefl : only_creates Create ds b b) by (split; [done|intros; congruence]).
  unfold provision_topics. destruct (from_brokers brokers); [|by intros [= <- <-]].
  destruct (converge_topics Create ds b) as [q b1] eqn:Hrun. unfold converge_topics in Hrun.
  rewrite bool_decide_eq_false_2 in Hrun by done.
  destruct (converge_loop_spec Create ltac:(done) ds ds ∅ b q b1 (fun _ _ => eq_refl) Hrun) as [Hc Hok].
  destruct q as [drifts|e]; intros [= <- <-]; (split; [done|]); [|done].
  intros ? _ d Hd. destruct (Hok drifts eq_refl) as [Hall _]. apply Hall; [done|apply not_elem_of_empty].
Qed.

(** Where every declared topic is there, nothing is created. *)
Lemma only_creates_settled ds b b' :
  only_creates Create ds b b' ->
  (forall d, d ∈ ds -> exists d0, first_of ds (desc_topic d) = Some d0 /\ compliant d0 b) ->
  topics b' = topics b.
Proof.
  intros [Hsub Hnew] Hall. apply map_eq. intros t. destruct (topics b !! t) as [np|] eqn:E.
  { by eapply lookup_weaken. }
  destruct (topics b' !! t) as [[n0 p0]|] eqn:E'; [exfalso|done].
  destruct (Hnew t n0 p0 E' E) as (_ & d & Hf & _). unfold first_of in Hf.
  apply List.find_some in Hf as [Hd%list_elem_of_In <-%bool_decide_eq_true].
  destruct (Hall d Hd) as (d0 & Hf & n & p & Hl & _).
  apply List.find_some in Hf as [_ Hf%bool_decide_eq_true]. congruence.
Qed.
End topics.

Section runs.
Context {S B : Type} `{FaithfulServer S} `{FaithfulAdmin B} (from_brokers : string -> result RdError unit).
Context (options : ProvisionOptions).

(** The two halves of a run. *)
Lemma provision_cases (s s' : S) (b b' : B) r :
  provision from_brokers options (s, b) = (r, (s', b')) ->
  exists q, ensure_databases (admin_database_url options) (po_databases options) s = (q, s')
  /\ match q with
     | Err e => r = Err e /\ b' = b
     | Ok outs => exists t, provision_topics from_brokers (po_brokers options) (po_topics options) b = (t, b')
         /\ r = match t with
                | Err e => Err e
                | Ok drifts => Ok {| report_databases := outs; report_drifts := drifts |}
                end
     end.
Proof.
  unfold provision. destruct (ensure_databases _ _ s) as [[outs|e] s1].
  - destruct (provision_topics _ _ _ b) as [[drifts|e] b1]; intros [= <- <- <-];
      (eexists; split; [done|]); (eexists; split; [reflexivity|done]).
  - intros [= <- <- <-]. by eexists.
Qed.

Lemma provision_adds (s s' : S) (b b' : B) r :
  provision from_brokers options (s, b) = (r, (s', b')) ->
  databases s ⊆ databases s' /\ databases s' ⊆ list_to_set (po_databases options) ∪ databases s
  /\ only_creates Create (po_topics options) b b'.
Proof.
  intros (q & Hq & Hr)%provision_cases. apply ensure_databases_spec in Hq as (Hsub & Hsup & _).
  split_and!; [done..|]. destruct q as [outs|e].
  - destruct Hr as (t & Ht & _). by apply provision_topics_spec in Ht as [? _].
  - destruct Hr as [_ ->]. split; [done|intros; congruence].
Qed.

Lemma provision_reports (s s' : S) (b b' : B) report :
  provision from_brokers options (s, b) = (Ok report, (s', b')) ->
  map fst (report_databases report) = po_databases options
  /\ (list_to_set (po_databases options) ⊆ databases s')
  /\ (forall name, (name, Created) ∈ report_databases report <->
        name ∈ po_databases options /\ name ∉ databases s)
  /\ (forall d, d ∈ po_topics options ->
        exists d0, first_of (po_topics options) (desc_topic d) = Some d0 /\ compliant d0 b').
Proof.
  intros (q & Hq & Hr)%provision_cases. apply ensure_databases_spec in Hq as (_ & _ & Hok).
  destruct q as [outs|e]; [|by destruct Hr]. destruct Hr as (t & Ht & Hr). destruct t as [drifts|e]; [|done].
  injection Hr as ->. apply provision_topics_spec in Ht as [_ Ht].
  destruct (Hok outs eq_refl) as (? & ? & ?). by split_and!; [..|eapply Ht].
Qed.
End runs.

(** C25. Provisioning builds what is missing and converges. Whatever the server
    and the broker answer, a run only adds: databases that were asked for, and
    declared topics that were absent. One unusable name, such as one that would
    leave the quoted identifier or be cut short by the server, stops the run
    before anything is asked of either. No topic is created before every
    database is there. A run that reports leaves every database there under
    exactly its name and every topic with its policy, reports as created exactly
    the databases that were missing, and can be repeated: a second run changes
    nothing, and what it reports is that everything was there. *)
Theorem provision_converges {S B : Type} `{FaithfulServer S} `{FaithfulAdmin B}
  (from_brokers : string -> result RdError unit) (options : ProvisionOptions) (s s' : S) (b b' : B)
  (r : result ProvisionError ProvisionReport)
  (Hrun : provision from_brokers options (s, b) = (r, (s', b'))) :
  (databases s ⊆ databases s' /\ databases s' ⊆ list_to_set (po_databases options) ∪ databases s
   /\ only_creates Create (po_topics options) b b')
  /\ (forall name, name ∈ po_databases options -> validate_database_name name <> Ok tt ->
        s' = s /\ b' = b /\ exists bad reason, bad ∈ po_databases options /\ r = Err (InvalidDatabaseName bad reason))
  /\ (forall name, name ∈ po_databases options -> name ∉ databases s' -> b' = b)
  /\ (forall report, r = Ok report ->
        map fst (report_databases report) = po_databases options
        /\ (list_to_set (po_databases options) ⊆ databases s')
        /\ (forall name, (name, Created) ∈ report_databases report <->
              name ∈ po_databases options /\ name ∉ databases s)
        /\ (forall d, d ∈ po_topics options ->
              exists d0, first_of (po_topics options) (desc_topic d) = Some d0 /\ compliant d0 b')
        /\ (forall r2 s2 b2, provision from_brokers options (s', b') = (r2, (s2, b2)) ->
              databases s2 = databases s' /\ topics b2 = topics b'
              /\ forall report2, r2 = Ok report2 -> forall name o, (name, o) ∈ report_databases report2 -> o = AlreadyExisted)).
Proof.
  split_and!; [by eapply provision_adds..| | |].
  - intros name Hin Hbad. apply provision_cases in Hrun as (q & Hq & Hr).
    destruct (ensure_databases_refuses _ _ _ _ _ _ Hin Hbad Hq) as (-> & bad & reason & Hb & ->).
    destruct Hr as [-> ->]. eauto 6.
  - intros name Hin Hout. apply provision_cases in Hrun as (q & Hq & Hr).
    destruct q as [outs|e]; [exfalso|by destruct Hr]. apply ensure_databases_spec in Hq as (_ & _ & Hok).
    destruct (Hok outs eq_refl) as (_ & Hall & _). set_solver.
  - intros report ->. destruct (provision_reports _ _ _ _ _ _ _ Hrun) as (Hf & Hall & Hc & Ht).
    split_and!; [done..|]. intros r2 s2 b2 Hrun2.
    destruct (provision_adds _ _ _ _ _ _ _ Hrun2) as (Hsub & Hsup & Honly).
    split_and!; [set_solver|by eapply only_creates_settled|].
    intros report2 -> name [] Hin; [exfalso|done].
    destruct (provision_reports _ _ _ _ _ _ _ Hrun2) as (_ & _ & Hc2 & _). apply Hc2 in Hin as [Hin Hout]. set_solver.
Qed.

(** ** What [main] asks for *)

Lemma digits_value_ge s : forall acc, 0 <= acc -> all_bytes is_digit s = true -> acc <= digits_value acc s.
Proof.
  induction s as [|c s IH]; intros acc Ha; cbn [all_bytes digits_value]; [done|].
  intros [Hc Hs]%andb_true_iff. unfold is_digit, byte_in in Hc. apply andb_true_iff in Hc as [Hc _].
  apply Z.leb_le in Hc. specialize (IH (acc * 10 + digit_value c)). unfold digit_value in *.
  specialize (IH ltac:(lia) Hs). lia.
Qed.

(** The checked digit loop reads the decimal value, and refuses what does not fit. *)
Lemma parse_digits_Ok s : forall acc v, 0 <= acc <= i32_max ->
  parse_digits false acc s = Ok v <->
  all_bytes is_digit s = true /\ v = digits_value acc s /\ v <= i32_max.
Proof.
  induction s as [|c s IH]; intros acc v Ha; cbn [parse_digits all_bytes digits_value]; [naive_solver lia|].
  destruct (is_digit c) eqn:Hc; cbn [negb andb]; [|naive_solver].
  assert (Hd : 0 <= digit_value c).
  { unfold is_digit, byte_in in Hc. apply andb_true_iff in Hc as [Hc%Z.leb_le _]. unfold digit_value. lia. }
  pose proof (digits_value_ge s (acc * 10 + digit_value c) ltac:(lia)) as Hge.
  unfold in_i32, i32_max in *. destruct (_ && _) eqn:H10; cbn [negb].
  - destruct (_ && _) eqn:Hin in |- *; cbn [negb].
    + apply andb_true_iff in Hin as [_ Hin%Z.leb_le]. apply IH. lia.
    + split; [done|]. intros (Hs & -> & Hle). specialize (Hge Hs). lia.
  - split; [done|]. intros (Hs & -> & Hle). specialize (Hge Hs). lia.
Qed.

(** What [main] hands to [provision]: no empty name, and the two entity topics,
    compacted, with a partition count that is at least one. *)
Theorem main_options_sound `{Formats} `{SnapshotFormats} (var : string -> option string) (options : ProvisionOptions)
  (Hopt : main_options var = Ok options) :
  (forall name, name ∈ po_databases options -> name <> "")
  /\ map desc_topic (po_topics options) = ["products"; "orders"]
  /\ exists n, partitions_of var = Ok n /\ 1 <= n
     /\ forall d, d ∈ po_topics options -> topic_spec d = {| cleanup_policy := Compact; partitions := Some n; replication_factor := None |}.
Proof.
  unfold main_options in Hopt. apply bind_Ok in Hopt as (url & _ & Hopt). apply bind_Ok in Hopt as (brokers & _ & Hopt).
  apply bind_Ok in Hopt as (n & Hn & Hopt). apply bind_Ok in Hopt as (ds & Hds & [= <-]). cbn [po_databases po_topics].
  assert (Hds' : entity_topics n = Ok ds) by (destruct (entity_topics n); [by injection Hds as ->|done]).
  unfold entity_topics, with_partitions in Hds'. destruct (Z.ltb_spec n 1); [done|].
  assert (Ed : descriptor_of ProductSnapshot = Ok (Build_MessageDescriptor "product_snapshot" "products" compacted)
    /\ descriptor_of OrderSnapshot = Ok (Build_MessageDescriptor "order_snapshot" "orders" compacted))
    by (split; vm_compute; reflexivity).
  rewrite (proj1 Ed), (proj2 Ed) in Hds'. injection Hds' as <-. split_and!; [|done|].
  - intros name Hin. unfold databases_of in Hin. destruct (var _) as [l|].
    + apply list_elem_of_In, filter_In in Hin as [_ Hin]. by destruct name.
    + by repeat (apply elem_of_cons in Hin as [->|Hin]; [done|]); apply elem_of_nil in Hin.
  - exists n. split_and!; [done..|]. intros d Hd.
    by repeat (apply elem_of_cons in Hd as [->|Hd]; [done|]); apply elem_of_nil in Hd.
Qed.

(** ** A server *)

Module ProvSample.
#[local] Existing Instance TopicSample.client.
#[local] Existing Instance TopicSample.faithful.
#[local] Existing Instance WSample.formats.
#[local] Existing Instance CoSample.snapshot_formats.

(** The name inside the quotes of a [CREATE DATABASE]. *)
Definition named (sql : string) : string :=
  match Text.strip_prefix ("CREATE DATABASE " +:+ String dquote "") sql with
  | Some body => str_take (String.length body - 1) body
  | None => ""
  end.

Definition execute (sql : string) (s : gset string) : result SqlxError unit * gset string :=
  let name := str_take 63 (named sql) in
  if bool_decide (name ∈ s) then (Err (SqlxDatabase OtherKind (Some "42P04") "already exists"), s)
  else (Ok tt, {[ name ]} ∪ s).

#[local] Instance server : PgServer (gset string) := {| pg_connect _ s := (Ok tt, s); pg_execute := execute |}.

Lemma str_take_append n s t : n = String.length s -> str_take n (s +:+ t) = s.
Proof. intros ->. unfold str_take. induction s as [|c s IH]; [by destruct t|].
  change (String c (String.substring 0 (String.length s) (s +:+ t)) = String c s). by rewrite IH.
Qed.

Lemma named_create name : named (create_database_sql name) = name.
Proof.
  unfold named, create_database_sql, quoted. cbn [String.append Text.strip_prefix Ascii.eqb Bool.eqb].
  cbn. apply str_take_append. rewrite length_append. cbn. lia.
Qed.

#[local] Instance faithful_server : FaithfulServer (gset string).
Proof.
  refine {| databases := id |}; [by intros url s r s' [= <- <-]|].
  intros name s r s' _ _. cbn [pg_execute server]. unfold execute. rewrite named_create.
  case_bool_decide as Hin; intros [= <- <-]; [|done]. split; [by left|done].
Defined.

Definition options : ProvisionOptions := {|
  admin_database_url := "postgres://"; po_databases := EXAMPLE_DATABASES; po_brokers := "kafka:9092";
  po_topics := match entity_topics 1 with Ok ds => ds | Err _ => [] end |}.

Abbreviation run w := (provision (fun _ => Ok tt) options w).
Abbreviation world := ({[ "postgres"; "order_service" ]} : gset string, TopicSample.empty_broker).

Lemma runs_Ok :
  match (run world).1 with Ok r => report_databases r | Err _ => [] end
  = [("product_service", Created); ("order_service", AlreadyExisted)].
Proof. vm_compute. reflexivity. Qed.

Lemma provision_converges_witness :
  match run world with
  | (Ok report, (s, b)) =>
      report_databases report = [("product_service", Created); ("order_service", AlreadyExisted)]
      /\ "product_service" ∈ s
      /\ TopicSample.held (run (s, b)).2.2 = TopicSample.held b
  | _ => False
  end.
Proof.
  pose proof runs_Ok as Hr. destruct (run world) as [[report|e] [s b]] eqn:E; [|discriminate Hr].
  destruct (provision_converges (fun _ => Ok tt) options world.1 s world.2 b (Ok report) E) as (_ & _ & _ & Hok).
  destruct (Hok report eq_refl) as (_ & Hall & _ & _ & Hagain).
  split; [exact Hr|]. split; [apply Hall; apply elem_of_list_to_set; left|].
  destruct (run (s, b)) as [r2 [s2 b2]]. exact (proj1 (proj2 (Hagain r2 s2 b2 eq_refl))).
Defined.

Definition env (name : string) : option string :=
  if String.eqb name "TOPIC_PARTITIONS" then Some " 3 "
  else if String.eqb name "PROVISION_DATABASES" then Some "a, b,"
  else Some "value".

Lemma main_options_sound_witness :
  match main_options env with
  | Ok o => po_databases o = ["a"; "b"] /\ map desc_topic (po_topics o) = ["products"; "orders"]
  | Err _ => False
  end.
Proof.
  assert (Ho : match main_options env with Ok o => po_databases o | Err _ => [] end = ["a"; "b"])
    by (vm_compute; reflexivity).
  destruct (main_options env) as [o|e] eqn:E; [|discriminate Ho].
  split; [exact Ho|]. exact (proj1 (proj2 (main_options_sound env o E))).
Defined.
End ProvSample.
