(* ===== verification/Metrics.v ===== *)
(** * Metrics: the instruments of the loops

    Models [src/crates/kafkaman-worker/src/metrics.rs], [src/crates/kafkaman-rdkafka/src/metrics.rs]
    and the recordings of the run loops that own the instruments. The
    OpenTelemetry API is a global: an instrument is bound to the meter provider
    installed when it is created, for good, and a measurement goes to that
    provider or nowhere.

    A measurement is kept as the program hands it over: the instrument, the value
    and the attributes. A series is an instrument with one list of attributes. *)

From S2P Require Import Prelude Text Vocabulary Trace Identity Registry Outbox OutboxOrder Lifecycle Relay Received Cache.
From S2P Require Import Dispatch Worker Wire Ingest.
From Stdlib Require Import SpecFloat QArith.
Open Scope string_scope.
Open Scope list_scope.
Open Scope Z_scope.

(** ** The OpenTelemetry API *)

Abbreviation KeyValue := (string * string)%type (only parsing).
Abbreviation ProviderId := nat (only parsing).

Inductive InstrumentKind := U64Counter | F64Histogram (boundaries : list Q).
Record Instrument := {
  in_name : string;
  in_kind : InstrumentKind;
  in_unit : string;
  in_description : string;
  in_provider : option ProviderId;
}.

Inductive Value := Count (n : Z) | Observed (x : f64).
Record Measurement := {
  me_provider : ProviderId;
  me_instrument : string;
  me_value : Value;
  me_attributes : list KeyValue;
}.

(** The global: the provider installed, and what providers have been handed. *)
Record MeterWorld := { mw_installed : option ProviderId; mw_delivered : list Measurement }.

(** [global::meter("kafkaman")] and an instrument builder. *)
Definition instrument (kind : InstrumentKind) (name description unit_ : string) (w : MeterWorld) : Instrument :=
  {| in_name := name; in_kind := kind; in_unit := unit_; in_description := description;
     in_provider := mw_installed w |}.

(** [Counter::add] and [Histogram::record]. *)
Definition record (i : Instrument) (v : Value) (attributes : list KeyValue) (w : MeterWorld) : MeterWorld :=
  match in_provider i with
  | Some p =>
      {| mw_installed := mw_installed w;
         mw_delivered := mw_delivered w ++ [{| me_provider := p; me_instrument := in_name i; me_value := v;
                                               me_attributes := attributes |}] |}
  | None => w
  end.
Definition add (i : Instrument) (n : Z) : list KeyValue -> MeterWorld -> MeterWorld := record i (Count n).

(** [std::time::Duration::as_secs_f64]. *)
Definition NANOS_PER_SEC : Z := 1000000000.
Definition as_secs_f64 (d : interval) : f64 :=
  SFadd 53 1024 (f64_of_Z (d / NANOS_PER_SEC))
    (SFdiv 53 1024 (f64_of_Z (d mod NANOS_PER_SEC)) (f64_of_Z NANOS_PER_SEC)).

(** [time::Duration::as_seconds_f64], with what is relied on: the sign. *)
Class TimeCrate := {
  as_seconds_f64 : interval -> f64;
  as_seconds_negative : forall d, SFltb (as_seconds_f64 d) (S754_zero false) = (d <? 0);
}.

(** ** The scheduler loops *)

Definition STEP_LATENCY_BUCKETS : list Q :=
  [5 # 1000; 1 # 100; 25 # 1000; 5 # 100; 1 # 10; 25 # 100; 5 # 10; 1; 25 # 10; 5; 10]%Q.
Definition QUEUE_LATENCY_BUCKETS : list Q :=
  [5 # 100; 1 # 10; 25 # 100; 5 # 10; 1; 25 # 10; 5; 10; 30; 60; 300; 900]%Q.

Definition MESSAGING_DESTINATION_NAME := "messaging.destination.name".
Definition messaging_system : KeyValue := ("messaging.system", "kafka").

Record SchedulerMetrics := {
  sm_cycles : Instrument;
  sm_rows : Instrument;
  sm_errors : Instrument;
  sm_base : KeyValue * KeyValue;
}.

Definition scheduler_new (scheduler mt : string) (w : MeterWorld) : SchedulerMetrics := {|
  sm_cycles := instrument U64Counter "kafkaman.scheduler.cycles"
    "Scheduler cycles completed by kafkaman workers" "{cycle}" w;
  sm_rows := instrument U64Counter "kafkaman.scheduler.rows"
    "Rows observed or transitioned by kafkaman schedulers" "{row}" w;
  sm_errors := instrument U64Counter "kafkaman.scheduler.errors"
    "Scheduler cycles that returned an error before completion" "{error}" w;
  sm_base := (("scheduler", scheduler), ("message_type", mt)) |}.

Definition base_attributes (m : SchedulerMetrics) : list KeyValue := [(sm_base m).1; (sm_base m).2].
Definition with_status (m : SchedulerMetrics) (status : string) : list KeyValue :=
  [(sm_base m).1; (sm_base m).2; ("status", status)].
Definition message_type_attribute (m : SchedulerMetrics) : list KeyValue := [(sm_base m).2].

Definition scheduler_cycle (m : SchedulerMetrics) : MeterWorld -> MeterWorld := add (sm_cycles m) 1 (base_attributes m).
Definition scheduler_rows (m : SchedulerMetrics) (status : string) (rows : nat) (w : MeterWorld) : MeterWorld :=
  if Nat.eqb rows 0 then w else add (sm_rows m) (Z.of_nat rows) (with_status m status) w.
Definition scheduler_error (m : SchedulerMetrics) : MeterWorld -> MeterWorld := add (sm_errors m) 1 (base_attributes m).

(** *** The relay *)

Record RelayMetrics := {
  rm_scheduler : SchedulerMetrics;
  rm_publish_duration : Instrument;
  rm_time_to_publish : Instrument;
  rm_message_type : list KeyValue;
}.

Definition relay_metrics_new (mt : string) (w : MeterWorld) : RelayMetrics :=
  let scheduler := scheduler_new "relay" mt w in {|
  rm_message_type := message_type_attribute scheduler;
  rm_scheduler := scheduler;
  rm_publish_duration := instrument (F64Histogram STEP_LATENCY_BUCKETS) "kafkaman.relay.publish.duration"
    "Time the relay spent publishing one row to the broker" "s" w;
  rm_time_to_publish := instrument (F64Histogram QUEUE_LATENCY_BUCKETS) "kafkaman.outbox.time_to_publish"
    "Time from the business event occurring to the broker acknowledging it" "s" w |}.

Definition relay_stats (m : RelayMetrics) (s : RelayStats) (w : MeterWorld) : MeterWorld :=
  let sm := rm_scheduler m in
  scheduler_rows sm "missing" (rs_missing s)
    (scheduler_rows sm "stale" (rs_stale s)
       (scheduler_rows sm "failed" (rs_failed s)
          (scheduler_rows sm "published" (rs_published s)
             (scheduler_rows sm "claimed" (rs_claimed s) (scheduler_cycle sm w))))).

Definition publish_attributes (topic outcome : string) : list KeyValue :=
  [("topic", topic); (MESSAGING_DESTINATION_NAME, topic); ("outcome", outcome); messaging_system].
Definition record_publish (m : RelayMetrics) (topic outcome : string) (elapsed : interval) : MeterWorld -> MeterWorld :=
  record (rm_publish_duration m) (Observed (as_secs_f64 elapsed)) (publish_attributes topic outcome).

(** [RelayMetrics::published]: an age that is negative is clock skew, and dropped. *)
Definition record_published `{TimeCrate} (m : RelayMetrics) (now occurred : instant) (w : MeterWorld) : MeterWorld :=
  let seconds := as_seconds_f64 (now - occurred) in
  if SFltb seconds (S754_zero false) then w
  else record (rm_time_to_publish m) (Observed seconds) (rm_message_type m) w.

(** What [relay_once_inner] records of one publish, before the mark. *)
Definition record_send `{TimeCrate} (m : RelayMetrics) (row : ClaimedOutboxRow) (published : result string PublishAck)
  (elapsed : interval) (now : instant) (w : MeterWorld) : MeterWorld :=
  let db := orow_db (claimed_row row) in
  let outcome := if is_ok published then "published" else "failed" in
  let w := record_publish m (topic db) outcome elapsed w in
  if is_ok published then record_published m now (occurred_at db) w else w.

(** *** The dispatcher *)

Record DispatchMetrics := {
  dm_scheduler : SchedulerMetrics;
  dm_duration : Instrument;
  dm_message_type : list KeyValue;
}.

Definition dispatch_metrics_new (mt : string) (w : MeterWorld) : DispatchMetrics :=
  let scheduler := scheduler_new "dispatcher" mt w in {|
  dm_message_type := message_type_attribute scheduler;
  dm_scheduler := scheduler;
  dm_duration := instrument (F64Histogram STEP_LATENCY_BUCKETS) "kafkaman.dispatch.duration"
    "Time to claim, handle, and record one received message" "s" w |}.

Definition dispatched (m : DispatchMetrics) (outcome : string) (elapsed : interval) : MeterWorld -> MeterWorld :=
  record (dm_duration m) (Observed (as_secs_f64 elapsed)) (dm_message_type m ++ [("outcome", outcome)]).

(** ** Publish and ingest *)

Record PublishMetrics := { pm_records : Instrument }.
Definition publish_metrics_new (w : MeterWorld) : PublishMetrics :=
  {| pm_records := instrument U64Counter "kafkaman.kafka.publish.records"
       "Kafka records published by kafkaman" "{record}" w |}.
Definition record_record (m : PublishMetrics) (topic outcome : string) : MeterWorld -> MeterWorld :=
  add (pm_records m) 1 (publish_attributes topic outcome).

Record IngestMetrics := {
  im_records : Instrument;
  im_commits : Instrument;
  im_errors : Instrument;
  im_identity : list KeyValue;
}.

Definition ingest_metrics_new (mt topic : string) (w : MeterWorld) : IngestMetrics := {|
  im_records := instrument U64Counter "kafkaman.kafka.ingest.records"
    "Kafka records consumed and durably classified by kafkaman" "{record}" w;
  im_commits := instrument U64Counter "kafkaman.kafka.ingest.commits"
    "Kafka offset commits made after a durable classification" "{commit}" w;
  im_errors := instrument U64Counter "kafkaman.kafka.ingest.errors"
    "Kafka ingest errors that did not produce a committed classification" "{error}" w;
  im_identity := [("message_type", mt); (MESSAGING_DESTINATION_NAME, topic); messaging_system] |}.

Definition ingest_attributes (m : IngestMetrics) (key value : string) : list KeyValue := im_identity m ++ [(key, value)].

Definition record_outcome (m : IngestMetrics) (outcome : string) (count : nat) (w : MeterWorld) : MeterWorld :=
  if Nat.eqb count 0 then w else add (im_records m) (Z.of_nat count) (ingest_attributes m "outcome" outcome) w.
Definition record_commit (m : IngestMetrics) (count : nat) (w : MeterWorld) : MeterWorld :=
  if Nat.eqb count 0 then w else add (im_commits m) (Z.of_nat count) (im_identity m) w.
Definition ingest_error (m : IngestMetrics) (reason : string) : MeterWorld -> MeterWorld :=
  add (im_errors m) 1 (ingest_attributes m "reason" reason).

(** The condition of the [debug_assert_eq!] of [IngestMetrics::stats]. *)
Definition partitions_consumed (s : IngestStats) : bool :=
  Nat.eqb (is_inserted s + is_duplicates s + is_skipped s) (is_consumed s).

(** [IngestMetrics::stats]; [None] is the failed assertion of a debug build. *)
Definition ingest_stats (m : IngestMetrics) (s : IngestStats) (w : MeterWorld) : option MeterWorld :=
  if partitions_consumed s then
    Some (record_commit m (is_committed s)
            (record_outcome m "skipped" (is_skipped s)
               (record_outcome m "duplicate" (is_duplicates s)
                  (record_outcome m "inserted" (is_inserted s) w))))
  else None.

(** ** The loops with their recordings *)

(** What a loop records of a cycle: the counters on success, the error counter
    on failure. The build without the [metrics] feature records nothing. *)
Record Meter (R : Type) := {
  on_stats : R -> MeterWorld -> MeterWorld;
  on_error : MeterWorld -> MeterWorld;
}.
Arguments on_stats {R} _ _ _.
Arguments on_error {R} _ _.
Definition on_cycle {R} (m : Meter R) (r : result Error R) : MeterWorld -> MeterWorld :=
  match r with Ok s => on_stats m s | Err _ => on_error m end.

Definition disabled {R} : Meter R := {| on_stats _ w := w; on_error w := w |}.
Definition relay_meter (m : RelayMetrics) : Meter RelayStats :=
  {| on_stats := relay_stats m; on_error := scheduler_error (rm_scheduler m) |}.
(** The purger: [usize::try_from] of a [u64] count does not fail on 64 bits. *)
Definition purge_meter (m : SchedulerMetrics) : Meter nat :=
  {| on_stats deleted w := scheduler_rows m "deleted" deleted (scheduler_cycle m w);
     on_error := scheduler_error m |}.
(** The dispatcher, with the time its cycle took. *)
Definition dispatch_meter (m : DispatchMetrics) : Meter (DispatchStats * interval) :=
  {| on_stats '(s, elapsed) w :=
       let sm := dm_scheduler m in
       let w := scheduler_rows sm "panicked" (ds_panicked s)
                  (scheduler_rows sm "failed" (ds_failed s)
                     (scheduler_rows sm "processed" (ds_processed s)
                        (scheduler_rows sm "claimed" (ds_claimed s) (scheduler_cycle sm w)))) in
       if Nat.ltb 0 (ds_claimed s) then dispatched m (dispatch_outcome s) elapsed w else w;
     on_error := scheduler_error (dm_scheduler m) |}.

(** [work_loop] with the recordings of [run] and [run_purger]. *)
Fixpoint metered_work_loop {R} (meter : Meter R) (work : R -> nat) (its : list (Iteration R)) (n : nat * nat)
  (w : MeterWorld) : Loop (nat * nat) * MeterWorld :=
  match its with
  | [] => (Running n, w)
  | it :: its =>
      if cancelled it then (Stopped (Ok tt), w)
      else
        let w := on_cycle meter (cycled it) w in
        let k := match cycled it with Ok r => work r | Err _ => 0%nat end in
        if Nat.ltb 0 k then metered_work_loop meter work its (S n.1, n.2) w
        else if slept it then metered_work_loop meter work its (S n.1, S n.2) w
        else (Stopped (Ok tt), w)
  end.

(** What one turn of the relay loop meets: the token, the sleep, what others did
    to the table since the last cycle, the cycle's surroundings, and by message
    the time a publish took and the clock when it had been acknowledged. *)
Record RelayTurn := {
  rt_cancelled : bool;
  rt_slept : bool;
  rt_meanwhile : Outbox -> Outbox;
  rt_publish : ClaimedOutboxRow -> Outbox -> result string PublishAck * Outbox;
  rt_mark_fault : uuid -> option SqlxError;
  rt_now : instant;
  rt_locked : uuid -> bool;
  rt_cid : uuid;
  rt_elapsed : uuid -> interval;
  rt_acknowledged : uuid -> instant;
}.

(** One publish as the cycle sees it. *)
Record Send := {
  sd_row : ClaimedOutboxRow;
  sd_published : result string PublishAck;
  sd_elapsed : interval;
  sd_at : instant;
}.

Section relay_loop.
Context `{TimeCrate} (cfg : RelayConfig).

Definition send_of (t : RelayTurn) (row : ClaimedOutboxRow) (c : Relay.Cycle) : Send :=
  {| sd_row := row; sd_published := (rt_publish t row (cy_table c)).1;
     sd_elapsed := rt_elapsed t (claimed_message_id row); sd_at := rt_acknowledged t (claimed_message_id row) |}.
(** [if let Some(metrics) = metrics]. *)
Definition note_send (m : option RelayMetrics) (s : Send) (w : MeterWorld) : MeterWorld :=
  match m with
  | Some m => record_send m (sd_row s) (sd_published s) (sd_elapsed s) (sd_at s) w
  | None => w
  end.

(** [relay_once_inner] with its recordings: each row's publish is recorded, then
    the row is marked. *)
Fixpoint metered_rows (m : option RelayMetrics) (t : RelayTurn) (claimed : list ClaimedOutboxRow) (c : Relay.Cycle)
  (w : MeterWorld) : result Error unit * Relay.Cycle * MeterWorld :=
  match claimed with
  | [] => (Ok tt, c, w)
  | row :: rest =>
      let w := note_send m (send_of t row c) w in
      match relay_row (rt_publish t) (rt_mark_fault t) (rt_now t) cfg row c with
      | (Ok _, c) => metered_rows m t rest c w
      | (Err e, c) => (Err e, c, w)
      end
  end.

Definition cycle_start (lifecycle : option LifecycleSampler) (stats : RelayStats) (table : Outbox) : Relay.Cycle :=
  {| cy_table := table; cy_stats := stats; cy_sampler := lifecycle; cy_sent := []; cy_events := [] |}.

Definition metered_relay_once (m : option RelayMetrics) (t : RelayTurn) (lifecycle : option LifecycleSampler)
  (ob : Outbox) (w : MeterWorld) : result Error RelayStats * Relay.Cycle * MeterWorld :=
  match lift_core (relay_validate cfg) with
  | Err e => (Err e, cycle_start lifecycle (no_stats 0) ob, w)
  | Ok _ =>
      match claim_batch (rt_now t) (rt_locked t) (worker_id cfg) (lease_for cfg) (batch_limit cfg) (rt_cid t) ob with
      | (Err e, ob') => (Err e, cycle_start lifecycle (no_stats 0) (rollback ob ob'), w)
      | (Ok claimed, ob') =>
          match metered_rows m t claimed (cycle_start lifecycle (no_stats (length claimed)) ob') w with
          | (Ok _, c, w) => (Ok (cy_stats c), c, w)
          | (Err e, c, w) => (Err e, c, w)
          end
      end
  end.

(** The loop of [relay::run], with the counters of each cycle; the sampler and
    the table go from cycle to cycle. *)
Fixpoint metered_relay_loop (m : option RelayMetrics) (turns : list RelayTurn) (n : nat * nat)
  (lifecycle : option LifecycleSampler) (ob : Outbox) (w : MeterWorld) : Loop (nat * nat) * Outbox * MeterWorld :=
  match turns with
  | [] => (Running n, ob, w)
  | t :: turns =>
      if rt_cancelled t then (Stopped (Ok tt), ob, w)
      else
        let '(res, c, w) := metered_relay_once m t lifecycle (rt_meanwhile t ob) w in
        let w := match m with Some m => on_cycle (relay_meter m) res w | None => w end in
        let k := match res with Ok s => rs_claimed s | Err _ => 0%nat end in
        if Nat.ltb 0 k then metered_relay_loop m turns (S n.1, n.2) (cy_sampler c) (cy_table c) w
        else if rt_slept t then metered_relay_loop m turns (S n.1, S n.2) (cy_sampler c) (cy_table c) w
        else (Stopped (Ok tt), cy_table c, w)
  end.

(** [relay::run] and [run_purger], which make their instruments after the
    configuration is validated. *)
Definition metered_run_relay (enabled : bool) (mt : string) (turns : list RelayTurn) (ob : Outbox)
  (w : MeterWorld) : Loop (nat * nat) * Outbox * MeterWorld :=
  match relay_validate cfg with
  | Err e => (Stopped (Err (WCore e)), ob, w)
  | Ok _ => metered_relay_loop (if enabled then Some (relay_metrics_new mt w) else None) turns (0%nat, 0%nat)
              (Some (sampler (relay_lifecycle cfg))) ob w
  end.
End relay_loop.

Definition metered_run_purger (enabled : bool) (mt : string) (cfg : PurgeConfig) (its : list (Iteration nat))
  (w : MeterWorld) : Loop (nat * nat) * MeterWorld :=
  match purge_validate cfg with
  | Err e => (Stopped (Err (WCore e)), w)
  | Ok _ => metered_work_loop (if enabled then purge_meter (scheduler_new "purger" mt w) else disabled)
              id its (0%nat, 0%nat) w
  end.

(** [run_dispatcher]; tripping the breaker is also counted as an error. *)
Fixpoint metered_dispatcher_loop (meter : Meter (DispatchStats * interval)) (limit : nat) (mt : string)
  (its : list (Iteration DispatchStats * interval)) (streak : gset uuid) (w : MeterWorld)
  : Loop (gset uuid) * MeterWorld :=
  match its with
  | [] => (Running streak, w)
  | (it, elapsed) :: its =>
      if cancelled it then (Stopped (Ok tt), w)
      else match cycled it with
      | Ok s =>
          let w := on_stats meter (s, elapsed) w in
          if trips limit streak s
          then (Stopped (Err (ConsecutivePanickingRowLimitExceeded limit mt (ds_panicked_message_id s))),
                on_error meter w)
          else if Nat.ltb 0 (ds_claimed s) then metered_dispatcher_loop meter limit mt its (next_streak streak s) w
          else if slept it then metered_dispatcher_loop meter limit mt its (next_streak streak s) w
          else (Stopped (Ok tt), w)
      | Err _ =>
          let w := on_error meter w in
          if slept it then metered_dispatcher_loop meter limit mt its streak w else (Stopped (Ok tt), w)
      end
  end.
Definition metered_run_dispatcher (enabled : bool) (cfg : DispatcherConfig) (mt : string)
  (its : list (Iteration DispatchStats * interval)) (w : MeterWorld) : Loop (gset uuid) * MeterWorld :=
  match dispatcher_validate cfg with
  | Err e => (Stopped (Err (WCore e)), w)
  | Ok _ => metered_dispatcher_loop (if enabled then dispatch_meter (dispatch_metrics_new mt w) else disabled)
              (max_consecutive_panicking_rows cfg) mt its ∅ w
  end.

Section ingester.
Context `{Formats} {P : Type} `{KafkaMessage P} {K : Type} (client : Client K).
Context (from_slice : string -> unwinding (result string P)).
Context (display : Error -> string) (rd_display : RdError -> string).
Context (cfg : ResolvedConfig) (limit : nat).

Abbreviation cycle x w := (ingest_once client from_slice display rd_display cfg limit x w).

(** The loop of [run_ingester]; [None] is a failed assertion. *)
Fixpoint metered_ingest_loop (m : IngestMetrics) (turns : list Turn) (l : IngestLoopStats) (ig : Ingester K)
  (w : MeterWorld) : option (IngestLoop * Ingester K * MeterWorld) :=
  match turns with
  | [] => Some (LoopRunning l, ig, w)
  | t :: turns =>
      if turn_cancelled t then Some (LoopStopped (Ok l), ig, w)
      else match cycle (turn_meets t) ig with
      | (Ok s, ig) =>
          w ← ingest_stats m s w;
          metered_ingest_loop m turns (record_cycle l s) ig w
      | (Err (RdConsecutiveSkipLimitExceeded _ _ _ as e), ig) =>
          Some (LoopStopped (Err e), ig, ingest_error m "consecutive_skip_limit" w)
      | (Err _, ig) =>
          let l := record_transient l in
          let w := ingest_error m "transient" w in
          if turn_slept t then metered_ingest_loop m turns l ig w else Some (LoopStopped (Ok l), ig, w)
      end
  end.

(** [run_ingester]. *)
Definition metered_run_ingester (turns : list Turn) (ig : Ingester K) (w : MeterWorld)
  : option (IngestLoop * Ingester K * MeterWorld) :=
  match descriptor_for P cfg with
  | Err e => Some (LoopStopped (Err (RdSqlx e)), ig, w)
  | Ok d => metered_ingest_loop (ingest_metrics_new (MESSAGE_TYPE P) (desc_topic d) w) turns loop_start ig w
  end.
End ingester.

(** ** Series *)

(** The sum of a counter's series at a provider. *)
Definition in_series (p : ProviderId) (name : string) (attributes : list KeyValue) (m : Measurement) : bool :=
  bool_decide (me_provider m = p /\ me_instrument m = name /\ me_attributes m = attributes).
Definition counted (m : Measurement) : Z := match me_value m with Count n => n | Observed _ => 0 end.
Definition series (p : ProviderId) (name : string) (attributes : list KeyValue) (w : MeterWorld) : Z :=
  foldr (fun m acc => counted m + acc) 0 (List.filter (in_series p name attributes) (mw_delivered w)).
(** The number of observations of a histogram's series. *)
Definition observations (p : ProviderId) (name : string) (attributes : list KeyValue) (w : MeterWorld) : nat :=
  length (List.filter (in_series p name attributes) (mw_delivered w)).

Lemma series_record p name a i v b w :
  series p name a (record i v b w)
  = series p name a w
    + (if bool_decide (in_provider i = Some p /\ in_name i = name /\ b = a)
       then match v with Count n => n | Observed _ => 0 end else 0).
Proof.
  unfold series, record. destruct (in_provider i) as [q|] eqn:Hq; cbn [mw_delivered].
  - rewrite List.filter_app, foldr_app. cbn [List.filter]. unfold in_series at 1. cbn.
    assert (Hf : forall l z, foldr (fun m acc => counted m + acc) z l = foldr (fun m acc => counted m + acc) 0 l + z).
    { induction l as [|x l IH]; intros z; [done|]. cbn. rewrite IH. lia. }
    rewrite Hf. repeat case_bool_decide; cbn; unfold counted; cbn; try naive_solver; destruct v; lia.
  - rewrite bool_decide_eq_false_2 by naive_solver. lia.
Qed.

(** A measurement on an instrument of another name leaves a series alone. *)
Lemma series_add p name a i n b w :
  series p name a (add i n b w)
  = series p name a w + (if bool_decide (in_provider i = Some p /\ in_name i = name /\ b = a) then n else 0).
Proof. apply series_record. Qed.

(** The loops read the same whatever they record. *)
Lemma metered_work_loop_fst {R} (meter : Meter R) work its : forall n w,
  (metered_work_loop meter work its n w).1 = work_loop work its n.
Proof.
  induction its as [|it its IH]; intros n w; [done|]. cbn [metered_work_loop work_loop].
  destruct (cancelled it); [done|]. repeat case_match; by rewrite ?IH.
Qed.
Lemma metered_dispatcher_loop_fst meter limit mt its : forall streak w,
  (metered_dispatcher_loop meter limit mt its streak w).1 = dispatcher_loop limit mt (map fst its) streak.
Proof.
  induction its as [|[it elapsed] its IH]; intros streak w; [done|]. cbn [metered_dispatcher_loop dispatcher_loop map fst].
  destruct (cancelled it); [done|]. destruct (cycled it); repeat case_match; by rewrite ?IH.
Qed.

(** ** What the series count *)

(** The answers of the cycles a loop ran: up to its cancellation, or the sleep it
    was woken from. *)
Fixpoint ran {R} (work : R -> nat) (its : list (Iteration R)) : list (result Error R) :=
  match its with
  | [] => []
  | it :: its =>
      if cancelled it then []
      else cycled it ::
        (if Nat.ltb 0 (match cycled it with Ok r => work r | Err _ => 0%nat end) || slept it then ran work its else [])
  end.

Lemma metered_work_loop_snd {R} (meter : Meter R) work its : forall n w,
  (metered_work_loop meter work its n w).2 = foldl (fun w r => on_cycle meter r w) w (ran work its).
Proof.
  induction its as [|it its IH]; intros n w; [done|]. cbn [metered_work_loop ran].
  destruct (cancelled it); [done|]. cbn [foldl].
  destruct (Nat.ltb 0 _); cbn [orb]; [apply IH|]. destruct (slept it); [apply IH|done].
Qed.

Definition sum (l : list Z) : Z := foldr Z.add 0 l.

(** When each cycle adds [f] to a series, a run adds the sum. *)
Lemma series_foldl {R} (on : R -> MeterWorld -> MeterWorld) (f : R -> Z) p name a :
  (forall r w, series p name a (on r w) = series p name a w + f r) ->
  forall rs w, series p name a (foldl (fun w r => on r w) w rs) = series p name a w + sum (map f rs).
Proof.
  intros Hon rs. induction rs as [|r rs IH]; intros w; cbn [foldl map sum foldr]; [lia|].
  rewrite IH, Hon. unfold sum. lia.
Qed.

Lemma disabled_foldl {R} (rs : list (result Error R)) w :
  foldl (fun w r => on_cycle disabled r w) w rs = w.
Proof. induction rs as [|[] rs IH]; [done..|]; exact IH. Qed.

(** The scheduler counters, at the provider installed when they were made. *)
Section scheduler.
Context (scheduler mt : string) (w0 : MeterWorld) (p : ProviderId) (Hp : mw_installed w0 = Some p).
Abbreviation sm := (scheduler_new scheduler mt w0).

Lemma scheduler_rows_counts status status' n w :
  series p "kafkaman.scheduler.rows" (with_status sm status) (scheduler_rows sm status' n w)
  = series p "kafkaman.scheduler.rows" (with_status sm status) w
    + (if bool_decide (status' = status) then Z.of_nat n else 0).
Proof.
  unfold scheduler_rows. destruct (Nat.eqb_spec n 0) as [->|]; [case_bool_decide; lia|].
  rewrite series_add. f_equal. cbn. rewrite Hp. case_bool_decide as E; case_bool_decide as E'; [done|..|done].
  - destruct E as (_ & _ & [= ?]). done.
  - destruct E. by subst.
Qed.

Lemma scheduler_rows_other name a status n w :
  name <> "kafkaman.scheduler.rows" -> series p name a (scheduler_rows sm status n w) = series p name a w.
Proof.
  intros Hn. unfold scheduler_rows. destruct (Nat.eqb n 0); [done|]. rewrite series_add.
  rewrite bool_decide_eq_false_2; [lia|]. intros (_ & E & _). by apply Hn.
Qed.

Lemma scheduler_cycle_counts name a w :
  series p name a (scheduler_cycle sm w)
  = series p name a w + (if bool_decide (name = "kafkaman.scheduler.cycles" /\ a = base_attributes sm) then 1 else 0).
Proof.
  unfold scheduler_cycle. rewrite series_add. f_equal. cbn. rewrite Hp.
  case_bool_decide as E; case_bool_decide as E'; try done; naive_solver.
Qed.

Lemma scheduler_error_counts name a w :
  series p name a (scheduler_error sm w)
  = series p name a w + (if bool_decide (name = "kafkaman.scheduler.errors" /\ a = base_attributes sm) then 1 else 0).
Proof.
  unfold scheduler_error. rewrite series_add. f_equal. cbn. rewrite Hp.
  case_bool_decide as E; case_bool_decide as E'; try done; naive_solver.
Qed.

End scheduler.

(** The rows a relay cycle settled under a status. *)
Definition relay_count (status : string) (s : RelayStats) : nat :=
  if bool_decide (status = "claimed") then rs_claimed s
  else if bool_decide (status = "published") then rs_published s
  else if bool_decide (status = "failed") then rs_failed s
  else if bool_decide (status = "stale") then rs_stale s
  else if bool_decide (status = "missing") then rs_missing s
  else 0%nat.

Lemma relay_cycle_rows mt w0 p status r w :
  mw_installed w0 = Some p ->
  series p "kafkaman.scheduler.rows" (with_status (scheduler_new "relay" mt w0) status)
    (on_cycle (relay_meter (relay_metrics_new mt w0)) r w)
  = series p "kafkaman.scheduler.rows" (with_status (scheduler_new "relay" mt w0) status) w
    + (match r with Ok s => Z.of_nat (relay_count status s) | Err _ => 0 end).
Proof.
  intros Hp. destruct r as [s|e]; cbn [on_cycle on_stats on_error relay_meter].
  - unfold relay_stats. cbn [rm_scheduler relay_metrics_new].
    rewrite !scheduler_rows_counts, scheduler_cycle_counts by done. unfold relay_count.
    rewrite (bool_decide_eq_false_2 (_ /\ _)) by (intros [? _]; done).
    repeat case_bool_decide; subst; try done; lia.
  - cbn [rm_scheduler relay_metrics_new]. rewrite scheduler_error_counts by done.
    by rewrite bool_decide_eq_false_2 by (intros [? _]; done).
Qed.

Lemma relay_cycle_outcome mt w0 p r w :
  mw_installed w0 = Some p ->
  let m := relay_meter (relay_metrics_new mt w0) in
  let base := base_attributes (scheduler_new "relay" mt w0) in
  series p "kafkaman.scheduler.cycles" base (on_cycle m r w)
    = series p "kafkaman.scheduler.cycles" base w + (if is_ok r then 1 else 0)
  /\ series p "kafkaman.scheduler.errors" base (on_cycle m r w)
    = series p "kafkaman.scheduler.errors" base w + (if is_ok r then 0 else 1).
Proof.
  intros Hp m base. destruct r as [s|e]; cbn [on_cycle on_stats on_error relay_meter m is_ok rm_scheduler relay_metrics_new].
  - unfold relay_stats. cbn [rm_scheduler relay_metrics_new].
    rewrite !scheduler_rows_other, !scheduler_cycle_counts by done. split; by case_bool_decide; naive_solver.
  - rewrite !scheduler_error_counts by done. split; by case_bool_decide; naive_solver.
Qed.

(** The ingest counters, at the provider installed when they were made. *)
Section ingest_series.
Context (mt topic : string) (w0 : MeterWorld) (p : ProviderId) (Hp : mw_installed w0 = Some p).
Abbreviation im := (ingest_metrics_new mt topic w0).
Abbreviation records outcome w := (series p "kafkaman.kafka.ingest.records" (ingest_attributes im "outcome" outcome) w).
Abbreviation commits w := (series p "kafkaman.kafka.ingest.commits" (im_identity im) w).
Abbreviation errors reason w := (series p "kafkaman.kafka.ingest.errors" (ingest_attributes im "reason" reason) w).

Lemma record_outcome_counts name a outcome n w :
  series p name a (record_outcome im outcome n w)
  = series p name a w
    + (if bool_decide (name = "kafkaman.kafka.ingest.records" /\ a = ingest_attributes im "outcome" outcome)
       then Z.of_nat n else 0).
Proof.
  unfold record_outcome. destruct (Nat.eqb_spec n 0) as [->|]; [case_bool_decide; lia|].
  rewrite series_add. f_equal. cbn. rewrite Hp.
  case_bool_decide as E; case_bool_decide as E'; try done; naive_solver.
Qed.
Lemma record_commit_counts name a n w :
  series p name a (record_commit im n w)
  = series p name a w
    + (if bool_decide (name = "kafkaman.kafka.ingest.commits" /\ a = im_identity im) then Z.of_nat n else 0).
Proof.
  unfold record_commit. destruct (Nat.eqb_spec n 0) as [->|]; [case_bool_decide; lia|].
  rewrite series_add. f_equal. cbn. rewrite Hp.
  case_bool_decide as E; case_bool_decide as E'; try done; naive_solver.
Qed.
Lemma ingest_error_counts name a reason w :
  series p name a (ingest_error im reason w)
  = series p name a w
    + (if bool_decide (name = "kafkaman.kafka.ingest.errors" /\ a = ingest_attributes im "reason" reason)
       then 1 else 0).
Proof.
  unfold ingest_error. rewrite series_add. f_equal. cbn. rewrite Hp.
  case_bool_decide as E; case_bool_decide as E'; try done; naive_solver.
Qed.

(** The series of a loop since it started are the statistics it keeps. *)
Definition agrees (w : MeterWorld) (l : IngestLoopStats) : Prop :=
  records "inserted" w = records "inserted" w0 + Z.of_nat (ls_inserted l)
  /\ records "duplicate" w = records "duplicate" w0 + Z.of_nat (ls_duplicates l)
  /\ records "skipped" w = records "skipped" w0 + Z.of_nat (ls_skipped l)
  /\ commits w = commits w0 + Z.of_nat (ls_committed l)
  /\ errors "transient" w = errors "transient" w0 + Z.of_nat (ls_transient_errors l)
  /\ errors "consecutive_skip_limit" w = errors "consecutive_skip_limit" w0
  /\ ls_consumed l = (ls_inserted l + ls_duplicates l + ls_skipped l)%nat.

Lemma agrees_start : agrees w0 loop_start.
Proof. unfold agrees. cbn. split_and!; lia. Qed.

Ltac count_series :=
  rewrite ?record_commit_counts, ?record_outcome_counts, ?ingest_error_counts;
  repeat match goal with
  | |- context [bool_decide ?Q] =>
      first [ rewrite (bool_decide_eq_true_2 Q) by (split; reflexivity)
            | rewrite (bool_decide_eq_false_2 Q) by (intros [En Ea]; first [discriminate En|discriminate Ea]) ]
  end.

Lemma agrees_stats w l s w' :
  agrees w l -> ingest_stats im s w = Some w' -> agrees w' (record_cycle l s).
Proof.
  unfold agrees, ingest_stats. intros (Hi & Hd & Hs & Hc & Ht & Hb & Hsum).
  destruct (partitions_consumed s) eqn:Hpc; [|done]. intros [= <-]. apply Nat.eqb_eq in Hpc.
  cbn [record_cycle ls_inserted ls_duplicates ls_skipped ls_committed ls_transient_errors ls_consumed].
  count_series. split_and!; lia.
Qed.
Lemma agrees_transient w l : agrees w l -> agrees (ingest_error im "transient" w) (record_transient l).
Proof.
  unfold agrees. intros (Hi & Hd & Hs & Hc & Ht & Hb & Hsum).
  cbn [record_transient ls_inserted ls_duplicates ls_skipped ls_committed ls_transient_errors ls_consumed].
  count_series. split_and!; lia.
Qed.
End ingest_series.

Section ingest_counts.
Context `{Formats} {P : Type} `{KafkaMessage P} {K : Type} (client : Client K).
Context (from_slice : string -> unwinding (result string P)).
Context (display : Error -> string) (rd_display : RdError -> string).
Context (cfg : ResolvedConfig) (limit : nat).

Abbreviation cycle x w := (ingest_once client from_slice display rd_display cfg limit x w).

(** A cycle that answers classified the one record it consumed exactly once. *)
Lemma ingest_once_partitions x ig s ig' : cycle x ig = (Ok s, ig') -> partitions_consumed s = true.
Proof.
  unfold ingest_once. cbv [mbind eff_bind lift].
  destruct (descriptor_for P cfg) as [d|e]; cbn [lift_sqlx]; [|done].
  destruct (recv client (ig_client ig)) as [[m|text] k]; [|done]. intros E.
  pose proof (decoded_handled client from_slice display rd_display cfg limit x m (with_client ig k) (desc_topic d)) as Hd.
  rewrite E in Hd. cbn [fst snd] in Hd. inversion Hd as [| |? ? answer ins dup skip ? ? ? Hone ? Hans].
  destruct answer; [|done]. injection Hans as <-. apply Nat.eqb_eq. exact Hone.
Qed.

Abbreviation metered m := (metered_ingest_loop client from_slice display rd_display cfg limit m).
Abbreviation loop := (ingest_loop client from_slice display rd_display cfg limit).

(** What a loop that ended, or is where it is, has reported. *)
Definition reported mt topic w0 (p : ProviderId) (w : MeterWorld) (out : IngestLoop) : Prop :=
  match out with
  | LoopRunning l | LoopStopped (Ok l) => agrees mt topic w0 p w l
  | LoopStopped (Err _) =>
      let a := ingest_attributes (ingest_metrics_new mt topic w0) "reason" "consecutive_skip_limit" in
      series p "kafkaman.kafka.ingest.errors" a w = series p "kafkaman.kafka.ingest.errors" a w0 + 1
  end.

(** A run from statistics [l] and world [w] of instruments made in [w0]. *)
Definition tracked mt topic w0 (l : IngestLoopStats) (w : MeterWorld)
  (run : option (IngestLoop * Ingester K * MeterWorld)) (out : IngestLoop * Ingester K) : Prop :=
  exists w', run = Some (out, w')
  /\ (mw_installed w0 = None -> w' = w)
  /\ forall p, mw_installed w0 = Some p -> agrees mt topic w0 p w l -> reported mt topic w0 p w' out.1.

Lemma tracked_now mt topic w0 l ig w out :
  out = LoopRunning l \/ out = LoopStopped (Ok l) ->
  tracked mt topic w0 l w (Some (out, ig, w)) (out, ig).
Proof. intros Hout. exists w. split_and!; [done..|]. intros p _ Ha. by destruct Hout as [->| ->]. Qed.

(** One failure that is retried. *)
Lemma tracked_transient mt topic w0 l w run out :
  tracked mt topic w0 (record_transient l) (ingest_error (ingest_metrics_new mt topic w0) "transient" w) run out ->
  tracked mt topic w0 l w run out.
Proof.
  intros (w' & Hr & Hn & Ha). exists w'. split; [done|]. split.
  - intros Hi. rewrite (Hn Hi). unfold ingest_error, add, record. cbn. by rewrite Hi.
  - intros p Hp Hag. apply Ha; [done|]. by apply agrees_transient.
Qed.

Lemma metered_loop_spec mt topic w0 : forall turns l ig w,
  tracked mt topic w0 l w (metered (ingest_metrics_new mt topic w0) turns l ig w) (loop turns l ig).
Proof.
  induction turns as [|t turns IH]; intros l ig w; cbn [metered_ingest_loop ingest_loop].
  { apply tracked_now. by left. }
  destruct (turn_cancelled t); [apply tracked_now; by right|].
  destruct (cycle (turn_meets t) ig) as [[s|e] ig'] eqn:Ec.
  - pose proof (ingest_once_partitions _ _ _ _ Ec) as Hpc.
    destruct (ingest_stats (ingest_metrics_new mt topic w0) s w) as [w1|] eqn:Ew; cbn [mbind option_bind].
    2: { unfold ingest_stats in Ew. by rewrite Hpc in Ew. }
    destruct (IH (record_cycle l s) ig' w1) as (w' & Hr & Hn & Ha). exists w'. split; [done|]. split.
    + intros Hi. rewrite (Hn Hi). unfold ingest_stats in Ew. rewrite Hpc in Ew. injection Ew as <-.
      unfold record_commit, record_outcome, add, record. cbn. rewrite Hi. by repeat case_match.
    + intros p Hp Hag. apply Ha; [done|]. by eapply agrees_stats.
  - destruct e; try (apply tracked_transient; destruct (turn_slept t); [apply IH|apply tracked_now; by right]).
    eexists. split; [done|]. split.
    + intros Hi. unfold ingest_error, add, record. cbn. by rewrite Hi.
    + intros p Hp (_ & _ & _ & _ & _ & Hb & _). cbn [fst reported].
      rewrite ingest_error_counts by done. rewrite bool_decide_eq_true_2 by done. by rewrite Hb.
Qed.
End ingest_counts.

(** C28. The ingest series partition the consumed records. Recording never
    disturbs the loop: with its instruments, a run answers and stores exactly
    what it does without them, and the assertion that the outcomes of a cycle
    add up to the records it consumed never fails. The series belong to the
    provider installed when the loop started, and are silent when there was
    none; there, since the start, the records counted as inserted, duplicate and
    skipped are those of the loop's own statistics and add up to the records
    consumed, commits and transient errors are its commits and transient errors,
    and the breaker is reported once, when it stops the loop. *)
Theorem ingest_metrics_exact `{Formats} {P : Type} `{KafkaMessage P} {K : Type} (client : Client K)
  (from_slice : string -> unwinding (result string P)) (display : Error -> string) (rd_display : RdError -> string)
  (cfg : ResolvedConfig) (limit : nat) (turns : list Turn) (ig : Ingester K) (w : MeterWorld) :
  exists w', metered_run_ingester client from_slice display rd_display cfg limit turns ig w
             = Some (run_ingester client from_slice display rd_display cfg limit turns ig, w')
  /\ (mw_installed w = None -> w' = w)
  /\ (forall p d, mw_installed w = Some p -> descriptor_for P cfg = Ok d ->
        reported (MESSAGE_TYPE P) (desc_topic d) w p w'
          (run_ingester client from_slice display rd_display cfg limit turns ig).1).
Proof.
  unfold metered_run_ingester, run_ingester. destruct (descriptor_for P cfg) as [d|e].
  - destruct (metered_loop_spec client from_slice display rd_display cfg limit (MESSAGE_TYPE P) (desc_topic d) w
                turns loop_start ig w) as (w' & Hr & Hn & Ha).
    exists w'. split_and!; [done..|]. intros p d' Hp [= <-]. apply Ha; [done|]. apply agrees_start.
  - exists w. by split_and!.
Qed.

(** ** The scheduler loops *)

(** Instruments made while no provider is installed record nothing, ever. *)
Lemma scheduler_silent scheduler mt w0 status n w :
  mw_installed w0 = None ->
  let m := scheduler_new scheduler mt w0 in
  scheduler_cycle m w = w /\ scheduler_rows m status n w = w /\ scheduler_error m w = w.
Proof.
  intros Hi. unfold scheduler_cycle, scheduler_rows, scheduler_error, add, record. cbn. rewrite Hi.
  split_and!; [done| |done]. by destruct (Nat.eqb n 0).
Qed.

Lemma silent_foldl {R} (meter : Meter R) rs w :
  (forall r w, on_cycle meter r w = w) -> foldl (fun w r => on_cycle meter r w) w rs = w.
Proof. intros Hs. induction rs as [|r rs IH]; [done|]. cbn. by rewrite Hs. Qed.

Lemma relay_meter_silent mt w0 r w :
  mw_installed w0 = None -> on_cycle (relay_meter (relay_metrics_new mt w0)) r w = w.
Proof.
  intros Hi. pose proof (fun st n w => scheduler_silent "relay" mt w0 st n w Hi) as Hs.
  destruct r as [s|e]; cbn [on_cycle on_stats on_error relay_meter]; [|exact (proj2 (proj2 (Hs "" 0%nat w)))].
  assert (Hr : forall st n w, scheduler_rows (scheduler_new "relay" mt w0) st n w = w) by apply Hs.
  unfold relay_stats. cbn [rm_scheduler relay_metrics_new]. by rewrite (proj1 (Hs "" 0%nat w)), !Hr.
Qed.

Lemma dispatcher_silent meter limit mt its : forall streak w,
  (forall s w, on_stats meter s w = w) -> (forall w, on_error meter w = w) ->
  (metered_dispatcher_loop meter limit mt its streak w).2 = w.
Proof.
  intros streak w Hs He. revert streak. induction its as [|[it elapsed] its IH]; intros streak; [done|].
  cbn [metered_dispatcher_loop]. destruct (cancelled it); [done|].
  destruct (cycled it); rewrite ?Hs, ?He; repeat case_match; rewrite ?He; done.
Qed.

Lemma dispatch_meter_silent mt w0 :
  mw_installed w0 = None ->
  let m := dispatch_meter (dispatch_metrics_new mt w0) in
  (forall s w, on_stats m s w = w) /\ forall w, on_error m w = w.
Proof.
  intros Hi. pose proof (fun st n w => scheduler_silent "dispatcher" mt w0 st n w Hi) as Hs. split.
  - intros [s elapsed] w. cbn [on_stats dispatch_meter dm_scheduler dispatch_metrics_new].
    assert (Hr : forall st n w, scheduler_rows (scheduler_new "dispatcher" mt w0) st n w = w) by apply Hs.
    rewrite (proj1 (Hs "" 0%nat w)), !Hr.
    unfold dispatched, record. cbn. rewrite Hi. by case_match.
  - intros w. apply (Hs "" 0%nat w).
Qed.

(** ** Observations *)

Lemma observations_record p name a i v b w :
  observations p name a (record i v b w)
  = (observations p name a w
     + (if bool_decide (in_provider i = Some p /\ in_name i = name /\ b = a) then 1 else 0))%nat.
Proof.
  unfold observations, record. destruct (in_provider i) as [q|]; cbn [mw_delivered].
  - rewrite List.filter_app, length_app. f_equal. cbn [List.filter]. unfold in_series. cbn.
    case_bool_decide; case_bool_decide; try done; naive_solver.
  - rewrite bool_decide_eq_false_2 by naive_solver. lia.
Qed.

(** Each publish is timed once, under its topic and outcome; its age in the
    outbox is observed once when it was acknowledged, unless the row occurs in
    the future. *)
Theorem send_observed `{TimeCrate} (mt : string) (w0 w : MeterWorld) (p : ProviderId) (row : ClaimedOutboxRow)
  (published : result string PublishAck) (elapsed : interval) (now : instant) (Hp : mw_installed w0 = Some p) :
  let w' := record_send (relay_metrics_new mt w0) row published elapsed now w in
  let db := orow_db (claimed_row row) in
  let outcome := if is_ok published then "published" else "failed" in
  (forall a, observations p "kafkaman.relay.publish.duration" a w'
             = (observations p "kafkaman.relay.publish.duration" a w
                + (if bool_decide (publish_attributes (topic db) outcome = a) then 1 else 0))%nat)
  /\ observations p "kafkaman.outbox.time_to_publish" [("message_type", mt)] w'
     = (observations p "kafkaman.outbox.time_to_publish" [("message_type", mt)] w
        + (if is_ok published && (occurred_at db <=? now)%Z then 1 else 0))%nat.
Proof.
  intros w' db outcome. subst w'. unfold record_send. fold db outcome.
  unfold record_published, record_publish. rewrite as_seconds_negative.
  destruct (is_ok published) eqn:Hok; cbn [andb].
  - destruct (Z.ltb_spec (now - occurred_at db) 0), (Z.leb_spec (occurred_at db) now); try lia;
      rewrite ?observations_record; cbn [in_provider in_name instrument rm_publish_duration rm_time_to_publish
        relay_metrics_new rm_message_type message_type_attribute scheduler_new sm_base snd]; rewrite Hp; split;
      intros; rewrite ?observations_record; cbn; rewrite ?Hp; repeat case_bool_decide; naive_solver lia.
  - split; intros; rewrite ?observations_record; cbn; rewrite Hp; repeat case_bool_decide; naive_solver lia.
Qed.

(** ** A relay without instruments *)

Section course.
Context `{TimeCrate} (cfg : RelayConfig).

(** The publishes of a cycle, with the broker's answers. *)
Fixpoint row_sends (t : RelayTurn) (claimed : list ClaimedOutboxRow) (c : Relay.Cycle) : list Send :=
  match claimed with
  | [] => []
  | row :: rest =>
      send_of t row c ::
      match relay_row (rt_publish t) (rt_mark_fault t) (rt_now t) cfg row c with
      | (Ok _, c) => row_sends t rest c
      | (Err _, _) => []
      end
  end.

Definition plain_once (t : RelayTurn) (lifecycle : option LifecycleSampler) (ob : Outbox)
  : result Error RelayStats * Relay.Cycle :=
  relay_once_inner (rt_publish t) (rt_mark_fault t) (rt_now t) cfg (rt_locked t) (rt_cid t) lifecycle ob.

Definition turn_sends (t : RelayTurn) (lifecycle : option LifecycleSampler) (ob : Outbox) : list Send :=
  match relay_validate cfg,
        claim_batch (rt_now t) (rt_locked t) (worker_id cfg) (lease_for cfg) (batch_limit cfg) (rt_cid t) ob with
  | Ok _, (Ok claimed, ob') => row_sends t claimed (cycle_start lifecycle (no_stats (length claimed)) ob')
  | _, _ => []
  end.

(** The cycles of a relay, one after the other on the table, as the iterations of
    the plain loop, each with its publishes. *)
Fixpoint relay_course (turns : list RelayTurn) (lifecycle : option LifecycleSampler) (ob : Outbox)
  : list (Iteration RelayStats * list Send) :=
  match turns with
  | [] => []
  | t :: turns =>
      let ob := rt_meanwhile t ob in
      let '(res, c) := plain_once t lifecycle ob in
      ({| cancelled := rt_cancelled t; cycled := res; slept := rt_slept t |}, turn_sends t lifecycle ob)
        :: relay_course turns (cy_sampler c) (cy_table c)
  end.

Lemma row_sends_sent t claimed : forall c,
  cy_sent (relay_rows (rt_publish t) (rt_mark_fault t) (rt_now t) cfg claimed c).2
  = cy_sent c ++ map sd_row (row_sends t claimed c).
Proof.
  induction claimed as [|row rest IH]; intros c; cbn [relay_rows row_sends map]; [by rewrite app_nil_r|].
  pose proof (relay_row_accounts (rt_publish t) (rt_mark_fault t) (rt_now t) cfg row c) as Hr.
  destruct (relay_row _ _ _ _ _ c) as [[u|e] c']; destruct Hr as (Hs & _); cbn [snd].
  - by rewrite IH, Hs, <- app_assoc.
  - by rewrite Hs.
Qed.

(** They are the rows the cycle sent. *)
Lemma turn_sends_sent t lifecycle ob : map sd_row (turn_sends t lifecycle ob) = cy_sent (plain_once t lifecycle ob).2.
Proof.
  unfold turn_sends, plain_once, relay_once_inner. destruct (relay_validate cfg) as [u|e]; [|done]. cbn [lift_core].
  destruct (claim_batch _ _ _ _ _ _ ob) as [[claimed|e] ob']; [|done].
  pose proof (row_sends_sent t claimed (cycle_start lifecycle (no_stats (length claimed)) ob')) as Hs.
  fold (cycle_start lifecycle (no_stats (length claimed)) ob').
  by destruct (relay_rows _ _ _ _ claimed _) as [[]]; cbn in Hs |- *.
Qed.

Lemma metered_rows_spec m t claimed : forall c w,
  metered_rows cfg m t claimed c w
  = (relay_rows (rt_publish t) (rt_mark_fault t) (rt_now t) cfg claimed c,
     foldl (fun w s => note_send m s w) w (row_sends t claimed c)).
Proof.
  induction claimed as [|row rest IH]; intros c w; [done|]. cbn [metered_rows relay_rows row_sends foldl].
  destruct (relay_row _ _ _ _ _ c) as [[u|e] c']; [apply IH|done].
Qed.

Lemma metered_relay_once_spec m t lifecycle ob w :
  metered_relay_once cfg m t lifecycle ob w
  = (plain_once t lifecycle ob, foldl (fun w s => note_send m s w) w (turn_sends t lifecycle ob)).
Proof.
  unfold metered_relay_once, plain_once, relay_once_inner, turn_sends, cycle_start.
  destruct (relay_validate cfg) as [u|e]; [|done]. cbn [lift_core].
  destruct (claim_batch _ _ _ _ _ _ ob) as [[claimed|e] ob']; [|done]. rewrite metered_rows_spec.
  by destruct (relay_rows _ _ _ _ claimed _) as [[]].
Qed.

(** What one cycle with its publishes adds to the world. *)
Definition note_cycle (m : option RelayMetrics) (w : MeterWorld) (x : result Error RelayStats * list Send) : MeterWorld :=
  let w := foldl (fun w s => note_send m s w) w x.2 in
  match m with Some m => on_cycle (relay_meter m) x.1 w | None => w end.

(** The cycles a loop ran, with what came of each. *)
Fixpoint ran_with {R X} (work : R -> nat) (its : list (Iteration R * X)) : list (result Error R * X) :=
  match its with
  | [] => []
  | (it, x) :: its =>
      if cancelled it then []
      else (cycled it, x) ::
        (if Nat.ltb 0 (match cycled it with Ok r => work r | Err _ => 0%nat end) || slept it then ran_with work its else [])
  end.

Lemma ran_with_fst {R X} (work : R -> nat) (its : list (Iteration R * X)) :
  map fst (ran_with work its) = ran work (map fst its).
Proof.
  induction its as [|[it x] its IH]; [done|]. cbn [ran_with ran map fst]. destruct (cancelled it); [done|].
  cbn [map fst]. f_equal. by destruct (_ || _).
Qed.

Lemma metered_relay_loop_spec m : forall turns n lifecycle ob w,
  let course := relay_course turns lifecycle ob in
  (metered_relay_loop cfg m turns n lifecycle ob w).1.1 = work_loop rs_claimed (map fst course) n
  /\ (metered_relay_loop cfg m turns n lifecycle ob w).2 = foldl (note_cycle m) w (ran_with rs_claimed course)
  /\ (metered_relay_loop cfg m turns n lifecycle ob w).1.2
     = (metered_relay_loop cfg None turns n lifecycle ob w).1.2.
Proof.
  assert (Hob : forall turns n lifecycle ob w w', (metered_relay_loop cfg m turns n lifecycle ob w).1.2
                = (metered_relay_loop cfg None turns n lifecycle ob w').1.2).
  { induction turns as [|t turns IH]; intros n lifecycle ob w w'; [done|]. cbn [metered_relay_loop].
    destruct (rt_cancelled t); [done|]. rewrite !metered_relay_once_spec.
    destruct (plain_once t lifecycle _) as [res c]. cbn beta iota.
    destruct (Nat.ltb 0 _); [apply IH|]. destruct (rt_slept t); [apply IH|done]. }
  induction turns as [|t turns IH]; intros n lifecycle ob w; [done|]. cbn zeta.
  split_and!; [..|apply Hob]; cbn [metered_relay_loop relay_course]; rewrite metered_relay_once_spec;
    destruct (plain_once t lifecycle _) as [res c]; cbn [map fst work_loop ran_with cancelled cycled slept];
    (destruct (rt_cancelled t); [done|]); cbn [foldl].
  - destruct (Nat.ltb 0 _); [apply IH|]. destruct (rt_slept t); [apply IH|done].
  - destruct (Nat.ltb 0 _); cbn [orb]; [apply IH|]. destruct (rt_slept t); [apply IH|done].
Qed.
End course.

Lemma record_send_series `{TimeCrate} p name a m row published elapsed now w :
  series p name a (record_send m row published elapsed now w) = series p name a w.
Proof.
  unfold record_send, record_published, record_publish.
  repeat case_match; rewrite ?series_record; repeat case_bool_decide; lia.
Qed.

Lemma note_sends_series `{TimeCrate} p name a m sends : forall w,
  series p name a (foldl (fun w s => note_send m s w) w sends) = series p name a w.
Proof.
  induction sends as [|s sends IH]; intros w; [done|]. cbn [foldl]. rewrite IH. unfold note_send.
  destruct m; [apply record_send_series|done].
Qed.

Lemma note_sends_silent `{TimeCrate} mt w0 sends : forall w,
  mw_installed w0 = None ->
  foldl (fun w s => note_send (Some (relay_metrics_new mt w0)) s w) w sends = w.
Proof.
  intros w Hi. induction sends as [|s sends IH]; [done|]. cbn [foldl].
  replace (note_send _ s w) with w; [done|]. unfold note_send, record_send, record_published, record_publish, record.
  cbn. rewrite Hi. by repeat case_match.
Qed.

Lemma note_cycles_silent `{TimeCrate} m cycles : forall w,
  m = None \/ (exists mt w0, m = Some (relay_metrics_new mt w0) /\ mw_installed w0 = None) ->
  foldl (note_cycle m) w cycles = w.
Proof.
  intros w Hm. induction cycles as [|[r sends] cycles IH]; [done|]. cbn [foldl].
  replace (note_cycle m w (r, sends)) with w; [done|]. symmetry. unfold note_cycle. cbn [fst snd].
  destruct Hm as [->|(mt & w0 & -> & Hi)].
  - clear. induction sends; done.
  - rewrite note_sends_silent by done. by apply relay_meter_silent.
Qed.

(** *** The histograms of a run *)

(** Counters leave the observations of another instrument alone. *)
Lemma relay_cycle_observations mt w0 p name a r w :
  name <> "kafkaman.scheduler.cycles" -> name <> "kafkaman.scheduler.rows" -> name <> "kafkaman.scheduler.errors" ->
  observations p name a (on_cycle (relay_meter (relay_metrics_new mt w0)) r w) = observations p name a w.
Proof.
  intros H1 H2 H3.
  assert (Hr : forall status n w, observations p name a (scheduler_rows (scheduler_new "relay" mt w0) status n w)
                                  = observations p name a w).
  { intros status n w'. unfold scheduler_rows. destruct (Nat.eqb n 0); [done|]. unfold add. rewrite observations_record.
    rewrite bool_decide_eq_false_2; [lia|]. cbn. naive_solver. }
  destruct r as [s|e]; cbn [on_cycle on_stats on_error relay_meter].
  - unfold relay_stats. cbn [rm_scheduler relay_metrics_new]. rewrite !Hr. unfold scheduler_cycle, add.
    rewrite observations_record, bool_decide_eq_false_2; [lia|]. cbn. naive_solver.
  - cbn [rm_scheduler relay_metrics_new]. unfold scheduler_error, add.
    rewrite observations_record, bool_decide_eq_false_2; [lia|]. cbn. naive_solver.
Qed.

(** A publish to [topic] that ended as [outcome]; one that was acknowledged, of a
    row that does not lie in the future. *)
Definition sent_as (topic_ outcome : string) (s : Send) : bool :=
  bool_decide (topic (orow_db (claimed_row (sd_row s))) = topic_)
  && bool_decide ((if is_ok (sd_published s) then "published" else "failed") = outcome).
Definition aged (s : Send) : bool :=
  is_ok (sd_published s) && (occurred_at (orow_db (claimed_row (sd_row s))) <=? sd_at s)%Z.

Lemma note_cycles_observations `{TimeCrate} mt w0 p name a (f : Send -> bool) :
  name <> "kafkaman.scheduler.cycles" -> name <> "kafkaman.scheduler.rows" -> name <> "kafkaman.scheduler.errors" ->
  (forall s w, observations p name a (note_send (Some (relay_metrics_new mt w0)) s w)
               = (observations p name a w + if f s then 1 else 0)%nat) ->
  forall cycles w,
  observations p name a (foldl (note_cycle (Some (relay_metrics_new mt w0))) w cycles)
  = (observations p name a w + sql_count f (concat (map snd cycles)))%nat.
Proof.
  intros H1 H2 H3 Hone.
  assert (Hsends : forall sends w, observations p name a
      (foldl (fun w s => note_send (Some (relay_metrics_new mt w0)) s w) w sends)
      = (observations p name a w + sql_count f sends)%nat).
  { induction sends as [|s sends IH]; intros w; cbn [foldl]; [unfold sql_count; cbn; lia|].
    rewrite IH, Hone. unfold sql_count. cbn [List.filter]. destruct (f s); cbn [length]; lia. }
  induction cycles as [|[r sends] cycles IH]; intros w; cbn [foldl map concat snd]; [unfold sql_count; cbn; lia|].
  rewrite IH. unfold note_cycle. cbn [fst snd]. rewrite relay_cycle_observations, Hsends by done.
  unfold sql_count. rewrite List.filter_app, length_app. lia.
Qed.

(** What a relay that ran [cycles] from the world [w] has added at [p]. *)
Record relay_series_exact (mt : string) (p : ProviderId) (cycles : list (result Error RelayStats * list Send))
  (w w' : MeterWorld) : Prop := {
  rse_cycles : let base := base_attributes (scheduler_new "relay" mt w) in
    series p "kafkaman.scheduler.cycles" base w'
    = series p "kafkaman.scheduler.cycles" base w + sum (map (fun x => if is_ok x.1 then 1 else 0) cycles);
  rse_errors : let base := base_attributes (scheduler_new "relay" mt w) in
    series p "kafkaman.scheduler.errors" base w'
    = series p "kafkaman.scheduler.errors" base w + sum (map (fun x => if is_ok x.1 then 0 else 1) cycles);
  rse_rows : forall status, let rows := with_status (scheduler_new "relay" mt w) status in
    series p "kafkaman.scheduler.rows" rows w'
    = series p "kafkaman.scheduler.rows" rows w
      + sum (map (fun x => match x.1 with Ok s => Z.of_nat (relay_count status s) | Err _ => 0 end) cycles);
  rse_durations : forall topic_ outcome,
    observations p "kafkaman.relay.publish.duration" (publish_attributes topic_ outcome) w'
    = (observations p "kafkaman.relay.publish.duration" (publish_attributes topic_ outcome) w
       + sql_count (sent_as topic_ outcome) (concat (map snd cycles)))%nat;
  rse_ages : observations p "kafkaman.outbox.time_to_publish" [("message_type", mt)] w'
    = (observations p "kafkaman.outbox.time_to_publish" [("message_type", mt)] w
       + sql_count aged (concat (map snd cycles)))%nat;
}.

Lemma note_cycles_exact `{TimeCrate} mt p cycles w :
  mw_installed w = Some p ->
  relay_series_exact mt p cycles w (foldl (note_cycle (Some (relay_metrics_new mt w))) w cycles).
Proof.
  intros Hp.
  assert (Hfold : forall name a (g : result Error RelayStats * list Send -> Z),
    (forall r w', series p name a (on_cycle (relay_meter (relay_metrics_new mt w)) r.1 w') = series p name a w' + g r) ->
    series p name a (foldl (note_cycle (Some (relay_metrics_new mt w))) w cycles)
    = series p name a w + sum (map g cycles)).
  { intros name a g Hg. apply (series_foldl (fun r w' => note_cycle (Some (relay_metrics_new mt w)) w' r)).
    intros r w'. unfold note_cycle. rewrite Hg, note_sends_series. done. }
  constructor.
  - apply Hfold. intros [r sends] w'. by apply relay_cycle_outcome.
  - apply Hfold. intros [r sends] w'. by apply relay_cycle_outcome.
  - intros status. apply Hfold. intros [r sends] w'. by apply relay_cycle_rows.
  - intros topic_ outcome. apply note_cycles_observations; [done..|]. intros sd w'. unfold note_send.
    rewrite (proj1 (send_observed mt w w' p _ _ _ _ Hp)). unfold sent_as. f_equal.
    case_bool_decide as E; repeat case_bool_decide; cbn [andb]; try done; unfold publish_attributes in E; congruence.
  - apply note_cycles_observations; [done..|]. intros sd w'. unfold note_send.
    by rewrite (proj2 (send_observed mt w w' p _ _ _ _ Hp)).
Qed.

(** What a purger that ran [answers] from the world [w] has added at [p]. *)
Definition purge_series_exact (mt : string) (p : ProviderId) (answers : list (result Error nat)) (w w' : MeterWorld)
  : Prop :=
  let m := scheduler_new "purger" mt w in
  series p "kafkaman.scheduler.cycles" (base_attributes m) w'
    = series p "kafkaman.scheduler.cycles" (base_attributes m) w + sum (map (fun r => if is_ok r then 1 else 0) answers)
  /\ series p "kafkaman.scheduler.errors" (base_attributes m) w'
    = series p "kafkaman.scheduler.errors" (base_attributes m) w + sum (map (fun r => if is_ok r then 0 else 1) answers)
  /\ series p "kafkaman.scheduler.rows" (with_status m "deleted") w'
    = series p "kafkaman.scheduler.rows" (with_status m "deleted") w
      + sum (map (fun r => match r with Ok n => Z.of_nat n | Err _ => 0 end) answers).

Lemma purge_meter_silent mt w0 r w :
  mw_installed w0 = None -> on_cycle (purge_meter (scheduler_new "purger" mt w0)) r w = w.
Proof.
  intros Hi. pose proof (fun st n w => scheduler_silent "purger" mt w0 st n w Hi) as Hs.
  destruct r as [n|e]; cbn [on_cycle on_stats on_error purge_meter]; [|exact (proj2 (proj2 (Hs "" 0%nat w)))].
  by rewrite (proj1 (Hs "" 0%nat w)), (proj1 (proj2 (Hs "deleted" n w))).
Qed.

Lemma purge_foldl_exact mt p answers w :
  mw_installed w = Some p ->
  purge_series_exact mt p answers w
    (foldl (fun w' r => on_cycle (purge_meter (scheduler_new "purger" mt w)) r w') w answers).
Proof.
  intros Hp. split_and!; apply (series_foldl (on_cycle (purge_meter (scheduler_new "purger" mt w)))); intros [n|e] w';
    cbn [on_cycle on_stats on_error purge_meter is_ok];
    rewrite ?scheduler_rows_counts, ?scheduler_rows_other, ?scheduler_cycle_counts, ?scheduler_error_counts by done;
    repeat case_bool_decide; naive_solver lia.
Qed.

(** C29. The instruments of the schedulers watch and do not touch. The relay, its
    cycles run one after the other on the outbox, answers and leaves the outbox as
    it does without instruments, where it runs as the plain loop; purger and
    dispatcher take the same course too. With the [metrics] feature off, or with
    no provider installed at the start, none of the three records anything for
    its whole life, even if a provider appears later. With a provider installed
    when it starts, the relay adds there exactly: its cycles, its failed cycles,
    under each status the rows its cycles reported, one duration for each publish
    under its topic and outcome, and one age for each acknowledged publish of a
    row that does not lie in the future; and the purger its cycles, its failed
    cycles and the rows it deleted. *)
Theorem scheduler_metrics_exact `{TimeCrate} (enabled : bool) (mt : string) (w : MeterWorld)
  (rcfg : RelayConfig) (turns : list RelayTurn) (ob : Outbox) (pcfg : PurgeConfig) (pits : list (Iteration nat))
  (dcfg : DispatcherConfig) (dits : list (Iteration DispatchStats * interval)) :
  let relay := metered_run_relay rcfg enabled mt turns ob w in
  let course := relay_course rcfg turns (Some (sampler (relay_lifecycle rcfg))) ob in
  let purger := metered_run_purger enabled mt pcfg pits w in
  let dispatcher := metered_run_dispatcher enabled dcfg mt dits w in
  (relay.1.1 = run_relay rcfg (map fst course)
   /\ relay.1.2 = (metered_run_relay rcfg false mt turns ob w).1.2
   /\ purger.1 = run_purger pcfg pits
   /\ dispatcher.1 = run_dispatcher dcfg mt (map fst dits))
  /\ (enabled = false \/ mw_installed w = None -> relay.2 = w /\ purger.2 = w /\ dispatcher.2 = w)
  /\ (enabled = true -> forall p, mw_installed w = Some p ->
        (relay_validate rcfg = Ok tt -> relay_series_exact mt p (ran_with rs_claimed course) w relay.2)
        /\ (purge_validate pcfg = Ok tt -> purge_series_exact mt p (ran id pits) w purger.2))
  /\ (forall t lifecycle ob', map sd_row (turn_sends rcfg t lifecycle ob') = cy_sent (plain_once rcfg t lifecycle ob').2).
Proof.
  intros relay course purger dispatcher. subst relay purger dispatcher.
  unfold metered_run_relay, metered_run_purger, metered_run_dispatcher, run_relay, run_purger, run_dispatcher.
  pose proof (fun m => metered_relay_loop_spec rcfg m turns (0%nat, 0%nat) (Some (sampler (relay_lifecycle rcfg))) ob w)
    as Hloop. cbn zeta in Hloop. fold course in Hloop.
  split_and!.
  - destruct (relay_validate rcfg); [apply Hloop|done].
  - destruct (relay_validate rcfg); [apply Hloop|done].
  - destruct (purge_validate pcfg); [apply metered_work_loop_fst|done].
  - destruct (dispatcher_validate dcfg); [apply metered_dispatcher_loop_fst|done].
  - intros Hquiet. split_and!.
    + destruct (relay_validate rcfg); [|done]. rewrite (proj1 (proj2 (Hloop _))). apply note_cycles_silent.
      destruct enabled; [|by left]. destruct Hquiet as [?|Hi]; [done|]. right. by exists mt, w.
    + destruct (purge_validate pcfg); [|done]. rewrite metered_work_loop_snd.
      apply silent_foldl. intros r w'. destruct enabled; [|by destruct r].
      destruct Hquiet as [?|Hi]; [done|]. by apply purge_meter_silent.
    + destruct (dispatcher_validate dcfg); [|done]. destruct enabled; [|by apply dispatcher_silent].
      destruct Hquiet as [?|Hi]; [done|]. by apply dispatcher_silent; apply dispatch_meter_silent.
  - intros -> p Hp. split; intros Hv; rewrite Hv.
    + rewrite (proj1 (proj2 (Hloop _))). by apply note_cycles_exact.
    + rewrite metered_work_loop_snd. by apply purge_foldl_exact.
  - apply turn_sends_sent.
Qed.

(** The buckets of the histograms are in increasing order. *)
Lemma buckets_increasing : Sorted Qlt STEP_LATENCY_BUCKETS /\ Sorted Qlt QUEUE_LATENCY_BUCKETS.
Proof. split; repeat (constructor; try done). Qed.

Module MetricsSample.
(** A clock difference with the right sign. *)
#[local] Instance signs : TimeCrate.
Proof.
  refine {| as_seconds_f64 d := match d with Z0 => S754_zero false | Zpos _ => f64_of_Z 1 | Zneg _ => f64_of_Z (-1) end |}.
  by intros [|q|q].
Defined.

Definition turn (now : instant) (cid : uuid) : RelayTurn := {|
  rt_cancelled := false; rt_slept := true; rt_meanwhile ob := ob; rt_publish := quiet_publish flaky;
  rt_mark_fault := no_fault; rt_now := now; rt_locked := fun _ => false; rt_cid := cid;
  rt_elapsed _ := 1; rt_acknowledged _ := now |}.
Definition world : MeterWorld := {| mw_installed := Some 7%nat; mw_delivered := [] |}.
Definition run := metered_run_relay relay_cfg true "order_placed" [turn 5 100; turn 5 101] Runs.backlog world.

(** Two rows claimed in the first cycle, one of them refused; nothing is due in
    the second. *)
Lemma scheduler_metrics_exact_witness :
  relay_series_exact "order_placed" 7
    (ran_with rs_claimed (relay_course relay_cfg [turn 5 100; turn 5 101]
                            (Some (sampler (relay_lifecycle relay_cfg))) Runs.backlog)) world run.2
  /\ observations 7 "kafkaman.relay.publish.duration" (publish_attributes "dev.orders" "failed") run.2 = 1%nat
  /\ observations 7 "kafkaman.relay.publish.duration" (publish_attributes "dev.orders" "published") run.2 = 1%nat.
Proof.
  destruct (scheduler_metrics_exact true "order_placed" world relay_cfg [turn 5 100; turn 5 101] Runs.backlog
              {| older_than := 1; batch_size := 1; purge_poll_interval := 1; include_failed := false |} []
              {| dispatcher_poll_interval := 1; dispatcher_lifecycle := relay_lifecycle relay_cfg;
                 max_consecutive_panicking_rows := 1 |} []) as (_ & _ & Hs & _).
  split; [exact (proj1 (Hs eq_refl 7%nat eq_refl) eq_refl)|].
  split; vm_compute; reflexivity.
Defined.
End MetricsSample.
