(* ===== verification/Otel.v ===== *)
(** * Otel: the telemetry pipeline of a host

    Models [src/crates/kafkaman-otel/src/lib.rs]: which providers a process
    installs, that a failed build installs none, what is flushed at the end, and
    which layer an event reaches.

    The environment is a function from variable names; a variable that is not
    Unicode reads as absent. Building an exporter and shutting a provider down
    are the SDK's, and so are the answers they give; so is [EnvFilter]. The global
    meter provider is that of [Metrics]. *)

From S2P Require Import Prelude Text Vocabulary Outbox Lifecycle Relay Dispatch Worker Metrics.
Open Scope string_scope.
Open Scope list_scope.
Open Scope Z_scope.

Definition OTLP_ENDPOINT := "OTEL_EXPORTER_OTLP_ENDPOINT".
Definition OTLP_METRICS_ENDPOINT := "OTEL_EXPORTER_OTLP_METRICS_ENDPOINT".
Definition OTLP_TRACES_ENDPOINT := "OTEL_EXPORTER_OTLP_TRACES_ENDPOINT".
Definition OTLP_LOGS_ENDPOINT := "OTEL_EXPORTER_OTLP_LOGS_ENDPOINT".
Definition METRIC_EXPORT_INTERVAL := "OTEL_METRIC_EXPORT_INTERVAL".
Definition EXCEPTION_TARGET := "kafkaman::telemetry".
(** [kafkaman_core::TELEMETRY_TARGET], which the pipeline spells out again. *)
Definition TELEMETRY_TARGET := "kafkaman::telemetry".
Definition DEFAULT_METRIC_INTERVAL : interval := 15 * NANOS_PER_SEC.

(** The signals, named in errors as [metrics], [traces] and [logs]. *)
Inductive Signal := SMetrics | STraces | SLogs.
#[global] Instance Signal_eq_dec : EqDecision Signal.
Proof. solve_decision. Defined.

Inductive OtelError :=
| Exporter (signal : Signal) (source : string)
| SubscriberInstalled
| ShutdownFailed (signal : Signal) (source : string).

(** ** [Builder] *)

Record Builder := {
  b_service_name : string;
  b_service_version : option string;
  b_attributes : list KeyValue;
  b_metric_interval : option interval;
  b_metrics : bool;
  b_traces : bool;
  b_logs : bool;
}.

Definition builder (service_name : string) : Builder :=
  {| b_service_name := service_name; b_service_version := None; b_attributes := []; b_metric_interval := None;
     b_metrics := true; b_traces := true; b_logs := true |}.
Definition service_version (version : string) (b : Builder) : Builder :=
  {| b_service_name := b_service_name b; b_service_version := Some version; b_attributes := b_attributes b;
     b_metric_interval := b_metric_interval b; b_metrics := b_metrics b; b_traces := b_traces b; b_logs := b_logs b |}.
Definition resource_attribute (key value : string) (b : Builder) : Builder :=
  {| b_service_name := b_service_name b; b_service_version := b_service_version b;
     b_attributes := b_attributes b ++ [(key, value)];
     b_metric_interval := b_metric_interval b; b_metrics := b_metrics b; b_traces := b_traces b; b_logs := b_logs b |}.
Definition metric_interval (d : interval) (b : Builder) : Builder :=
  {| b_service_name := b_service_name b; b_service_version := b_service_version b; b_attributes := b_attributes b;
     b_metric_interval := Some d; b_metrics := b_metrics b; b_traces := b_traces b; b_logs := b_logs b |}.
Definition without_metrics (b : Builder) : Builder :=
  {| b_service_name := b_service_name b; b_service_version := b_service_version b; b_attributes := b_attributes b;
     b_metric_interval := b_metric_interval b; b_metrics := false; b_traces := b_traces b; b_logs := b_logs b |}.
Definition without_traces (b : Builder) : Builder :=
  {| b_service_name := b_service_name b; b_service_version := b_service_version b; b_attributes := b_attributes b;
     b_metric_interval := b_metric_interval b; b_metrics := b_metrics b; b_traces := false; b_logs := b_logs b |}.
Definition without_logs (b : Builder) : Builder :=
  {| b_service_name := b_service_name b; b_service_version := b_service_version b; b_attributes := b_attributes b;
     b_metric_interval := b_metric_interval b; b_metrics := b_metrics b; b_traces := b_traces b; b_logs := false |}.

(** ** Providers and the globals *)

(** A provider, with the attributes its resource was given, and for the meter
    provider the interval its reader was given; without one the SDK reads the
    environment. *)
Record Provider := { pv_id : ProviderId; pv_resource : list KeyValue; pv_interval : option interval }.

Record Telemetry := {
  t_service_name : string;
  t_meter : option Provider;
  t_tracer : option Provider;
  t_logger : option Provider;
}.

(** The layers of the subscriber [init] installs, besides the formatter. *)
Record Subscriber := { sub_trace : option Provider; sub_log : option Provider }.

Inductive OtelEvent :=
| ShutDown (signal : Signal) (provider : ProviderId)
| AdditionalFailure (signal : Signal) (source : string)
| ExportEnabled (service : string) (metrics traces logs : bool)
| ExportDisabled.

(** The process: the globals, the subscriber, the next provider to be built, and
    what happened. *)
Record OtelWorld := {
  ow_meters : MeterWorld;
  ow_tracer : option ProviderId;
  ow_subscriber : option Subscriber;
  ow_next : ProviderId;
  ow_events : list OtelEvent;
}.

Definition happened (e : OtelEvent) (w : OtelWorld) : OtelWorld :=
  {| ow_meters := ow_meters w; ow_tracer := ow_tracer w; ow_subscriber := ow_subscriber w; ow_next := ow_next w;
     ow_events := ow_events w ++ [e] |}.

Definition is_enabled (t : Telemetry) : bool :=
  bool_decide (is_Some (t_meter t)) || bool_decide (is_Some (t_tracer t)) || bool_decide (is_Some (t_logger t)).

Section pipeline.
Context (env : string -> option string).
(** The SDK: building an OTLP exporter, and flushing a provider. *)
Context (exporter_build : Signal -> result string unit) (provider_shutdown : ProviderId -> result string unit).

(** [env_is_nonempty]: blank counts as unset. *)
Definition env_is_nonempty (name : string) : bool :=
  match env name with Some value => negb (is_empty (trim value)) | None => false end.
Definition endpoint_configured (signal_specific : string) : bool :=
  env_is_nonempty OTLP_ENDPOINT || env_is_nonempty signal_specific.

(** The resource of [build]. *)
Definition resource_of (b : Builder) : list KeyValue :=
  [("service.name", b_service_name b)]
  ++ match b_service_version b with Some v => [("service.version", v)] | None => [] end
  ++ b_attributes b.

(** The reader's interval. *)
Definition interval_of (b : Builder) : option interval :=
  match b_metric_interval b with
  | Some d => Some d
  | None => if env_is_nonempty METRIC_EXPORT_INTERVAL then None else Some DEFAULT_METRIC_INTERVAL
  end.

(** The exporter of a signal, and the provider around it. *)
Definition provider (wanted : bool) (signal : Signal) (p : Provider) : result OtelError (option Provider) :=
  if wanted then
    match exporter_build signal with Ok _ => Ok (Some p) | Err source => Err (Exporter signal source) end
  else Ok None.

Definition install_meter (p : option Provider) (m : MeterWorld) : MeterWorld :=
  match p with
  | Some p => {| mw_installed := Some (pv_id p); mw_delivered := mw_delivered m |}
  | None => m
  end.

(** [Builder::build]. *)
Definition build (b : Builder) : eff OtelError OtelWorld Telemetry := fun w =>
  let metrics := b_metrics b && endpoint_configured OTLP_METRICS_ENDPOINT in
  let traces := b_traces b && endpoint_configured OTLP_TRACES_ENDPOINT in
  let logs := b_logs b && endpoint_configured OTLP_LOGS_ENDPOINT in
  let made (k : nat) (i : option interval) : Provider :=
    {| pv_id := ow_next w + k; pv_resource := resource_of b; pv_interval := i |} in
  match (meter ← provider metrics SMetrics (made 0%nat (interval_of b));
         tracer ← provider traces STraces (made 1%nat None);
         logger ← provider logs SLogs (made 2%nat None);
         Ok {| t_service_name := b_service_name b; t_meter := meter; t_tracer := tracer; t_logger := logger |}) with
  | Err e => (Err e, w)
  | Ok t =>
      (Ok t, {| ow_meters := install_meter (t_meter t) (ow_meters w);
                ow_tracer := match t_tracer t with Some p => Some (pv_id p) | None => ow_tracer w end;
                ow_subscriber := ow_subscriber w; ow_next := ow_next w + 3; ow_events := ow_events w |})
  end.

(** [remember]: keep the first shutdown error, log any that follow. *)
Definition remember (slot : option OtelError) (signal : Signal) (r : result string unit) (w : OtelWorld)
  : option OtelError * OtelWorld :=
  match r with
  | Ok _ => (slot, w)
  | Err source =>
      match slot with
      | None => (Some (ShutdownFailed signal source), w)
      | Some _ => (slot, happened (AdditionalFailure signal source) w)
      end
  end.

(** One [if let] of [shutdown]. *)
Definition shut_down (signal : Signal) (p : option Provider) (st : option OtelError * OtelWorld)
  : option OtelError * OtelWorld :=
  match p with
  | None => st
  | Some p => remember st.1 signal (provider_shutdown (pv_id p)) (happened (ShutDown signal (pv_id p)) st.2)
  end.

(** [Telemetry::shutdown]. *)
Definition shutdown (t : Telemetry) : eff OtelError OtelWorld unit := fun w =>
  let '(first, w) :=
    shut_down SLogs (t_logger t) (shut_down STraces (t_tracer t) (shut_down SMetrics (t_meter t) (None, w))) in
  (match first with None => Ok tt | Some e => Err e end, w).

(** [init]: a subscriber that is already there is the failure reported, after
    what was built has been shut down. *)
Definition init (service_name : string) : eff OtelError OtelWorld Telemetry := fun w =>
  match build (builder service_name) w with
  | (Err e, w) => (Err e, w)
  | (Ok t, w) =>
      match ow_subscriber w with
      | Some _ => (Err SubscriberInstalled, (shutdown t w).2)
      | None =>
          let w := {| ow_meters := ow_meters w; ow_tracer := ow_tracer w;
                      ow_subscriber := Some {| sub_trace := t_tracer t; sub_log := t_logger t |};
                      ow_next := ow_next w; ow_events := ow_events w |} in
          (Ok t, happened (if is_enabled t
                           then ExportEnabled (t_service_name t) (bool_decide (is_Some (t_meter t)))
                                  (bool_decide (is_Some (t_tracer t))) (bool_decide (is_Some (t_logger t)))
                           else ExportDisabled) w)
      end
  end.

(** ** Where an event goes *)

Inductive Sink := Stdout | SpanExport (p : ProviderId) | LogExport (p : ProviderId).

(** [env_filter] on the target and level of an event, the SDK's. *)
Context {Metadata : Type} (target : Metadata -> string) (env_filter : Metadata -> bool).

(** [log_export_filter]. *)
Definition log_export_filter (md : Metadata) : bool :=
  env_filter md && negb (String.eqb (target md) EXCEPTION_TARGET).

(** The layers of the registry, each with its own filter. *)
Definition sinks (s : Subscriber) (md : Metadata) : list Sink :=
  (if env_filter md then [Stdout] else [])
  ++ match sub_trace s with Some p => if env_filter md then [SpanExport (pv_id p)] else [] | None => [] end
  ++ match sub_log s with Some p => if log_export_filter md then [LogExport (pv_id p)] else [] | None => [] end.
End pipeline.

(** ** What a build installs *)

Section installed.
Context (env : string -> option string) (exporter_build : Signal -> result string unit).

(** A signal is wanted when it was not turned off and has an endpoint. *)
Definition wanted (b : Builder) (s : Signal) : bool :=
  match s with
  | SMetrics => b_metrics b && endpoint_configured env OTLP_METRICS_ENDPOINT
  | STraces => b_traces b && endpoint_configured env OTLP_TRACES_ENDPOINT
  | SLogs => b_logs b && endpoint_configured env OTLP_LOGS_ENDPOINT
  end.

Definition installed (t : Telemetry) (s : Signal) : option Provider :=
  match s with SMetrics => t_meter t | STraces => t_tracer t | SLogs => t_logger t end.

(** The first signal, in the order they are built, whose exporter fails. *)
Definition first_failure (b : Builder) : option (Signal * string) :=
  head (omap (fun s => if wanted b s then match exporter_build s with Err e => Some (s, e) | Ok _ => None end else None)
          [SMetrics; STraces; SLogs]).

Lemma build_cases b w :
  build env exporter_build b w =
  match first_failure b with
  | Some (s, e) => (Err (Exporter s e), w)
  | None =>
      let made (s : Signal) (k : nat) (i : option interval) : option Provider :=
        if wanted b s then Some {| pv_id := ow_next w + k; pv_resource := resource_of b; pv_interval := i |} else None in
      let t := {| t_service_name := b_service_name b; t_meter := made SMetrics 0%nat (interval_of env b);
                  t_tracer := made STraces 1%nat None; t_logger := made SLogs 2%nat None |} in
      (Ok t, {| ow_meters := install_meter (t_meter t) (ow_meters w);
                ow_tracer := match t_tracer t with Some p => Some (pv_id p) | None => ow_tracer w end;
                ow_subscriber := ow_subscriber w; ow_next := ow_next w + 3; ow_events := ow_events w |})
  end.
Proof.
  unfold build, first_failure, provider, wanted.
  destruct (b_metrics b && _), (b_traces b && _), (b_logs b && _);
    destruct (exporter_build SMetrics) eqn:E1, (exporter_build STraces) eqn:E2, (exporter_build SLogs) eqn:E3;
    cbn; rewrite ?E1, ?E2, ?E3; reflexivity.
Qed.
End installed.

(** ** What a shutdown flushes *)

Definition is_shutdown (e : OtelEvent) : bool := match e with ShutDown _ _ => true | _ => false end.
Definition handles (t : Telemetry) : list (Signal * ProviderId) :=
  omap (fun s => (fun p => (s, pv_id p)) <$> installed t s) [SMetrics; STraces; SLogs].

Section flushing.
Context (provider_shutdown : ProviderId -> result string unit).

(** The failures of the providers, in order, and what flushing them emits. *)
Definition failures (hs : list (Signal * ProviderId)) : list (Signal * string) :=
  omap (fun '(s, p) => match provider_shutdown p with Err e => Some (s, e) | Ok _ => None end) hs.
Fixpoint flush (failed : bool) (hs : list (Signal * ProviderId)) : list OtelEvent :=
  match hs with
  | [] => []
  | (s, p) :: hs =>
      ShutDown s p ::
        match provider_shutdown p with
        | Ok _ => flush failed hs
        | Err e => if failed then AdditionalFailure s e :: flush true hs else flush true hs
        end
  end.

Lemma flush_shuts failed hs : List.filter is_shutdown (flush failed hs) = map (fun '(s, p) => ShutDown s p) hs.
Proof.
  revert failed. induction hs as [|[s p] hs IH]; intros failed; [done|]. cbn.
  f_equal. destruct (provider_shutdown p), failed; cbn; apply IH.
Qed.

Lemma flush_reports failed hs :
  List.filter (fun e => negb (is_shutdown e)) (flush failed hs)
  = map (fun '(s, e) => AdditionalFailure s e) (if failed then failures hs else tail (failures hs)).
Proof.
  revert failed. induction hs as [|[s p] hs IH]; intros failed; [by destruct failed|]. cbn.
  destruct (provider_shutdown p), failed; cbn; rewrite IH; done.
Qed.

(** What follows the last shutdown is its own failure. *)
Lemma flush_last failed hs s p :
  exists after, flush failed (hs ++ [(s, p)]) = flush failed hs ++ ShutDown s p :: after
  /\ forall e, e ∈ after -> exists text, e = AdditionalFailure s text.
Proof.
  revert failed. induction hs as [|[s' p'] hs IH]; intros failed; cbn.
  - destruct (provider_shutdown p), failed; eexists; (split; [reflexivity|]); intros ev He; try by apply elem_of_nil in He.
    apply list_elem_of_singleton in He as ->. eauto.
  - destruct (provider_shutdown p'), failed; cbn;
      [destruct (IH true) as (after & -> & Ha)|destruct (IH false) as (after & -> & Ha)|
       destruct (IH true) as (after & -> & Ha)|destruct (IH true) as (after & -> & Ha)];
      (exists after; split; [done|exact Ha]).
Qed.

Lemma shutdown_flushes t w :
  shutdown provider_shutdown t w
  = (match failures (handles t) with [] => Ok tt | (s, e) :: _ => Err (ShutdownFailed s e) end,
     {| ow_meters := ow_meters w; ow_tracer := ow_tracer w; ow_subscriber := ow_subscriber w; ow_next := ow_next w;
        ow_events := ow_events w ++ flush false (handles t) |}).
Proof.
  destruct w as [m tr sub nx evs0], t as [name [m1|] [m2|] [m3|]]; unfold shutdown, shut_down, remember, happened; cbn;
    repeat match goal with |- context [provider_shutdown ?p] => destruct (provider_shutdown p) eqn:?; cbn end;
    by rewrite <- ?app_assoc, ?app_nil_r.
Qed.
End flushing.

(** The globals after a build: the meter and the tracer provider of the handle,
    or what was there for a signal it has none of; nothing else has changed. *)
Record globals_hold (t : Telemetry) (w w' : OtelWorld) : Prop := {
  gh_meter : mw_installed (ow_meters w')
             = match t_meter t with Some p => Some (pv_id p) | None => mw_installed (ow_meters w) end;
  gh_tracer : ow_tracer w' = match t_tracer t with Some p => Some (pv_id p) | None => ow_tracer w end;
  gh_delivered : mw_delivered (ow_meters w') = mw_delivered (ow_meters w);
  gh_subscriber : ow_subscriber w' = ow_subscriber w;
  gh_events : ow_events w' = ow_events w;
}.

(** C31. A telemetry session is installed whole and flushed whole. A signal gets
    a provider exactly when it was not turned off and the general or its own
    endpoint variable is set to something other than blanks; the first exporter
    that cannot be built fails the build, and then no global has changed.
    Otherwise the global meter provider and the global tracer provider are those
    of the handle, each kept as it was where the handle has none; every provider
    carries the resource asked for. What was installed is what later instruments
    bind to: a relay started after the
    build counts at the meter provider of this handle. A shutdown flushes every
    provider that was installed, in the order metrics, traces, logs, whatever
    fails on the way, answers with the first failure and reports the others, and
    nothing but a failure of its own follows the shutdown of the logger. *)
Theorem telemetry_session (env : string -> option string) (exporter_build : Signal -> result string unit)
  (provider_shutdown : ProviderId -> result string unit) (b : Builder) (w w' : OtelWorld)
  (r : result OtelError Telemetry) (Hbuild : build env exporter_build b w = (r, w')) :
  (forall e, r = Err e -> w' = w
     /\ exists s text, first_failure env exporter_build b = Some (s, text) /\ e = Exporter s text)
  /\ (forall t, r = Ok t ->
        (forall s, is_Some (installed t s) <-> wanted env b s = true)
        /\ (forall mt p, t_meter t = Some p ->
              in_provider (sm_cycles (scheduler_new "relay" mt (ow_meters w'))) = Some (pv_id p)
              /\ pv_interval p = match b_metric_interval b with
                                 | Some d => Some d
                                 | None => if env_is_nonempty env METRIC_EXPORT_INTERVAL then None
                                           else Some DEFAULT_METRIC_INTERVAL
                                 end)
        /\ globals_hold t w w'
        /\ (forall s p, installed t s = Some p -> pv_resource p = resource_of b)
        /\ NoDup (map snd (handles t))
        /\ exists evs, shutdown provider_shutdown t w'
             = (match failures provider_shutdown (handles t) with
                | [] => Ok tt
                | (s, e) :: _ => Err (ShutdownFailed s e)
                end,
                {| ow_meters := ow_meters w'; ow_tracer := ow_tracer w'; ow_subscriber := ow_subscriber w';
                   ow_next := ow_next w'; ow_events := ow_events w' ++ evs |})
           /\ List.filter is_shutdown evs = map (fun '(s, p) => ShutDown s p) (handles t)
           /\ List.filter (fun e => negb (is_shutdown e)) evs
              = map (fun '(s, e) => AdditionalFailure s e) (tail (failures provider_shutdown (handles t)))
           /\ (forall p, t_logger t = Some p -> exists before after, evs = before ++ ShutDown SLogs (pv_id p) :: after
                 /\ forall e, e ∈ after -> exists text, e = AdditionalFailure SLogs text)).
Proof.
  rewrite build_cases in Hbuild. destruct (first_failure env exporter_build b) as [[s text]|].
  { injection Hbuild as <- <-. split; [|done]. intros e [= <-]. split; [done|]. by exists s, text. }
  injection Hbuild as <- <-. split; [done|]. intros t [= <-]. split_and!.
  - intros []; cbn -[wanted]; case_match; split; intros Hs; try done; cbn in Hs; congruence.
  - intros mt p Hm. cbn -[wanted] in Hm |- *. cbn in Hm. destruct (b_metrics b && _); [|done]. injection Hm as <-. by split.
  - split; cbn; try done; by destruct (b_metrics b && _).
  - intros [] p Hs; cbn in Hs; by destruct (_ && _); [injection Hs as <-|].
  - unfold handles. cbn.
    destruct (b_metrics b && _), (b_traces b && _), (b_logs b && _); cbn;
      repeat (apply NoDup_cons; split; [rewrite ?elem_of_cons, ?elem_of_nil; lia|]); apply NoDup_nil_2.
  - eexists. split; [apply shutdown_flushes|]. split_and!; [apply flush_shuts|apply (flush_reports _ false)|].
    intros p Hl.
    assert (exists hs, handles _ = hs ++ [(SLogs, pv_id p)]) as [hs ->]; [|by eexists _; apply flush_last].
    unfold handles. change [SMetrics; STraces; SLogs] with ([SMetrics; STraces] ++ [SLogs]). rewrite omap_app.
    eexists. f_equal. cbn -[wanted] in Hl |- *. by rewrite Hl.
Qed.

(** The two spellings of the target agree. *)
Lemma exception_target_matches : EXCEPTION_TARGET = TELEMETRY_TARGET.
Proof. reflexivity. Qed.

(** [init] either owns the subscriber, with the layers of what it built, or has
    shut down all of what it built. Under its subscriber a failure reported on
    the telemetry target leaves as an exception on the span layer and never as a
    log record, while every other event that passes the filter reaches each
    layer. *)
Theorem init_hosts (env : string -> option string) (exporter_build : Signal -> result string unit)
  (provider_shutdown : ProviderId -> result string unit) {Metadata : Type} (target : Metadata -> string)
  (env_filter : Metadata -> bool) (name : string) (w w' : OtelWorld) (r : result OtelError Telemetry)
  (Hinit : init env exporter_build provider_shutdown name w = (r, w')) :
  match r with
  | Err SubscriberInstalled =>
      exists t w1 evs, build env exporter_build (builder name) w = (Ok t, w1)
      /\ ow_events w' = ow_events w ++ evs /\ ow_subscriber w' = ow_subscriber w
      /\ List.filter is_shutdown evs = map (fun '(s, p) => ShutDown s p) (handles t)
  | Err _ => w' = w
  | Ok t =>
      ow_subscriber w = None
      /\ exists s, ow_subscriber w' = Some s
         /\ forall md, env_filter md = true ->
              Stdout ∈ sinks target env_filter s md
              /\ (forall p, t_tracer t = Some p -> SpanExport (pv_id p) ∈ sinks target env_filter s md)
              /\ (forall p, t_logger t = Some p ->
                    LogExport (pv_id p) ∈ sinks target env_filter s md <-> target md <> TELEMETRY_TARGET)
  end.
Proof.
  unfold init in Hinit. destruct (build env exporter_build (builder name) w) as [[t|e] w1] eqn:Hb;
    rewrite build_cases in Hb; destruct (first_failure env exporter_build (builder name)) as [[s text]|];
    try discriminate Hb; [|by injection Hb as <- <-; injection Hinit as <- <-].
  destruct (ow_subscriber w1) as [sub|] eqn:Hs.
  - injection Hinit as <- <-. exists t, w1. rewrite shutdown_flushes. injection Hb as <- <-.
    eexists. split_and!; [done|reflexivity|done|apply flush_shuts].
  - injection Hinit as <- <-. split; [by injection Hb as _ <-|]. eexists. split; [reflexivity|].
    intros md Hf. unfold sinks, log_export_filter. rewrite Hf. cbn [sub_trace sub_log andb].
    split_and!; [by left|intros p ->; set_solver|intros p ->].
    destruct (String.eqb_spec (target md) EXCEPTION_TARGET) as [E|E]; cbn [negb]; rewrite <- exception_target_matches.
    + split; [|by intros []]. destruct (t_tracer t); set_solver.
    + split; [done|]. intros _. destruct (t_tracer t); set_solver.
Qed.

(** ** A host *)

Module OtelSample.
Definition env (name : string) : option string :=
  if String.eqb name OTLP_ENDPOINT then Some "  " else if String.eqb name OTLP_METRICS_ENDPOINT then Some "http://collector"
  else if String.eqb name OTLP_LOGS_ENDPOINT then Some "http://collector" else None.
Definition start : OtelWorld :=
  {| ow_meters := {| mw_installed := None; mw_delivered := [] |}; ow_tracer := None; ow_subscriber := None;
     ow_next := 7; ow_events := [] |}.
Definition broken (p : ProviderId) : result string unit := Err "timed out".

(** Metrics and logs are installed, a blank general endpoint being none; both
    fail to flush, and both are shut down. *)
Lemma telemetry_session_witness :
  match build env (fun _ => Ok tt) (builder "order-service") start with
  | (Ok t, w) =>
      handles t = [(SMetrics, 7%nat); (SLogs, 9%nat)]
      /\ (shutdown broken t w).1 = Err (ShutdownFailed SMetrics "timed out")
      /\ in_provider (sm_cycles (scheduler_new "relay" "order" (ow_meters w))) = Some 7%nat
  | (Err _, _) => False
  end.
Proof.
  destruct (build env (fun _ => Ok tt) (builder "order-service") start) as [r w] eqn:E.
  destruct (telemetry_session env (fun _ => Ok tt) broken (builder "order-service") start w r E) as [_ Hok].
  vm_compute in E. injection E as <- <-. destruct (Hok _ eq_refl) as (_ & Hm & _ & _ & _ & evs & Hs & _).
  split; [reflexivity|]. split; [rewrite Hs; reflexivity|]. exact (proj1 (Hm "order" _ eq_refl)).
Defined.
End OtelSample.
