(* ===== verification/Propagation.v ===== *)
(** * Propagation: trace context between OpenTelemetry and the stored columns

    Models the [enabled] and [disabled] halves of
    [src/crates/kafkaman-core/src/trace.rs]: what is captured of a span, what a
    stored context becomes when it is made a parent or a link, and the twins
    used when the [traces] feature is off. The grammar of the two columns is in
    [Trace].

    The ids, the trace state and the bridge from a [tracing] span to its
    OpenTelemetry context belong to third-party crates: they are the class
    [Otel], and what is relied on of them is the class [OtelLaws] (an id is
    displayed as fixed-width lowercase hexadecimal and parsed back from it, and
    is valid when it is not zero). *)

From S2P Require Import Prelude Text Vocabulary Trace Identity.
Open Scope string_scope.
Open Scope list_scope.
Open Scope Z_scope.

#[local] Arguments String.append !_ _ : simpl nomatch.

(** ** Two digits of hexadecimal *)

(** [format!("{:02x}", byte)]. *)
Definition format_02x (byte : Z) : string :=
  String (hex_digit (Z.shiftr byte 4)) (String (hex_digit (Z.land byte 15)) "").

(** [TraceFlags::SAMPLED]; the flags are their byte. *)
Definition SAMPLED : Z := 1.

(** The digits of [from_str_radix(_, 16)] for [u8], the accumulator checked at
    every step. *)
Fixpoint radix16_digits (acc : Z) (digits : string) : option Z :=
  match digits with
  | "" => Some acc
  | String c rest =>
      d ← decode_hex_nibble c;
      let next := acc * 16 + d in
      if next <? 256 then radix16_digits next rest else None
  end.

(** [u8::from_str_radix(src, 16)]: one leading plus is allowed, no digits are
    not. *)
Definition u8_from_str_radix16 (src : string) : option Z :=
  match src with
  | "" => None
  | String "+" rest => if is_empty rest then None else radix16_digits 0 rest
  | _ => radix16_digits 0 src
  end.

Lemma is_hex_nibble c :
  digit c || byte_in 97 102 c = true ->
  exists n, decode_hex_nibble c = Some n /\ 0 <= n < 16 /\ c <> "+"%char.
Proof.
  destruct c as [[] [] [] [] [] [] [] []]; vm_compute; intros E; try done;
    (eexists; split_and!; [reflexivity|done|done|done]).
Qed.

Lemma radix16_hex f : is_hex f 2 = true -> exists n, u8_from_str_radix16 f = Some n /\ 0 <= n < 256.
Proof.
  unfold is_hex. destruct f as [|a [|b [|? ?]]]; simpl; try done.
  intros [Ha Hb]%andb_true_iff. rewrite andb_true_r in Hb.
  destruct (is_hex_nibble a Ha) as (m & Em & Hm & Hne).
  destruct (is_hex_nibble b Hb) as (n & En & Hn & _).
  exists (m * 16 + n). split; [|lia]. unfold u8_from_str_radix16.
  assert (radix16_digits 0 (String a (String b "")) = Some (m * 16 + n)) as E.
  { cbn [radix16_digits]. rewrite Em. cbn [mbind option_bind].
    rewrite (proj2 (Z.ltb_lt (0 * 16 + m) 256)) by lia. rewrite En. cbn [mbind option_bind].
    by rewrite (proj2 (Z.ltb_lt ((0 * 16 + m) * 16 + n) 256)) by lia. }
  destruct a as [[] [] [] [] [] [] [] []]; done.
Qed.

Lemma sampled_bit flags : Z.land flags SAMPLED = 0 \/ Z.land flags SAMPLED = 1.
Proof.
  unfold SAMPLED. assert (Z.land flags 1 = flags mod 2 ^ 1) as ->
    by exact (Z.land_ones flags 1 ltac:(lia)).
  pose proof (Z.mod_pos_bound flags (2 ^ 1) ltac:(lia)). lia.
Qed.

(** ** The OpenTelemetry API *)

Class Otel := {
  TraceId : Type;
  SpanId : Type;
  TraceState : Type;
  trace_id_text : TraceId -> string;
  trace_id_from_hex : string -> option TraceId;
  trace_id_valid : TraceId -> bool;
  span_id_text : SpanId -> string;
  span_id_from_hex : string -> option SpanId;
  span_id_valid : SpanId -> bool;
  state_header : TraceState -> string;
  state_from_str : string -> option TraceState;
  state_default : TraceState;
}.

Class OtelLaws `{Otel} := {
  trace_id_text_hex id : is_hex (trace_id_text id) 32 = true;
  trace_id_text_valid id : nonzero (trace_id_text id) = trace_id_valid id;
  trace_id_text_parse id : trace_id_from_hex (trace_id_text id) = Some id;
  trace_id_hex_parses s :
    is_hex s 32 = true -> exists id, trace_id_from_hex s = Some id /\ trace_id_text id = s;
  span_id_text_hex id : is_hex (span_id_text id) 16 = true;
  span_id_text_valid id : nonzero (span_id_text id) = span_id_valid id;
  span_id_text_parse id : span_id_from_hex (span_id_text id) = Some id;
  span_id_hex_parses s :
    is_hex s 16 = true -> exists id, span_id_from_hex s = Some id /\ span_id_text id = s;
}.

Section propagation.
Context `{Otel}.

Record SpanContext := {
  sc_trace_id : TraceId;
  sc_span_id : SpanId;
  sc_flags : Z;
  sc_remote : bool;
  sc_state : TraceState;
}.

(** [SpanContext::is_valid]: neither id is zero. *)
Definition sc_valid (sc : SpanContext) : bool :=
  trace_id_valid (sc_trace_id sc) && span_id_valid (sc_span_id sc).

(** [to_span_context]. *)
Definition to_span_context (context : TraceContext) : option SpanContext :=
  match split_on "-"%char (traceparent context) with
  | _version :: trace_id :: span_id :: flags :: _ =>
      t ← trace_id_from_hex trace_id;
      s ← span_id_from_hex span_id;
      f ← u8_from_str_radix16 flags;
      Some {| sc_trace_id := t; sc_span_id := s; sc_flags := f; sc_remote := true;
              sc_state := default state_default (tracestate context ≫= state_from_str) |}
  | _ => None
  end.

(** The [tracing] spans and their OpenTelemetry context. *)
Context {Span : Type} (context_of : Span -> SpanContext).

(** [span_context_of]. *)
Definition span_context_of (span : Span) : option SpanContext :=
  let sc := context_of span in if sc_valid sc then Some sc else None.

(** What is written down of a span's context. *)
Definition captured (sc : SpanContext) : TraceContext :=
  let state := state_header (sc_state sc) in
  {| traceparent := "00-" +:+ trace_id_text (sc_trace_id sc) +:+ "-"
                    +:+ span_id_text (sc_span_id sc) +:+ "-"
                    +:+ format_02x (Z.land (sc_flags sc) SAMPLED);
     tracestate := if is_empty state then None else Some state |}.

(** [capture_of], and [capture] of the current span. *)
Definition capture_of (span : Span) : option TraceContext := captured <$> span_context_of span.
Definition capture (current : Span) : option TraceContext := capture_of current.

(** What the bridge is asked to do. *)
Inductive BridgeCall :=
| SetParent (span : Span) (parent : SpanContext)
| AddLink (span : Span) (linked : SpanContext)
| Attach (current : SpanContext).

Definition set_parent (span : Span) (context : TraceContext) : list BridgeCall :=
  match to_span_context context with
  | None => []
  | Some sc => [SetParent span sc]
  end.

Definition add_link (span : Span) (context : TraceContext) : list BridgeCall :=
  match to_span_context context with
  | None => []
  | Some sc => [AddLink span sc]
  end.

Definition attach (span : Span) : list BridgeCall :=
  match span_context_of span with
  | None => []
  | Some sc => [Attach sc]
  end.

(** The functions the crate exports: with the [traces] feature off nothing is
    captured and the bridge is never called. *)
Definition capture_trace_context_of (traces : bool) (span : Span) : option TraceContext :=
  if traces then capture_of span else None.
Definition exported_set_parent (traces : bool) (span : Span) (c : TraceContext) : list BridgeCall :=
  if traces then set_parent span c else [].
Definition exported_add_link (traces : bool) (span : Span) (c : TraceContext) : list BridgeCall :=
  if traces then add_link span c else [].
Definition exported_attach (traces : bool) (span : Span) : list BridgeCall :=
  if traces then attach span else [].

(** ** The two columns and the context, in lemmas *)

Lemma captured_join sc :
  traceparent (captured sc)
  = str_join "-" ["00"; trace_id_text (sc_trace_id sc); span_id_text (sc_span_id sc);
                  format_02x (Z.land (sc_flags sc) SAMPLED)].
Proof. done. Qed.

(** The context a well-formed [traceparent] stands for. *)
Lemma fields_context `{!OtelLaws} (c : TraceContext) version t p f extra :
  traceparent c = str_join "-" (version :: t :: p :: f :: extra) ->
  traceparent_fields version t p f extra ->
  exists ti si fl,
    trace_id_from_hex t = Some ti /\ trace_id_text ti = t /\ trace_id_valid ti = true
    /\ span_id_from_hex p = Some si /\ span_id_text si = p /\ span_id_valid si = true
    /\ u8_from_str_radix16 f = Some fl /\ 0 <= fl < 256
    /\ to_span_context c
       = Some {| sc_trace_id := ti; sc_span_id := si; sc_flags := fl; sc_remote := true;
                 sc_state := default state_default (tracestate c ≫= state_from_str) |}.
Proof.
  intros Hj (Hver & _ & Ht & Htz & Hp & Hpz & Hf & _ & Hne).
  destruct (trace_id_hex_parses t Ht) as (ti & Eti & Tti).
  destruct (span_id_hex_parses p Hp) as (si & Esi & Tsi).
  destruct (radix16_hex f Hf) as (fl & Efl & Hfl).
  exists ti, si, fl. split_and!; try done; try lia.
  - by rewrite <- trace_id_text_valid, Tti.
  - by rewrite <- span_id_text_valid, Tsi.
  - unfold to_span_context. rewrite Hj, split_join; [|done|].
    + by rewrite Eti, Esi, Efl.
    + intros w Hw. rewrite !elem_of_cons in Hw. rewrite Forall_forall in Hne.
      destruct Hw as [->|[->|[->|[->|Hw]]]]; eauto using is_hex_avoids. by apply Hne.
Qed.

Lemma captured_fields `{!OtelLaws} sc :
  sc_valid sc = true ->
  traceparent_fields "00" (trace_id_text (sc_trace_id sc)) (span_id_text (sc_span_id sc))
    (format_02x (Z.land (sc_flags sc) SAMPLED)) [].
Proof.
  intros [Ht Hs]%andb_true_iff. destruct (sampled_bit (sc_flags sc)) as [E|E]; rewrite E;
    (split_and!; [done|done|apply trace_id_text_hex|by rewrite trace_id_text_valid
                 |apply span_id_text_hex|by rewrite span_id_text_valid|done|by left|constructor]).
Qed.

(** Every context the program holds can be acted on: parsing it has no error
    left to take, and the ids it gives are the ones written in it. *)
Lemma stored_context `{!OtelLaws} tp ts c :
  from_parts tp ts = Some c ->
  exists sc version f extra,
    to_span_context c = Some sc /\ sc_valid sc = true /\ sc_remote sc = true
    /\ 0 <= sc_flags sc < 256 /\ u8_from_str_radix16 f = Some (sc_flags sc)
    /\ traceparent c = str_join "-" (version :: trace_id_text (sc_trace_id sc)
                                       :: span_id_text (sc_span_id sc) :: f :: extra).
Proof.
  unfold from_parts. destruct tp as [tp|]; [|done].
  destruct (is_well_formed_traceparent tp) eqn:Hw; [|done]. intros [= <-].
  apply traceparent_grammar in Hw as (version & t & p & f & extra & Hj & Hf).
  destruct (fields_context {| traceparent := tp; tracestate := ts ≫= sanitized_tracestate |}
              version t p f extra Hj Hf)
    as (ti & si & fl & _ & Ht & Hvt & _ & Hs & Hvs & Hfl & Hr & ->).
  eexists _, version, f, extra. split; [done|]. unfold sc_valid. simpl. rewrite Hvt, Hvs, Ht, Hs.
  destruct Hr. by split_and!.
Qed.

(** The context a span leaves in the columns, read back. *)
Lemma captured_context `{!OtelLaws} sc :
  sc_valid sc = true ->
  let c := {| traceparent := traceparent (captured sc);
              tracestate := tracestate (captured sc) ≫= sanitized_tracestate |} in
  from_parts (Some (traceparent (captured sc))) (tracestate (captured sc)) = Some c
  /\ to_span_context c
     = Some {| sc_trace_id := sc_trace_id sc; sc_span_id := sc_span_id sc;
               sc_flags := Z.land (sc_flags sc) SAMPLED; sc_remote := true;
               sc_state := default state_default (tracestate c ≫= state_from_str) |}.
Proof.
  intros Hv c. pose proof (captured_fields sc Hv) as Hf.
  assert (Hw : is_well_formed_traceparent (traceparent (captured sc)) = true).
  { apply traceparent_grammar. do 5 eexists. split; [apply captured_join|exact Hf]. }
  split; [unfold from_parts; by rewrite Hw|].
  destruct (fields_context c _ _ _ _ _ (captured_join sc) Hf)
    as (ti & si & fl & Et & _ & _ & Es & _ & _ & Ef & _ & ->).
  rewrite trace_id_text_parse in Et. rewrite span_id_text_parse in Es. simplify_eq.
  do 2 f_equal. destruct (sampled_bit (sc_flags sc)) as [E|E]; rewrite E in Ef |- *; by injection Ef.
Qed.

(** C24. A trace crosses a durable gap. What is captured of a valid span, written
    to the two columns and read back by another process makes the later span a
    child of the first: the same trace id, the same span id, remote, sampled as
    the first was. Only the vendor list may shrink: it is what the reader's
    sanitiser keeps of it. And whatever context a reader accepts, from a column
    or a header, it can act on: neither [set_parent] nor [add_link] skips it,
    and the ids it parents or links to are valid and are the ones in the text. *)
Theorem trace_crosses_gap `{!OtelLaws} (writer reader : Span) (c : TraceContext)
  (Hc : capture_of writer = Some c) :
  let sc := context_of writer in
  (exists c', from_parts (Some (traceparent c)) (tracestate c) = Some c'
     /\ traceparent c' = traceparent c /\ tracestate c' = tracestate c ≫= sanitized_tracestate
     /\ set_parent reader c'
        = [SetParent reader
             {| sc_trace_id := sc_trace_id sc; sc_span_id := sc_span_id sc;
                sc_flags := Z.land (sc_flags sc) SAMPLED; sc_remote := true;
                sc_state := default state_default (tracestate c' ≫= state_from_str) |}])
  /\ (forall tp ts stored, from_parts tp ts = Some stored ->
       exists parent version f extra,
         set_parent reader stored = [SetParent reader parent]
         /\ add_link reader stored = [AddLink reader parent]
         /\ sc_valid parent = true /\ sc_remote parent = true
         /\ traceparent stored
            = str_join "-" (version :: trace_id_text (sc_trace_id parent)
                             :: span_id_text (sc_span_id parent) :: f :: extra)).
Proof.
  unfold capture_of, span_context_of in Hc.
  destruct (sc_valid (context_of writer)) eqn:Hv; [|done]. injection Hc as <-. split.
  - destruct (captured_context _ Hv) as [Hf Ht]. eexists. split; [exact Hf|].
    split_and!; [done..|]. unfold set_parent. by rewrite Ht.
  - intros tp ts stored (sc & version & f & extra & E & ? & ? & _ & _ & ?)%stored_context.
    exists sc, version, f, extra. unfold set_parent, add_link. by rewrite E.
Qed.
End propagation.

(** ** The model evaluated *)

Module PropagationSample.
(** Ids as their own text; a trace state as its list members. *)
Definition hex_of (n : nat) : Type := dsig (fun s => is_hex s n = true).

Definition hex_parse (n : nat) (s : string) : option (hex_of n) :=
  match decide (is_hex s n = true) with
  | left H => Some (dexist s H)
  | right _ => None
  end.

Lemma hex_parse_text n (id : hex_of n) : hex_parse n (`id) = Some id.
Proof.
  unfold hex_parse. destruct id as [s H]. simpl. pose proof H as H'. apply bool_decide_unpack in H'.
  destruct (decide _) as [E|E]; [|done]. f_equal. by apply dsig_eq.
Qed.

Lemma hex_parse_hex n s : is_hex s n = true -> exists id, hex_parse n s = Some id /\ `id = s.
Proof. intros H. unfold hex_parse. destruct (decide _) as [E|E]; [|done]. by eexists. Qed.

#[export] Instance otel : Otel := {|
  TraceId := hex_of 32;
  SpanId := hex_of 16;
  TraceState := list string;
  trace_id_text := fun id => `id;
  trace_id_from_hex := hex_parse 32;
  trace_id_valid := fun id => nonzero (`id);
  span_id_text := fun id => `id;
  span_id_from_hex := hex_parse 16;
  span_id_valid := fun id => nonzero (`id);
  state_header := str_join ",";
  state_from_str := fun s => Some (split_on ","%char s);
  state_default := [];
|}.

#[export] Instance otel_laws : OtelLaws.
Proof.
  split; simpl; try done; try apply hex_parse_text; try apply hex_parse_hex;
    intros [s H]; exact (bool_decide_unpack _ H).
Qed.

Definition tid : hex_of 32 := dexist "0af7651916cd43dd8448eb211c80319c" eq_refl.
Definition sid : hex_of 16 := dexist "b7ad6b7169203331" eq_refl.

(** A sampled span with a random-id flag and a vendor list. *)
Definition writer_context (span : nat) : SpanContext :=
  {| sc_trace_id := tid; sc_span_id := sid; sc_flags := 3; sc_remote := false;
     sc_state := ["a=1"; "b=2"] |}.

Lemma trace_crosses_gap_witness :
  exists c, capture_of writer_context 0%nat = Some c
  /\ traceparent c = "00-0af7651916cd43dd8448eb211c80319c-b7ad6b7169203331-01"
  /\ exists c', from_parts (Some (traceparent c)) (tracestate c) = Some c'
     /\ set_parent 1%nat c'
        = [SetParent 1%nat {| sc_trace_id := tid; sc_span_id := sid; sc_flags := 1;
                              sc_remote := true; sc_state := ["a=1"; "b=2"] |}].
Proof.
  eexists. split; [vm_compute; reflexivity|]. split; [reflexivity|].
  destruct (trace_crosses_gap writer_context 0%nat 1%nat _ eq_refl)
    as [(c' & Hf & _ & Hs & Hp) _].
  exists c'. split; [exact Hf|]. rewrite Hp, Hs. reflexivity.
Defined.
End PropagationSample.
