(* ===== verification/Spans.v ===== *)
(** * Spans: what a dispatch cycle reports

    Models [src/crates/kafkaman-core/src/span.rs] and the span code of
    [src/crates/kafkaman-sqlx/src/dispatch.rs]: the [kafkaman.dispatch] and
    [kafkaman.handler] spans with the fields they declare, the fields recorded on
    them, the exception events, and the parent taken from the row's stored
    context; and of [src/crates/kafkaman-rdkafka/src/consumer.rs], the
    [kafkaman.ingest] span of a consumed record with its outcome.

    A report is one call on a span, in the order they are made. The traced cycle
    below is the cycle of [Dispatch] with those calls added; [traced_erases]
    shows that nothing else changed. The [db.query] spans under a cycle record a
    status only ([instrument_db]) and are not part of its reports. *)

From S2P Require Import Prelude Text Vocabulary Trace Identity Topics Registry Retry.
From S2P Require Import Outbox Lifecycle Received Cache Dispatch Propagation.
Open Scope string_scope.
Open Scope list_scope.
Open Scope Z_scope.

(** ** Spans and reports *)

Inductive FieldValue := VStr (s : string) | VInt (z : Z) | VBool (b : bool).
#[global] Instance FieldValue_eq_dec : EqDecision FieldValue.
Proof. solve_decision. Defined.

(** A span as it is created: its name and its fields, [None] for
    [tracing::field::Empty]. *)
Record SpanShape := { span_name : string; span_fields : list (string * option FieldValue) }.

(** The two positions [handler.position] tells apart. *)
Inductive HandlerPosition := BeforeUpsert | AfterUpsert.
#[global] Instance HandlerPosition_eq_dec : EqDecision HandlerPosition.
Proof. solve_decision. Defined.

Definition position_str (p : HandlerPosition) : string :=
  match p with BeforeUpsert => "before" | AfterUpsert => "after" end.

(** The spans of one cycle; each position is entered at most once. *)
Inductive SpanRef := DispatchSpan | HandlerSpan (position : HandlerPosition).
#[global] Instance SpanRef_eq_dec : EqDecision SpanRef.
Proof. solve_decision. Defined.

Definition MAX_STATUS_DESCRIPTION : nat := 256.

(** ** [span.rs] *)

Section reports.
Context `{Otel} {S : Type}.

(** One call on a span: a field recorded, the exception event (its type and its
    text), or a call of the bridge. *)
Inductive Report :=
| Recorded (span : S) (field : string) (value : FieldValue)
| ExceptionEvent (span : S) (exception_type error : string)
| Bridged (c : BridgeCall (Span := S)).

Definition record_error (span : S) (error : string) : list Report :=
  [Recorded span "otel.status_code" (VStr "ERROR");
   Recorded span "otel.status_description"
     (VStr (truncate_on_char_boundary error MAX_STATUS_DESCRIPTION))].

Definition record_exception_as (span : S) (problem_type error : string) : list Report :=
  let bounded := truncate_on_char_boundary error MAX_STATUS_DESCRIPTION in
  [Recorded span "otel.status_code" (VStr "ERROR");
   Recorded span "otel.status_description" (VStr bounded);
   Recorded span "error.type" (VStr problem_type);
   ExceptionEvent span problem_type bounded].

(** [instrument_db]: a failed statement marks its own span and is passed on. *)
Definition instrument_db {E A} (show : E -> string) (span : S) (r : result E A)
  : result E A * list Report :=
  match r with
  | Err e => (r, record_error span (show e))
  | Ok _ => (r, [])
  end.

(** The spans that raised an exception event, in order. *)
Definition exceptions (reps : list Report) : list S :=
  omap (fun r => match r with ExceptionEvent s _ _ => Some s | _ => None end) reps.

(** A recorded field reaches the span only when the span declared it; the last
    write wins. *)
Definition declares (shape : SpanShape) (field : string) : bool :=
  bool_decide (field ∈ (span_fields shape).*1).

Definition initial (shape : SpanShape) (field : string) : option FieldValue :=
  match List.find (fun kv => bool_decide (kv.1 = field)) (span_fields shape) with
  | Some (_, v) => v
  | None => None
  end.

Definition writes `{EqDecision S} (shape : SpanShape) (s : S) (field : string)
  (r : Report) : option FieldValue :=
  match r with
  | Recorded s' f v =>
      if bool_decide (s' = s) && bool_decide (f = field) && declares shape f then Some v else None
  | _ => None
  end.

Definition exported `{EqDecision S} (shape : SpanShape) (s : S) (reps : list Report)
  (field : string) : option FieldValue :=
  match last (omap (writes shape s field) reps) with
  | Some v => Some v
  | None => initial shape field
  end.

Lemma exceptions_app (a b : list Report) : exceptions (a ++ b) = exceptions a ++ exceptions b.
Proof. apply omap_app. Qed.
End reports.
Arguments Report {_} _.

Lemma bounded text :
  (String.length (truncate_on_char_boundary text MAX_STATUS_DESCRIPTION)
   <= MAX_STATUS_DESCRIPTION)%nat.
Proof. by destruct (truncate_longest_prefix text MAX_STATUS_DESCRIPTION) as (_ & ? & _). Qed.

(** [db_span!] and [db_poll_span!], which differ in level only. *)
Definition db_span (operation collection summary : string) : SpanShape :=
  {| span_name := "db.query";
     span_fields :=
       [("otel.name", Some (VStr ("db.query " +:+ summary))); ("otel.kind", Some (VStr "client"));
        ("otel.status_code", None); ("otel.status_description", None);
        ("db.system.name", Some (VStr "postgresql")); ("db.operation.name", Some (VStr operation));
        ("db.collection.name", Some (VStr collection)); ("db.query.summary", Some (VStr summary))] |}.

(** ** The spans of a dispatch *)

(** The [info_span!] of [dispatch_once_inner]; [show_uuid] is the [Display] of
    an id. *)
Definition dispatch_span (show_uuid : uuid -> string) (row : ReceivedRow) : SpanShape :=
  let r := row_db row in
  {| span_name := "kafkaman.dispatch";
     span_fields :=
       [("otel.kind", Some (VStr "consumer")); ("otel.status_code", None);
        ("otel.status_description", None); ("error.type", None);
        ("kafkaman.failure.kind", None); ("kafkaman.failure.type", None);
        ("kafkaman.failure.stage", None); ("kafkaman.failure.recorded_via", None);
        ("kafkaman.retry.attempt", None); ("kafkaman.retry.exhausted", None);
        ("message_type", Some (VStr (r_message_type r))); ("messaging.system", Some (VStr "kafka"));
        ("messaging.destination.name", Some (VStr (r_source_topic r)));
        ("messaging.operation.name", Some (VStr "process"));
        ("messaging.message.id", Some (VStr (show_uuid (r_message_id r))))] |}.

Definition handler_span (row : ReceivedRow) (position : HandlerPosition) : SpanShape :=
  {| span_name := "kafkaman.handler";
     span_fields :=
       [("otel.kind", Some (VStr "internal")); ("otel.status_code", None);
        ("otel.status_description", None); ("error.type", None);
        ("kafkaman.failure.kind", None); ("kafkaman.failure.type", None);
        ("kafkaman.failure.stage", None);
        ("message_type", Some (VStr (r_message_type (row_db row))));
        ("handler.position", Some (VStr (position_str position))); ("handler.outcome", None)] |}.

Definition span_shape (show_uuid : uuid -> string) (row : ReceivedRow) (s : SpanRef) : SpanShape :=
  match s with
  | DispatchSpan => dispatch_span show_uuid row
  | HandlerSpan p => handler_span row p
  end.

(** [FailureRecordPath::as_str]. *)
Definition recorded_via_str (p : FailureRecordPath) : string :=
  match p with
  | ClaimTransaction => "claim_transaction"
  | SavepointPath => "savepoint"
  | FallbackConnection => "fallback_connection"
  end.

Section dispatch_spans.
Context `{Otel} {App : Type}.
Context (lost : Stmt -> bool) (commit_lands : bool) (meanwhile : @Db App -> @Db App)
  (display : Error -> string).
Context (schema_ : SqlIdentifier) (desc : MessageDescriptor) (policy : RetryPolicy)
  (wait : Z -> interval) (now due_at : instant) (locked : uuid -> bool)
  (router : @MessageRouter App).

Notation Reports := (list (Report SpanRef)).

(** [record_exception]: the type is the error's own. *)
Definition record_exception (span : SpanRef) (e : Error) : Reports :=
  record_exception_as span (problem_type e) (display e).

Definition record_retry_outcome (span : SpanRef) (row : ReceivedRow) (d : FailureDisposition)
  : Reports :=
  let (attempt, exhausted) := received_retry_outcome policy (r_attempts (row_db row)) d in
  [Recorded span "kafkaman.retry.attempt" (VInt attempt);
   Recorded span "kafkaman.retry.exhausted" (VBool exhausted)].

Definition record_failure_attrs (span : SpanRef) (kind : ReceivedFailureKind) (stage : FailureStage)
  : Reports :=
  [Recorded span "kafkaman.failure.kind" (VStr (enum_str kind));
   Recorded span "kafkaman.failure.type" (VStr (kind_problem_type kind));
   Recorded span "kafkaman.failure.stage" (VStr (enum_str stage))].

Definition record_failure_status (span : SpanRef) (kind : ReceivedFailureKind)
  (stage : FailureStage) (e : Error) : Reports :=
  record_failure_attrs span kind stage
  ++ [Recorded span "error.type" (VStr (problem_type e))]
  ++ record_error span (display e).

Definition record_failure_exception (span : SpanRef) (kind : ReceivedFailureKind)
  (stage : FailureStage) (e : Error) : Reports :=
  record_failure_attrs span kind stage ++ record_exception span e.

Definition record_recorded_dispatch_failure (span : SpanRef) (failed : nat)
  (kind : ReceivedFailureKind) (stage : FailureStage) (recorded_via : FailureRecordPath) (e : Error)
  : Reports :=
  if Nat.eqb failed 0 then []
  else Recorded span "kafkaman.failure.recorded_via" (VStr (recorded_via_str recorded_via))
       :: match stage with
          | SHandler => record_failure_status span kind stage e
          | SRouting | SBookkeeping => record_failure_exception span kind stage e
          end.

(** ** The traced cycle *)

(** [run_handler], with what it reports. *)
Definition run_handler_traced {A} (position : HandlerPosition) (h : HandlerRun A)
  : result Error A * Reports :=
  let span := HandlerSpan position in
  let '(r, reps) :=
    match catch_handler_panic h with
    | Ok r => (r, [])
    | Err message =>
        (Err (EHandlerPanicked message), [Recorded span "handler.outcome" (VStr "panicked")])
    end in
  match r with
  | Ok a => (Ok a, reps)
  | Err e =>
      let d := failure_disposition e SHandler in
      (Err e, reps ++ record_failure_exception span (fd_kind d) (fd_stage d) e)
  end.

(** Inside the savepoint, the state carries the reports made so far. *)
Definition traced (E A : Type) : Type := eff E (@Tx App * Reports) A.

Definition call_traced {A} (position : HandlerPosition) (h : Handler A) (row : ReceivedRow)
  : traced DispatchFailure A := fun '(tx, log) =>
  let '(run, db, st) := h (meta_of row) (r_payload (row_db row)) (tx_db tx) in
  let tx := {| tx_db := db; tx_savepoint := tx_savepoint tx; tx_status := st |} in
  let '(r, reps) := run_handler_traced position run in
  match r with
  | Ok a => (Ok a, (tx, log ++ reps))
  | Err e => (Err (HandlerFailure e), (tx, log ++ reps))
  end.

Definition quietly {E A} (m : eff E (@Tx App) A) : traced E A := fun '(tx, log) =>
  let '(r, tx) := m tx in (r, (tx, log)).

Definition converge_traced (row : ReceivedRow) : traced DispatchFailure MarkOutcome :=
  flow ← match before_handlers router !! r_message_type (row_db row) with
         | Some before => call_traced BeforeUpsert before row
         | None => mret Continue
         end;
  applied ← quietly (bookkeeping (exec lost SUpsert
              (on_cache (upsert_cache_from_received alone now schema_ desc (row_db row)))));
  _ ← (if bool_decide (flow = Continue) && negb (bool_decide (applied = Ignored)) then
         match handlers router !! r_message_type (row_db row) with
         | Some h => call_traced AfterUpsert h row
         | None => mret tt
         end
       else mret tt);
  quietly (bookkeeping (exec lost SMark
    (on_received (mark_received_processed (r_message_id (row_db row)) due_at)))).

(** The two calls after a failure record has landed; an error returns before
    them. *)
Definition report_recorded (row : ReceivedRow) (d : FailureDisposition) (e : Error) (c : @Cycle App)
  : Reports :=
  match cy_result c, cy_path c with
  | Ok st, Some via =>
      record_retry_outcome DispatchSpan row d
      ++ record_recorded_dispatch_failure DispatchSpan (ds_failed st) (fd_kind d) (fd_stage d) via e
  | _, _ => []
  end.

(** [dispatch_claimed_row]. *)
Definition claimed_traced (before : @Db App) (row : ReceivedRow) (tx : @Tx App)
  : @Cycle App * Reports :=
  let failure d e := failure_record_of (row_db row) d (display e) due_at in
  if negb (routes router (r_message_type (row_db row))) then
    let e := EMissingHandler (r_message_type (row_db row)) in
    let d := failure_disposition e SRouting in
    let c := record_and_commit lost commit_lands policy wait before (failure d e) ClaimTransaction tx in
    (c, report_recorded row d e c)
  else match create_savepoint lost tx with
  | (Err e, _) => (fails e before, [])
  | (Ok _, tx) =>
      match converge_traced row (tx, []) with
      | (Ok o, (tx, reps)) =>
          match commit lost commit_lands before tx with
          | (Err e, db) => (fails e db, reps)
          | (Ok _, db) =>
              (ends {| ds_claimed := 1; ds_processed := if bool_decide (o = Updated) then 1 else 0;
                       ds_failed := 0; ds_panicked := 0; ds_panicked_message_id := None |} db None,
               reps)
          end
      | (Err f, (tx, reps)) =>
          let c := unwind_and_record lost commit_lands meanwhile policy wait before
                     (failure (disposition f) (failure_error f)) tx in
          let reps := reps ++ report_recorded row (disposition f) (failure_error f) c in
          match cy_result c with
          | Ok s => (ends (with_panic f (r_message_id (row_db row)) s) (cy_db c) (cy_path c), reps)
          | Err _ => (c, reps)
          end
      end
  end.

(** [dispatch_once_inner]: the span opens with the row, takes its parent from
    the row's stored context, and an error that left the cycle unfinished is
    reported on it. *)
Definition dispatch_traced (before : @Db App) : @Cycle App * Reports :=
  if lost SBegin || lost SClaim then (fails conn_lost before, [])
  else match claim_received_row locked due_at (db_received before) with
  | Err e => (fails e before, [])
  | Ok None =>
      (if lost SCommit then fails conn_lost before else ends stats_default before None, [])
  | Ok (Some row) =>
      let parent := match row_trace row with
                    | Some trace => map Bridged (set_parent DispatchSpan trace)
                    | None => []
                    end in
      let (c, reps) := claimed_traced before row
                         {| tx_db := before; tx_savepoint := None; tx_status := Active |} in
      (c, parent ++ reps
          ++ match cy_result c with Err e => record_exception DispatchSpan e | Ok _ => [] end)
  end.

(** ** The traced cycle is the cycle *)

(** What one failing handler call reports, [panicked] or returned. *)
Definition handler_reports (position : HandlerPosition) (panicked : bool) (e : Error) : Reports :=
  (if panicked then [Recorded (HandlerSpan position) "handler.outcome" (VStr "panicked")] else [])
  ++ record_failure_exception (HandlerSpan position) (failure_kind e) SHandler e.

Definition call_reports {A} (r : result DispatchFailure A) (reps : Reports) : Prop :=
  match r with
  | Err (HandlerFailure e) => exists position panicked, reps = handler_reports position panicked e
  | _ => reps = []
  end.

(** [m'] does what [m] does and adds to the log what [call_reports] says. *)
Definition traces {A} (m' : traced DispatchFailure A) (m : eff DispatchFailure (@Tx App) A) : Prop :=
  forall tx log, exists reps,
    m' (tx, log) = (fst (m tx), (snd (m tx), log ++ reps)) /\ call_reports (fst (m tx)) reps.

Lemma run_handler_traces {A} position (h : HandlerRun A) :
  exists panicked, run_handler_traced position h
  = (run_handler h, match run_handler h with Ok _ => [] | Err e => handler_reports position panicked e end).
Proof.
  unfold run_handler_traced, run_handler.
  destruct (catch_handler_panic h) as [[a|e]|m]; [exists false; done..|by exists true].
Qed.

Lemma call_traces {A} position (h : Handler A) row : traces (call_traced position h row) (call h row).
Proof.
  intros tx log. unfold call_traced, call. destruct (h _ _ _) as [[run db] st].
  destruct (run_handler_traces position run) as [panicked ->].
  destruct (run_handler run) as [a|e]; eexists; (split; [done|]); simpl; eauto.
Qed.

Lemma ret_traces {A} (a : A) : traces (mret a) (mret a).
Proof. intros tx log. exists []. by rewrite app_nil_r. Qed.

Lemma quietly_traces {A} (m : eff Error (@Tx App) A) :
  traces (quietly (bookkeeping m)) (bookkeeping m).
Proof.
  intros tx log. exists []. unfold quietly, bookkeeping. rewrite app_nil_r.
  by destruct (m tx) as [[a|e] tx'].
Qed.

Lemma bind_traces {A B} (m' : traced DispatchFailure A) m (k' : A -> traced DispatchFailure B) k :
  traces m' m -> (forall a, traces (k' a) (k a)) -> traces (m' ≫= k') (m ≫= k).
Proof.
  intros Hm Hk tx log. unfold mbind, eff_bind.
  destruct (Hm tx log) as (reps & -> & Hr). destruct (m tx) as [[a|f] tx']; simpl in *.
  - rewrite Hr. destruct (Hk a tx' (log ++ [])) as (reps' & -> & Hr'). exists reps'.
    by rewrite app_nil_r.
  - by exists reps.
Qed.

Lemma converge_traces row :
  traces (converge_traced row) (converge_and_dispatch lost schema_ desc now due_at router row).
Proof.
  unfold converge_traced, converge_and_dispatch.
  apply bind_traces; [case_match; [apply call_traces|apply ret_traces]|]. intros flow.
  apply bind_traces; [apply quietly_traces|]. intros applied.
  apply bind_traces; [|intros _; apply quietly_traces].
  case_match; [case_match; [apply call_traces|apply ret_traces]|apply ret_traces].
Qed.

(** Adding the reports changes nothing else: the traced cycle answers what the
    cycle answers and leaves the same database. *)
Lemma traced_erases (before : @Db App) :
  fst (dispatch_traced before)
  = dispatch_once lost commit_lands meanwhile display schema_ desc policy wait now due_at locked
      router before.
Proof.
  unfold dispatch_traced, dispatch_once. destruct (lost SBegin || lost SClaim); [done|].
  destruct (claim_received_row _ _ _) as [[row|]|e]; [|by destruct (lost SCommit)|done].
  unfold claimed_traced, dispatch_claimed_row. destruct (negb _); [done|].
  destruct (create_savepoint lost _) as [[[]|e] tx]; [|done].
  destruct (converge_traces row tx []) as (reps & -> & _).
  destruct (converge_and_dispatch _ _ _ _ _ _ row tx) as [[o|f] tx']; simpl.
  - by destruct (commit _ _ _ _) as [[[]|e] db].
  - by destruct (cy_result _).
Qed.

(** ** What a failure record leaves on the row *)

Definition stored (f : ReceivedFailureRecord) (db : @Db App) : Prop :=
  exists r, r ∈ db_received db /\ rrow_id r = fr_message_id f
    /\ r_last_failure_kind r = Some (fd_kind (fr_disposition f))
    /\ r_status r = if snd (received_retry_outcome policy (fr_current_attempts f) (fr_disposition f))
                    then Failed else Retryable.

Lemma record_stored f db db' : record policy wait f db = (Ok Updated, db') -> stored f db'.
Proof.
  unfold record, on_received, record_received_failure.
  destruct (existsb _ _); [done|]. unfold received_mark.
  set (p := fun r => has_id (fr_message_id f) r && open_row r).
  destruct (Nat.eqb_spec (sql_count p (db_received db)) 1) as [Hc|].
  2: { unfold received_mark_miss. by destruct (existsb _ _). }
  intros [= <-]. unfold stored. cbn [db_received].
  destruct (List.filter p (db_received db)) as [|r l] eqn:Ef; [unfold sql_count in Hc; by rewrite Ef in Hc|].
  assert (Hr : r ∈ List.filter p (db_received db)) by (rewrite Ef; left).
  apply elem_of_sfilter in Hr as [Hr Hp]. eexists. split.
  { apply elem_of_update. exists r. split; [done|]. by rewrite Hp. }
  apply andb_true_iff in Hp as [Hid%has_id_true _]. by split_and!.
Qed.

(** The answer of a recording: it processed nothing, and it counts a failure
    exactly when the record is on the row. *)
Definition recording (f : ReceivedFailureRecord) (c : @Cycle App) : Prop :=
  forall st, cy_result c = Ok st ->
    ds_processed st = 0%nat /\ is_Some (cy_path c)
    /\ (ds_failed st = 0%nat \/ ds_failed st = 1%nat /\ stored f (cy_db c)).

Lemma failure_stats_recording f o db p :
  (o = Updated -> stored f db) -> recording f (ends (dispatch_failure_stats o) db (Some p)).
Proof.
  intros Ho st [= <-]. split_and!; [done|by eexists|]. simpl.
  case_bool_decide; [right; split; [done|by apply Ho]|by left].
Qed.

Lemma record_and_commit_recording before f p tx :
  recording f (record_and_commit lost commit_lands policy wait before f p tx).
Proof.
  unfold record_and_commit.
  destruct (exec _ _ _ tx) as [[o|e] tx'] eqn:E; [|by intros st ?].
  apply exec_Ok in E as (E & _ & Ha & _). unfold commit. rewrite Ha.
  destruct (lost SCommit); [by intros st ?|]. apply failure_stats_recording. intros ->.
  by eapply record_stored.
Qed.

Lemma unwind_recording before f tx :
  recording f (unwind_and_record lost commit_lands meanwhile policy wait before f tx).
Proof.
  unfold unwind_and_record. destruct (rollback_to_savepoint lost tx) as [[[]|e] tx'];
    [apply record_and_commit_recording|].
  destruct (lost SAcquire); [by intros st ?|].
  destruct (record policy wait f (meanwhile before)) as [[o|e'] db] eqn:E; [|by intros st ?].
  apply failure_stats_recording. intros ->. by eapply record_stored.
Qed.

(** ** What a claimed row's cycle reports *)

Inductive claimed_reports (row : ReceivedRow) (c : @Cycle App) : Reports -> Prop :=
| reports_none :
    (forall st, cy_result c = Ok st -> ds_failed st = 0%nat) -> claimed_reports row c []
| reports_abandoned position panicked e :
    is_ok (cy_result c) = false -> claimed_reports row c (handler_reports position panicked e)
| reports_recorded st via e stage inner :
    cy_result c = Ok st -> cy_path c = Some via -> ds_processed st = 0%nat ->
    let d := failure_disposition e stage in
    (ds_failed st = 0%nat
     \/ ds_failed st = 1%nat
        /\ stored (failure_record_of (row_db row) d (display e) due_at) (cy_db c)) ->
    match stage with
    | SHandler => exists position panicked, inner = handler_reports position panicked e
    | _ => inner = []
    end ->
    claimed_reports row c
      (inner ++ record_retry_outcome DispatchSpan row d
       ++ record_recorded_dispatch_failure DispatchSpan (ds_failed st) (fd_kind d) stage via e).

Lemma claimed_traced_reports before row tx :
  claimed_reports row (fst (claimed_traced before row tx)) (snd (claimed_traced before row tx)).
Proof.
  unfold claimed_traced. destruct (negb _).
  { match goal with |- context [record_and_commit _ _ _ _ _ ?f ?p _] =>
      pose proof (record_and_commit_recording before f p tx) as Hrec end.
    simpl. unfold report_recorded. destruct (cy_result _) as [st|e] eqn:Er.
    - destruct (Hrec st Er) as (Hp & [via Hv] & Hf). rewrite Hv.
      exact (reports_recorded row _ st via (EMissingHandler (r_message_type (row_db row))) SRouting
               [] Er Hv Hp Hf eq_refl).
    - apply reports_none. by rewrite Er. }
  destruct (create_savepoint lost tx) as [[[]|e] tx1]; [|by apply reports_none].
  destruct (converge_traces row tx1 []) as (inner & -> & Hr).
  destruct (converge_and_dispatch _ _ _ _ _ _ row tx1) as [[o|f] tx']; simpl in *.
  { subst inner. destruct (commit _ _ _ _) as [[[]|e] db]; apply reports_none; [|done].
    by intros st [= <-]. }
  match goal with |- context [unwind_and_record _ _ _ _ _ _ ?g _] =>
    pose proof (unwind_recording before g tx') as Hrec end.
  unfold report_recorded. destruct (cy_result _) as [st|e] eqn:Er; simpl.
  - destruct (Hrec st Er) as (Hp & [via Hv] & Hf). rewrite Hv.
    destruct f as [e|e]; simpl in Hr |- *.
    + exact (reports_recorded row (ends _ _ _) (with_panic _ _ st) via e SHandler inner
               eq_refl eq_refl Hp Hf Hr).
    + exact (reports_recorded row (ends _ _ _) (with_panic _ _ st) via e SBookkeeping inner
               eq_refl eq_refl Hp Hf Hr).
  - rewrite app_nil_r. destruct f as [e'|e']; simpl in Hr.
    + destruct Hr as (position & panicked & ->). apply reports_abandoned. by rewrite Er.
    + subst inner. apply reports_none. by rewrite Er.
Qed.

(** ** What every report respects *)

Context (show_uuid : uuid -> string).

(** A recorded field is one its span declared, a status description and an
    exception text fit the bound, an exception type is a published one, and the
    only bridge call makes the dispatch span a child of the row's context. *)
Definition report_ok (row : ReceivedRow) (r : Report SpanRef) : Prop :=
  match r with
  | Recorded s field v =>
      declares (span_shape show_uuid row s) field = true
      /\ (field = "otel.status_description" ->
          exists text, v = VStr text /\ (String.length text <= MAX_STATUS_DESCRIPTION)%nat)
  | ExceptionEvent _ ty error =>
      ty ∈ ALL_PROBLEM_TYPES /\ (String.length error <= MAX_STATUS_DESCRIPTION)%nat
  | Bridged c =>
      exists sc, c = SetParent DispatchSpan sc /\ row_trace row ≫= to_span_context = Some sc
  end.

Ltac reports_ok :=
  repeat (apply Forall_cons; split);
  try apply Forall_nil_2; simpl;
  first [ by split; [apply problem_type_published|apply bounded]
        | split; [reflexivity|first [by intros _; eexists; split; [done|apply bounded]|done]] ].

Lemma exception_ok row s e : Forall (report_ok row) (record_exception s e).
Proof. unfold record_exception, record_exception_as. destruct s as [|[]]; reports_ok. Qed.

Lemma attrs_ok row s k st : Forall (report_ok row) (record_failure_attrs s k st).
Proof. unfold record_failure_attrs. destruct s as [|[]]; reports_ok. Qed.

Lemma failure_exception_ok row s k st e :
  Forall (report_ok row) (record_failure_exception s k st e).
Proof. apply Forall_app. split; [apply attrs_ok|apply exception_ok]. Qed.

Lemma handler_ok row p b e : Forall (report_ok row) (handler_reports p b e).
Proof.
  apply Forall_app. split; [|apply failure_exception_ok].
  destruct b, p; reports_ok.
Qed.

Lemma recorded_ok row d failed k st via e :
  Forall (report_ok row)
    (record_retry_outcome DispatchSpan row d
     ++ record_recorded_dispatch_failure DispatchSpan failed k st via e).
Proof.
  apply Forall_app. split; [unfold record_retry_outcome, received_retry_outcome; reports_ok|].
  unfold record_recorded_dispatch_failure. destruct (Nat.eqb failed 0); [constructor|].
  apply Forall_cons. split; [by split|].
  destruct st; [apply failure_exception_ok| |apply failure_exception_ok].
  unfold record_failure_status. apply Forall_app. split; [apply attrs_ok|].
  unfold record_error. reports_ok.
Qed.

Lemma claimed_reports_ok row c reps : claimed_reports row c reps -> Forall (report_ok row) reps.
Proof.
  intros [|p b e|st via e stage inner ? ? ? ? ? Hi]; [constructor|apply handler_ok|].
  apply Forall_app. split; [|apply recorded_ok].
  destruct stage; [by subst| |by subst]. destruct Hi as (p & b & ->). apply handler_ok.
Qed.

(** ** One failure, one exception *)

Lemma exceptions_handler p b e : exceptions (handler_reports p b e) = [HandlerSpan p].
Proof. by destruct b. Qed.

Definition parent_reports (row : ReceivedRow) : Reports :=
  match row_trace row with Some t => map Bridged (set_parent DispatchSpan t) | None => [] end.

Lemma parent_reports_ok row :
  Forall (report_ok row) (parent_reports row) /\ exceptions (parent_reports row) = [].
Proof.
  unfold parent_reports, set_parent. destruct (row_trace row) as [t|] eqn:Et; [|by split].
  destruct (to_span_context t) as [sc|] eqn:Es; [|by split]. split; [|done].
  repeat constructor. exists sc. rewrite Et. by split.
Qed.

Lemma exported_suffix shape s (before after : Reports) field v :
  last (omap (writes shape s field) after) = Some v ->
  exported shape s (before ++ after) field = Some v.
Proof. intros E. unfold exported. by rewrite omap_app, last_app, E. Qed.

(** The fields of the dispatch span of a recorded failure. *)
Lemma recorded_fields row d via e stage pre :
  let reps := pre ++ record_retry_outcome DispatchSpan row d
                  ++ record_recorded_dispatch_failure DispatchSpan 1 (fd_kind d) stage via e in
  let field := exported (dispatch_span show_uuid row) DispatchSpan reps in
  let '(attempt, exhausted) := received_retry_outcome policy (r_attempts (row_db row)) d in
  field "otel.status_code" = Some (VStr "ERROR")
  /\ field "error.type" = Some (VStr (problem_type e))
  /\ field "kafkaman.failure.stage" = Some (VStr (enum_str stage))
  /\ field "kafkaman.failure.kind" = Some (VStr (enum_str (fd_kind d)))
  /\ field "kafkaman.failure.recorded_via" = Some (VStr (recorded_via_str via))
  /\ field "kafkaman.retry.attempt" = Some (VInt attempt)
  /\ field "kafkaman.retry.exhausted" = Some (VBool exhausted).
Proof. destruct stage; simpl; split_and!; by apply exported_suffix. Qed.

Definition stage_span (stage : FailureStage) (s : SpanRef) : Prop :=
  match stage with SHandler => exists p, s = HandlerSpan p | _ => s = DispatchSpan end.

Lemma recorded_exceptions row d via e stage inner :
  match stage with
  | SHandler => exists position panicked, inner = handler_reports position panicked e
  | _ => inner = []
  end ->
  exists s, exceptions (inner ++ record_retry_outcome DispatchSpan row d
              ++ record_recorded_dispatch_failure DispatchSpan 1 (fd_kind d) stage via e) = [s]
            /\ stage_span stage s.
Proof.
  intros Hi. rewrite exceptions_app.
  destruct stage; [subst inner; by exists DispatchSpan| |subst inner; by exists DispatchSpan].
  destruct Hi as (p & b & ->). rewrite exceptions_handler. exists (HandlerSpan p). split; [done|by exists p].
Qed.

(** What the reports of a cycle that claimed [row] say of its answer. *)
Definition reported (row : ReceivedRow) (c : @Cycle App) (reps : Reports) : Prop :=
  Forall (report_ok row) reps
  /\ match cy_result c with
     | Err _ => exists inner, exceptions reps = inner ++ [DispatchSpan]
                              /\ (inner = [] \/ exists p, inner = [HandlerSpan p])
     | Ok st =>
         (ds_processed st <> 0%nat -> exceptions reps = [])
         /\ (ds_failed st <> 0%nat ->
             exists s stage kind via r,
               exceptions reps = [s] /\ stage_span stage s /\ cy_path c = Some via
               /\ r ∈ db_received (cy_db c) /\ rrow_id r = r_message_id (row_db row)
               /\ r_last_failure_kind r = Some kind
               /\ let field := exported (dispatch_span show_uuid row) DispatchSpan reps in
                  field "otel.status_code" = Some (VStr "ERROR")
                  /\ field "kafkaman.failure.stage" = Some (VStr (enum_str stage))
                  /\ field "kafkaman.failure.kind" = Some (VStr (enum_str kind))
                  /\ field "kafkaman.failure.recorded_via" = Some (VStr (recorded_via_str via))
                  /\ field "kafkaman.retry.exhausted"
                     = Some (VBool (bool_decide (r_status r = Failed))))
     end.

Lemma claimed_reported row c reps :
  claimed_reports row c reps ->
  reported row c (parent_reports row ++ reps
                  ++ match cy_result c with Err e => record_exception DispatchSpan e | Ok _ => [] end).
Proof.
  intros Hc. destruct (parent_reports_ok row) as [Hpo Hpe]. split.
  { rewrite !Forall_app. split_and!; [done|by eapply claimed_reports_ok|].
    destruct (cy_result c); [constructor|apply exception_ok]. }
  destruct Hc as [Hn|p b e Hc|st via e stage inner Er Hv Hp d Hf Hi].
  - destruct (cy_result c) as [st|er]; rewrite !exceptions_app, Hpe.
    + split; [done|]. by rewrite (Hn st eq_refl).
    + exists []. split; [done|by left].
  - destruct (cy_result c) as [st|er]; [done|]. rewrite !exceptions_app, Hpe, exceptions_handler.
    exists [HandlerSpan p]. split; [done|]. right. by exists p.
  - rewrite Er, app_nil_r. split; [by rewrite Hp|]. intros Hne.
    destruct Hf as [?|[-> (r & Hr & Hid & Hk & Hs)]]; [done|].
    destruct (recorded_exceptions row d via e stage inner Hi) as (s & Hx & Hss).
    exists s, stage, (fd_kind d), via, r. rewrite exceptions_app, Hpe, Hx.
    split_and!; try done. rewrite app_assoc.
    destruct (recorded_fields row d via e stage (parent_reports row ++ inner))
      as (F1 & _ & F2 & F3 & F4 & _ & F5). simpl. split_and!; [exact F1|exact F2|exact F3|exact F4|].
    etrans; [exact F5|]. rewrite Hs. do 2 f_equal. cbn. by destruct (_ || _).
Qed.

(** C20. One failure reaches the backend as one error. Whatever the handlers do
    and wherever the connection breaks, tracing changes nothing of the cycle; a
    processed row raises no exception; a recorded failure raises exactly one, on
    the handler's span when the handler failed and on the dispatch span
    otherwise, and the dispatch span is marked failed with the stage, the class
    and the path under which the row stores it, and says the budget is spent
    exactly when the row is parked; a cycle that could not finish raises one on
    the dispatch span, after at most one on a handler's. Every field recorded is
    one the span declared, every text is within its bound, and the dispatch span
    descends from the context stored in the row. *)
Theorem failure_reported_once (before : @Db App) :
  let '(c, reps) := dispatch_traced before in
  c = dispatch_once lost commit_lands meanwhile display schema_ desc policy wait now due_at locked
        router before
  /\ match claim_received_row locked due_at (db_received before) with
     | Ok (Some row) => if lost SBegin || lost SClaim then reps = [] else reported row c reps
     | _ => reps = []
     end.
Proof.
  pose proof (traced_erases before) as He. revert He. unfold dispatch_traced.
  destruct (lost SBegin || lost SClaim); [intros He; split; [done|by repeat case_match]|].
  destruct (claim_received_row _ _ _) as [[row|]|e]; [|done..].
  fold (parent_reports row).
  pose proof (claimed_traced_reports before row
    {| tx_db := before; tx_savepoint := None; tx_status := Active |}) as Hc.
  destruct (claimed_traced _ _ _) as [c reps]. intros He. split; [exact He|].
  by apply claimed_reported.
Qed.
End dispatch_spans.

(** ** The model evaluated *)

Module SpansSample.
#[local] Existing Instance PropagationSample.otel.

Definition run_traced (lost : Stmt -> bool) (router : @MessageRouter DSample.App)
  : @Cycle DSample.App * list (Report SpanRef) :=
  dispatch_traced lost true id DSample.show "app" RSample.descriptor retry_default (fun _ => 5) 60 60
    RSample.unlocked router DSample.before.

(** A panic is one exception, on the handler's span; an unregistered type is one
    on the dispatch span; a good handler raises none; a panic whose record cannot
    be written is followed by the error of the cycle. *)
Example panicking_once :
  exceptions (snd (run_traced DSample.up (DSample.routing DSample.panicking))) = [HandlerSpan AfterUpsert].
Proof. vm_compute. reflexivity. Qed.
Example unrouted_once :
  exceptions (snd (run_traced DSample.up router_new)) = [DispatchSpan].
Proof. vm_compute. reflexivity. Qed.
Example good_quiet :
  length (snd (run_traced DSample.up (DSample.routing DSample.good))) = 0%nat.
Proof. vm_compute. reflexivity. Qed.
Example abandoned_twice :
  exceptions (snd (run_traced (fun st => match st with SRecord => true | _ => false end)
                     (DSample.routing DSample.panicking))) = [HandlerSpan AfterUpsert; DispatchSpan].
Proof. vm_compute. reflexivity. Qed.
End SpansSample.
