(* ===== verification/IngestSpans.v ===== *)
(** * IngestSpans: what one consumed record reports

    Models the span code of [src/crates/kafkaman-rdkafka/src/consumer.rs]: the
    [kafkaman.ingest] span with the producer's context linked or taken as
    parent, the context written to the received row, the [Refusal] a quarantined
    record carries up to the span, and the event that reports the record. The
    steps on the two tables are those of [Ingest]; [outcome_erases] shows that
    carrying the refusal changes none of them. *)

From S2P Require Import Prelude Text Vocabulary Trace Identity Topics Registry Outbox.
From S2P Require Import OutboxOrder Relay Retry Received Wire Ingest Config Propagation Spans.
Open Scope string_scope.
Open Scope list_scope.
Open Scope Z_scope.

(** [RecordLocation]. *)
Record RecordLocation := { loc_partition : Z; loc_offset : Z }.
Definition location_of (m : Message) : RecordLocation :=
  {| loc_partition := k_partition m; loc_offset := k_offset m |}.

(** [Refusal] and [IngestOutcome]. *)
Record Refusal := { ref_kind : ReceivedIngestFailureKind; ref_detail : string }.
Record IngestOutcome := { oc_stats : IngestStats; oc_refusal : option Refusal }.

Definition outcome_stored (stats : IngestStats) : IngestOutcome :=
  {| oc_stats := stats; oc_refusal := None |}.
Definition outcome_refused (stats : IngestStats) (kind : ReceivedIngestFailureKind) (detail : string)
  : IngestOutcome :=
  {| oc_stats := stats; oc_refusal := Some {| ref_kind := kind; ref_detail := detail |} |}.

(** The line [report_ingest_result] logs, at [warn] or [debug], inside the span. *)
Inductive IngestEvent :=
| SkippedEvent (partition offset : Z) (skipped committed : nat)
| StoredEvent (partition offset : Z) (inserted duplicates committed : nat).

Definition report_ingest_result (s : IngestStats) : IngestEvent :=
  if Nat.ltb 0 (is_skipped s)
  then SkippedEvent (is_partition s) (is_offset s) (is_skipped s) (is_committed s)
  else StoredEvent (is_partition s) (is_offset s) (is_inserted s) (is_duplicates s) (is_committed s).

(** The one span of a record. *)
Inductive IngestSpan := TheIngestSpan.
#[global] Instance IngestSpan_eq_dec : EqDecision IngestSpan.
Proof. solve_decision. Defined.

Section ingest_spans.
Context `{Otel} `{Formats} {P : Type} `{KafkaMessage P} {K : Type} (client : Client K).
Context (from_slice : string -> unwinding (result string P)).
Context (display : Error -> string) (rd_display : RdError -> string).
Context (rcfg : Resolved) (limit : nat) (x : Circumstances).

Abbreviation cfg := (base rcfg).

Notation Reports := (list (Report IngestSpan)).
Abbreviation ingest A := (eff RdError (Ingester K) A).

(** ** The span *)

Definition ingest_span_shape (at_ : RecordLocation) (topic : string) : SpanShape :=
  {| span_name := "kafkaman.ingest";
     span_fields :=
       [("otel.kind", Some (VStr "consumer")); ("otel.status_code", None);
        ("otel.status_description", None); ("error.type", None);
        ("message_type", Some (VStr (MESSAGE_TYPE P))); ("messaging.system", Some (VStr "kafka"));
        ("messaging.destination.name", Some (VStr topic));
        ("messaging.operation.name", Some (VStr "receive"));
        ("messaging.kafka.partition", Some (VInt (loc_partition at_)));
        ("messaging.kafka.offset", Some (VInt (loc_offset at_)))] |}.

(** [ingest_span]: linked to its producer, or parented when asked to. *)
Definition ingest_span (producer_trace : option TraceContext) (handoff : KafkaTraceHandoff) : list BridgeCall :=
  match producer_trace with
  | None => []
  | Some trace =>
      match handoff with
      | Linked => add_link TheIngestSpan trace
      | Parented => set_parent TheIngestSpan trace
      end
  end.

(** ** The record's outcome *)

Definition quarantine_outcome (m : Message) (kind : ReceivedIngestFailureKind) (error : string)
  : ingest IngestOutcome :=
  stats ← quarantine (P := P) client cfg limit x m kind error;
  mret (outcome_refused stats kind error).

Definition store_outcome (m : Message) (d : DecodedRecord P) : ingest IngestOutcome :=
  table ← lift (lift_sqlx (for_message ReceivedKind P cfg));
  _ ← begin_tx x SBeginStore;
  before ← gets ig_store;
  match insert_row cfg x m d before with
  | Err (EApplicationPanicked _ _ _ as e) => quarantine_outcome m IInvalidPayload (display e)
  | Err e => raise (RdSqlx e)
  | Ok (outcome, after) =>
      let conflict := if bool_decide (outcome = MessageIdConflict)
                      then Some (conflict_text (dec_envelope d)) else None in
      after ← lift (match conflict with
                    | Some detail =>
                        quarantine_row x SConflictRow
                          (ingest_failure_record (MESSAGE_TYPE P) m (desc_topic (tbl_desc table))
                             MessageIdConflictKind detail) after
                    | None => Ok after
                    end);
      _ ← commit_tx x SCommitStore after;
      _ ← match conflict with Some _ => count_skip limit m | None => reset_skips end;
      _ ← commit_record client m;
      let stats := stats_of m (bool_decide (outcome = Inserted))
                     (bool_decide (outcome = DuplicateIdempotencyKey)) (bool_decide (is_Some conflict)) in
      mret (match conflict with
            | Some detail => outcome_refused stats MessageIdConflictKind detail
            | None => outcome_stored stats
            end)
  end.

Definition ingest_decoded_outcome (m : Message) (expected_topic : string) : ingest IngestOutcome :=
  match record_envelope from_slice (fresh_ids x) (now_at x) m expected_topic (record_headers_of m) with
  | Ok record => store_outcome m record
  | Err e =>
      match ingest_failure_kind e with
      | Some kind => quarantine_outcome m kind (rd_display e)
      | None => raise e
      end
  end.

(** What [ingest_once] reports of a record's outcome on its span. *)
Definition outcome_reports (r : result RdError IngestOutcome) : Reports :=
  match r with
  | Ok o =>
      match oc_refusal o with
      | Some refusal =>
          record_exception_as TheIngestSpan (ingest_kind_problem_type (ref_kind refusal))
            (ref_detail refusal)
      | None => []
      end
  | Err e => record_exception_as TheIngestSpan (rd_problem_type e) (rd_display e)
  end.

Definition outcome_result (r : result RdError IngestOutcome) : result RdError IngestStats :=
  match r with Ok o => Ok (oc_stats o) | Err e => Err e end.

(** [cfg.observability.policy_for(P::MESSAGE_TYPE).kafka_trace_handoff]. *)
Definition trace_handoff : KafkaTraceHandoff :=
  op_handoff (observability_policy_for (rc_observability rcfg) (MESSAGE_TYPE P)).

(** [ingest_once] on the record it received: the answer, the state, the reports
    on the span and the event. *)
Definition ingest_record (m : Message) (topic : string) (w : Ingester K)
  : result RdError IngestStats * Ingester K * Reports * option IngestEvent :=
  let bridged := map Bridged (ingest_span (trace_context (record_headers_of m)) trace_handoff) in
  let '(r, w') := ingest_decoded_outcome m topic w in
  (outcome_result r, w', bridged ++ outcome_reports r,
   match r with Ok o => Some (report_ingest_result (oc_stats o)) | Err _ => None end).

(** ** Carrying the refusal changes nothing *)

Definition erases (m' : ingest IngestOutcome) (m : ingest IngestStats) : Prop :=
  forall w, m w = (outcome_result (fst (m' w)), snd (m' w)).

Lemma bind_erases {A} (m : ingest A) (k' : A -> ingest IngestOutcome) k :
  (forall a, erases (k' a) (k a)) -> erases (m ≫= k') (m ≫= k).
Proof.
  intros Hk w. unfold mbind, eff_bind. destruct (m w) as [[a|e] w1]; [apply Hk|done].
Qed.

Lemma quarantine_erases m kind error :
  erases (quarantine_outcome m kind error) (quarantine (P := P) client cfg limit x m kind error).
Proof.
  intros w. unfold quarantine_outcome, mbind, eff_bind.
  by destruct (quarantine _ _ _ _ _ _ _ w) as [[s|e] w1].
Qed.

Lemma store_erases m d :
  erases (store_outcome m d) (store client display cfg limit x m d).
Proof.
  apply bind_erases. intros table. apply bind_erases. intros _. apply bind_erases. intros before.
  destruct (insert_row cfg x m d before) as [[outcome after]|e].
  - case_bool_decide; (apply bind_erases; intros s'); (apply bind_erases; intros _);
      (apply bind_erases; intros _); (apply bind_erases; intros _); by intros w.
  - destruct e; try (by intros w). apply quarantine_erases.
Qed.

Lemma outcome_erases m topic :
  erases (ingest_decoded_outcome m topic)
    (ingest_decoded client from_slice display rd_display cfg limit x m topic).
Proof.
  unfold ingest_decoded_outcome, ingest_decoded. destruct (record_envelope _ _ _ _ _ _) as [d|e].
  - apply store_erases.
  - destruct (ingest_failure_kind e) as [kind|]; [apply quarantine_erases|by intros w].
Qed.

(** ** The refusal is the quarantine row *)

(** Why a record is refused, and with which class and text: it does not decode;
    its own code panics on the way into the table; its message id is another
    message's. *)
Inductive refusal_cause (m : Message) (topic : string) (s : Store) : ReceivedIngestFailureKind -> string -> Prop :=
| undecodable e kind :
    record_envelope from_slice (fresh_ids x) (now_at x) m topic (record_headers_of m) = Err e ->
    ingest_failure_kind e = Some kind -> refusal_cause m topic s kind (rd_display e)
| panicking d mt what text :
    record_envelope from_slice (fresh_ids x) (now_at x) m topic (record_headers_of m) = Ok d ->
    insert_row cfg x m d s = Err (EApplicationPanicked mt what text) ->
    refusal_cause m topic s IInvalidPayload (display (EApplicationPanicked mt what text))
| conflicting d s' :
    record_envelope from_slice (fresh_ids x) (now_at x) m topic (record_headers_of m) = Ok d ->
    insert_row cfg x m d s = Ok (MessageIdConflict, s') ->
    refusal_cause m topic s MessageIdConflictKind (conflict_text (dec_envelope d)).

(** The quarantine row at the record's source: the one that was there before, or
    one of this class and text. *)
Definition quarantined_as (m : Message) (s s' : Store) (kind : ReceivedIngestFailureKind) (detail : string) : Prop :=
  exists row, st_quarantine s' !! source_of m = Some row
  /\ match st_quarantine s !! source_of m with
     | Some old => row = old
     | None => if_kind row = kind /\ if_error row = detail
     end.

Definition outcome_says (m : Message) (topic : string) (s s' : Store) (o : IngestOutcome) : Prop :=
  match oc_refusal o with
  | None => is_skipped (oc_stats o) = 0%nat
  | Some refusal =>
      is_skipped (oc_stats o) = 1%nat
      /\ refusal_cause m topic s (ref_kind refusal) (ref_detail refusal)
      /\ quarantined_as m s s' (ref_kind refusal) (ref_detail refusal)
  end.

Lemma quarantined_row st m topic kind error s s' :
  quarantine_row x st (ingest_failure_record (MESSAGE_TYPE P) m topic kind error) s = Ok s' ->
  quarantined_as m s s' kind error.
Proof.
  unfold quarantined_as, quarantine_row. destruct (fault x st); [done|]. intros [= <-]. cbn [st_quarantine].
  unfold insert_received_ingest_failure.
  change (failure_source (ingest_failure_record _ m _ _ _)) with (source_of m).
  destruct (st_quarantine s !! source_of m) as [row|] eqn:E; simpl.
  - exists row. by split.
  - rewrite lookup_insert_eq. by eexists.
Qed.

(** The steps after a commit: the counters and the acknowledgement leave the
    tables alone. *)
Lemma commit_tail_store {A} st after (skips : ingest unit) m (a : A) w r w' :
  (forall w, ig_store (snd (skips w)) = ig_store w) ->
  (_ ← commit_tx x st after; _ ← skips; _ ← commit_record client m; mret a) w = (Ok r, w') ->
  r = a /\ ig_store w' = after.
Proof.
  intros Hs. unfold mbind, eff_bind, commit_tx. destruct (fault x st); [done|].
  specialize (Hs (with_store w after)).
  destruct (skips (with_store w after)) as [[[]|e] w1]; [|done]. simpl in Hs.
  unfold commit_record. destruct (commit_message client m (ig_client w1)) as [[[]|t] k]; [|done].
  intros [= <- <-]. by split.
Qed.

Lemma begin_Ok st (w : Ingester K) u w' : begin_tx x st w = (Ok u, w') -> w = w'.
Proof. unfold begin_tx. by destruct (fault x st); intros [= _ <-]. Qed.

Lemma quarantine_says m topic kind error w o w' :
  refusal_cause m topic (ig_store w) kind error ->
  quarantine_outcome m kind error w = (Ok o, w') -> outcome_says m topic (ig_store w) (ig_store w') o.
Proof.
  intros Hcause (stats & w1 & Hq & [= <- <-])%eff_bind_Ok. revert Hq. unfold quarantine.
  intros (table & w2 & [= _ <-] & Hq)%eff_bind_Ok.
  apply eff_bind_Ok in Hq as ([] & w2 & [= <-]%begin_Ok & Hq).
  apply eff_bind_Ok in Hq as (before & w2 & [= <- <-] & Hq).
  apply eff_bind_Ok in Hq as (after & w2 & [= Hr <-] & Hq).
  apply commit_tail_store in Hq as [-> Hst]; [|by intros ?]. unfold outcome_says. simpl.
  rewrite Hst. split; [done|]. split; [done|]. by eapply quarantined_row.
Qed.

Lemma store_says m topic d w o w' :
  record_envelope from_slice (fresh_ids x) (now_at x) m topic (record_headers_of m) = Ok d ->
  store_outcome m d w = (Ok o, w') -> outcome_says m topic (ig_store w) (ig_store w') o.
Proof.
  intros Hd (table & w2 & [= _ <-] & Hq)%eff_bind_Ok.
  apply eff_bind_Ok in Hq as ([] & w2 & [= <-]%begin_Ok & Hq).
  apply eff_bind_Ok in Hq as (before & w2 & [= <- <-] & Hq). revert Hq.
  destruct (insert_row cfg x m d (ig_store w)) as [[outcome after]|e] eqn:Ei.
  2: { destruct e; try done. apply quarantine_says. by eapply panicking. }
  assert (Hq : st_quarantine after = st_quarantine (ig_store w)).
  { revert Ei. unfold insert_row. destruct (insert_received_with_outcome _ _ _ _ _ _ _ _) as [[o'|e] t];
      [|done]. destruct (fault x SInsert); [done|]. by intros [= _ <-]. }
  case_bool_decide as Hc.
  - intros (s' & w2 & [= Hr <-] & Hq')%eff_bind_Ok.
    apply commit_tail_store in Hq' as [-> Hst]; [|by intros ?]. unfold outcome_says. simpl.
    split; [done|]. split; [subst outcome; by eapply conflicting|].
    apply quarantined_row in Hr. unfold quarantined_as in *. by rewrite Hst, <- Hq.
  - intros (s' & w2 & _ & Hq')%eff_bind_Ok.
    by apply commit_tail_store in Hq' as [-> _]; [|intros ?].
Qed.

Lemma decoded_says m topic w o w' :
  ingest_decoded_outcome m topic w = (Ok o, w') -> outcome_says m topic (ig_store w) (ig_store w') o.
Proof.
  unfold ingest_decoded_outcome. destruct (record_envelope _ _ _ _ _ _) as [d|e] eqn:Hd; [by apply store_says|].
  destruct (ingest_failure_kind e) as [kind|] eqn:Hk; [|done]. apply quarantine_says. by eapply undecodable.
Qed.

(** ** Properties *)

Definition ingest_report_ok (at_ : RecordLocation) (topic : string) (r : Report IngestSpan) : Prop :=
  match r with
  | Recorded _ field _ => declares (ingest_span_shape at_ topic) field = true
  | ExceptionEvent _ ty error =>
      ty ∈ ALL_PROBLEM_TYPES /\ (String.length error <= MAX_STATUS_DESCRIPTION)%nat
  | Bridged _ => True
  end.

Lemma exception_as_ok at_ topic ty error :
  ty ∈ ALL_PROBLEM_TYPES ->
  Forall (ingest_report_ok at_ topic) (record_exception_as TheIngestSpan ty error).
Proof.
  intros Hty. repeat (apply Forall_cons; split); try apply Forall_nil_2; try reflexivity.
  split; [done|apply bounded].
Qed.

Lemma outcome_reports_ok at_ topic r : Forall (ingest_report_ok at_ topic) (outcome_reports r).
Proof.
  destruct r as [[stats [refusal|]]|e]; simpl; [|constructor|]; apply exception_as_ok.
  - destruct (ref_kind refusal); published.
  - destruct e; cbn [rd_problem_type];
      match goal with
      | |- problem_type ?e ∈ _ => exact (problem_type_published e)
      | |- core_problem_type ?e ∈ _ => exact (problem_type_published (ECore e))
      | _ => published
      end.
Qed.

Lemma bridged_quiet (calls : list (BridgeCall (Span := IngestSpan))) :
  exceptions (map Bridged calls) = [].
Proof. by induction calls. Qed.

Definition bridged (reps : Reports) : list BridgeCall :=
  omap (fun r => match r with Bridged c => Some c | _ => None end) reps.

Lemma bridged_calls calls r : bridged (map Bridged calls ++ outcome_reports r) = calls.
Proof.
  unfold bridged. rewrite omap_app.
  assert (Hr : omap (fun r => match r with Bridged c => Some c | _ => None end) (outcome_reports r) = [])
    by (by destruct r as [[stats [refusal|]]|e]).
  rewrite Hr, app_nil_r. induction calls as [|c calls IH]; [done|]. cbn. f_equal. exact IH.
Qed.

(** What the reports of one record say of it: nothing is raised for a record
    that was stored, exactly one exception for one that was refused or could not
    be handled; a refusal's exception carries the class and the text of its
    cause, and so does the quarantine row, unless the source already had one. *)
Definition ingest_reported (m : Message) (topic : string) (w : Ingester K) (r : result RdError IngestStats)
  (w' : Ingester K) (reps : Reports) : Prop :=
  match r with
  | Err e =>
      exceptions reps = [TheIngestSpan]
      /\ ExceptionEvent TheIngestSpan (rd_problem_type e)
           (truncate_on_char_boundary (rd_display e) MAX_STATUS_DESCRIPTION) ∈ reps
  | Ok stats =>
      (is_skipped stats = 0%nat /\ exceptions reps = [])
      \/ (is_skipped stats = 1%nat /\ exceptions reps = [TheIngestSpan]
          /\ exists kind detail, refusal_cause m topic (ig_store w) kind detail
             /\ quarantined_as m (ig_store w) (ig_store w') kind detail
             /\ ExceptionEvent TheIngestSpan (ingest_kind_problem_type kind)
                  (truncate_on_char_boundary detail MAX_STATUS_DESCRIPTION) ∈ reps)
  end.

Lemma outcome_reported m topic w r w' calls :
  ingest_decoded_outcome m topic w = (r, w') ->
  ingest_reported m topic w (outcome_result r) w' (map Bridged calls ++ outcome_reports r).
Proof.
  intros E. unfold ingest_reported. rewrite exceptions_app, bridged_quiet.
  destruct r as [o|e]; simpl; [|split; [done|set_solver]].
  apply decoded_says in E. unfold outcome_says in E.
  destruct (oc_refusal o) as [refusal|]; simpl; [|by left].
  destruct E as (Hs & Hcause & Hrow). right. split_and!; [done..|].
  exists (ref_kind refusal), (ref_detail refusal). split_and!; [done..|set_solver].
Qed.

(** C30. One refused record, one error; and the trace continues across the
    broker as the policy says. Carrying the refusal to the span changes nothing
    of the cycle on the tables and the broker. A stored record raises no
    exception; a refused one, and one the cycle could not handle, exactly one. A
    refusal is reported with the class and the text of its cause, cut to the
    bound; the quarantine row at the record's source has that class and text when
    there was none before, and a row that was there, as after a redelivery, is
    left as it was. Every field is one the span declares. When the record's
    headers carry a context the span is linked to it, or made its child where the
    configuration's policy for the message type says [parented], never both and
    never skipped; without one the bridge is not called. *)
Theorem ingest_reported_once `{!OtelLaws} (m : Message) (topic : string) (w : Ingester K) :
  let '(r, w', reps, event) := ingest_record m topic w in
  ingest_decoded client from_slice display rd_display cfg limit x m topic w = (r, w')
  /\ Forall (ingest_report_ok (location_of m) topic) reps
  /\ ingest_reported m topic w r w' reps
  /\ event = match r with Ok stats => Some (report_ingest_result stats) | Err _ => None end
  /\ match trace_context (record_headers_of m) with
     | None => bridged reps = []
     | Some producer =>
         exists sc, to_span_context producer = Some sc /\ sc_valid sc = true
           /\ bridged reps
              = [match op_handoff (observability_policy_for (rc_observability rcfg) (MESSAGE_TYPE P)) with
                 | Linked => AddLink TheIngestSpan sc
                 | Parented => SetParent TheIngestSpan sc
                 end]
     end.
Proof.
  unfold ingest_record. pose proof (outcome_erases m topic w) as He.
  destruct (ingest_decoded_outcome m topic w) as [r w'] eqn:E. simpl in He.
  split_and!; [done| |by eapply outcome_reported|by destruct r|].
  - apply Forall_app. split; [|apply outcome_reports_ok]. apply Forall_map, Forall_true. done.
  - rewrite bridged_calls. unfold ingest_span.
    destruct (trace_context (record_headers_of m)) as [producer|] eqn:Et; [|done].
    destruct (stored_context _ _ _ Et) as (sc & _ & _ & _ & Hsc & Hv & _).
    exists sc. split_and!; [done..|]. unfold add_link, set_parent, trace_handoff. rewrite Hsc. by destruct (op_handoff _).
Qed.
End ingest_spans.

(** ** The model evaluated *)

Module IngestSpansSample.
#[export] Existing Instance WSample.formats.
#[export] Existing Instance PropagationSample.otel.
#[export] Existing Instance PropagationSample.otel_laws.

(** A record without a payload, whose headers carry a context. *)
Definition poison : Message :=
  {| k_topic := "dev.orders"; k_partition := 0; k_offset := 5; k_key := Some "o1";
     k_payload := None;
     k_headers := Some [ {| h_key := "kafkaman-idempotency-key";
                            h_value := Some (to_hex (repeat 3 32)) |};
                         {| h_key := "traceparent";
                            h_value := Some "00-0af7651916cd43dd8448eb211c80319c-b7ad6b7169203331-01" |} ] |}.

(** A configuration that asks for parents for this type. *)
Definition parented : ObservabilityPolicyOverride :=
  {| oo_level := None; oo_lifecycle := None; oo_payload := None; oo_headers := None;
     oo_handoff := Some Parented; oo_sample := None; oo_stuck_after := None; oo_max_queue_age := None |}.
Definition resolved : Resolved :=
  let r := resolved_new "w" (schema Sample.cfg) in
  {| base := Sample.cfg; rc_relay := rc_relay r; rc_dispatcher := rc_dispatcher r; rc_retry := rc_retry r;
     rc_observability := {| ob_defaults := ob_defaults (rc_observability r);
                            ob_overrides := {["order_placed" := parented]} |};
     rc_topics := rc_topics r |}.

Abbreviation sampled :=
  (ingest_record ISample.client WSample.from_slice ISample.show ISample.rd_show resolved 10
     (ISample.up (10, 7)%N) poison "dev.orders" ISample.start).

Definition parent_text (c : BridgeCall (Span := IngestSpan)) : option string :=
  match c with SetParent _ sc => Some (trace_id_text (sc_trace_id sc)) | _ => None end.

Example refused_parented :
  exceptions (snd (fst sampled)) = [TheIngestSpan]
  /\ map parent_text (bridged (snd (fst sampled))) = [Some "0af7651916cd43dd8448eb211c80319c"]
  /\ snd sampled = Some (SkippedEvent 0 5 1 1).
Proof. split; [|split]; vm_compute; reflexivity. Qed.

Lemma ingest_reported_once_witness :
  is_ok (fst (fst (fst sampled))) = true
  /\ ingest_reported WSample.from_slice ISample.show ISample.rd_show resolved (ISample.up (10, 7)%N) poison
       "dev.orders" ISample.start (fst (fst (fst sampled)))
       (snd (fst (fst sampled))) (snd (fst sampled)).
Proof.
  split; [vm_compute; reflexivity|].
  pose proof (ingest_reported_once ISample.client WSample.from_slice ISample.show ISample.rd_show
    resolved 10 (ISample.up (10, 7)%N) poison "dev.orders" ISample.start) as Hthm.
  destruct sampled as [[[r w'] reps] event]. by destruct Hthm as (_ & _ & Hr & _).
Defined.
End IngestSpansSample.
