(* ===== verification/CanonicalJson.v ===== *)
(** * CanonicalJson: the bytes an idempotency key is the digest of

    Models [canonical_json_bytes] and [write_canonical_json] of
    [src/crates/kafkaman-core/src/idempotency.rs], and the bytes
    [IdempotencyIdentity::derive] feeds to SHA-256 (the rest of [derive] is in
    [Identity]).

    How a string is quoted and how a number is displayed is code of [serde_json]:
    the class [JsonText], with what is relied on in [JsonTextLaws]. A quoted
    string starts with a quotation mark, ends where it says it ends and escapes
    control characters; a number is written with the characters of a JSON number
    and two numbers are written differently. The writer's errors cannot occur
    when it writes to memory, so the model has none. *)

From S2P Require Import Prelude Text Vocabulary Identity.
Open Scope string_scope.
Open Scope list_scope.
Open Scope Z_scope.

#[local] Arguments String.append !_ _ : simpl nomatch.

(** The characters of a JSON number. *)
Definition number_byte (b : ascii) : bool :=
  byte_in 48 57 b || Ascii.eqb b "-"%char || Ascii.eqb b "+"%char || Ascii.eqb b "."%char
  || Ascii.eqb b "e"%char || Ascii.eqb b "E"%char.

Definition not_nul (b : ascii) : bool := negb (Ascii.eqb b "000"%char).

Class JsonText := {
  Num : Type;
  num_text : Num -> string;
  quote : string -> string;
}.

Class JsonTextLaws `{JsonText} := {
  num_text_bytes n : all_bytes number_byte (num_text n) = true;
  num_text_nonempty n : num_text n <> "";
  num_text_inj n n' : num_text n = num_text n' -> n = n';
  quote_opens s : exists t, quote s = String "034"%char t;
  quote_ends s s' r r' : quote s +:+ r = quote s' +:+ r' -> s = s' /\ r = r';
  quote_no_nul s : all_bytes not_nul (quote s) = true;
}.

Section canonical.
Context `{JsonText}.

(** [serde_json::Value]; the entries of an object come in the order its map
    iterates in. *)
Inductive Value :=
| Null
| VBoolean (b : bool)
| VNumber (n : Num)
| VString (s : string)
| VArray (vs : list Value)
| VObject (entries : list (string * Value)).

(** [sort_unstable_by_key(|(key, _)| *key)]; the keys of an object are distinct,
    so stability does not show. *)
Definition key_le {A} (a b : string * A) : Prop := String.le a.1 b.1.
#[global] Instance key_le_dec {A} : RelDecision (@key_le A).
Proof. intros a b. unfold key_le. apply _. Defined.
#[global] Instance key_le_trans {A} : Transitive (@key_le A).
Proof. intros a b c. unfold key_le. apply transitivity. Qed.
#[global] Instance key_le_total {A} : Total (@key_le A).
Proof. intros a b. unfold key_le. apply (total String.le). Qed.

Definition write_entry (e : string * string) : string := quote e.1 +:+ ":" +:+ e.2.

(** [write_canonical_json]. Every entry's value is written before the entries
    are sorted, which only the key decides. *)
Fixpoint write_canonical_json (v : Value) : string :=
  match v with
  | Null => "null"
  | VBoolean true => "true"
  | VBoolean false => "false"
  | VNumber n => num_text n
  | VString s => quote s
  | VArray vs => "[" +:+ str_join "," (map write_canonical_json vs) +:+ "]"
  | VObject entries =>
      "{" +:+ str_join "," (map write_entry
                (merge_sort key_le (map (fun e => (e.1, write_canonical_json e.2)) entries)))
          +:+ "}"
  end.

(** [canonical_json_bytes]. *)
Definition canonical_json_bytes (v : Value) : string := write_canonical_json v.

(** What [derive] hashes: the namespace, a zero byte and the canonical source. *)
Definition identity_bytes (namespace : string) (source : Value) : string :=
  namespace +:+ String "000"%char (canonical_json_bytes source).

(** ** Induction on values *)

Section value_ind.
Context (P : Value -> Prop).
Context (HNull : P Null) (HBool : forall b, P (VBoolean b)) (HNum : forall n, P (VNumber n))
  (HStr : forall s, P (VString s)) (HArr : forall vs, Forall P vs -> P (VArray vs))
  (HObj : forall es, Forall (fun e => P e.2) es -> P (VObject es)).

Fixpoint value_ind (v : Value) : P v :=
  match v with
  | Null => HNull
  | VBoolean b => HBool b
  | VNumber n => HNum n
  | VString s => HStr s
  | VArray vs =>
      HArr vs ((fix go l : Forall P l :=
                  match l with
                  | [] => List.Forall_nil _
                  | v :: l => List.Forall_cons _ _ _ (value_ind v) (go l)
                  end) vs)
  | VObject es =>
      HObj es ((fix go l : Forall (fun e => P e.2) l :=
                  match l with
                  | [] => List.Forall_nil _
                  | e :: l => List.Forall_cons _ _ _ (value_ind e.2) (go l)
                  end) es)
  end.
End value_ind.

(** ** The same value, whatever order its objects iterate in *)

Inductive eqv : Value -> Value -> Prop :=
| eqv_null : eqv Null Null
| eqv_bool b : eqv (VBoolean b) (VBoolean b)
| eqv_number n : eqv (VNumber n) (VNumber n)
| eqv_string s : eqv (VString s) (VString s)
| eqv_array vs ws : Forall2 eqv vs ws -> eqv (VArray vs) (VArray ws)
| eqv_object es es' fs' fs :
    es ≡ₚ es' -> Forall2 (fun e f => e.1 = f.1 /\ eqv e.2 f.2) es' fs' -> fs' ≡ₚ fs ->
    eqv (VObject es) (VObject fs).

(** The keys of every object are distinct, as they are in a map. *)
Fixpoint distinct_keys (v : Value) : Prop :=
  match v with
  | VArray vs => foldr (fun v P => distinct_keys v /\ P) True vs
  | VObject es =>
      NoDup es.*1 /\ foldr (fun e P => distinct_keys e.2 /\ P) True es
  | _ => True
  end.

Lemma foldr_and_Forall {A} (P : A -> Prop) (l : list A) :
  foldr (fun a Q => P a /\ Q) True l <-> Forall P l.
Proof. induction l as [|a l IH]; simpl; [by rewrite Forall_nil|]. by rewrite Forall_cons, IH. Qed.

(** ** Order does not show *)

Lemma sort_keys_unique {A} (l l' : list (string * A)) :
  l ≡ₚ l' -> NoDup l.*1 -> merge_sort key_le l = merge_sort key_le l'.
Proof.
  intros Hp Hn. apply StronglySorted_unique_strong with (R := key_le).
  - intros a b Ha Hb H1 H2. rewrite merge_sort_Permutation in Ha, Hb. rewrite <- Hp in Hb.
    apply (NoDup_key_inj fst l); [done..|]. by apply (anti_symm String.le).
  - by apply StronglySorted_merge_sort; apply _.
  - by apply StronglySorted_merge_sort; apply _.
  - by rewrite !merge_sort_Permutation.
Qed.

Lemma eqv_write v w : distinct_keys v -> eqv v w -> write_canonical_json v = write_canonical_json w.
Proof.
  revert w. induction v as [|b|n|t|vs IH|es IH] using value_ind; intros w Hd He;
    inversion He as [| | | |? ws Hf|? es' fs' fs Hp Hf Hp']; subst; try done; simpl in *.
  - do 3 f_equal. apply foldr_and_Forall in Hd. clear He.
    induction Hf as [|v u vs ws Hvu Hf IHf]; [done|]. simpl.
    apply Forall_cons in Hd as [Hdv Hd], IH as [IHv IH].
    f_equal; [by apply IHv|by apply IHf].
  - destruct Hd as [Hn Hd]. apply foldr_and_Forall in Hd. do 4 f_equal.
    set (text := fun e : string * Value => (e.1, write_canonical_json e.2)).
    assert (E : map text es' = map text fs').
    { rewrite Hp in IH, Hd. clear -IH Hd Hf. induction Hf as [|e f es' fs' [Hk Hv] Hf IHf]; [done|].
      simpl. apply Forall_cons in Hd as [Hde Hd], IH as [IHe IH]. f_equal; [|by apply IHf].
      unfold text. by rewrite Hk, (IHe (f.2)). }
    apply sort_keys_unique.
    + by rewrite Hp, E, Hp'.
    + by rewrite <- list_fmap_compose.
Qed.

(** ** What was written can be read in one way only *)

Section reading.
Context `{!JsonTextLaws}.

(** Nothing of a number can be continued by what follows a value. *)
Definition delimited (r : string) : bool :=
  match r with "" => true | String c _ => negb (number_byte c) end.

Lemma span_unique (p : ascii -> bool) a b r s :
  all_bytes p a = true -> all_bytes p b = true ->
  match r with "" => true | String c _ => negb (p c) end = true ->
  match s with "" => true | String c _ => negb (p c) end = true ->
  a +:+ r = b +:+ s -> a = b /\ r = s.
Proof.
  revert b. induction a as [|c a IH]; intros [|d b] Ha Hb Hr Hs E; simpl in *.
  - done.
  - subst r. apply andb_true_iff in Hb as [Hd _]. by rewrite Hd in Hr.
  - subst s. apply andb_true_iff in Ha as [Hc _]. by rewrite Hc in Hs.
  - injection E as -> E. apply andb_true_iff in Ha as [_ Ha], Hb as [_ Hb].
    by destruct (IH b Ha Hb Hr Hs E) as [-> ->].
Qed.

(** The first byte of a value tells its kind. *)
Definition opening (v : Value) (c : ascii) : Prop :=
  match v with
  | Null => c = "n"%char
  | VBoolean true => c = "t"%char
  | VBoolean false => c = "f"%char
  | VNumber _ => number_byte c = true
  | VString _ => c = "034"%char
  | VArray _ => c = "["%char
  | VObject _ => c = "{"%char
  end.

Lemma write_opens v : exists c t, write_canonical_json v = String c t /\ opening v c.
Proof.
  destruct v as [|[]|n|s|vs|es]; simpl; eauto.
  - pose proof (num_text_bytes n) as Hb. pose proof (num_text_nonempty n) as Hn.
    destruct (num_text n) as [|c t]; [done|]. simpl in Hb. apply andb_true_iff in Hb as [Hc _]. eauto.
  - destruct (quote_opens s) as [t ->]. eauto.
Qed.

(** The bytes of a value, followed by something that does not continue it,
    determine the value and what follows. *)
Definition readable (v : Value) : Prop :=
  forall w r s, delimited r = true -> delimited s = true ->
    write_canonical_json v +:+ r = write_canonical_json w +:+ s -> eqv v w /\ r = s.

(** A comma-separated list closed by [close], read item by item. *)
Lemma read_items {A} (item : A -> string) (R : A -> A -> Prop) (close : ascii) (l : list A) :
  number_byte close = false -> close <> ","%char ->
  (forall a, exists c t, item a = String c t /\ c <> close) ->
  Forall (fun a => forall b r s, delimited r = true -> delimited s = true ->
            item a +:+ r = item b +:+ s -> R a b /\ r = s) l ->
  forall l' r s,
    str_join "," (map item l) +:+ String close r = str_join "," (map item l') +:+ String close s ->
    Forall2 R l l' /\ r = s.
Proof.
  intros Hnum Hcomma Hopen Hl.
  assert (Hclosed : forall b l' r t,
            str_join "," (map item (b :: l')) +:+ r <> String close t).
  { intros b l' r t. destruct (Hopen b) as (c & u & Eb & Hne). simpl.
    destruct (map item l'); rewrite Eb; simpl; congruence. }
  induction Hl as [|a l Ha Hl IH]; intros [|b l'] r s E.
  - simpl in E. by injection E.
  - by symmetry in E; apply Hclosed in E.
  - by apply Hclosed in E.
  - destruct l as [|a' l], l' as [|b' l']; cbn [map str_join] in E.
    + apply Ha in E as [HR E]; [|by simpl; rewrite Hnum..]. injection E as ->. eauto using Forall2.
    + rewrite append_assoc in E. apply Ha in E as [_ E]; [|by simpl; rewrite ?Hnum..].
      simpl in E. congruence.
    + rewrite append_assoc in E. apply Ha in E as [_ E]; [|by simpl; rewrite ?Hnum..].
      simpl in E. congruence.
    + rewrite !append_assoc in E. apply Ha in E as [HR E]; [|done..]. injection E as E.
      destruct (IH (b' :: l') r s E) as [HF ->]. by split; [constructor|].
Qed.

Lemma write_entry_opens e : exists c t, write_entry e = String c t /\ c <> "}"%char.
Proof. unfold write_entry. destruct (quote_opens e.1) as [t ->]. simpl. eauto. Qed.

Lemma value_opens_unclosed v : exists c t, write_canonical_json v = String c t /\ c <> "]"%char.
Proof.
  destruct (write_opens v) as (c & t & E & Ho). exists c, t. split; [done|]. intros ->.
  by destruct v as [|[]|n|s|vs|es].
Qed.

(** The entries as they are written: a permutation of the object's own. *)
Lemma sorted_entries (es : list (string * Value)) :
  exists es', es ≡ₚ es' /\
    map write_entry (merge_sort key_le (map (fun e => (e.1, write_canonical_json e.2)) es))
    = map (fun e => write_entry (e.1, write_canonical_json e.2)) es'.
Proof.
  set (text := fun e : string * Value => (e.1, write_canonical_json e.2)).
  destruct (Permutation_map_inv text es (merge_sort_Permutation key_le (map text es)))
    as (es' & E & Hp).
  exists es'. split; [done|]. rewrite E. by rewrite map_map.
Qed.

Lemma same_opening v w r s :
  write_canonical_json v +:+ r = write_canonical_json w +:+ s ->
  exists c, opening v c /\ opening w c.
Proof.
  destruct (write_opens v) as (c & t & -> & Hc), (write_opens w) as (d & u & -> & Hd).
  simpl. intros [= -> _]. eauto.
Qed.

Lemma value_readable v : readable v.
Proof.
  induction v as [|b|n|t|vs IH|es IH] using value_ind; intros w r s Hr Hs E;
    destruct (same_opening _ _ _ _ E) as (c & Hv & Hw).
  - destruct w as [|[]|m|u|ws|fs]; simpl in Hv, Hw; subst; try done.
    simpl in E. injection E as ->. split; [constructor|done].
  - destruct b, w as [|[]|m|u|ws|fs]; simpl in Hv, Hw; subst; try done;
      simpl in E; injection E as ->; (split; [constructor|done]).
  - destruct w as [|[]|m|u|ws|fs]; simpl in Hv, Hw; subst; try done.
    apply span_unique with (p := number_byte) in E as [E ->]; try done; try apply num_text_bytes.
    apply num_text_inj in E as ->. split; [constructor|done].
  - destruct w as [|[]|m|u|ws|fs]; simpl in Hv, Hw; subst; try done.
    apply quote_ends in E as [-> ->]. split; [constructor|done].
  - destruct w as [|[]|m|u|ws|fs]; simpl in Hv, Hw; subst; try done.
    cbn [write_canonical_json] in E. rewrite !append_assoc in E. injection E as E.
    apply (read_items write_canonical_json eqv "]"%char vs) in E as [HF ->];
      [by split; [constructor|]|done|done|apply value_opens_unclosed|exact IH].
  - destruct w as [|[]|m|u|ws|fs]; simpl in Hv, Hw; subst; try done.
    cbn [write_canonical_json] in E. rewrite !append_assoc in E. injection E as E.
    destruct (sorted_entries es) as (es' & Hp & Ee), (sorted_entries fs) as (fs' & Hp' & Ef).
    rewrite Ee, Ef in E.
    apply (read_items _ (fun e f : string * Value => e.1 = f.1 /\ eqv e.2 f.2) "}"%char es')
      in E as [HF ->];
      [split; [by econstructor; [exact Hp|exact HF|]|done]|done|done|intros e; apply write_entry_opens|].
    rewrite Hp in IH. eapply Forall_impl; [exact IH|]. intros [k v] IHv [k' v'] r1 s1 Hr1 Hs1 E1.
    unfold write_entry in E1. simpl in *. rewrite !append_assoc in E1.
    apply quote_ends in E1 as [-> E1]. simpl in E1. injection E1 as E1.
    by apply IHv in E1 as [HE ->].
Qed.

(** ** No zero byte *)

Lemma all_bytes_join p sep ws :
  all_bytes p sep = true -> Forall (fun w => all_bytes p w = true) ws ->
  all_bytes p (str_join sep ws) = true.
Proof.
  intros Hs. induction 1 as [|w ws Hw Hf IH]; [done|]. destruct ws as [|u ws]; [done|].
  change (str_join sep (w :: u :: ws)) with (w +:+ sep +:+ str_join sep (u :: ws)).
  by rewrite !all_bytes_append, Hw, Hs, IH.
Qed.

Lemma number_not_nul t : all_bytes number_byte t = true -> all_bytes not_nul t = true.
Proof.
  induction t as [|c t IH]; [done|]. simpl. intros [Hc Ht]%andb_true_iff. rewrite IH by done.
  unfold not_nul. destruct (Ascii.eqb_spec c "000"%char) as [->|]; done.
Qed.

Lemma write_no_nul v : all_bytes not_nul (write_canonical_json v) = true.
Proof.
  induction v as [|[]|n|t|vs IH|es IH] using value_ind; try done; cbn [write_canonical_json].
  - apply number_not_nul, num_text_bytes.
  - apply quote_no_nul.
  - rewrite !all_bytes_append, all_bytes_join; [done|done|]. by apply Forall_map.
  - destruct (sorted_entries es) as (es' & Hp & ->). rewrite Hp in IH.
    rewrite !all_bytes_append, all_bytes_join; [done|done|]. apply Forall_map.
    eapply Forall_impl; [exact IH|]. intros e He.
    change (all_bytes not_nul (quote e.1 +:+ ":" +:+ write_canonical_json e.2) = true).
    by rewrite !all_bytes_append, quote_no_nul, He.
Qed.

Lemma last_nul_unique a b r s :
  all_bytes not_nul r = true -> all_bytes not_nul s = true ->
  a +:+ String "000"%char r = b +:+ String "000"%char s -> a = b /\ r = s.
Proof.
  revert b. induction a as [|c a IH]; intros [|d b] Hr Hs E; simpl in E.
  - by injection E.
  - injection E as <- ->. rewrite all_bytes_append in Hr. apply andb_true_iff in Hr as [_ Hr]. done.
  - injection E as -> <-. rewrite all_bytes_append in Hs. apply andb_true_iff in Hs as [_ Hs]. done.
  - injection E as -> E. by destruct (IH b Hr Hs E) as [-> ->].
Qed.

(** C15. An idempotency key is the digest of the business identity and of
    nothing else. The bytes hashed for two sources are equal exactly when the
    namespaces are the same and the sources are the same JSON value, whatever
    order their objects iterate in: reordering keys never changes a key, and no
    two identities are hashed from the same bytes, zero bytes in a namespace
    included. [derive] takes the digest of those bytes and keeps the source. *)
Theorem identity_bytes_exact (sha256 : string -> IdempotencyKey) (value_of : json -> Value)
  (ns1 ns2 : string) (s1 s2 : json) (id1 id2 : IdempotencyIdentity)
  (Hd1 : distinct_keys (value_of s1)) (Hd2 : distinct_keys (value_of s2))
  (H1 : derive sha256 (fun j => canonical_json_bytes (value_of j)) ns1 s1 = Ok id1)
  (H2 : derive sha256 (fun j => canonical_json_bytes (value_of j)) ns2 s2 = Ok id2) :
  idem_key id1 = sha256 (identity_bytes ns1 (value_of s1)) /\ idem_source id1 = Some s1
  /\ idem_key id2 = sha256 (identity_bytes ns2 (value_of s2)) /\ idem_source id2 = Some s2
  /\ (identity_bytes ns1 (value_of s1) = identity_bytes ns2 (value_of s2)
      <-> ns1 = ns2 /\ eqv (value_of s1) (value_of s2)).
Proof.
  unfold derive in H1, H2. destruct (is_empty (trim ns1)), (is_empty (trim ns2)); try done.
  injection H1 as <-. injection H2 as <-. split_and!; [done..|]. split.
  - intros [-> E]%last_nul_unique; [|apply write_no_nul..]. split; [done|].
    destruct (value_readable (value_of s1) (value_of s2) "" "" eq_refl eq_refl) as [He _]; [|done].
    by rewrite !append_nil_r.
  - intros [-> He]. unfold identity_bytes, canonical_json_bytes. by rewrite (eqv_write _ _ Hd1 He).
Qed.
End reading.
End canonical.

(** ** The model evaluated *)

Module JsonSample.
(** A number as its digits; quotation marks, backslashes and zero bytes are
    escaped. *)
Definition escape (c : ascii) (rest : string) : string :=
  if Ascii.eqb c "034"%char || Ascii.eqb c "092"%char then String "092"%char (String c rest)
  else if Ascii.eqb c "000"%char then String "092"%char (String "0"%char rest)
  else String c rest.

Fixpoint escaped (s : string) : string :=
  match s with
  | "" => String "034"%char ""
  | String c s => escape c (escaped s)
  end.

Definition digits_of (n : nat) : string := str_join "" (repeat "1" (S n)).

#[export] Instance json_text : JsonText := {|
  Num := nat;
  num_text := digits_of;
  quote := fun s => String "034"%char (escaped s);
|}.

Lemma digits_of_S n : digits_of (S n) = "1" +:+ digits_of n.
Proof. done. Qed.

Lemma escape_cases c rest :
  (escape c rest = String c rest /\ c <> "034"%char /\ c <> "092"%char /\ c <> "000"%char)
  \/ exists d, escape c rest = String "092"%char (String d rest)
       /\ ((d = c /\ (c = "034"%char \/ c = "092"%char)) \/ (d = "0"%char /\ c = "000"%char)).
Proof.
  unfold escape. destruct (Ascii.eqb_spec c "034"%char) as [->|H1]; [simpl; eauto 10|].
  destruct (Ascii.eqb_spec c "092"%char) as [->|H2]; [simpl; eauto 10|].
  destruct (Ascii.eqb_spec c "000"%char) as [->|H3]; simpl; eauto 10.
Qed.

Lemma escaped_ends s s' r r' : escaped s +:+ r = escaped s' +:+ r' -> s = s' /\ r = r'.
Proof.
  revert s'. induction s as [|c s IH]; intros [|d s']; cbn [escaped].
  - by intros [= ->].
  - destruct (escape_cases d (escaped s')) as [(-> & ? & ? & _)|(e & -> & _)]; simpl; congruence.
  - destruct (escape_cases c (escaped s)) as [(-> & ? & ? & _)|(e & -> & _)]; simpl; congruence.
  - destruct (escape_cases c (escaped s)) as [(-> & ? & ? & ?)|(e & -> & He)],
      (escape_cases d (escaped s')) as [(-> & ? & ? & ?)|(e' & -> & He')]; simpl; try congruence.
    + intros [= -> [-> ->]%IH]. done.
    + intros [= -> [-> ->]%IH].
      destruct He as [(-> & [->| ->])|[-> ->]], He' as [(? & [->| ->])|[? ->]]; done.
Qed.

Lemma escaped_no_nul s : all_bytes not_nul (escaped s) = true.
Proof.
  induction s as [|c s IH]; [done|]. cbn [escaped].
  destruct (escape_cases c (escaped s)) as [(-> & _ & _ & Hn)|(e & -> & He)]; simpl; rewrite IH.
  - unfold not_nul. by destruct (Ascii.eqb_spec c "000"%char).
  - by destruct He as [(-> & [->| ->])|[-> ->]].
Qed.

#[export] Instance json_text_laws : JsonTextLaws.
Proof.
  split; simpl.
  - intros n. induction n as [|n IH]; [done|]. by rewrite digits_of_S, all_bytes_append, IH.
  - intros [|n]; [done|]. by rewrite digits_of_S.
  - intros n. induction n as [|n IH]; intros [|m] E; rewrite ?digits_of_S in E; simpl in E; try done.
    + injection E as E. by destruct m.
    + injection E as E. by destruct n.
    + injection E as E. f_equal. by apply IH.
  - eauto.
  - intros s s' r r' E. injection E as E. by apply escaped_ends.
  - intros s. apply escaped_no_nul.
Qed.

(** Two spellings of one order, as the stored text of the source. *)
Definition one : Value := VObject [("order", VString "o1"); ("items", VArray [VNumber 1%nat; Null])].
Definition other : Value := VObject [("items", VArray [VNumber 1%nat; Null]); ("order", VString "o1")].
Definition value_of (s : json) : Value := if bool_decide (s = "one") then one else other.

Example canonical_text :
  canonical_json_bytes one = canonical_json_bytes other.
Proof. vm_compute. reflexivity. Qed.

Definition digest (s : string) : IdempotencyKey := bytes_of s.

Lemma identity_bytes_exact_witness :
  distinct_keys one /\ distinct_keys other
  /\ (identity_bytes "orders" one = identity_bytes "orders" other
      <-> "orders" = "orders" /\ eqv one other).
Proof.
  assert (Hd1 : distinct_keys one).
  { split; [|by simpl]. apply (bool_decide_unpack _). vm_compute. done. }
  assert (Hd2 : distinct_keys other).
  { split; [|by simpl]. apply (bool_decide_unpack _). vm_compute. done. }
  split; [exact Hd1|]. split; [exact Hd2|].
  apply (identity_bytes_exact digest value_of "orders" "orders" "one" "other" _ _ Hd1 Hd2
           eq_refl eq_refl).
Defined.
End JsonSample.
