(* ===== verification/Pipeline.v ===== *)
(** * Pipeline: from an enqueue to the broker, as one system

    The components of one message type put together: the producer's outbox
    ([Outbox]) with its relays ([Relay], [Wire]), the topic, and the consumer's
    received table, quarantine and cache ([Ingest], [Received], [Dispatch]). A
    state holds the tables of both services and the records of the topic; a step
    is one statement or transaction of one of the programs that touch them, and
    the order of steps is free. This file has the steps and what they keep true
    up to the topic; [EndToEnd] has the consumer and the theorems. *)

From S2P Require Import Prelude Text Vocabulary Trace Identity Topics Registry Outbox OutboxOrder.
From S2P Require Import Relay Retry Received Cache Dispatch Wire Ingest.
Open Scope string_scope.
Open Scope list_scope.
Open Scope Z_scope.

(** ** What an application promises of a message type *)

(** The payload survives its JSON form, and the record key depends on the entity
    alone, so that one entity stays in one partition. *)
Class MessageContract (P : Type) `{Formats} `{KafkaMessage P}
  (from_slice : string -> unwinding (result string P)) : Prop := {
  contract_codec p v : to_value p = Returned (Ok v) ->
    from_slice (json_to_string v) = Returned (Ok p);
  contract_keyed p q ek : entity_key p = Returned ek -> entity_key q = Returned ek ->
    partition_key p = partition_key q;
}.

(** ** The state *)

(** [p_world] is the outbox with what the relays hold and what they sent, in
    order; [p_topic] is what the broker made of the sends, record by record. The
    other producer fields are history: the messages whose enqueue committed, the
    claim ids drawn so far and the publishes that were acknowledged, with the
    claim they were made under. *)
Record Pipe (App : Type) := {
  p_world : World;
  p_accepted : list OutboxMsg;
  p_cids : list uuid;
  p_acked : list (OutboxMsg * uuid);
  p_topic : list Message;
  p_db : @Db App;
  p_quarantine : gmap (string * Z * Z) ReceivedIngestFailure;
}.
Arguments p_world {App} _.
Arguments p_accepted {App} _.
Arguments p_cids {App} _.
Arguments p_acked {App} _.
Arguments p_topic {App} _.
Arguments p_db {App} _.
Arguments p_quarantine {App} _.

(** Handlers that leave the cache to the dispatcher, as [router_respects] says
    of the received table. *)
Definition keeps_cache {App A} (h : @Handler App A) : Prop :=
  forall meta v db, db_cache (snd (fst (h meta v db))) = db_cache db.
Definition router_keeps_cache {App} (router : @MessageRouter App) : Prop :=
  (forall mt h, handlers router !! mt = Some h -> keeps_cache h)
  /\ (forall mt h, before_handlers router !! mt = Some h -> keeps_cache h).

Section pipeline.
Context `{FormatLaws} {P : Type} `{KafkaMessage P} {App : Type}.
Context (from_slice : string -> unwinding (result string P)) `{!MessageContract P from_slice}.
Context (display : Error -> string) (rd_display : RdError -> string).
(** The configurations of the producing and of the consuming service, and the
    consumer's received table. *)
Context (pcfg ccfg : ResolvedConfig) (tbr : Table).
(** Where the broker puts a record, by its key. *)
Context (partitioner : option string -> Z).
Implicit Types (p : Pipe App) (om : OutboxMsg).

Definition set_world p (w : World) : Pipe App :=
  {| p_world := w; p_accepted := p_accepted p; p_cids := p_cids p;
     p_acked := p_acked p; p_topic := p_topic p; p_db := p_db p; p_quarantine := p_quarantine p |}.

Definition set_db p (db : Db) (q : gmap (string * Z * Z) ReceivedIngestFailure) : Pipe App :=
  {| p_world := p_world p; p_accepted := p_accepted p; p_cids := p_cids p; p_acked := p_acked p;
     p_topic := p_topic p; p_db := db; p_quarantine := q |}.

(** An enqueue, committed: an accepted message is the row the insert added. *)
Definition after_enqueue p (now : instant) (visible : uuid -> bool) (evt : Envelope P)
  (trace : option TraceContext) : Pipe App :=
  let '(res, ob) := enqueue_inner pcfg now visible evt trace (table (p_world p)) in
  {| p_world := with_table (p_world p) ob;
     p_accepted := p_accepted p ++ match res with
                                   | Ok _ => option_list (msg <$> last (rows ob))
                                   | Err _ => []
                                   end;
     p_cids := p_cids p; p_acked := p_acked p; p_topic := p_topic p; p_db := p_db p;
     p_quarantine := p_quarantine p |}.

(** A claim, under the id it drew. *)
Definition after_claim p (now : instant) (locked : uuid -> bool) (worker : string)
  (lease : interval) (limit : Z) (cid : uuid) : Pipe App :=
  {| p_world := world_claim now locked worker lease limit cid (p_world p);
     p_accepted := p_accepted p; p_cids := cid :: p_cids p;
     p_acked := p_acked p; p_topic := p_topic p; p_db := p_db p; p_quarantine := p_quarantine p |}.

(** A publish: the record is in the topic at [offset] of its partition, and the
    answer may or may not have come back. *)
Definition after_publish p (r : DbRow) (cid : uuid) (record : FutureRecord) (offset : Z)
  (answered : bool) : Pipe App :=
  {| p_world := world_send r (p_world p); p_accepted := p_accepted p; p_cids := p_cids p;
     p_acked := if answered then (msg r, cid) :: p_acked p else p_acked p;
     p_topic := p_topic p ++ [delivered record (partitioner (fr_key record)) offset];
     p_db := p_db p; p_quarantine := p_quarantine p |}.

(** The consumer's two tables, as [Ingest] sees them. *)
Definition store_of p : Store :=
  {| st_received := db_received (p_db p); st_quarantine := p_quarantine p |}.
Definition set_store p (s : Store) : Pipe App :=
  set_db p {| db_received := st_received s; db_cache := db_cache (p_db p); db_app := db_app (p_db p) |}
    (st_quarantine s).

(** ** The steps *)

(** Offsets grow within a partition. *)
Definition next_offset p (partition offset : Z) : Prop :=
  forall m, m ∈ p_topic p -> k_partition m = partition -> k_offset m < offset.

(** Clocks, locks, snapshots, batch limits, faults of the network and of the
    database are free in every step. A key is 32 bytes, as its type says; claim
    ids are fresh; a relay publishes a row it has claimed and not marked, without
    looking at the table again, and marks a row published only when the broker
    has acknowledged it under that claim. Any record of the topic may be read at
    any time and any number of times. A dispatch cycle takes effect as one step,
    and its handlers leave the received table and the cache alone. *)
Inductive pstep p : Pipe App -> Prop :=
| p_enqueue now visible (evt : Envelope P) trace :
    (forall idem, env_idempotency_key evt = Some idem -> key_ok (idem_key idem)) ->
    pstep p (after_enqueue p now visible evt trace)
| p_collapse now limit :
    pstep p (set_world p (with_table (p_world p)
      (snd (collapse_stale_pending_rows now limit (table (p_world p))))))
| p_claim now locked worker lease limit cid :
    now <= clock (p_world p) -> cid ∉ p_cids p ->
    pstep p (after_claim p now locked worker lease limit cid)
| p_publish (r : DbRow) cid o trace record offset answered :
    r ∈ held (p_world p) -> claim_id r = Some cid ->
    row_from_pg r = Ok o ->
    outgoing_record {| claimed_row := o; claimed_id := cid |} trace = Ok record ->
    next_offset p (partitioner (fr_key record)) offset ->
    pstep p (after_publish p r cid record offset answered)
| p_published now om cid :
    (om, cid) ∈ p_acked p ->
    pstep p (set_world p (world_marked (message_id om) cid
      (snd (mark_published now (message_id om) cid (table (p_world p)))) (p_world p)))
| p_publish_failed now mid cid error retry_after :
    pstep p (set_world p (world_marked mid cid
      (snd (mark_publish_failed now mid cid error retry_after (table (p_world p)))) (p_world p)))
| p_purge now locked cfg :
    pstep p (set_world p (with_table (p_world p)
      (snd (purge_outbox_once now locked cfg (table (p_world p))))))
| p_crash rest :
    rest `sublist_of` held (p_world p) ->
    pstep p (set_world p {| table := table (p_world p); clock := clock (p_world p); held := rest;
                            sends := sends (p_world p) |})
| p_tick later :
    clock (p_world p) <= later ->
    pstep p (set_world p {| table := table (p_world p); clock := later; held := held (p_world p);
                            sends := sends (p_world p) |})
| p_ingest {K} (client : Client K) (k : K) limit skips x m :
    m ∈ p_topic p ->
    pstep p (set_store p (ig_store (snd
      (ingest_decoded client from_slice display rd_display ccfg limit x m (desc_topic (tbl_desc tbr))
         {| ig_store := store_of p; ig_client := k; consecutive_skips := skips |}))))
| p_dispatch lost commit_lands policy wait now due_at locked router :
    router_respects router -> router_keeps_cache router ->
    pstep p (set_db p (cy_db (dispatch_once lost commit_lands id display (tbl_schema tbr)
                                (tbl_desc tbr) policy wait now due_at locked router (p_db p)))
               (p_quarantine p))
| p_redrive locked r :
    pstep p (set_db p (snd (on_received (redrive_received locked (tbl_schema tbr) r) (p_db p)))
               (p_quarantine p)).

Definition start (app : App) : Pipe App :=
  {| p_world := initial; p_accepted := []; p_cids := []; p_acked := []; p_topic := [];
     p_db := {| db_received := []; db_cache := ∅; db_app := app |}; p_quarantine := ∅ |}.

(** ** What statements do to live rows *)

(** A younger live row of the same entity. *)
Definition overtaken (ob : Outbox) (r : DbRow) : Prop :=
  exists c, c ∈ rows ob /\ live c = true /\ same_entity r c = true /\ row_order r < row_order c.

(** No row is in flight under a claim it did not have before, except the one
    being made; a live row stays live, is [done] or is overtaken. *)
Record moves (made : option uuid) (done : DbRow -> Prop) (ob ob' : Outbox) : Prop := {
  mv_claims : forall (r' : DbRow) c, r' ∈ rows ob' -> claimed_as (message_id r') c r' = true ->
    made = Some c
    \/ exists r, r ∈ rows ob /\ msg r' = msg r /\ claimed_as (message_id r) c r = true;
  mv_kept : forall r, r ∈ rows ob -> live r = true ->
    (exists r', r' ∈ rows ob' /\ msg r' = msg r /\ live r' = true) \/ done r \/ overtaken ob r;
}.

Lemma map_moves made done f ob :
  (forall r, r ∈ rows ob -> msg (f r) = msg r
     /\ (status (f r) = Publishing -> f r = r \/ claim_id (f r) = made)
     /\ (live r = true -> live (f r) = true \/ done r \/ overtaken ob r)) ->
  moves made done ob (with_rows ob (map f (rows ob))).
Proof.
  intros Hf. split; simpl.
  - intros r' c (r & <- & Hr%list_elem_of_In)%list_elem_of_In%in_map_iff Hc.
    destruct (Hf r Hr) as (Hm & Hp & _).
    destruct (proj1 (claimed_as_true _ _ _) Hc) as (_ & Hs & Hid).
    destruct (Hp Hs) as [E|E]; [right; exists r; rewrite E in Hc; by rewrite E|left; congruence].
  - intros r Hr Hl. destruct (Hf r Hr) as (Hm & _ & Hk).
    destruct (Hk Hl) as [?|?]; [left|by right].
    exists (f r). split_and!; [|done..]. apply list_elem_of_In, in_map. by apply list_elem_of_In.
Qed.

Lemma moves_refl done ob : moves None done ob ob.
Proof.
  split; [by eauto|]. intros r Hr Hl. left. eauto.
Qed.

Lemma update_moves done q f ob :
  (forall r, r ∈ rows ob -> q r = true ->
     msg (f r) = msg r /\ status (f r) <> Publishing
     /\ (live r = true -> live (f r) = true \/ done r \/ overtaken ob r)) ->
  moves None done ob (with_rows ob (sql_update q f (rows ob))).
Proof.
  intros Hf. apply map_moves. intros r Hr. destruct (q r) eqn:E; [|by eauto].
  destruct (Hf r Hr E) as (? & ? & ?). done.
Qed.

Lemma collapse_moves done now limit ob :
  moves None done ob (snd (collapse_stale_pending_rows now limit ob)).
Proof.
  unfold collapse_stale_pending_rows, mbind, eff_bind, lift, check_limit, stmt.
  destruct (limit <? 0); simpl; [apply moves_refl|]. apply update_moves.
  intros r Hr (Hp & c & Hc & He & Ho)%stale_of_true. split_and!; [done..|]. intros _. do 2 right.
  unfold collapse_window in Hc. apply elem_of_limit, elem_of_order_by, elem_of_sfilter in Hc as [Hc Hw].
  exists c. split_and!; [done| |done..]. rewrite !andb_true_iff in Hw.
  apply live_cases. left. apply is_status_true. tauto.
Qed.

Lemma claim_moves done now locked worker lease limit cid ob : outbox_inv ob ->
  moves (Some cid) done ob (snd (claim_statement now locked worker lease limit cid ob)).
Proof.
  intros Hi. unfold claim_statement, mbind, eff_bind, lift, check_limit, stmt.
  assert (Hrefl : moves (Some cid) done ob ob) by (destruct (moves_refl done ob); split; eauto).
  destruct (limit <? 0); simpl; [done|]. destruct (existsb _ _); simpl; [done|].
  apply map_moves. intros r Hr. destruct (id_in _ r) eqn:E.
  - split_and!; [done|by right|]. intros _. left. done.
  - destruct (stale_of _ r) eqn:Es; [|by eauto]. split_and!; [done..|]. intros _. do 2 right.
    apply stale_of_true in Es as (_ & c & Hc & He & Ho).
    destruct (elem_of_candidates _ _ _ _ _ Hc) as (Hc' & Hcl & _).
    exists c. split_and!; [done| |done..]. apply live_cases. by eapply claimable_status.
Qed.

Lemma published_moves now mid cid ob :
  moves None (fun r => claimed_as mid cid r = true) ob (snd (mark_published now mid cid ob)).
Proof. apply update_moves. intros r _ Hr. split_and!; [done..|]. auto. Qed.

Lemma failed_moves done now mid cid error retry_after ob :
  moves None done ob (snd (mark_publish_failed now mid cid error retry_after ob)).
Proof. apply update_moves. intros r _ Hr. split_and!; [done..|]. by left. Qed.

Lemma purge_moves done now locked cfg ob : outbox_inv ob ->
  moves None done ob (snd (purge_outbox_once now locked cfg ob)).
Proof.
  intros Hi. unfold purge_outbox_once, mbind, eff_bind, lift, stmt.
  destruct (lift_core (purge_validate cfg)); simpl; [|apply moves_refl]. split; simpl.
  - intros r' c [Hr' _]%elem_of_sfilter Hc. right. eauto.
  - intros r Hr Hl. left. exists r. split_and!; [|done..]. apply elem_of_sfilter. split; [done|].
    apply negb_true_iff, not_true_iff_false. intros (v & Hv & E)%id_in_true.
    unfold victims in Hv. apply elem_of_limit, elem_of_order_by, elem_of_sfilter in Hv as [Hv Hrec].
    rewrite (NoDup_key_inj row_id _ v r (inv_ids _ Hi) Hv Hr E) in Hrec.
    unfold reclaimable, purgeable, live in *. by destruct (status r).
Qed.

(** ** What an accepted message is *)

(** The row an enqueue accepted is a payload of the type with its keys, under a
    well-formed identity, and its headers reserve nothing but the entity key. *)
Record fits om : Prop := {
  fits_payload : exists v ek, to_value v = Returned (Ok (payload om))
    /\ entity_key v = Returned ek /\ entity_col om = Some ek
    /\ partition_key v = Returned (partition_col om);
  fits_key : exists key, idempotency_key om = Some (to_hex key) /\ key_ok key;
  fits_headers : forall k, is_Some (headers om !! k) -> is_reserved_key k = true ->
    k = ENTITY_KEY_HEADER;
}.

(** An enqueue that answered [Ok] added one row behind those of its entity that
    it superseded. *)
Lemma enqueue_adds now visible (evt : Envelope P) trace ob ob' :
  (forall idem, env_idempotency_key evt = Some idem -> key_ok (idem_key idem)) ->
  enqueue_inner pcfg now visible evt trace ob = (Ok tt, ob') ->
  exists ek row, appends row (snd (supersede_pending_outbox_rows visible ek ob)) ob'
    /\ status row = Pending /\ entity_col row = Some ek /\ fits row.
Proof.
  intros Hkey. unfold enqueue_inner, mbind, eff_bind, lift.
  destruct (for_message OutboxKind P pcfg) as [tb|e]; simpl; [|done].
  destruct (reserved_header (env_headers evt)) as [h|] eqn:Hres; simpl; [done|].
  destruct (partition_key (env_payload evt)) as [pk|q] eqn:Hpk; simpl; [|done].
  destruct (entity_key (env_payload evt)) as [ek|q] eqn:Hek; simpl; [|done].
  destruct (to_value (env_payload evt)) as [[v|t]|q] eqn:Hv; simpl; [|done..].
  destruct (env_idempotency_key evt) as [idem|] eqn:Hid.
  - unfold undoing.
    match goal with |- context [insert_outbox_row now ?m Pending None ?ob1] =>
      pose proof (insert_cases now m Pending None ob1) as Hc;
      destruct (insert_outbox_row now m Pending None ob1) as [res ob1'] end.
    destruct Hc as [(e & -> & _)|(-> & row & Happ & Hm & Hs & _)]; [done..|]. simpl. intros [= <-].
    exists ek, row. split_and!; [exact Happ|done|by rewrite Hm|]. rewrite Hm. split; simpl.
    + by exists (env_payload evt), ek.
    + exists (idem_key idem). auto.
    + by apply outgoing_reserved.
  - match goal with |- context [insert_outbox_row now ?m ?s ?l ?ob1] =>
      destruct (insert_outbox_row now m s l ob1) as [[]] end; done.
Qed.

(** ** The producer's invariant *)

(** A later accepted state of the same entity. *)
Definition outdated p om : Prop :=
  exists om', om' ∈ p_accepted p /\ entity_col om' = entity_col om
              /\ enqueue_order om < enqueue_order om'.

Record producer_inv p : Prop := {
  pi_world : world_inv (p_world p);
  pi_live : forall r, r ∈ rows (table (p_world p)) -> live r = true -> msg r ∈ p_accepted p;
  pi_sent : forall om, om ∈ log (p_world p) -> om ∈ p_accepted p;
  pi_sorted : StronglySorted Z.lt (map enqueue_order (p_accepted p));
  pi_bound : forall om, om ∈ p_accepted p -> enqueue_order om < next_order (table (p_world p));
  pi_fits : forall om, om ∈ p_accepted p -> fits om;
  pi_held : forall r, r ∈ held (p_world p) -> msg r ∈ p_accepted p
    /\ exists c, claim_id r = Some c /\ c ∈ p_cids p
    /\ forall r' : DbRow, r' ∈ rows (table (p_world p)) ->
         claimed_as (message_id r) c r' = true -> msg r' = msg r;
  pi_cids : forall (r : DbRow) c, r ∈ rows (table (p_world p)) ->
    claimed_as (message_id r) c r = true -> c ∈ p_cids p;
  pi_acked : forall om c, (om, c) ∈ p_acked p -> c ∈ p_cids p /\ om ∈ log (p_world p)
    /\ forall r : DbRow, r ∈ rows (table (p_world p)) -> claimed_as (message_id om) c r = true -> msg r = om;
}.

(** Nothing accepted is lost: it has been handed to the broker, it is in play, or
    a later state of its entity makes it moot. *)
Definition none_lost p : Prop := forall om, om ∈ p_accepted p ->
  om ∈ log (p_world p) \/ outdated p om
  \/ exists r, r ∈ rows (table (p_world p)) /\ msg r = om /\ live r = true.

Lemma claimed_same_id (r : DbRow) mid c :
  claimed_as mid c r = true -> claimed_as (message_id r) c r = true.
Proof. intros (<- & ? & ?)%claimed_as_true. by apply claimed_as_true. Qed.

(** A statement other than an insert. *)
Definition moved p (w' : World) (cids : list uuid) : Pipe App :=
  {| p_world := w'; p_accepted := p_accepted p; p_cids := cids;
     p_acked := p_acked p; p_topic := p_topic p; p_db := p_db p; p_quarantine := p_quarantine p |}.

(** The rows held after it were held before or are claimed by it. *)
Definition holds (made : option uuid) (w w' : World) : Prop :=
  sends w' = sends w
  /\ forall r, r ∈ held w' -> r ∈ held w
       \/ (r ∈ rows (table w') /\ status r = Publishing /\ is_Some made /\ claim_id r = made).

Lemma producer_moved p made done w' :
  producer_inv p -> world_inv w' -> evolves (table (p_world p)) (table w') ->
  holds made (p_world p) w' -> moves made done (table (p_world p)) (table w') ->
  (forall c, made = Some c -> c ∉ p_cids p) ->
  producer_inv (moved p w' (option_list made ++ p_cids p)).
Proof.
  intros [Hw Hl Hs Ho Hb Hf Hh Hc Ha] Hw' [Hev1 Hnext Hev3] [Hsends Hheld] [Hmc Hmk] Hfresh.
  assert (Hlive : forall r', r' ∈ rows (table w') -> live r' = true -> msg r' ∈ p_accepted p).
  { intros r' Hr' Hlr. destruct (Hev3 r' Hr') as (r & Hr & -> & Hlv). auto. }
  assert (Hsame : forall (om : OutboxMsg) c, c ∈ p_cids p ->
    (forall r : DbRow, r ∈ rows (table (p_world p)) -> claimed_as (message_id om) c r = true -> msg r = om) ->
    forall r' : DbRow, r' ∈ rows (table w') -> claimed_as (message_id om) c r' = true -> msg r' = om).
  { intros om c Hcid Hrow r' Hr' Hcl.
    destruct (Hmc r' c Hr' (claimed_same_id _ _ _ Hcl)) as [E|(r & Hr & Em & Hcr)].
    { by destruct (Hfresh c E). }
    rewrite Em. apply Hrow; [done|]. apply claimed_as_true in Hcl as (Hid & _), Hcr as (_ & ? & ?).
    apply claimed_as_true. split_and!; [congruence|done..]. }
  assert (Hlog : log w' = log (p_world p)) by (unfold log; by rewrite Hsends).
  split; simpl; try done.
  - by rewrite Hlog.
  - intros om Hom. specialize (Hb om Hom). lia.
  - intros r Hr. destruct (Hheld r Hr) as [Hr0|(Hrow & Hst & [c ->] & Hid)].
    + destruct (Hh r Hr0) as (? & c & ? & Hcid & Hrow). split; [done|]. exists c.
      split_and!; [done|apply elem_of_app; by right|by apply Hsame].
    + split; [apply Hlive; [done|apply live_cases; auto]|]. exists c.
      split_and!; [done|apply elem_of_app; left; left|].
      intros r' Hr' (E & _)%claimed_as_true. f_equal.
      by apply (NoDup_key_inj row_id _ r' r (inv_ids _ (wi_table _ Hw')) Hr' Hrow).
  - intros r' c Hr' Hcl. apply elem_of_app. destruct (Hmc r' c Hr' Hcl) as [->|(r & Hr & _ & ?)].
    + left. simpl. left.
    + right. eauto.
  - intros om c Hom. rewrite Hlog. destruct (Ha om c Hom) as (Hcid & ? & Hrow).
    split_and!; [apply elem_of_app; by right|done|by apply Hsame].
Qed.

Lemma none_lost_moved p made done w' cids :
  producer_inv p -> none_lost p -> sends w' = sends (p_world p) ->
  moves made done (table (p_world p)) (table w') ->
  (forall r, r ∈ rows (table (p_world p)) -> done r -> msg r ∈ log (p_world p)) ->
  none_lost (moved p w' cids).
Proof.
  intros Hp Hk Hsends [_ Hmk] Hdone om Hom. simpl in *.
  assert (log w' = log (p_world p)) as -> by (unfold log; by rewrite Hsends).
  destruct (Hk om Hom) as [?|[?|(r & Hr & <- & Hlr)]]; [by left|by right; left|].
  destruct (Hmk r Hr Hlr) as [?|[Hd|(c & Hc' & Hlc & He & Hor)]]; [by do 2 right|left; auto|].
  right. left. exists (msg c). split_and!; [by apply (pi_live _ Hp)| |done].
  apply same_entity_spec in He as (e & -> & ->). done.
Qed.

(** A row is added: an accepted message, or the record of a refused one. *)
Definition appended p (ob' : Outbox) (fresh : list OutboxMsg) : Pipe App :=
  {| p_world := with_table (p_world p) ob'; p_accepted := p_accepted p ++ fresh;
     p_cids := p_cids p; p_acked := p_acked p; p_topic := p_topic p; p_db := p_db p;
     p_quarantine := p_quarantine p |}.

Lemma producer_appended p row ob' fresh :
  producer_inv p -> appends row (table (p_world p)) ob' ->
  (fresh = [] /\ live row = false \/ fresh = [msg row] /\ live row = true /\ fits row) ->
  producer_inv (appended p ob' fresh).
Proof.
  intros [Hw Hl Hs Ho Hb Hf Hh Hc Ha] Happ Hnew.
  assert (Hfresh : forall om, om ∈ fresh -> om = msg row /\ fits om).
  { intros om Hom. destruct Hnew as [[-> _]|(-> & ? & ?)]; [by apply elem_of_nil in Hom|].
    apply list_elem_of_singleton in Hom as ->. done. }
  pose proof (world_appends _ _ _ Hw Happ) as Hw'.
  destruct Happ as (-> & Hor & Hst & _ & _). unfold row_order in Hor.
  assert (Hpub : forall mid c, claimed_as mid c row <> true).
  { intros mid c (_ & ? & _)%claimed_as_true. done. }
  split; simpl; try done.
  - intros r [Hr| ->]%elem_of_snoc Hlr; apply elem_of_app; [left; auto|right].
    destruct Hnew as [[_ E]|(-> & _)]; [congruence|left].
  - intros om Hom. apply elem_of_app. left. auto.
  - rewrite map_app. destruct Hnew as [[-> _]|(-> & _ & _)]; simpl; [by rewrite app_nil_r|].
    apply StronglySorted_snoc; [done|].
    intros x (om & <- & Hom%list_elem_of_In)%list_elem_of_In%in_map_iff. specialize (Hb om Hom). lia.
  - intros om [Hom|Hom]%elem_of_app; [specialize (Hb om Hom); lia|].
    destruct (Hfresh om Hom) as (-> & _). lia.
  - intros om [Hom|Hom]%elem_of_app; [auto|]. by apply Hfresh.
  - intros r Hr. destruct (Hh r Hr) as (? & c & ? & ? & Hrow). split; [apply elem_of_app; by left|].
    exists c. split_and!; [done..|]. intros r' [Hr'| ->]%elem_of_snoc Hcl; [auto|by destruct (Hpub _ _ Hcl)].
  - intros r c [Hr| ->]%elem_of_snoc Hcl; [eauto|by destruct (Hpub _ _ Hcl)].
  - intros om c Hom. destruct (Ha om c Hom) as (? & ? & Hrow). split_and!; [done..|].
    intros r [Hr| ->]%elem_of_snoc Hcl; [auto|by destruct (Hpub _ _ Hcl)].
Qed.

(** Accepting a row moots the rows of its entity, superseded ([ob1]) or not. *)
Lemma accepted_producer p visible ek row ob' :
  producer_inv p -> none_lost p ->
  appends row (snd (supersede_pending_outbox_rows visible ek (table (p_world p)))) ob' ->
  status row = Pending -> entity_col row = Some ek -> fits row ->
  producer_inv (appended p ob' [msg row]) /\ none_lost (appended p ob' [msg row]).
Proof.
  intros Hp Hk Happ Hst Hek Hfit. pose proof (wi_table _ (pi_world _ Hp)) as Ht.
  set (q := fun r : DbRow => visible (message_id r) && pending_of ek r).
  set (ob1 := snd (supersede_pending_outbox_rows visible ek _)) in *.
  pose (done := fun r : DbRow => entity_col r = Some ek).
  assert (Hmv : moves None done (table (p_world p)) ob1).
  { apply update_moves. intros r _ [_ Hpe]%andb_true_iff. split_and!; [done..|]. intros _.
    right; left. unfold pending_of in Hpe. apply andb_true_iff in Hpe as [Hpe _].
    by apply sql_eq_true in Hpe as (e & He & [= ->]). }
  assert (Hp1 : producer_inv (moved p (with_table (p_world p) ob1) (p_cids p))).
  { destruct (supersede_evolves q id _ Ht) as [Hev Hi].
    apply (producer_moved p None done (with_table (p_world p) ob1) Hp); [|done| |done|done].
    - apply world_statement; [apply (pi_world _ Hp)|done|apply supersede_keeps_inflight].
    - split; [done|]. by left. }
  assert (Hl : live row = true) by (apply live_cases; auto).
  split; [exact (producer_appended _ row ob' [msg row] Hp1 Happ ltac:(by right))|].
  destruct Happ as (-> & Hor & _). unfold row_order in Hor.
  intros om [Hom| ->]%elem_of_snoc; simpl.
  2: { do 2 right. exists row. split; [apply elem_of_snoc; by right|done]. }
  assert (Hyoung : forall om', om' ∈ p_accepted p -> entity_col om' = entity_col om ->
    enqueue_order om < enqueue_order om' -> forall ob, outdated (appended p ob [msg row]) om).
  { intros om' ? ? ? ?. exists om'. split; [apply elem_of_snoc; by left|done]. }
  destruct (Hk om Hom) as [?|[(om' & ? & ? & ?)|(r & Hr & <- & Hlr)]]; [by left|right; left; eauto|].
  destruct (mv_kept _ _ _ _ Hmv r Hr Hlr) as [(r' & ? & ? & ?)|[Hd|(c & Hc & Hlc & He & Hlt)]].
  - do 2 right. exists r'. split; [apply elem_of_snoc; by left|done].
  - right; left. exists (msg row). split_and!; [apply elem_of_snoc; by right|congruence|].
    rewrite Hor. apply (pi_bound _ Hp _ Hom).
  - right; left. apply (Hyoung (msg c)); [by apply (pi_live _ Hp)| |done].
    apply same_entity_spec in He as (e & -> & ->). done.
Qed.

(** What an enqueue leaves of the producer. *)
Lemma enqueue_producer p now visible (evt : Envelope P) trace :
  (forall idem, env_idempotency_key evt = Some idem -> key_ok (idem_key idem)) ->
  producer_inv p -> none_lost p ->
  producer_inv (after_enqueue p now visible evt trace)
  /\ none_lost (after_enqueue p now visible evt trace).
Proof.
  intros Hkey Hp Hk. pose proof (wi_table _ (pi_world _ Hp)) as Ht. unfold after_enqueue.
  pose proof (enqueue_outcomes pcfg now visible evt trace (table (p_world p))) as Ho.
  pose proof (enqueue_adds now visible evt trace (table (p_world p))) as Hadd.
  destruct (enqueue_inner pcfg now visible evt trace (table (p_world p))) as [[[]|e] ob'].
  - destruct (Hadd ob' Hkey eq_refl) as (ek & row & Happ & Hst & Hek & Hfit).
    assert (E : last (rows ob') = Some row) by (destruct Happ as (-> & _); apply last_snoc).
    rewrite E. by apply (accepted_producer p visible ek row ob').
  - clear Hadd. inversion Ho as [e' ob'' Hr Hn|row ob'' Hid Happ _ Hs _|]; subst.
    + rewrite app_nil_r.
      assert (Hev : evolves (table (p_world p)) ob' /\ outbox_inv ob').
      { apply evolves_settles; rewrite ?Hr; [done|done| |done]. intros r ?. exists r.
        split_and!; try done. intros. apply live_cases; auto. }
      assert (Hmv : moves None (fun _ => False) (table (p_world p)) ob').
      { destruct (moves_refl (fun _ => False) (table (p_world p))). split; rewrite Hr; auto. }
      split; [|by apply (none_lost_moved p None (fun _ => False) (with_table (p_world p) ob'))].
      apply (producer_moved p None (fun _ => False) (with_table (p_world p) ob') Hp);
        [|by apply Hev|split; [done|by left]|done..].
      apply world_statement; [apply (pi_world _ Hp)|done|]. intros r ?. by rewrite Hr.
    + split; [apply (producer_appended p row ob' [] Hp Happ); left; unfold live; by rewrite Hs|].
      destruct Happ as (-> & _). intros om Hom. simpl in *. rewrite app_nil_r in Hom.
      destruct (Hk om Hom) as [?|[(om' & ? & ?)|(r & Hr & ? & ?)]]; [by left|right; left|right; right].
      * exists om'. simpl. by rewrite app_nil_r.
      * exists r. split; [apply elem_of_snoc; by left|done].
Qed.

Lemma publish_producer p (r : DbRow) cid record offset answered :
  producer_inv p -> none_lost p -> r ∈ held (p_world p) -> claim_id r = Some cid ->
  producer_inv (after_publish p r cid record offset answered)
  /\ none_lost (after_publish p r cid record offset answered).
Proof.
  intros Hp Hk Hr Hcl. pose proof Hp as [Hw Hl Hs Ho Hb Hf Hh Hc Ha].
  destruct (Hh r Hr) as (Hacc & c & E & Hcid & Hrow). rewrite Hcl in E. injection E as <-. split.
  - split; cbn -[log]; rewrite ?log_send; try done.
    + by apply world_send_inv.
    + intros om [Hom| ->]%elem_of_snoc; auto.
    + assert (Hgrow : forall om c, (om, c) ∈ p_acked p -> c ∈ p_cids p
        /\ om ∈ log (p_world p) ++ [msg r]
        /\ forall r : DbRow, r ∈ rows (table (p_world p)) -> claimed_as (message_id om) c r = true -> msg r = om).
      { intros om c Hom. destruct (Ha om c Hom) as (? & ? & ?).
        split_and!; [done|apply elem_of_snoc; by left|done]. }
      intros om c. destruct answered; [|apply Hgrow].
      intros [[= -> ->]|?]%elem_of_cons; [|by apply Hgrow].
      split_and!; [done|apply elem_of_snoc; by right|done].
  - intros om Hom. cbn -[log]. rewrite log_send.
    destruct (Hk om Hom) as [?|[?|?]]; [left; apply elem_of_snoc; by left|auto..].
Qed.

(** ** The topic *)

(** The key a message is published under. *)
Definition msg_key om : option string :=
  match partition_col om with Some k => Some k | None => entity_col om end.

(** [m] is a record of [om]: it lies in the partition of the key, and whoever
    decodes it has the payload, the entity and the identity that were enqueued. *)
Record arrives om (m : Message) : Prop := {
  arr_partition : k_partition m = partitioner (msg_key om);
  arr_decodes : forall fresh now expected (d : DecodedRecord P),
    record_envelope from_slice fresh now m expected (record_headers_of m) = Ok d ->
    exists ek idem, to_value (env_payload (dec_envelope d)) = Returned (Ok (payload om))
      /\ entity_key (env_payload (dec_envelope d)) = Returned ek /\ entity_col om = Some ek
      /\ env_idempotency_key (dec_envelope d) = Some idem
      /\ idempotency_key om = Some (to_hex (idem_key idem));
}.

Lemma decoded_row (r : DbRow) o key :
  row_from_pg r = Ok o -> idempotency_key r = Some (to_hex key) -> key_ok key ->
  orow_db o = r /\ orow_idempotency_key o = Some key.
Proof.
  unfold row_from_pg. intros Ho E Hk. rewrite E, (from_hex_to_hex _ Hk) in Ho. simpl in Ho.
  destruct (lift_core _); simpl in Ho; by simplify_eq.
Qed.

Lemma published_arrives (r : DbRow) cid o trace record offset :
  fits r -> row_from_pg r = Ok o ->
  outgoing_record {| claimed_row := o; claimed_id := cid |} trace = Ok record ->
  arrives r (delivered record (partitioner (fr_key record)) offset).
Proof.
  intros [(v & ek & Hv & Hek & He & Hpk) (key & Hkey & Hok) Hh] Ho Hrec.
  destruct (decoded_row r o key Ho Hkey Hok) as [Hdb Hk].
  destruct (outgoing_fields _ _ _ Hrec) as (managed & _ & Er). simpl in Er. split.
  - rewrite Er. simpl. unfold record_key, msg_key. by rewrite Hdb.
  - intros fresh now expected d Hd.
    assert (expected = topic r) as ->.
    { revert Hd. unfold record_envelope. case_bool_decide as E; [|done]. intros _.
      rewrite <- E, Er. simpl. by rewrite Hdb. }
    pose proof (hop_decodes from_slice fresh now _ trace record (partitioner (fr_key record)) offset
      key v Hrec) as Hhop. cbn [claimed_row] in Hhop. rewrite Hdb in Hhop.
    rewrite Hhop in Hd by (done || by apply contract_codec). injection Hd as <-. simpl.
    exists ek. eexists. split_and!; done.
Qed.

(** Messages of one entity share a partition. *)
Lemma same_partition om1 om2 m1 m2 e :
  fits om1 -> fits om2 -> arrives om1 m1 -> arrives om2 m2 ->
  entity_col om1 = Some e -> entity_col om2 = Some e -> k_partition m1 = k_partition m2.
Proof.
  intros [(v1 & e1 & _ & He1 & Hc1 & Hp1) _ _] [(v2 & e2 & _ & He2 & Hc2 & Hp2) _ _] [-> _] [-> _] E1 E2.
  rewrite E1 in Hc1. rewrite E2 in Hc2. injection Hc1 as <-. injection Hc2 as <-.
  pose proof (contract_keyed v1 v2 e He1 He2) as E. rewrite Hp1, Hp2 in E. injection E as E.
  unfold msg_key. by rewrite E, E1, E2.
Qed.

Record transport_inv p : Prop := {
  ti_records : Forall2 arrives (log (p_world p)) (p_topic p);
  ti_offsets : forall i j mi mj, p_topic p !! i = Some mi -> p_topic p !! j = Some mj ->
    k_partition mi = k_partition mj -> (i < j)%nat -> k_offset mi < k_offset mj;
}.

Lemma publish_transport p (r : DbRow) cid o trace record offset answered :
  transport_inv p -> fits r -> row_from_pg r = Ok o ->
  outgoing_record {| claimed_row := o; claimed_id := cid |} trace = Ok record ->
  next_offset p (partitioner (fr_key record)) offset ->
  transport_inv (after_publish p r cid record offset answered).
Proof.
  intros [Hr Ho] Hf Hpg Hrec Hoff. split; cbn -[log].
  - rewrite log_send. apply Forall2_app; [done|]. constructor; [|done]. by eapply published_arrives.
  - intros i j mi mj Hi Hj Hp Hlt.
    apply lookup_snoc_Some in Hj as [[Hjl Hj]|[-> <-]].
    + apply lookup_snoc_Some in Hi as [[_ Hi]|[-> _]]; [eauto|lia].
    + apply lookup_snoc_Some in Hi as [[_ Hi]|[-> _]]; [|lia].
      apply Hoff; [by eapply list_elem_of_lookup_2|done].
Qed.

(** The steps that leave the broker alone. *)
Lemma transport_same p p' :
  log (p_world p') = log (p_world p) -> p_topic p' = p_topic p -> transport_inv p -> transport_inv p'.
Proof. intros E1 E2 [Hr Ho]. split; rewrite ?E1, ?E2; done. Qed.

(** ** All of it *)

(** Everything but the consumer. *)
Record upstream p : Prop := {
  up_producer : producer_inv p;
  up_kept : none_lost p;
  up_transport : transport_inv p;
}.

Lemma moved_upstream p made done w' :
  upstream p -> world_inv w' -> evolves (table (p_world p)) (table w') ->
  holds made (p_world p) w' -> moves made done (table (p_world p)) (table w') ->
  (forall c, made = Some c -> c ∉ p_cids p) ->
  (forall r, r ∈ rows (table (p_world p)) -> done r -> msg r ∈ log (p_world p)) ->
  upstream (moved p w' (option_list made ++ p_cids p)).
Proof.
  intros [Hp Hk Ht] Hw Hev [Hsends Hh] Hmv Hfresh Hdone.
  split; [by eapply producer_moved|by eapply none_lost_moved|apply (transport_same p); [|done..]].
  unfold log. simpl. by rewrite Hsends.
Qed.

(** The statements that claim nothing. *)
Lemma statement_upstream p done w' :
  upstream p -> world_inv w' -> evolves (table (p_world p)) (table w') ->
  sends w' = sends (p_world p) -> held w' `sublist_of` held (p_world p) ->
  moves None done (table (p_world p)) (table w') ->
  (forall r, r ∈ rows (table (p_world p)) -> done r -> msg r ∈ log (p_world p)) ->
  upstream (set_world p w').
Proof.
  intros Hup Hw Hev Hs Hh Hmv Hdone. apply (moved_upstream p None done w'); try done.
  split; [done|]. intros r Hr. left. by eapply elem_of_sublist.
Qed.

Lemma claim_holds now locked worker lease limit cid w :
  holds (Some cid) w (world_claim now locked worker lease limit cid w).
Proof.
  unfold world_claim, claim_statement, mbind, eff_bind, lift, check_limit, stmt.
  destruct (limit <? 0); simpl; [split; simpl; [done|rewrite app_nil_r; by left]|].
  destruct (existsb _ _); simpl; [split; simpl; [done|rewrite app_nil_r; by left]|].
  split; simpl; [done|]. intros r [?|Hr]%elem_of_app; [by left|right].
  apply elem_of_sfilter in Hr as [Hr Hid]. split; [done|].
  apply list_elem_of_In, in_map_iff in Hr as (r0 & <- & Hr0). destruct (id_in _ r0) eqn:E; [done|].
  exfalso. unfold id_in in Hid, E. destruct (stale_of _ r0); simpl in Hid; by rewrite E in Hid.
Qed.

Lemma table_claim now locked worker lease limit cid w :
  table (world_claim now locked worker lease limit cid w)
  = snd (claim_statement now locked worker lease limit cid (table w)).
Proof. unfold world_claim. by destruct (claim_statement _ _ _ _ _ _ _). Qed.

Lemma consumer_upstream p db q : upstream p -> upstream (set_db p db q).
Proof. intros [[] Hk []]. split; [split|..]; try done; by split. Qed.

Lemma pstep_upstream p p' : upstream p -> pstep p p' -> upstream p'.
Proof.
  intros Hup Hstep. pose proof Hup as [Hp Hk Ht]. pose proof (wi_table _ (pi_world _ Hp)) as Hi.
  assert (Hstep' : forall w', step (p_world p) w' -> world_inv w')
    by (intros w'; apply step_inv, (pi_world _ Hp)).
  destruct Hstep as [now visible evt trace Hkey|now limit|now locked worker lease limit cid Hnow Hcid
    |r cid o trace record offset answered Hr Hcl Hpg Hrec Hoff|now om cid Hack|now mid cid error after
    |now locked cfg|rest Hrest|later Hlater|K client k limit skips x m Hm
    |lost lands policy wait now due locked router Hr Hc|locked r].
  - destruct (enqueue_producer p now visible evt trace Hkey Hp Hk).
    split; [done..|]. eapply transport_same, Ht; unfold after_enqueue; by destruct (enqueue_inner _ _ _ _ _ _).
  - apply (statement_upstream p (fun _ => False)); try done; [apply Hstep', step_collapse| |apply collapse_moves].
    by apply collapse_evolves.
  - apply (moved_upstream p (Some cid) (fun _ => False) _ Hup); rewrite ?table_claim;
      [by apply Hstep', step_claim|by apply claim_evolves|apply claim_holds|by apply claim_moves
      |by intros c [= <-]|done].
  - destruct (publish_producer p r cid record offset answered Hp Hk Hr Hcl).
    split; [done..|]. eapply publish_transport; eauto.
    apply (pi_fits _ Hp). by apply (pi_held _ Hp).
  - apply (statement_upstream p (fun r => claimed_as (message_id om) cid r = true)); try done;
      [apply Hstep', step_published|by apply mark_evolves|apply sublist_sfilter|apply published_moves|].
    intros r Hr Hcl. destruct (pi_acked _ Hp om cid Hack) as (_ & Hlog & Hrow). by rewrite (Hrow r Hr Hcl).
  - apply (statement_upstream p (fun _ => False)); try done;
      [apply Hstep', step_failed|by apply mark_evolves|apply sublist_sfilter|apply failed_moves].
  - apply (statement_upstream p (fun _ => False)); try done;
      [apply Hstep', step_purge|by apply purge_evolves|by apply purge_moves].
  - apply (statement_upstream p (fun _ => False)); try done;
      [by apply Hstep', step_crash|apply evolves_refl|apply moves_refl].
  - apply (statement_upstream p (fun _ => False)); try done;
      [by apply Hstep', step_tick|apply evolves_refl|apply moves_refl].
  - by apply consumer_upstream.
  - by apply consumer_upstream.
  - by apply consumer_upstream.
Qed.

Lemma start_upstream app : upstream (start app).
Proof.
  split; [split|..]; simpl; try (by intros; set_solver); [apply initial_inv|constructor|].
  split; simpl; [constructor|]. intros i j mi mj E. by rewrite lookup_nil in E.
Qed.

Lemma run_upstream app p : rtc pstep (start app) p -> upstream p.
Proof.
  intros Hrun. remember (start app) as p0 eqn:E. assert (upstream p0) by (subst; apply start_upstream).
  clear E. induction Hrun; eauto using pstep_upstream.
Qed.
End pipeline.
