(* ===== verification/EndToEnd.v ===== *)
(** * EndToEnd: what the whole pipeline promises

    The consumer half of the invariants of [Pipeline], the specification the
    pipeline implements and the two theorems about it: every run refines a
    per-entity register that moves forward through what was written, and back
    only to a write that was sent after the lease it was sent under; and once an
    entity is quiet its cache row is the last state written, unless an older one
    was sent late. *)

From S2P Require Import Prelude Text Vocabulary Trace Identity Topics Registry Outbox OutboxOrder.
From S2P Require Import Relay Retry Received Cache Dispatch Wire Ingest Pipeline.
Open Scope string_scope.
Open Scope list_scope.
Open Scope Z_scope.

(** ** The specification *)

(** What was written, oldest first, for every entity the write its readers see,
    and the writes that were announced late. *)
Record Spec := { history : list (string * json); view : gmap string nat; belated : list nat }.
Definition spec_start : Spec := {| history := []; view := ∅; belated := [] |}.

(** A write is appended, or announced late; a view moves to a write of its
    entity, and back only to one that was announced late. *)
Inductive sstep (s : Spec) : Spec -> Prop :=
| s_write e v : sstep s {| history := history s ++ [(e, v)]; view := view s; belated := belated s |}
| s_late n w :
    history s !! n = Some w ->
    sstep s {| history := history s; view := view s; belated := n :: belated s |}
| s_advance e n v :
    history s !! n = Some (e, v) ->
    (forall k, view s !! e = Some k -> (k <= n)%nat) \/ n ∈ belated s ->
    sstep s {| history := history s; view := <[e := n]> (view s); belated := belated s |}.

(** The states a run goes through after [x]. *)
Inductive runs {S : Type} (R : S -> S -> Prop) : S -> list S -> Prop :=
| runs_nil x : runs R x []
| runs_cons x y l : R x y -> runs R y l -> runs R x (y :: l).

Lemma last_next {A} (x y : A) l : List.last (y :: l) x = List.last l y.
Proof.
  revert x y. induction l as [|z l IH]; intros x y; [done|].
  change (List.last (z :: l) x = List.last (z :: l) y). by rewrite !IH.
Qed.

Lemma runs_rtc {S} (R : S -> S -> Prop) x l : runs R x l -> rtc R x (List.last l x).
Proof.
  intros Hr. induction Hr as [|x y l Hxy Hr IH]; [done|]. rewrite last_next. by eapply rtc_l.
Qed.

Lemma lookup_prefix {A} (l l' : list A) i a : l `prefix_of` l' -> l !! i = Some a -> l' !! i = Some a.
Proof. intros. by eapply prefix_lookup_Some. Qed.

Section consumer.
Context `{FormatLaws} {P : Type} `{KafkaMessage P} {App : Type}.
Context (from_slice : string -> unwinding (result string P)) `{!MessageContract P from_slice}.
Context (display : Error -> string) (rd_display : RdError -> string).
Context (pcfg ccfg : ResolvedConfig) (tbr : Table) (Htbr : for_message ReceivedKind P ccfg = Ok tbr).
Context (partitioner : option string -> Z).
Implicit Types (p : Pipe App) (om : OutboxMsg).

Abbreviation step_of := (pstep from_slice display rd_display pcfg ccfg tbr partitioner).
Abbreviation upstream_of := (upstream from_slice partitioner).

(** ** Where rows come from *)

Definition sent_at p (i : nat) om (m : Message) : Prop :=
  log (p_world p) !! i = Some om /\ p_topic p !! i = Some m.

(** A received row is a record of the topic, at its position. *)
Definition stored p (rm : RMsg) : Prop := exists i om m, sent_at p i om m
  /\ r_source_topic rm = desc_topic (tbl_desc tbr)
  /\ r_source_partition rm = k_partition m /\ r_source_offset rm = k_offset m
  /\ r_payload rm = payload om /\ r_entity_key rm = entity_col om
  /\ Some (r_idempotency_key rm) = idempotency_key om.

(** The cache row of [e] is the [i]th publish. *)
Definition shown p (e : string) (i : nat) om (cur : CacheRow) : Prop := exists m, sent_at p i om m
  /\ entity_col om = Some e /\ applied_topic cur = desc_topic (tbl_desc tbr)
  /\ applied_partition cur = k_partition m /\ applied_offset cur = k_offset m
  /\ c_payload cur = payload om.

Record consumer_inv p : Prop := {
  ci_table : received_inv (db_received (p_db p));
  ci_rows : forall r, r ∈ db_received (p_db p) -> stored p (rmsg r);
  ci_cache : forall e cur, db_cache (p_db p) !! e = Some cur -> exists i om, shown p e i om cur;
  ci_done : forall r e, r ∈ db_received (p_db p) -> r_status r = Processed ->
    r_entity_key r = Some e ->
    exists cur, db_cache (p_db p) !! e = Some cur /\ r_source_offset r <= applied_offset cur;
}.

(** Histories only grow. *)
Record grows p p' : Prop := {
  gr_log : log (p_world p) `prefix_of` log (p_world p');
  gr_topic : p_topic p `prefix_of` p_topic p';
  gr_accepted : p_accepted p `prefix_of` p_accepted p';
}.

(** The [i]th send was late. *)
Definition late_send p (i : nat) : Prop :=
  exists x, sends (p_world p) !! i = Some x /\ late x = true.

Lemma sent_row p i om m : sent_at p i om m ->
  exists x, sends (p_world p) !! i = Some x /\ om = msg (s_row x).
Proof.
  intros [Hl _]. unfold log in Hl. apply list_lookup_fmap_Some in Hl as (x & Hom & Hx). eauto.
Qed.

Lemma sent_grows p p' i om m : grows p p' -> sent_at p i om m -> sent_at p' i om m.
Proof. intros [? ? _] [? ?]. split; by eapply lookup_prefix. Qed.

Lemma stored_grows p p' rm : grows p p' -> stored p rm -> stored p' rm.
Proof. intros Hg (i & om & m & Hs & Hrest). exists i, om, m. split; [by eapply sent_grows|done]. Qed.

Lemma shown_grows p p' e i om cur : grows p p' -> shown p e i om cur -> shown p' e i om cur.
Proof. intros Hg (m & Hs & Hrest). exists m. split; [by eapply sent_grows|done]. Qed.

Lemma pstep_grows p p' : step_of p p' -> grows p p'.
Proof.
  intros Hstep. destruct Hstep; try (by split).
  - unfold after_enqueue. destruct (enqueue_inner _ _ _ _ _ _) as [res ob]. split; simpl; [done..|].
    by apply prefix_app_r.
  - split; cbn -[log]; [|done..]. unfold log, world_claim. by destruct (claim_statement _ _ _ _ _ _ _).
  - split; cbn -[log]; [rewrite log_send; by apply prefix_app_r|by apply prefix_app_r|done].
Qed.

Lemma consumer_grows p p' :
  grows p p' -> p_db p' = p_db p -> consumer_inv p -> consumer_inv p'.
Proof.
  intros Hg E [Ht Hr Hc Hd]. split; rewrite E; [done| | |done].
  - intros r Hin. by eapply stored_grows; eauto.
  - intros e cur Hcur. destruct (Hc e cur Hcur) as (i & om & ?). exists i, om. by eapply shown_grows.
Qed.

(** ** Ingest *)

Section ingest_step.
Context {K : Type} (client : Client K) (limit : nat) (x : Circumstances) (m : Message).

Lemma quarantine_received kind text (w : Ingester K) :
  st_received (ig_store (snd (quarantine (P := P) client ccfg limit x m kind text w)))
  = st_received (ig_store w).
Proof.
  unfold quarantine. rewrite Htbr.
  cbv [lift_sqlx mbind eff_bind lift gets begin_tx commit_tx count_skip commit_record mret eff_ret].
  destruct (fault x SBeginQuarantine); [done|].
  destruct (quarantine_row _ _ _ _) as [s|e] eqn:Eq; [|done].
  apply quarantine_row_effect in Eq as (_ & _ & Hs).
  destruct (fault x SCommitQuarantine), (lands x SCommitQuarantine); simpl; try done;
    destruct (Nat.leb _ _); simpl; try done; by destruct (commit_message _ _ _) as [[]].
Qed.

(** A record that is stored leaves the table as it was or adds its row. *)
Lemma store_received d (w : Ingester K) :
  let t := st_received (ig_store w) in
  let t' := st_received (ig_store (snd (store client display ccfg limit x m d w))) in
  t' = t \/ t' = snd (insert_received_with_outcome ccfg (now_at x) (dec_envelope d) (k_partition m)
                        (k_offset m) (dec_key d) (span_trace x) t).
Proof.
  simpl. unfold store. rewrite Htbr. cbv [lift_sqlx mbind eff_bind lift gets begin_tx].
  destruct (fault x SBeginStore); [by left|]. unfold insert_row.
  destruct (insert_received_with_outcome _ _ _ _ _ _ _ _) as [[o|e] t].
  2: { destruct e; try (by left). left. apply quarantine_received. }
  destruct (fault x SInsert); [by left|]. simpl.
  set (after := if bool_decide (o = MessageIdConflict) then _ else _).
  destruct after as [s|e] eqn:Es; [|by left].
  assert (Hs : st_received s = t).
  { unfold after in Es. destruct (bool_decide _); [|by injection Es as <-].
    by apply quarantine_row_effect in Es as (_ & _ & ->). }
  cbv [commit_tx count_skip reset_skips commit_record mret eff_ret].
  destruct (fault x SCommitStore), (lands x SCommitStore); simpl; try (by left); try (by right); right;
    destruct (bool_decide _); simpl; try (destruct (Nat.leb _ _); simpl; [done|]);
    by destruct (commit_message _ _ _) as [[]].
Qed.
End ingest_step.

(** The row that decoding a record of the topic inserts. *)
Lemma insert_stored p i om m now fresh at_ trace d (t : Received) :
  sent_at p i om m -> arrives from_slice partitioner om m -> received_inv t ->
  record_envelope from_slice fresh at_ m (desc_topic (tbl_desc tbr)) (record_headers_of m) = Ok d ->
  let t' := snd (insert_received_with_outcome ccfg now (dec_envelope d) (k_partition m) (k_offset m)
                   (dec_key d) trace t) in
  received_inv t' /\ (t' = t \/ exists rm, t' = t ++ [fresh_row rm] /\ stored p rm).
Proof.
  intros Hs Harr Hinv Hd.
  destruct (arr_decodes _ _ _ _ Harr _ _ _ _ Hd) as (ek & idem & Hv & Hek & He & Hid & Hkey).
  simpl. unfold insert_received_with_outcome. rewrite Htbr, Hid, Hv, Hek.
  cbv [mbind eff_bind lift ok_or catch_application_panic].
  destruct (reserved_header _); [by split; [|left]|].
  match goal with |- context [insert_statement ?r t] =>
    destruct (insert_statement_adds r t Hinv) as [Hi [E|E]]; rewrite E; rewrite E in Hi end.
  - by split; [|left].
  - split; [done|]. right. eexists. split; [done|]. exists i, om, m. by rewrite He, Hkey.
Qed.

Lemma ingest_received p {K} (client : Client K) k limit skips x m :
  upstream_of p -> consumer_inv p -> m ∈ p_topic p ->
  let t' := st_received (ig_store (snd (ingest_decoded client from_slice display rd_display ccfg limit x
       m (desc_topic (tbl_desc tbr)) {| ig_store := store_of p; ig_client := k; consecutive_skips := skips |}))) in
  received_inv t' /\ (t' = db_received (p_db p)
                      \/ exists rm, t' = db_received (p_db p) ++ [fresh_row rm] /\ stored p rm).
Proof.
  intros [_ _ [Hrec _]] [Ht _ _ _] (i & Hi)%list_elem_of_lookup_1.
  destruct (Forall2_lookup_r _ _ _ _ _ Hrec Hi) as (om & Hom & Harr).
  assert (Hs : sent_at p i om m) by done. simpl. unfold ingest_decoded.
  assert (Hsame : received_inv (db_received (p_db p)) /\ (db_received (p_db p) = db_received (p_db p)
     \/ exists rm, db_received (p_db p) = db_received (p_db p) ++ [fresh_row rm] /\ stored p rm))
    by (by split; [|left]).
  destruct (record_envelope _ _ _ _ _ _) as [d|e] eqn:Hd.
  - destruct (store_received client limit x m d
      {| ig_store := store_of p; ig_client := k; consecutive_skips := skips |}) as [E|E];
      simpl in E; rewrite E; [done|]. by eapply insert_stored.
  - destruct (ingest_failure_kind e); [|done]. by rewrite quarantine_received.
Qed.

Lemma ingest_consumer p s' :
  consumer_inv p -> received_inv (st_received s') ->
  st_received s' = db_received (p_db p)
  \/ (exists rm, st_received s' = db_received (p_db p) ++ [fresh_row rm] /\ stored p rm) ->
  consumer_inv (set_store p s').
Proof.
  intros [Ht Hr Hc Hd] Hinv Hcase.
  assert (Hin : forall r, r ∈ st_received s' ->
    r ∈ db_received (p_db p) \/ exists rm, r = fresh_row rm /\ stored p rm).
  { intros r. destruct Hcase as [->|(rm & -> & Hst)]; [by left|].
    intros [?| ->]%elem_of_snoc; [by left|right; eauto]. }
  split; simpl; [done| |done|].
  - intros r [?|(rm & -> & ?)]%Hin; [by apply Hr|done].
  - intros r e [?|(rm & -> & ?)]%Hin Hs He; [eauto|done].
Qed.

(** ** The cache *)

(** Publishes of one entity: a higher offset is a later publish, of a state that
    is no older unless it was sent late. *)
Lemma later_publish p i j omi omj mi mj e :
  upstream_of p -> sent_at p i omi mi -> sent_at p j omj mj ->
  entity_col omi = Some e -> entity_col omj = Some e ->
  k_partition mi = k_partition mj
  /\ (k_offset mi <= k_offset mj -> enqueue_order omi <= enqueue_order omj \/ late_send p j).
Proof.
  intros [Hp _ [Hrec Hoff]] Hsi Hsj Ei Ej.
  destruct (sent_row _ _ _ _ Hsi) as (xi & Hxi & Eomi), (sent_row _ _ _ _ Hsj) as (xj & Hxj & Eomj).
  destruct Hsi as [Hli Hti], Hsj as [Hlj Htj].
  assert (Hfit : forall k om, log (p_world p) !! k = Some om -> fits om).
  { intros k om Hk. apply (pi_fits _ Hp), (pi_sent _ Hp). by eapply list_elem_of_lookup_2. }
  assert (Harr : forall k om m, sent_at p k om m -> arrives from_slice partitioner om m).
  { intros k om m [Hl Ht]. by eapply Forall2_lookup_lr. }
  assert (Hpart : k_partition mi = k_partition mj).
  { apply (same_partition from_slice partitioner omi omj mi mj e);
      [by apply (Hfit i)|by apply (Hfit j)|by apply (Harr i)|by apply (Harr j)|done|done]. }
  split; [done|]. intros Hle.
  destruct (lt_eq_lt_dec i j) as [[Hlt| ->]|Hgt].
  - pose proof (sorted_lookup in_order _ _ _ _ _ (wi_order _ (pi_world _ Hp)) Hxi Hxj Hlt) as Hin.
    subst omi omj. destruct (Hin e Ei Ej) as [?|?]; [right; by exists xj|by left].
  - rewrite Hli in Hlj. injection Hlj as ->. by left.
  - specialize (Hoff j i mj mi Htj Hti (eq_sym Hpart) Hgt). lia.
Qed.

(** An apply that succeeded either wrote the row, over an older one, or found
    one at least as new. *)
Lemma apply_effect p now (row : RRow) applied c' :
  upstream_of p -> consumer_inv p -> stored p (rmsg row) ->
  upsert_cache_from_received alone now (tbl_schema tbr) (tbl_desc tbr) row (db_cache (p_db p))
  = (Ok applied, c') ->
  exists e i om, r_entity_key row = Some e /\
  ((exists cur', c' = <[e := cur']> (db_cache (p_db p)) /\ shown p e i om cur'
      /\ applied_offset cur' = r_source_offset row
      /\ forall cur, db_cache (p_db p) !! e = Some cur -> applied_offset cur < applied_offset cur')
   \/ (c' = db_cache (p_db p)
       /\ exists cur, db_cache (p_db p) !! e = Some cur /\ r_source_offset row <= applied_offset cur)).
Proof.
  intros Hup Hci (i & om & m & Hs & Htop & Hpart & Hoff & Hpay & Hent & _) Hu.
  assert (exists e, entity_col om = Some e) as [e He].
  { destruct Hup as [Hp _ _]. destruct Hs as [Hl _].
    destruct (pi_fits _ Hp om) as [(v & e & _ & _ & ? & _) _ _]; [|eauto].
    apply (pi_sent _ Hp). by eapply list_elem_of_lookup_2. }
  rewrite He in Hent. exists e, i, om. split; [done|].
  assert (Hek : received_entity_key row = Ok e) by (unfold received_entity_key; by rewrite Hent).
  destruct (table_new CacheKind (tbl_schema tbr) (tbl_desc tbr)) as [tc|] eqn:Etc.
  2: { revert Hu. unfold upsert_cache_from_received, mbind, eff_bind, lift. by rewrite Etc. }
  rewrite (upsert_unfold _ _ _ _ _ _ _ Etc Hek), apply_row_cases in Hu.
  assert (Hshown : forall b, shown p e i om (cache_row_of now b row)) by (intros b; by exists m).
  destruct (db_cache (p_db p) !! e) as [cur|] eqn:Ec.
  - destruct (ci_cache _ Hci e cur Ec) as (k & omk & mk & Hsk & Hek' & Ht & Hp & Ho & _).
    destruct (later_publish p k i omk om mk m e Hup Hsk Hs Hek' He) as [Hsame _].
    rewrite bool_decide_true, bool_decide_true in Hu by congruence.
    destruct (Z.ltb_spec (applied_offset cur) (r_source_offset row)); injection Hu as <- <-.
    + left. eexists. split_and!; [done|apply Hshown|done|]. by intros ? [= <-].
    + right. eauto.
  - injection Hu as <- <-. left. eexists. split_and!; [done|apply Hshown|done|done].
Qed.

(** Updates that mark nothing processed. *)
Lemma consumer_updates p db' q (qr : RRow -> bool) f :
  (forall r, rmsg (f r) = rmsg r /\ r_status (f r) <> Processed) ->
  db_received db' = sql_update qr f (db_received (p_db p)) -> db_cache db' = db_cache (p_db p) ->
  consumer_inv p -> consumer_inv (set_db p db' q).
Proof.
  intros Hf Hrec Hcache [Ht Hr Hc Hd].
  split; simpl; rewrite ?Hrec, ?Hcache; [apply update_inv, Ht; apply Hf| |done|].
  - intros r' (r & Hr' & ->)%elem_of_update. specialize (Hr r Hr'). destruct (qr r); [|done].
    by rewrite (proj1 (Hf r)).
  - intros r' e (r & Hr' & ->)%elem_of_update Hs He. destruct (qr r); [by destruct (Hf r)|eauto].
Qed.

(** ** Dispatch *)

Lemma passes_cache {A} (h : option (Handler A)) (none : A) row (db : @Db App) a db' :
  (forall h', h = Some h' -> keeps_cache h') -> passes h none row db a db' -> db_cache db' = db_cache db.
Proof.
  destruct h as [h|]; simpl; [|by intros _ [_ ->]].
  intros Hh (run & E & _). specialize (Hh h eq_refl (meta_of row) (r_payload (row_db row)) db).
  by rewrite E in Hh.
Qed.

Section dispatch_step.
Context (lost : Stmt -> bool) (commit_lands : bool) (policy : RetryPolicy) (wait : Z -> interval)
  (now due_at : instant) (locked : uuid -> bool) (router : @MessageRouter App).
Context (Hresp : router_respects router) (Hkeep : router_keeps_cache router).

(** The cache after a convergence is the apply of the row to the cache before. *)
Lemma converge_cache row (tx tx' : @Tx App) o :
  converge_and_dispatch lost (tbl_schema tbr) (tbl_desc tbr) now due_at router row tx = (Ok o, tx') ->
  exists applied, upsert_cache_from_received alone now (tbl_schema tbr) (tbl_desc tbr) (row_db row)
                    (db_cache (tx_db tx)) = (Ok applied, db_cache (tx_db tx')).
Proof.
  intros Hc. destruct (processed_path _ _ _ _ _ _ _ _ _ _ Hc)
    as (flow & db1 & applied & c & db2 & Hbefore & Hu & Hafter & Hm).
  destruct Hkeep as [Hh Hb]. apply passes_cache in Hbefore as E1; [|by eauto]. rewrite E1 in Hu.
  exists applied. rewrite Hu. f_equal.
  assert (E2 : db_cache db2 = c).
  { destruct (_ && _) in Hafter; [|by subst]. apply passes_cache in Hafter as ->; [done|by eauto]. }
  rewrite <- E2. unfold on_received in Hm. destruct (mark_received_processed _ _ _).
  by injection Hm as _ <-.
Qed.

Abbreviation after_cycle p :=
  (cy_db (dispatch_once lost commit_lands id display (tbl_schema tbr) (tbl_desc tbr) policy wait now
            due_at locked router (p_db p))).

(** A cycle processes one stored row together with its apply, or records at most
    a failure of an open row. *)
Inductive cycle_effect p : Prop :=
| cycle_processed row applied :
    row ∈ db_received (p_db p) ->
    db_received (after_cycle p)
    = sql_update (has_id (rrow_id row)) (processed_row due_at) (db_received (p_db p)) ->
    upsert_cache_from_received alone now (tbl_schema tbr) (tbl_desc tbr) row (db_cache (p_db p))
    = (Ok applied, db_cache (after_cycle p)) ->
    cycle_effect p
| cycle_idle (q : RRow -> bool) f :
    (forall r, rmsg (f r) = rmsg r /\ r_status (f r) <> Processed) ->
    db_received (after_cycle p) = sql_update q f (db_received (p_db p)) ->
    db_cache (after_cycle p) = db_cache (p_db p) ->
    cycle_effect p.

Lemma dispatch_effects p : received_inv (db_received (p_db p)) -> cycle_effect p.
Proof.
  intros Hinv.
  destruct (dispatch_ending lost commit_lands id display (tbl_schema tbr) (tbl_desc tbr) policy wait
    now due_at locked router (p_db p) Hinv Hresp) as [row tx' Hcl Hc Hdb Hrec _|Hdb _|row d e base _ _ Hbase Ho _].
  - destruct (converge_cache _ _ _ _ Hc) as (applied & Hu).
    destruct (claimed_open _ _ _ _ Hinv Hcl) as [Hin _]. rewrite <- Hdb in Hu.
    by eapply cycle_processed.
  - apply (cycle_idle p (fun _ => false) (redriven_row false)); rewrite ?Hdb; [done| |done].
    symmetry. by apply update_id.
  - assert (base = p_db p) as -> by (by destruct Hbase). destruct Ho as (Hc & _ & [Hr|Hr]).
    + apply (cycle_idle p (fun _ => false) (redriven_row false)); [done| |done].
      rewrite Hr. symmetry. by apply update_id.
    + eapply cycle_idle; [|exact Hr|done]. intros r. split; [done|].
      unfold recorded_row. cbn [r_status failed_row]. by destruct (exhausted _).
Qed.

Lemma dispatch_consumer p q :
  upstream_of p -> consumer_inv p -> consumer_inv (set_db p (after_cycle p) q).
Proof.
  intros Hup Hci. pose proof Hci as [Ht Hr Hc Hd].
  destruct (dispatch_effects p Ht) as [row applied Hin Hrec Hu|qr f Hf Hrec Hcache].
  - destruct (apply_effect p now row applied _ Hup Hci (Hr row Hin) Hu) as (e & i & om & He & Heff).
    assert (Hadv : forall e' cur, db_cache (p_db p) !! e' = Some cur ->
      exists cur', db_cache (after_cycle p) !! e' = Some cur' /\ applied_offset cur <= applied_offset cur').
    { intros e' cur Hcur. assert (Hsame : exists cur', db_cache (p_db p) !! e' = Some cur'
        /\ applied_offset cur <= applied_offset cur') by (exists cur; split; [done|lia]).
      destruct Heff as [(cur' & -> & _ & _ & Hlt)|[-> _]]; [|done].
      destruct (decide (e = e')) as [->|]; [|by rewrite lookup_insert_ne].
      rewrite lookup_insert_eq. eexists. split; [done|]. specialize (Hlt cur Hcur). lia. }
    split; simpl; rewrite ?Hrec.
    + by apply update_inv.
    + intros r' (r & Hr' & ->)%elem_of_update. specialize (Hr r Hr'). by destruct (has_id _ r).
    + intros e' cur. destruct Heff as [(cur' & -> & Hsh & _)|[-> _]]; [|apply Hc].
      intros [[<- <-]|[_ ?]]%lookup_insert_Some; [by exists i, om|by apply Hc].
    + intros r' e' (r & Hr' & ->)%elem_of_update Hs He'.
      destruct (has_id (rrow_id row) r) eqn:Eid.
      * apply has_id_true in Eid.
        rewrite (NoDup_key_inj rrow_id _ r row (ri_ids _ Ht) Hr' Hin Eid) in *. simpl in *.
        rewrite He in He'. injection He' as <-.
        destruct Heff as [(cur' & -> & _ & Eo & _)|[-> (cur & Hcur & ?)]]; [|by eauto].
        exists cur'. rewrite lookup_insert_eq. split; [done|lia].
      * destruct (Hd r e' Hr' Hs He') as (cur & Hcur & Hle).
        destruct (Hadv e' cur Hcur) as (cur' & ? & ?). exists cur'. split; [done|lia].
  - by eapply consumer_updates.
Qed.
End dispatch_step.

(** ** The invariant of the pipeline *)

Record pipe_inv p : Prop := { inv_upstream : upstream_of p; inv_consumer : consumer_inv p }.

Lemma redrive_update locked r (db : @Db App) :
  exists q f, (forall x, rmsg (f x) = rmsg x /\ r_status (f x) <> Processed)
    /\ db_received (snd (on_received (redrive_received locked (tbl_schema tbr) r) db))
       = sql_update q f (db_received db)
    /\ db_cache (snd (on_received (redrive_received locked (tbl_schema tbr) r) db)) = db_cache db.
Proof.
  unfold on_received, redrive_received, mbind, eff_bind, lift, stmt.
  assert (Hid : exists q f, (forall x, rmsg (f x) = rmsg x /\ r_status (f x) <> Processed)
    /\ db_received db = sql_update q f (db_received db) /\ db_cache db = db_cache db).
  { exists (fun _ => false), (redriven_row false). split_and!; [done| |done].
    symmetry. by apply update_id. }
  destruct (table_new ReceivedKind _ _); simpl; [|done].
  destruct (max_rows_or_error r); simpl; [|done].
  eexists _, (redriven_row (clear_history r)). split_and!; done.
Qed.

Lemma pstep_inv p p' : pipe_inv p -> step_of p p' -> pipe_inv p'.
Proof.
  intros [Hup Hci] Hstep. split; [by eapply pstep_upstream|].
  pose proof (pstep_grows p p' Hstep) as Hg.
  destruct Hstep as [now visible evt trace Hkey|now limit|now locked worker lease limit cid Hnow Hcid
    |r cid o trace record offset answered Hr Hcl Hpg Hrec Hoff|now om cid Hack|now mid cid error after
    |now locked cfg|rest Hrest|later Hlater|K client k limit skips x m Hm
    |lost lands policy wait now due locked router Hr Hc|locked r]; try (by eapply consumer_grows).
  - eapply consumer_grows; [done| |done]. unfold after_enqueue. by destruct (enqueue_inner _ _ _ _ _ _).
  - destruct (ingest_received p client k limit skips x m Hup Hci Hm). by apply ingest_consumer.
  - by apply dispatch_consumer.
  - destruct (redrive_update locked r (p_db p)) as (q & f & Hf & Hrec & Hcache).
    by eapply consumer_updates.
Qed.

Lemma start_inv app : pipe_inv (start app).
Proof.
  split; [by apply start_upstream|]. split; simpl; try (by intros; set_solver).
  split; [constructor..|]. by intros r ?%elem_of_nil.
Qed.

Lemma run_inv p p' : pipe_inv p -> rtc step_of p p' -> pipe_inv p'.
Proof. intros Hp Hrun. induction Hrun; eauto using pstep_inv. Qed.

(** ** Refinement *)

Definition stamp om : string * json := (default "" (entity_col om), payload om).

(** The [n]th accepted message was sent late. *)
Definition late_at p (n : nat) : Prop :=
  exists x, x ∈ sends (p_world p) /\ late x = true /\ p_accepted p !! n = Some (msg (s_row x)).

(** What a reader of the two services sees of the specification: the writes are
    the accepted enqueues, those announced late are the ones sent late, and an
    entity's cache row is the write in its view. *)
Definition observes p (s : Spec) : Prop :=
  history s = map stamp (p_accepted p)
  /\ (forall n, n ∈ belated s <-> late_at p n)
  /\ forall e, (fun cur => (e, c_payload cur)) <$> db_cache (p_db p) !! e
               = view s !! e ≫= fun n => history s !! n.

(** The simulation relation: the view of an entity is the accepted message whose
    publish its cache row shows. *)
Record simulates p (s : Spec) : Prop := {
  sim_history : history s = map stamp (p_accepted p);
  sim_late : forall n, n ∈ belated s <-> late_at p n;
  sim_none : forall e, db_cache (p_db p) !! e = None -> view s !! e = None;
  sim_some : forall e cur, db_cache (p_db p) !! e = Some cur ->
    exists i om n, shown p e i om cur /\ p_accepted p !! n = Some om /\ view s !! e = Some n;
}.

Lemma simulates_observes p s : simulates p s -> observes p s.
Proof.
  intros [Hh Hb Hn Hs]. split_and!; [done..|]. intros e. destruct (db_cache (p_db p) !! e) as [cur|] eqn:E; simpl.
  - destruct (Hs e cur E) as (i & om & n & (m & _ & He & _ & _ & _ & Hp) & Hom & ->). simpl.
    rewrite Hh. change (map stamp (p_accepted p)) with (stamp <$> p_accepted p).
    rewrite list_lookup_fmap, Hom. simpl. unfold stamp. by rewrite He, Hp.
  - by rewrite (Hn e E).
Qed.

(** Accepted messages stand in the order of their ordinals. *)
Lemma accepted_order p n n' om om' :
  producer_inv p -> p_accepted p !! n = Some om -> p_accepted p !! n' = Some om' ->
  enqueue_order om <= enqueue_order om' -> (n <= n')%nat.
Proof.
  intros Hp Hn Hn' Hle. destruct (le_lt_dec n n') as [|Hlt]; [done|].
  assert (Hmap : forall k x, p_accepted p !! k = Some x ->
    map enqueue_order (p_accepted p) !! k = Some (enqueue_order x)).
  { intros k x Hk. change (map enqueue_order (p_accepted p)) with (enqueue_order <$> p_accepted p).
    by rewrite list_lookup_fmap, Hk. }
  pose proof (sorted_lookup Z.lt _ _ _ _ _ (pi_sorted _ Hp) (Hmap _ _ Hn') (Hmap _ _ Hn) Hlt). lia.
Qed.

Lemma accepted_index p n n' om :
  producer_inv p -> p_accepted p !! n = Some om -> p_accepted p !! n' = Some om -> n = n'.
Proof.
  intros Hp Hn Hn'. apply Nat.le_antisymm; by eapply (accepted_order p); eauto; lia.
Qed.

(** Steps that leave the cache alone: the histories grow. *)
Lemma grows_simulates p p' s s' fresh :
  grows p p' -> db_cache (p_db p') = db_cache (p_db p) -> p_accepted p' = p_accepted p ++ fresh ->
  history s' = history s ++ map stamp fresh -> view s' = view s ->
  (forall n, n ∈ belated s' <-> late_at p' n) ->
  simulates p s -> simulates p' s'.
Proof.
  intros Hg Ec Ea Eh Ev Eb [Hh Hb Hn Hs]. split.
  - by rewrite Ea, Eh, Hh, map_app.
  - done.
  - intros e. rewrite Ec, Ev. auto.
  - intros e cur. rewrite Ec, Ev. intros Hcur. destruct (Hs e cur Hcur) as (i & om & n & Hsh & Hom & Hv).
    exists i, om, n. split_and!; [by eapply shown_grows|by rewrite Ea; apply lookup_app_l_Some|done].
Qed.

Lemma stutters p p' s :
  grows p p' -> db_cache (p_db p') = db_cache (p_db p) -> p_accepted p' = p_accepted p ->
  sends (p_world p') = sends (p_world p) ->
  simulates p s -> exists s', rtc sstep s s' /\ simulates p' s'.
Proof.
  intros Hg Ec Ea Es Hs. exists s. split; [done|].
  apply (grows_simulates p p' s s []); simpl; rewrite ?app_nil_r; try done.
  intros n. unfold late_at. rewrite Ea, Es. apply (sim_late _ _ Hs).
Qed.

Lemma enqueue_simulates p s now visible (evt : Envelope P) trace :
  let p' := after_enqueue pcfg p now visible evt trace in
  producer_inv p -> producer_inv p' ->
  grows p p' -> simulates p s -> exists s', rtc sstep s s' /\ simulates p' s'.
Proof.
  simpl. intros Hp Hp' Hg Hs. revert Hg Hp'. unfold after_enqueue.
  destruct (enqueue_inner _ _ _ _ _ _) as [res ob]. intros Hg Hp'.
  destruct res as [u|e]; [destruct (last (rows ob)) as [row|]|]; simpl in *.
  - exists {| history := history s ++ [stamp row]; view := view s; belated := belated s |}. split.
    + apply rtc_once. apply s_write.
    + eapply (grows_simulates p _ s _ [msg row]); try done.
      intros n. simpl. rewrite (sim_late _ _ Hs). split; intros (x & Hx & Hlate & Hn).
      * exists x. split_and!; [done..|]. simpl. by apply lookup_app_l_Some.
      * exists x. split_and!; [done..|].
        assert (Hacc : msg (s_row x) ∈ p_accepted p).
        { apply (pi_sent _ Hp). apply list_elem_of_fmap. eauto. }
        apply list_elem_of_lookup_1 in Hacc as (n0 & Hn0).
        enough (n = n0) as -> by done. eapply (accepted_index _ _ _ _ Hp'); [exact Hn|].
        simpl. by apply lookup_app_l_Some.
  - apply (stutters p); [done|done|apply app_nil_r|done|done].
  - apply (stutters p); [done|done|apply app_nil_r|done|done].
Qed.

(** A send that is late is announced late. *)
Lemma publish_simulates p s r cid record offset answered :
  let p' := after_publish partitioner p r cid record offset answered in
  producer_inv p -> r ∈ held (p_world p) -> grows p p' -> simulates p s ->
  exists s', rtc sstep s s' /\ simulates p' s'.
Proof.
  simpl. intros Hp Hr Hg Hs. destruct (pi_held _ Hp r Hr) as (Hacc & _).
  apply list_elem_of_lookup_1 in Hacc as (n0 & Hn0).
  set (x := {| s_row := r; s_at := clock (p_world p) |}).
  assert (Hlate : forall n, late_at (after_publish partitioner p r cid record offset answered) n
    <-> late_at p n \/ (late x = true /\ n = n0)).
  { intros n. split.
    - intros (y & [Hy| ->]%elem_of_snoc & Hl & Hn); [left; by exists y|right]. split; [done|].
      by eapply (accepted_index _ _ _ _ Hp).
    - intros [(y & Hy & Hl & Hn)|[Hl ->]]; [exists y|exists x]; (split; [apply elem_of_snoc; auto|done]). }
  destruct (late x) eqn:El.
  - exists {| history := history s; view := view s; belated := n0 :: belated s |}. split.
    + apply rtc_once. apply (s_late s n0 (stamp (msg r))). rewrite (sim_history _ _ Hs).
      change (map stamp (p_accepted p)) with (stamp <$> p_accepted p).
      by rewrite list_lookup_fmap, Hn0.
    + apply (grows_simulates p _ s _ []); simpl; rewrite ?app_nil_r; try done.
      intros n. rewrite elem_of_cons, Hlate, (sim_late _ _ Hs). naive_solver.
  - exists s. split; [done|]. apply (grows_simulates p _ s _ []); simpl; rewrite ?app_nil_r; try done.
    intros n. rewrite Hlate, (sim_late _ _ Hs). naive_solver.
Qed.

(** An apply advances the view of its entity. *)
Lemma dispatch_simulates p s db' q e i om cur' :
  pipe_inv p -> simulates p s ->
  db_cache db' = <[e := cur']> (db_cache (p_db p)) -> shown p e i om cur' ->
  (forall cur, db_cache (p_db p) !! e = Some cur -> applied_offset cur < applied_offset cur') ->
  exists s', rtc sstep s s' /\ simulates (set_db p db' q) s'.
Proof.
  intros [Hup Hci] [Hh Hb Hn Hs] Ec Hsh Hlt. pose proof (up_producer _ _ _ Hup) as Hp.
  pose proof Hsh as (m & Hsent & He & _ & _ & Hoff & Hpay).
  assert (Hin : om ∈ p_accepted p).
  { apply (pi_sent _ Hp). destruct Hsent as [Hl _]. by eapply list_elem_of_lookup_2. }
  apply list_elem_of_lookup_1 in Hin as (n & Hom).
  exists {| history := history s; view := <[e := n]> (view s); belated := belated s |}. split.
  - apply rtc_once. apply (s_advance s e n (payload om)).
    + rewrite Hh. change (map stamp (p_accepted p)) with (stamp <$> p_accepted p).
      rewrite list_lookup_fmap, Hom. simpl. unfold stamp. by rewrite He.
    + destruct (db_cache (p_db p) !! e) as [cur|] eqn:E; [|left; intros k Hk; by rewrite (Hn e E) in Hk].
      destruct (Hs e cur E) as (j & omj & nj & (mj & Hsj & Hej & _ & _ & Hoj & _) & Homj & Hv).
      specialize (Hlt cur eq_refl).
      destruct (later_publish p j i omj om mj m e Hup Hsj Hsent Hej He) as [_ Hord].
      destruct (Hord ltac:(lia)) as [Hle|(x & Hx & Hlate)]; [left|right].
      * intros k Hk. rewrite Hv in Hk. injection Hk as <-.
        by apply (accepted_order p nj n omj om Hp Homj Hom).
      * apply Hb. exists x. split_and!; [by eapply list_elem_of_lookup_2|done|].
        destruct (sent_row _ _ _ _ Hsent) as (x' & Hx' & ->). by simplify_eq.
  - split; simpl; [done|done|..].
    + intros e'. rewrite Ec. intros [? ?]%lookup_insert_None. by rewrite lookup_insert_ne, Hn.
    + intros e' cur. rewrite Ec. intros [[<- <-]|[Hne Hcur]]%lookup_insert_Some.
      * exists i, om, n. rewrite lookup_insert_eq. done.
      * rewrite lookup_insert_ne by done. by apply Hs.
Qed.

Lemma pstep_simulates p p' s :
  pipe_inv p -> simulates p s -> step_of p p' -> exists s', rtc sstep s s' /\ simulates p' s'.
Proof.
  intros Hinv Hsim Hstep. pose proof (pstep_grows p p' Hstep) as Hg. pose proof Hinv as [Hup Hci].
  pose proof (pstep_upstream _ _ _ _ _ _ _ _ _ Hup Hstep) as Hup'.
  destruct Hstep as [now visible evt trace Hkey|now limit|now locked worker lease limit cid Hnow Hcid
    |r cid o trace record offset answered Hr Hcl Hpg Hrec Hoff|now om cid Hack|now mid cid error after
    |now locked cfg|rest Hrest|later Hlater|K client k limit skips x m Hm
    |lost lands policy wait now due locked router Hr Hc|locked r]; try (by apply (stutters p)).
  - apply enqueue_simulates; [by apply Hup| |done..]. apply (up_producer _ _ _ Hup').
  - apply (stutters p); [done..| |done]. simpl. unfold world_claim. by destruct (claim_statement _ _ _ _ _ _ _).
  - apply publish_simulates; [by apply Hup|done..].
  - destruct (dispatch_effects lost lands policy wait now due locked router Hr Hc p (ci_table _ Hci))
      as [row applied Hin Hrec Hu|qr f Hf Hrec Hcache]; [|by apply (stutters p)].
    destruct (apply_effect p now row applied _ Hup Hci (ci_rows _ Hci row Hin) Hu)
      as (e & i & om & _ & [(cur' & Ec & Hsh & _ & Hlt)|[Ec _]]); [|by apply (stutters p)].
    by eapply dispatch_simulates.
  - destruct (redrive_update locked r (p_db p)) as (q & f & _ & _ & Hcache). by apply (stutters p).
Qed.

Lemma run_simulates p s l :
  pipe_inv p -> simulates p s -> runs step_of p l ->
  exists ls, runs (rtc sstep) s ls /\ Forall2 observes l ls.
Proof.
  intros Hinv Hsim Hrun. revert s Hinv Hsim.
  induction Hrun as [p|p p' l Hstep Hrun IH]; intros s Hinv Hsim.
  { exists []. split; constructor. }
  destruct (pstep_simulates p p' s Hinv Hsim Hstep) as (s' & Hs' & Hsim').
  destruct (IH s' (pstep_inv p p' Hinv Hstep) Hsim') as (ls & Hls & Hobs).
  exists (s' :: ls). split; [by econstructor|]. constructor; [by apply simulates_observes|done].
Qed.

Lemma start_simulates app : simulates (start app) spec_start.
Proof.
  split; simpl; [done| |done|].
  - intros n. split; [by intros ?%elem_of_nil|]. by intros (x & ?%elem_of_nil & _).
  - intros e cur E. by rewrite lookup_empty in E.
Qed.

(** C1. The pipeline refines its specification. Take any run of one message
    type: enqueues, claims, publishes whose answer may be lost or that come after
    their lease has run out, retries, crashes, purges, redelivered and reordered
    ingests, dispatches that fail anywhere, redrives, in any order, where a
    dispatch cycle is one step and handlers leave the received table and the
    cache alone. The states it goes through are observations of a run of the
    specification: the accepted enqueues are an append-only history of writes,
    and the cache row of every entity is a write of that entity, which moves to
    an earlier one only when that one was sent after its lease had run out. *)
Theorem pipeline_refines (app : App) (l : list (Pipe App)) (Hrun : runs step_of (start app) l) :
  exists ls, runs (rtc sstep) spec_start ls /\ Forall2 observes l ls.
Proof. by eapply run_simulates; [apply start_inv|apply start_simulates|]. Qed.

(** ** Convergence *)

(** The last state of an entity that is no longer in the outbox was published. *)
Lemma youngest_sent p e om :
  pipe_inv p -> (forall r, r ∈ rows (table (p_world p)) -> live r = true -> entity_col r <> Some e) ->
  om ∈ p_accepted p -> entity_col om = Some e ->
  (forall om', om' ∈ p_accepted p -> entity_col om' = Some e -> enqueue_order om' <= enqueue_order om) ->
  om ∈ log (p_world p).
Proof.
  intros [[_ Hk _] _] Hidle Hom He Hmax. destruct (Hk om Hom) as [?|[(om' & Hin & E & Hlt)|(r & Hr & <- & Hl)]].
  - done.
  - rewrite He in E. specialize (Hmax om' Hin E). lia.
  - by destruct (Hidle r Hr Hl).
Qed.

(** C2. Once an entity is quiet, the consumer shows its last state. In any
    reachable state of the pipeline (dispatch cycles one at a time, handlers that
    leave the received table and the cache alone), if the accepted messages have
    distinct identities, no outbox row of the entity is waiting or in flight, no
    state of it older than the last was sent after its lease had run out, every
    record published for it has been ingested and its received rows are
    processed, then the cache row of the entity has the payload of the last
    enqueue that was accepted for it, although the broker may hold other states
    and repeats of it. *)
Theorem pipeline_converges (app : App) (p : Pipe App) (e : string) (om : OutboxMsg)
  (Hrun : rtc step_of (start app) p)
  (Hkeys : NoDup (map idempotency_key (p_accepted p)))
  (Hidle : forall r : DbRow, r ∈ rows (table (p_world p)) -> live r = true -> entity_col r <> Some e)
  (Htimely : forall x, x ∈ sends (p_world p) -> entity_col (s_row x) = Some e -> late x = true ->
     msg (s_row x) = om)
  (Hread : forall sent, sent ∈ log (p_world p) -> entity_col sent = Some e ->
     exists r, r ∈ db_received (p_db p) /\ Some (rrow_key r) = idempotency_key sent)
  (Hdone : forall r : RRow, r ∈ db_received (p_db p) -> r_entity_key r = Some e -> r_status r = Processed)
  (Hom : om ∈ p_accepted p) (He : entity_col om = Some e)
  (Hlast : forall om', om' ∈ p_accepted p -> entity_col om' = Some e ->
     enqueue_order om' <= enqueue_order om) :
  exists cur, db_cache (p_db p) !! e = Some cur /\ c_payload cur = payload om.
Proof.
  pose proof (run_inv _ _ (start_inv app) Hrun) as Hinv. pose proof Hinv as [Hup Hci].
  pose proof (up_producer _ _ _ Hup) as Hp.
  destruct (Hread om (youngest_sent p e om Hinv Hidle Hom He Hlast) He) as (r & Hr & Hkey).
  destruct (ci_rows _ Hci r Hr) as (j & omj & mj & Hsj & _ & _ & Hoff & _ & Hent & Hk).
  assert (Hacc : forall i omi m, sent_at p i omi m -> omi ∈ p_accepted p).
  { intros i omi m [Hl _]. apply (pi_sent _ Hp). by eapply list_elem_of_lookup_2. }
  assert (omj = om) as ->.
  { apply (NoDup_key_inj idempotency_key (p_accepted p)); [done|by eapply Hacc|done|].
    by rewrite <- Hk, <- Hkey. }
  rewrite He in Hent. destruct (ci_done _ Hci r e Hr (Hdone r Hr Hent) Hent) as (cur & Hcur & Hle).
  exists cur. split; [done|].
  destruct (ci_cache _ Hci e cur Hcur) as (k & omk & mk & Hsk & Hek & _ & _ & Hok & ->).
  f_equal. apply (NoDup_key_inj enqueue_order (p_accepted p));
    [by eapply StronglySorted_Zlt_NoDup, (pi_sorted _ Hp)|by eapply Hacc|done|].
  destruct (later_publish p j k om omk mj mk e Hup Hsj Hsk He Hek) as [_ Hord].
  specialize (Hlast omk (Hacc _ _ _ Hsk) Hek). destruct (Hord ltac:(lia)) as [?|(x & Hx & Hlate)]; [lia|].
  destruct (sent_row _ _ _ _ Hsk) as (x' & Hx' & ->). simplify_eq.
  by rewrite (Htimely x (list_elem_of_lookup_2 _ _ _ Hx) Hek Hlate).
Qed.
End consumer.

(** ** The model evaluated *)

#[local] Existing Instance WSample.formats.
#[local] Existing Instance WSample.format_laws.

Module ESample.
(** A payload is an entity and its state, and both are in the JSON form. *)
Definition stock : Type := string * string.
#[global] Instance stock_message : KafkaMessage stock := {|
  MESSAGE_TYPE := "order_placed"; TOPIC_NAME := "orders";
  partition_key := fun _ => Returned None;
  entity_key := fun v => Returned v.1;
  to_value := fun v => Returned (Ok (WSample.text_of v));
|}.

Definition from_slice (bytes : string) : unwinding (result string stock) :=
  match WSample.parse_of (A := string) bytes ≫= WSample.parse_of (A := stock) with
  | Some v => Returned (Ok v)
  | None => Returned (Err "expected value")
  end.

#[global] Instance stock_contract :
  @MessageContract stock WSample.formats stock_message from_slice.
Proof.
  split; [|done]. intros v j [= <-]. unfold from_slice. cbn [json_to_string WSample.formats].
  rewrite WSample.parse_text. simpl. by rewrite WSample.parse_text.
Qed.

Definition received_table : Table :=
  {| tbl_schema := "app"; tbl_name := "received_order_placed"; tbl_desc := RSample.descriptor |}.
Lemma table_ok : for_message ReceivedKind stock Sample.cfg = Ok received_table.
Proof. vm_compute. reflexivity. Qed.
Definition show : Error -> string := fun _ => "error".
Definition rd_show : RdError -> string := fun _ => "error".
Definition one_partition : option string -> Z := fun _ => 0.

Abbreviation step :=
  (@pstep WSample.formats stock stock_message unit from_slice show rd_show Sample.cfg Sample.cfg
     received_table one_partition).

Definition event (mid : uuid) (b : Z) (v : string) : Envelope stock :=
  {| env_message_id := mid; env_idempotency_key := Some {| idem_key := repeat b 32; idem_source := None |};
     env_correlation_id := 7%N; env_causation_id := None; env_headers := ∅;
     env_payload := ("o1", v); env_occurred_at := 0 |}.

(** The client acknowledges everything; the database holds. *)
Definition client : Client unit :=
  {| recv := fun k => (Err "nothing", k); commit_message := fun _ k => (Ok tt, k); restart := id |}.
Definition calm (now : instant) : Circumstances :=
  {| fault := fun _ => None; lands := fun _ => true; now_at := now; fresh_ids := (1%N, 2%N);
     span_trace := None |}.

Definition enqueue (mid : uuid) (b : Z) (v : string) (p : Pipe unit) : Pipe unit :=
  after_enqueue Sample.cfg p 1 Sample.all (event mid b v) None.
Definition tick (later : instant) (p : Pipe unit) : Pipe unit :=
  set_world p {| table := table (p_world p); clock := later; held := held (p_world p);
                 sends := sends (p_world p) |}.
Definition claim (now : instant) (cid : uuid) (p : Pipe unit) : Pipe unit :=
  after_claim p now Sample.none "relay" 30 10 cid.
(** Publish the [i]th row that is held. *)
Definition publish (i : nat) (cid : uuid) (offset : Z) (answered : bool) (p : Pipe unit) : Pipe unit :=
  match held (p_world p) !! i with
  | Some r =>
      match row_from_pg r with
      | Ok o =>
          match outgoing_record {| claimed_row := o; claimed_id := cid |} None with
          | Ok rec => after_publish one_partition p r cid rec offset answered
          | Err _ => p
          end
      | Err _ => p
      end
  | None => p
  end.
Definition mark (mid cid : uuid) (p : Pipe unit) : Pipe unit :=
  set_world p (world_marked mid cid (snd (mark_published 3 mid cid (table (p_world p)))) (p_world p)).
Definition fail (now : instant) (mid cid : uuid) (p : Pipe unit) : Pipe unit :=
  set_world p (world_marked mid cid
    (snd (mark_publish_failed now mid cid "refused" 5 (table (p_world p)))) (p_world p)).
(** Read the [i]th record of the topic. *)
Definition read (i : nat) (p : Pipe unit) : Pipe unit :=
  match p_topic p !! i with
  | Some m =>
      set_store p (ig_store (snd (ingest_decoded client from_slice show rd_show Sample.cfg 10
        (calm 9) m "dev.orders"
        {| ig_store := store_of p; ig_client := tt; consecutive_skips := 0 |})))
  | None => p
  end.
Definition caching : @MessageRouter unit :=
  {| handlers := {["order_placed" := fun _ _ db =>
        ({| polled := Returned (Ok tt); dropped := Returned tt |}, db, Active)]};
     before_handlers := ∅ |}.
Definition work (p : Pipe unit) : Pipe unit :=
  set_db p (cy_db (dispatch_once (fun _ => false) true id show "app" RSample.descriptor retry_default
                     (fun _ => 5) 20 20 RSample.unlocked caching (p_db p))) (p_quarantine p).

(** Two states of one order. The answer of the second one's publish is lost, so
    it is published twice; the consumer reads the records in the wrong order. *)
Definition trail : list (Pipe unit -> Pipe unit) :=
  [tick 2; enqueue 10 1 "placed"; claim 2 1; publish 0 1 0 true; enqueue 11 2 "paid"; mark 10 1;
   claim 2 2; publish 0 2 1 false; publish 0 2 2 true; mark 11 2; read 2; read 0; work; work].
Fixpoint follow (fs : list (Pipe unit -> Pipe unit)) (p : Pipe unit) : list (Pipe unit) :=
  match fs with [] => [] | f :: fs => f p :: follow fs (f p) end.
Definition states : list (Pipe unit) := follow trail (start tt).
Definition final : Pipe unit := List.last states (start tt).

Definition order_view (p : Pipe unit) : option stock :=
  db_cache (p_db p) !! "o1" ≫= fun cur => WSample.parse_of (A := stock) (c_payload cur).

Example views : map order_view states
  = repeat None 12 ++ [Some ("o1", "paid"); Some ("o1", "paid")].
Proof. vm_compute. reflexivity. Qed.

(** Each operation is a step where it can be made. *)
Definition can_publish (i : nat) (cid : uuid) (offset : Z) (p : Pipe unit) : bool :=
  match (held (p_world p) !! i : option DbRow) with
  | Some r => bool_decide (claim_id r = Some cid)
              && match row_from_pg r with
                 | Ok o => is_ok (outgoing_record {| claimed_row := o; claimed_id := cid |} None)
                 | Err _ => false
                 end
              && forallb (fun m => k_offset m <? offset) (p_topic p)
  | None => false
  end.

Lemma enqueue_step mid b v p :
  bool_decide (0 <= b < 256) = true -> step p (enqueue mid b v p).
Proof.
  intros Hb%bool_decide_eq_true. apply p_enqueue. intros idem [= <-]. split; [done|].
  repeat (constructor; [lia|]). constructor.
Qed.

Lemma claim_step now cid p :
  bool_decide (now <= clock (p_world p) /\ cid ∉ p_cids p) = true -> step p (claim now cid p).
Proof. intros [Hn Hc]%bool_decide_eq_true. by apply p_claim. Qed.

Lemma advance_step later p : bool_decide (clock (p_world p) <= later) = true -> step p (tick later p).
Proof. intros Hl%bool_decide_eq_true. by apply p_tick. Qed.

Lemma fail_step now mid cid p : step p (fail now mid cid p).
Proof. apply p_publish_failed. Qed.

Lemma publish_step i cid offset answered p :
  can_publish i cid offset p = true -> step p (publish i cid offset answered p).
Proof.
  unfold can_publish, publish. destruct (held _ !! i) as [r|] eqn:Er; [|done].
  rewrite !andb_true_iff. intros ((Hc%bool_decide_eq_true & Ho) & Hoff). destruct (row_from_pg r) as [o|] eqn:Eo; [|done].
  destruct (outgoing_record _ None) as [rec|] eqn:Erec; [|done].
  eapply p_publish; [by eapply list_elem_of_lookup_2|done|done|done|].
  intros m Hm _. rewrite forallb_forall in Hoff. apply Z.ltb_lt, Hoff. by apply list_elem_of_In.
Qed.

Lemma mark_step mid cid p :
  existsb (fun a => bool_decide (message_id a.1 = mid) && bool_decide (a.2 = cid)) (p_acked p) = true ->
  step p (mark mid cid p).
Proof.
  intros ([om c] & Hin & Hb)%existsb_exists. apply andb_true_iff in Hb as [Hm Hc].
  apply bool_decide_eq_true in Hm, Hc. simpl in *. subst mid c.
  apply p_published. by apply list_elem_of_In.
Qed.

Lemma read_step i p : bool_decide (i < length (p_topic p))%nat = true -> step p (read i p).
Proof.
  intros [m Em]%bool_decide_eq_true%lookup_lt_is_Some. unfold read. rewrite Em.
  apply (p_ingest from_slice show rd_show Sample.cfg Sample.cfg received_table one_partition p client tt).
  by eapply list_elem_of_lookup_2.
Qed.

Lemma work_step p : step p (work p).
Proof.
  apply (p_dispatch from_slice show rd_show Sample.cfg Sample.cfg received_table one_partition p).
  - split; intros mt h; simpl; [intros [_ <-]%lookup_singleton_Some; done|by rewrite lookup_empty].
  - split; intros mt h; simpl; [intros [_ <-]%lookup_singleton_Some; done|by rewrite lookup_empty].
Qed.

Lemma states_run : runs step (start tt) states.
Proof.
  unfold states, trail. cbn [follow].
  apply runs_cons; [by apply advance_step|].
  apply runs_cons; [by apply enqueue_step|]. apply runs_cons; [apply claim_step; by vm_compute|].
  apply runs_cons; [apply publish_step; by vm_compute|]. apply runs_cons; [by apply enqueue_step|].
  apply runs_cons; [apply mark_step; by vm_compute|]. apply runs_cons; [apply claim_step; by vm_compute|].
  do 2 (apply runs_cons; [apply publish_step; by vm_compute|]).
  apply runs_cons; [apply mark_step; by vm_compute|].
  do 2 (apply runs_cons; [apply read_step; by vm_compute|]).
  do 2 (apply runs_cons; [apply work_step|]). apply runs_nil.
Qed.

(** A relay stalls past its lease; another one takes the row over, is refused by
    the broker, and publishes the next state of the order. When the first wakes
    up and sends its copy, the consumer goes back. *)
Definition late_trail : list (Pipe unit -> Pipe unit) :=
  [tick 2; enqueue 10 1 "placed"; claim 2 1; tick 40; claim 40 2; fail 40 10 2; enqueue 11 2 "paid";
   claim 40 3; publish 1 3 0 true; mark 11 3; read 0; work; publish 0 1 1 true; read 1; work].
Definition late_states : list (Pipe unit) := follow late_trail (start tt).

Lemma late_states_run : runs step (start tt) late_states.
Proof.
  unfold late_states, late_trail. cbn [follow].
  apply runs_cons; [by apply advance_step|]. apply runs_cons; [by apply enqueue_step|].
  apply runs_cons; [apply claim_step; by vm_compute|]. apply runs_cons; [apply advance_step; by vm_compute|].
  apply runs_cons; [apply claim_step; by vm_compute|]. apply runs_cons; [apply fail_step|].
  apply runs_cons; [by apply enqueue_step|]. apply runs_cons; [apply claim_step; by vm_compute|].
  apply runs_cons; [apply publish_step; by vm_compute|]. apply runs_cons; [apply mark_step; by vm_compute|].
  apply runs_cons; [apply read_step; by vm_compute|]. apply runs_cons; [apply work_step|].
  apply runs_cons; [apply publish_step; by vm_compute|]. apply runs_cons; [apply read_step; by vm_compute|].
  apply runs_cons; [apply work_step|]. apply runs_nil.
Qed.

Example late_view : runs step (start tt) late_states
  /\ map order_view late_states
     = repeat None 11 ++ repeat (Some ("o1", "paid")) 3 ++ [Some ("o1", "placed")].
Proof. split; [exact late_states_run|]. vm_compute. reflexivity. Qed.
End ESample.

Lemma pipeline_refines_witness :
  (exists ls, runs (rtc sstep) spec_start ls /\ Forall2 observes ESample.states ls)
  /\ map ESample.order_view ESample.states
     = repeat None 12 ++ [Some ("o1", "paid"); Some ("o1", "paid")].
Proof.
  split; [|exact ESample.views].
  apply (pipeline_refines ESample.from_slice ESample.show ESample.rd_show Sample.cfg Sample.cfg
           ESample.received_table ESample.table_ok ESample.one_partition tt ESample.states).
  exact ESample.states_run.
Defined.

Lemma pipeline_converges_witness :
  exists om cur, List.last (map payload (p_accepted ESample.final)) "" = payload om
  /\ db_cache (p_db ESample.final) !! "o1" = Some cur /\ c_payload cur = payload om
  /\ map entity_col (log (p_world ESample.final)) = [Some "o1"; Some "o1"; Some "o1"].
Proof.
  destruct (p_accepted ESample.final !! 1%nat) as [om|] eqn:Eom; [|by vm_compute in Eom].
  destruct (pipeline_converges ESample.from_slice ESample.show ESample.rd_show Sample.cfg Sample.cfg
              ESample.received_table ESample.table_ok ESample.one_partition tt ESample.final "o1" om)
    as (cur & Hcur & Hpay).
  - apply runs_rtc, ESample.states_run.
  - apply (bool_decide_unpack _). vm_compute. done.
  - refine (proj1 (Forall_forall _ _) _). apply (bool_decide_unpack _). vm_compute. done.
  - intros x Hx _ Hl. exfalso.
    assert (Hb : forallb (fun x => negb (late x)) (sends (p_world ESample.final)) = true)
      by (vm_compute; reflexivity).
    rewrite forallb_forall in Hb. apply list_elem_of_In in Hx. exact (eq_true_false_abs _ Hl (proj1 (negb_true_iff _) (Hb x Hx))).
  - intros sent Hs%list_elem_of_In _.
    assert (Hb : forallb (fun m => existsb (fun r => bool_decide (Some (rrow_key r) = idempotency_key m))
      (db_received (p_db ESample.final))) (log (p_world ESample.final)) = true) by (vm_compute; reflexivity).
    rewrite forallb_forall in Hb. specialize (Hb sent Hs).
    apply existsb_exists in Hb as (r & Hr%list_elem_of_In & E%bool_decide_eq_true).
    exact (ex_intro _ r (conj Hr E)).
  - refine (proj1 (Forall_forall _ _) _). apply (bool_decide_unpack _). vm_compute. done.
  - exact (list_elem_of_lookup_2 _ _ _ Eom).
  - vm_compute in Eom. by injection Eom as <-.
  - refine (proj1 (Forall_forall _ _) _). vm_compute in Eom. injection Eom as <-.
    apply (bool_decide_unpack _). vm_compute. done.
  - exists om, cur. split_and!; [|done|done|vm_compute; reflexivity].
    vm_compute in Eom. injection Eom as <-. vm_compute. reflexivity.
Defined.
