(* ===== verification/Observers.v ===== *)
(** * Observers: the seams a test can interrupt

    Models the [internal-hooks] feature: [src/crates/kafkaman-sqlx/src/hooks.rs]
    with the calls of [dispatch.rs] and [dispatch_failure.rs], and
    [src/crates/kafkaman-rdkafka/src/hooks.rs] with the call of [consumer.rs]. An
    observer is told what is about to happen and answers whether to go on; what
    the production code does without the feature is in [Dispatch] and [Ingest],
    and the theorems here say that the seams change nothing else. *)

From S2P Require Import Prelude Text Vocabulary Trace Identity Topics Registry Retry.
From S2P Require Import Outbox OutboxOrder Lifecycle Relay Received Cache Dispatch Wire Ingest.
Open Scope string_scope.
Open Scope list_scope.
Open Scope Z_scope.

(** ** The slots of a dispatch *)

Inductive DispatchHookSlot := BeforeFailureRollback | BeforeRecordFailure.
#[global] Instance DispatchHookSlot_eq_dec : EqDecision DispatchHookSlot.
Proof. solve_decision. Defined.

Record DispatchFailureEvent := {
  ev_message_id : uuid;
  ev_idempotency_key : IdempotencyKey;
  ev_message_type : string;
  ev_kind : ReceivedFailureKind;
  ev_message : string;
}.

Definition DispatchHook : Type := DispatchFailureEvent -> result Error unit.

Record DispatchHooks := {
  before_failure_rollback : option DispatchHook;
  before_record_failure : option DispatchHook;
}.

(** [DispatchHooks::new] and the two setters. *)
Definition hooks_new : DispatchHooks :=
  {| before_failure_rollback := None; before_record_failure := None |}.
Definition set_before_record_failure (hook : DispatchHook) (h : DispatchHooks) : DispatchHooks :=
  {| before_failure_rollback := before_failure_rollback h; before_record_failure := Some hook |}.
Definition set_before_failure_rollback (hook : DispatchHook) (h : DispatchHooks) : DispatchHooks :=
  {| before_failure_rollback := Some hook; before_record_failure := before_record_failure h |}.

Definition slot_hook (h : DispatchHooks) (slot : DispatchHookSlot) : option DispatchHook :=
  match slot with
  | BeforeFailureRollback => before_failure_rollback h
  | BeforeRecordFailure => before_record_failure h
  end.

(** What the observers saw, in order. *)
Abbreviation Sightings := (list (DispatchHookSlot * DispatchFailureEvent)) (only parsing).

(** [DispatchHooks::run]. *)
Definition hooks_run (h : DispatchHooks) (slot : DispatchHookSlot) (ev : DispatchFailureEvent)
  : eff Error Sightings unit := fun seen =>
  match slot_hook h slot with
  | Some hook => (hook ev, seen ++ [(slot, ev)])
  | None => (Ok tt, seen)
  end.

(** [run_dispatch_hook]. *)
Definition run_dispatch_hook (hooks : option DispatchHooks) (slot : DispatchHookSlot)
  (row : ReceivedRow) (kind : ReceivedFailureKind) (message : string) : eff Error Sightings unit :=
  match hooks with
  | Some h =>
      hooks_run h slot
        {| ev_message_id := r_message_id (row_db row); ev_idempotency_key := row_key row;
           ev_message_type := r_message_type (row_db row); ev_kind := kind; ev_message := message |}
  | None => mret tt
  end.

(** The loop over the slots of a failing path. *)
Fixpoint run_slots (hooks : option DispatchHooks) (slots : list DispatchHookSlot) (row : ReceivedRow)
  (kind : ReceivedFailureKind) (message : string) : eff Error Sightings unit :=
  match slots with
  | [] => mret tt
  | slot :: slots =>
      _ ← run_dispatch_hook hooks slot row kind message;
      run_slots hooks slots row kind message
  end.

Section observed.
Context {App : Type}.
Context (lost : Stmt -> bool) (commit_lands : bool) (meanwhile : @Db App -> @Db App).
Context (display : Error -> string).
Context (schema_ : SqlIdentifier) (desc : MessageDescriptor) (policy : RetryPolicy)
  (wait : Z -> interval) (now due_at : instant) (locked : uuid -> bool) (router : @MessageRouter App).
Context (hooks : option DispatchHooks).

(** What a watched cycle leaves: the cycle, and what the observers saw. *)
Definition guarded (slots : list DispatchHookSlot) (row : ReceivedRow) (f : ReceivedFailureRecord)
  (before : @Db App) (rest : Cycle) : @Cycle App * Sightings :=
  match run_slots hooks slots row (fd_kind (fr_disposition f)) (fr_message f) [] with
  | (Err e, seen) => (fails e before, seen)
  | (Ok _, seen) => (rest, seen)
  end.

(** [record_failure_in_claim_tx] and [unwind_and_record]; an observer's error
    drops the transaction. *)
Definition record_failure_in_claim_tx (before : @Db App) (row : ReceivedRow)
  (f : ReceivedFailureRecord) (tx : Tx) : Cycle * Sightings :=
  guarded [BeforeRecordFailure] row f before
    (record_and_commit lost commit_lands policy wait before f ClaimTransaction tx).

Definition unwind_and_record_observed (before : @Db App) (row : ReceivedRow)
  (f : ReceivedFailureRecord) (tx : Tx) : Cycle * Sightings :=
  guarded [BeforeFailureRollback; BeforeRecordFailure] row f before
    (unwind_and_record lost commit_lands meanwhile policy wait before f tx).

(** [dispatch_claimed_row] with the hooks handed down. *)
Definition dispatch_claimed_row_observed (before : @Db App) (row : ReceivedRow) (tx : Tx)
  : Cycle * Sightings :=
  let failure d e := failure_record_of (row_db row) d (display e) due_at in
  if negb (routes router (r_message_type (row_db row))) then
    let e := EMissingHandler (r_message_type (row_db row)) in
    record_failure_in_claim_tx before row (failure (failure_disposition e SRouting) e) tx
  else match create_savepoint lost tx with
  | (Err e, _) => (fails e before, [])
  | (Ok _, tx) =>
      match converge_and_dispatch lost schema_ desc now due_at router row tx with
      | (Ok o, tx) =>
          (match commit lost commit_lands before tx with
           | (Err e, db) => fails e db
           | (Ok _, db) =>
               ends {| ds_claimed := 1; ds_processed := if bool_decide (o = Updated) then 1 else 0;
                       ds_failed := 0; ds_panicked := 0; ds_panicked_message_id := None |} db None
           end, [])
      | (Err f, tx) =>
          let '(c, seen) :=
            unwind_and_record_observed before row (failure (disposition f) (failure_error f)) tx in
          (match cy_result c with
           | Ok s => ends (with_panic f (r_message_id (row_db row)) s) (cy_db c) (cy_path c)
           | Err _ => c
           end, seen)
      end
  end.

(** [dispatch_once_with_observer], and [dispatch_once_inner] under the feature. *)
Definition dispatch_once_with_observer (before : @Db App) : Cycle * Sightings :=
  if lost SBegin || lost SClaim then (fails conn_lost before, [])
  else match claim_received_row locked due_at (db_received before) with
  | Err e => (fails e before, [])
  | Ok None => (if lost SCommit then fails conn_lost before else ends stats_default before None, [])
  | Ok (Some row) =>
      dispatch_claimed_row_observed before row
        {| tx_db := before; tx_savepoint := None; tx_status := Active |}
  end.

(** ** What observers can do *)

(** What a sighting was answered. *)
Definition answered (s : DispatchHookSlot * DispatchFailureEvent) : option (result Error unit) :=
  (fun hook => hook s.2) <$> (hooks ≫= fun h => slot_hook h s.1).

(** Every observer agreed and the cycle is the one of production; or the last
    observer called refused with [e], the cycle answers [e] and nothing of it
    is kept. Either way each was told of one event. *)
Inductive watched (ev : DispatchFailureEvent) (before : @Db App) (production : @Cycle App)
  : @Cycle App -> Sightings -> Prop :=
| watched_through seen :
    (forall s, s ∈ seen -> s.2 = ev /\ answered s = Some (Ok tt)) ->
    watched ev before production production seen
| watched_stopped seen slot e :
    (forall s, s ∈ seen -> s.2 = ev /\ answered s = Some (Ok tt)) ->
    answered (slot, ev) = Some (Err e) ->
    watched ev before production (fails e before) (seen ++ [(slot, ev)]).

(** The event of a failure: the row, the class and the text that are recorded. *)
Definition event_of (row : ReceivedRow) (kind : ReceivedFailureKind) (message : string)
  : DispatchFailureEvent :=
  {| ev_message_id := r_message_id (row_db row); ev_idempotency_key := row_key row;
     ev_message_type := r_message_type (row_db row); ev_kind := kind; ev_message := message |}.

Lemma run_slots_cases slots row kind message seen0 :
  let ev := event_of row kind message in
  (forall s, s ∈ seen0 -> s.2 = ev /\ answered s = Some (Ok tt)) ->
  let '(r, seen) := run_slots hooks slots row kind message seen0 in
  (r = Ok tt /\ forall s, s ∈ seen -> s.2 = ev /\ answered s = Some (Ok tt))
  \/ (exists e slot seen', r = Err e /\ seen = seen' ++ [(slot, ev)]
        /\ answered (slot, ev) = Some (Err e)
        /\ forall s, s ∈ seen' -> s.2 = ev /\ answered s = Some (Ok tt)).
Proof.
  intros ev. revert seen0. induction slots as [|slot slots IH]; intros seen0 H0; simpl; [by left|].
  unfold mbind, eff_bind. fold ev.
  assert (Hrun : run_dispatch_hook hooks slot row kind message seen0
    = match answered (slot, ev) with Some r => (r, seen0 ++ [(slot, ev)]) | None => (Ok tt, seen0) end).
  { unfold run_dispatch_hook, answered, hooks_run. destruct hooks as [h|]; [|done]. simpl.
    by destruct (slot_hook h slot). }
  rewrite Hrun. destruct (answered (slot, ev)) as [[[]|e]|] eqn:Ea; [| |by apply IH].
  - apply IH. intros s [?| ->]%elem_of_snoc; auto.
  - right. by exists e, slot, seen0.
Qed.

Lemma guarded_watched slots row f before rest (production : @Cycle App -> @Cycle App) :
  (forall e, production (fails e before) = fails e before) ->
  watched (event_of row (fd_kind (fr_disposition f)) (fr_message f)) before (production rest)
    (production (guarded slots row f before rest).1) (guarded slots row f before rest).2.
Proof.
  intros Hp. unfold guarded.
  pose proof (run_slots_cases slots row (fd_kind (fr_disposition f)) (fr_message f) []
    ltac:(by intros s ?%elem_of_nil)) as Hc.
  destruct (run_slots _ _ _ _ _ _) as [r seen].
  destruct Hc as [[-> Hok]|(e & slot & seen' & -> & -> & Hs & Hok)]; simpl.
  - by apply watched_through.
  - rewrite Hp. by apply watched_stopped.
Qed.

Lemma no_sightings ev before c : watched ev before c c [].
Proof. apply watched_through. by intros s ?%elem_of_nil. Qed.

(** The panic accounting after a failure path. *)
Definition settled (f : DispatchFailure) (row : ReceivedRow) (c : @Cycle App) : @Cycle App :=
  match cy_result c with
  | Ok s => ends (with_panic f (r_message_id (row_db row)) s) (cy_db c) (cy_path c)
  | Err _ => c
  end.

Lemma claimed_row_watched before row tx :
  exists kind message,
    watched (event_of row kind message) before
      (dispatch_claimed_row lost commit_lands meanwhile display schema_ desc policy wait now due_at
         router before row tx)
      (dispatch_claimed_row_observed before row tx).1 (dispatch_claimed_row_observed before row tx).2.
Proof.
  unfold dispatch_claimed_row_observed, dispatch_claimed_row.
  destruct (negb (routes router _)).
  { eexists _, _. by apply (guarded_watched _ _ _ _ _ id). }
  destruct (create_savepoint lost _) as [[[]|e] tx1]; [|exists KHandler, ""; apply no_sightings].
  destruct (converge_and_dispatch _ _ _ _ _ _ _ _) as [[o|f] tx']; [exists KHandler, ""; apply no_sightings|].
  set (fl := failure_record_of _ _ _ _). exists (fd_kind (fr_disposition fl)), (fr_message fl).
  pose proof (guarded_watched [BeforeFailureRollback; BeforeRecordFailure] row fl before
    (unwind_and_record lost commit_lands meanwhile policy wait before fl tx') (settled f row)
    ltac:(done)) as Hg.
  unfold unwind_and_record_observed. by destruct (guarded _ _ _ _ _) as [c seen].
Qed.

(** The observers of a dispatch only watch or stop it. Whatever they answer,
    the cycle is exactly the production cycle, or the observer called last
    refused and the database is as it was before the claim, so the row is due
    again for the next cycle. What they are told of is the claimed row. *)
Theorem observers_watch_or_stop (before : @Db App) :
  let production := dispatch_once lost commit_lands meanwhile display schema_ desc policy wait now due_at
                      locked router before in
  let '(c, seen) := dispatch_once_with_observer before in
  (c = production /\ seen = [])
  \/ exists row kind message, claim_received_row locked due_at (db_received before) = Ok (Some row)
      /\ watched (event_of row kind message) before production c seen.
Proof.
  simpl. unfold dispatch_once_with_observer, dispatch_once.
  destruct (lost SBegin || lost SClaim); [by left|].
  destruct (claim_received_row locked due_at (db_received before)) as [[row|]|e]; [|by left..].
  destruct (claimed_row_watched before row {| tx_db := before; tx_savepoint := None; tx_status := Active |})
    as (kind & message & Hw).
  destruct (dispatch_claimed_row_observed _ _ _) as [c seen]. right. by exists row, kind, message.
Qed.
End observed.

(** ** The window before the acknowledgement *)

Record IngestCommitEvent := {
  ic_partition : Z;
  ic_offset : Z;
  ic_outcome : ReceivedInsertOutcome;
}.
#[global] Instance IngestCommitEvent_eq_dec : EqDecision IngestCommitEvent.
Proof. solve_decision. Defined.

Definition PostDurableWriteObserver : Type := IngestCommitEvent -> result RdError unit.

(** [run_post_durable_write_observer]. *)
Definition run_post_durable_write_observer {W} (observer : option PostDurableWriteObserver)
  (ev : IngestCommitEvent) : eff RdError W unit :=
  match observer with Some hook => lift (hook ev) | None => mret tt end.

Section ingest_observed.
Context `{Formats} {P : Type} `{KafkaMessage P} {K : Type} (client : Client K).
Context (from_slice : string -> unwinding (result string P)).
Context (display : Error -> string) (rd_display : RdError -> string).
Context (cfg : ResolvedConfig) (limit : nat) (x : Circumstances).
Context (observer : option PostDurableWriteObserver).

(** [store] under the feature: the observer is called when the row is durable
    and the record is not yet acknowledged. *)
Definition store_observed (m : Message) (d : DecodedRecord P) : eff RdError (Ingester K) IngestStats :=
  table ← lift (lift_sqlx (for_message ReceivedKind P cfg));
  _ ← begin_tx x SBeginStore;
  before ← gets ig_store;
  match insert_row cfg x m d before with
  | Err (EApplicationPanicked _ _ _ as e) =>
      quarantine (P := P) client cfg limit x m IInvalidPayload (display e)
  | Err e => raise (RdSqlx e)
  | Ok (outcome, after) =>
      let conflicted := bool_decide (outcome = MessageIdConflict) in
      after ← lift (if conflicted
                    then quarantine_row x SConflictRow
                           (ingest_failure_record (MESSAGE_TYPE P) m (desc_topic (tbl_desc table))
                              MessageIdConflictKind (conflict_text (dec_envelope d))) after
                    else Ok after);
      _ ← commit_tx x SCommitStore after;
      _ ← (if conflicted then count_skip limit m else reset_skips);
      _ ← run_post_durable_write_observer observer
            {| ic_partition := k_partition m; ic_offset := k_offset m; ic_outcome := outcome |};
      _ ← commit_record client m;
      mret (stats_of m (bool_decide (outcome = Inserted))
              (bool_decide (outcome = DuplicateIdempotencyKey)) conflicted)
  end.

Lemma observer_cases {W} ev (w : W) :
  run_post_durable_write_observer observer ev w = (Ok tt, w)
  \/ exists hook e, observer = Some hook /\ hook ev = Err e
       /\ run_post_durable_write_observer observer ev w = (Err e, w).
Proof.
  unfold run_post_durable_write_observer, lift. destruct observer as [hook|]; [|by left].
  destruct (hook ev) as [[]|e] eqn:E; [by left|right]. exists hook, e. by rewrite E.
Qed.

(** An observer of the ingest interrupts it where it says. Storing a record
    under an observer is storing it without one; or the observer refused with
    [e], the cycle answers [e], the record is durable and its offset has not
    been committed, so it will be delivered again and not lost. *)
Theorem ingest_observer_window (ids : uuid * uuid) (at_ : instant) (topic : string) (m : Message)
  (d : DecodedRecord P) (w : Ingester K)
  (Hd : record_envelope from_slice ids at_ m topic (record_headers_of m) = Ok d) :
  let '(r, w') := store_observed m d w in
  (r, w') = store client display cfg limit x m d w
  \/ exists hook o e, observer = Some hook
       /\ hook {| ic_partition := k_partition m; ic_offset := k_offset m; ic_outcome := o |} = Err e
       /\ r = Err e /\ durable (ig_store w') m /\ ig_client w' = ig_client w.
Proof.
  destruct (decoded_key from_slice _ _ _ _ _ Hd) as (idem & Hid & Hw).
  unfold store_observed, store. destruct (for_message ReceivedKind P cfg) as [tb|e]; [|by left].
  cbv [lift_sqlx mbind eff_bind lift gets begin_tx].
  destruct (fault x SBeginStore); [by left|].
  destruct (insert_row cfg x m d (ig_store w)) as [[o s]|e] eqn:Ei.
  2: { destruct e; try (by left). destruct (quarantine _ _ _ _ _ _ _ _); by left. }
  destruct (insert_row_effect cfg x _ _ _ _ _ _ Ei Hid Hw) as (_ & Hdur & _).
  set (after := if bool_decide (o = MessageIdConflict) then _ else _).
  destruct after as [s'|e] eqn:Es; [|by left].
  assert (Hs : durable s' m).
  { unfold after in Es. case_bool_decide; [by apply quarantine_row_effect in Es as (_ & ? & _)|].
    injection Es as <-. auto. }
  unfold commit_tx. destruct (fault x SCommitStore); [by left|]. clear after Es.
  set (counted := if bool_decide (o = MessageIdConflict) then _ else _).
  assert (Hc : exists r n, counted (with_store w s') = (r, with_skips (with_store w s') n)).
  { unfold counted. case_bool_decide; by eexists _, _. }
  destruct Hc as (r & n & ->). destruct r as [u|e]; [|by left].
  destruct (observer_cases {| ic_partition := k_partition m; ic_offset := k_offset m; ic_outcome := o |}
    (with_skips (with_store w s') n)) as [->|(hook & e & Hh & He & ->)].
  - destruct (commit_record client m _) as [[]]; by left.
  - right. by exists hook, o, e.
Qed.
End ingest_observed.

(** ** The model evaluated *)

Module OSample.
#[local] Existing Instance WSample.formats.

Definition crash : PostDurableWriteObserver := fun _ => Err (RdObserver "crash").

(** The first record of [ISample] under an observer that interrupts it, and the
    cycle of the restarted consumer. *)
Definition interrupted : result RdError IngestStats * Ingester ISample.Broker :=
  match record_envelope WSample.from_slice (10, 7)%N 1 ISample.first "dev.orders"
          (record_headers_of ISample.first) with
  | Ok d => store_observed ISample.client ISample.show Sample.cfg 10 (ISample.up (10, 7)%N) (Some crash)
              ISample.first d ISample.start
  | Err e => (Err e, ISample.start)
  end.
Definition again : result RdError IngestStats * Ingester ISample.Broker :=
  ISample.cycle 10 (ISample.up (11, 7)%N) interrupted.2.

Example crash_in_the_window :
  interrupted.1 = Err (RdObserver "crash")
  /\ length (st_received (ig_store interrupted.2)) = 1%nat
  /\ ISample.b_committed (ig_client interrupted.2) ISample.orders = 0
  /\ (is_duplicates <$> match again.1 with Ok s => Some s | Err _ => None end) = Some 1%nat
  /\ length (st_received (ig_store again.2)) = 1%nat
  /\ ISample.b_committed (ig_client again.2) ISample.orders = 1.
Proof. vm_compute. split_and!; reflexivity. Qed.
End OSample.
