(* ===== verification/Harness.v ===== *)
(** * Harness: the deployment the repository's tests run

    Models the crate kafkaman-test ([harness.rs], [publisher.rs], [lib.rs],
    [envelope_ext.rs] of [src/crates/kafkaman-test/src]), the query by idempotency
    key it uses ([kafkaman-sqlx/src/queries.rs]) and the conversions into an
    identity ([kafkaman-core/src/idempotency.rs]). A harness registers message
    types as they are used and migrates their tables; the theorem says that a
    test never meets a checksum mismatch, whatever it registers in which order,
    as long as there are at most five thousand types. *)

From S2P Require Import Prelude Text Decimal Vocabulary Trace Identity Topics Registry Outbox OutboxOrder.
From S2P Require Import Lifecycle Relay Retry Received Worker Wire Schema Changelog Config Migrations.
Open Scope string_scope.
Open Scope list_scope.
Open Scope Z_scope.

#[local] Arguments String.append !_ _ : simpl nomatch.

(** ** Identities *)

(** [IdempotencyIdentity::from_parts] and [from_key]. *)
Definition identity_from_parts (key : IdempotencyKey) (source : json) : IdempotencyIdentity :=
  {| idem_key := key; idem_source := Some source |}.
Definition identity_from_key (key : IdempotencyKey) : IdempotencyIdentity :=
  {| idem_key := key; idem_source := None |}.

(** [IntoIdempotencyIdentity]. *)
Class IntoIdempotencyIdentity (A : Type) := {
  into_idempotency_identity : A -> result CoreError IdempotencyIdentity;
}.
#[global] Instance identity_into : IntoIdempotencyIdentity IdempotencyIdentity :=
  {| into_idempotency_identity := Ok |}.

Section string_into.
(** SHA-256, the canonical JSON writer and the JSON form of a string. *)
Context (digest : string -> IdempotencyKey) (canonical_json : json -> string) (to_json : string -> json).

Definition string_into : IntoIdempotencyIdentity string :=
  {| into_idempotency_identity := derive_from_string digest canonical_json to_json |}.
End string_into.

(** [EnvelopeTestExt::with_idempotency_key], which panics on a bad source. *)
Definition with_idempotency_key {P A} `{IntoIdempotencyIdentity A} (evt : Envelope P) (key : A)
  : unwinding (Envelope P) :=
  match into_idempotency_identity key with
  | Ok identity =>
      Returned {| env_message_id := env_message_id evt; env_idempotency_key := Some identity;
                  env_correlation_id := env_correlation_id evt;
                  env_causation_id := env_causation_id evt; env_headers := env_headers evt;
                  env_payload := env_payload evt; env_occurred_at := env_occurred_at evt |}
  | Err _ => Panicked (PanicString "test idempotency source must be valid")
  end.

(** ** Queries *)

(** [received_row] and [received_row_by_idempotency_key]. *)
Definition received_row (mid : uuid) (t : Received) : result Error (option ReceivedRow) :=
  match List.find (has_id mid) t with
  | None => Ok None
  | Some r => o ← received_row_from_pg r; Ok (Some o)
  end.
Definition received_row_by_idempotency_key (key : IdempotencyKey) (t : Received)
  : result Error (option ReceivedRow) :=
  match List.find (has_key (to_hex key)) t with
  | None => Ok None
  | Some r => o ← received_row_from_pg r; Ok (Some o)
  end.

(** ** The capturing publisher *)

Record PublishedRecord := {
  pr_topic : string;
  pr_key : option string;
  pr_payload : json;
  pr_headers : gmap string string;
  pr_message_id : uuid;
}.

(** [CapturingPublisher]: what it was asked to publish, in order. *)
Definition CapturingPublisher : Type := list PublishedRecord.
Definition records_on (topic : string) (p : CapturingPublisher) : list PublishedRecord :=
  List.filter (fun r => bool_decide (pr_topic r = topic)) p.

Definition published_record (row : ClaimedOutboxRow) : PublishedRecord :=
  let r := orow_db (claimed_row row) in
  {| pr_topic := topic r; pr_key := record_key (claimed_row row); pr_payload := payload r;
     pr_headers := headers r; pr_message_id := message_id r |}.

(** [CapturingPublisher::publish]: the offset is the position in the list. *)
Definition capture (row : ClaimedOutboxRow) (p : CapturingPublisher) : PublishAck * CapturingPublisher :=
  ({| ack_topic := topic (orow_db (claimed_row row)); ack_partition := 0;
      ack_offset := Z.of_nat (length p) |}, p ++ [published_record row]).

(** [HarnessPublisher]. *)
Inductive HarnessPublisher := Capturing (p : CapturingPublisher) | Redpanda.

(** ** Errors *)

Inductive TestError :=
| TCore (e : CoreError)
| TSqlx (e : Error)
| TPool (e : SqlxError)
| TWorker (e : WorkerError)
| TRdkafka (e : RdError)
| MissingRow (message_id : uuid)
| MissingReceivedRow (key_source digest : string)
| UnexpectedStatus (message_id : uuid) (expected actual : OutboxStatus)
| NotCapturing.

Definition test_core {A} (r : result CoreError A) : result TestError A :=
  match r with Ok a => Ok a | Err e => Err (TCore e) end.
Definition test_sqlx {A} (r : result Error A) : result TestError A :=
  match r with Ok a => Ok a | Err e => Err (TSqlx e) end.

(** ** Changesets *)

Inductive Tables := TOutbox | TReceivedAndCache.

(** [Tables::changesets]. *)
Definition tables_changesets (t : Tables) (cfg : ResolvedConfig) : list LibraryChangeset :=
  let numbered := imap (fun idx d => (Z.of_nat idx, d)) (messages cfg) in
  InitSchema
    :: flat_map (fun '(idx, d) =>
         match t with
         | TOutbox => [CreateOutboxTable (idx + 2) d]
         | TReceivedAndCache =>
             let base := 10000 + idx * 2 in [CreateReceivedTable base d; CreateCacheTable (base + 1) d]
         end) numbered
    ++ match t with
       | TOutbox => map (fun '(idx, d) => AddOutboxEnqueueOrder (20000 + idx) d) numbered
       | TReceivedAndCache => []
       end.

(** ** The deployment *)

(** The database of a test: what migrations work on, and the rows of the tables
    by name. A table that has been created and not written is empty. *)
Record TestDb (Catalog : Type) := {
  td_meta : Migrations.Db Catalog;
  td_outbox : gmap string Outbox;
  td_received : gmap string Received;
}.
Arguments td_meta {Catalog} _.
Arguments td_outbox {Catalog} _.
Arguments td_received {Catalog} _.

Record Harness := {
  hn_cfg : Resolved;
  hn_report : list MigrationStepReport;
  hn_publisher : HarnessPublisher;
}.

(** What a call meets: the pool, the faults of the database and the clock, and
    the values the libraries draw. *)
Record Conditions := {
  pool_size : Z;
  weather : Weather;
  begin_error : option SqlxError;
  commit_error : option (SqlxError * bool);
  select_error : option SqlxError;
  mark_error : uuid -> option SqlxError;
  clock_now : instant;
  held : uuid -> bool;
  seen_rows : uuid -> bool;
  claim_uuid : uuid;
}.

Section harness.
Context `{Sha256} {Catalog : Type} (exec : string -> Catalog -> result SqlxError Catalog).
(** What the broker of a Redpanda harness answers, the text of a JSON value and
    the worker id [RelayConfig::default] draws. *)
Context (redpanda : ClaimedOutboxRow -> result string PublishAck) (show_json : json -> string)
  (worker : string).

Abbreviation deployment := (Harness * TestDb Catalog)%type.
Abbreviation test A := (eff TestError deployment A).

Definition on_deployment {A} (f : Harness -> TestDb Catalog -> result TestError A * deployment) : test A :=
  fun w => f w.1 w.2.

Definition with_meta (db : TestDb Catalog) (meta : Migrations.Db Catalog) : TestDb Catalog :=
  {| td_meta := meta; td_outbox := td_outbox db; td_received := td_received db |}.
Definition with_cfg (h : Harness) (base' : ResolvedConfig) : Harness :=
  {| hn_cfg := {| base := base'; rc_relay := rc_relay (hn_cfg h); rc_dispatcher := rc_dispatcher (hn_cfg h);
                  rc_retry := rc_retry (hn_cfg h); rc_observability := rc_observability (hn_cfg h);
                  rc_topics := rc_topics (hn_cfg h) |};
     hn_report := hn_report h; hn_publisher := hn_publisher h |}.
Definition with_report (h : Harness) (report : list MigrationStepReport) : Harness :=
  {| hn_cfg := hn_cfg h; hn_report := report; hn_publisher := hn_publisher h |}.
Definition with_publisher (h : Harness) (p : HarnessPublisher) : Harness :=
  {| hn_cfg := hn_cfg h; hn_report := hn_report h; hn_publisher := p |}.

(** [Harness::start]: the pool and the baseline. *)
Definition harness_start (connected : option SqlxError) (c : Conditions) (cfg : Resolved)
  (publisher : HarnessPublisher) (db : TestDb Catalog) : result TestError Harness * TestDb Catalog :=
  match connected with
  | Some e => (Err (TPool e), db)
  | None =>
      match migrate exec (pool_size c) (base cfg) (weather c) context_new
              (map lib_changeset [InitSchema]) (td_meta db) with
      | (Err e, meta) => (Err (TSqlx e), with_meta db meta)
      | (Ok report, meta) =>
          (Ok {| hn_cfg := cfg; hn_report := report; hn_publisher := publisher |}, with_meta db meta)
      end
  end.

(** [Harness::connect], [simple] being the fresh uuid without hyphens. *)
Definition harness_connect (simple : string) (connected : option SqlxError) (c : Conditions)
  (db : TestDb Catalog) : result TestError Harness * TestDb Catalog :=
  match identifier_new ("kafkaman_test_" +:+ simple) with
  | Err e => (Err (TCore e), db)
  | Ok s => harness_start connected c (resolved_new worker s) (Capturing []) db
  end.

(** [Harness::connect_with_config]. *)
Definition connect_with_config `{Decoders} `{Texts} (env : option string) (config : Config)
  (connected : option SqlxError) (c : Conditions) (db : TestDb Catalog)
  : result TestError Harness * TestDb Catalog :=
  match from_config worker (Some config) [] env with
  | Err e => (Err (TSqlx e), db)
  | Ok cfg => harness_start connected c cfg (Capturing []) db
  end.

(** [Harness::connect_redpanda]; [client] is what creating the producer answers. *)
Definition connect_redpanda (simple : string) (client : result RdError unit)
  (connected : option SqlxError) (c : Conditions) (db : TestDb Catalog)
  : result TestError Harness * TestDb Catalog :=
  match identifier_new ("kafkaman_test_" +:+ simple) with
  | Err e => (Err (TCore e), db)
  | Ok s =>
      match client with
      | Err e => (Err (TRdkafka e), db)
      | Ok _ => harness_start connected c (resolved_new worker s) Redpanda db
      end
  end.

(** [Harness::try_publisher], [publisher] and [published_on]. *)
Definition try_publisher (h : Harness) : result TestError CapturingPublisher :=
  match hn_publisher h with Capturing p => Ok p | Redpanda => Err NotCapturing end.
Definition harness_publisher (h : Harness) : unwinding CapturingPublisher :=
  match try_publisher h with
  | Ok p => Returned p
  | Err _ => Panicked (PanicString "publisher() is only available for the capturing harness")
  end.
Definition published_on (topic : string) (h : Harness) : unwinding (list PublishedRecord) :=
  match harness_publisher h with Returned p => Returned (records_on topic p) | Panicked q => Panicked q end.

(** [Harness::ensure_message]: registration, then migration. The registered
    type stays registered when the migration fails. *)
Definition ensure_message (P : Type) `{KafkaMessage P} (t : Tables) (c : Conditions) : test ResolvedConfig :=
  d ← lift (test_core (descriptor_of P));
  on_deployment (fun h db =>
    match try_with_message (base (hn_cfg h)) d with
    | Err e => (Err (TSqlx e), (h, db))
    | Ok next =>
        let h := with_cfg h next in
        match migrate exec (pool_size c) next (weather c) context_new
                (map lib_changeset (tables_changesets t next)) (td_meta db) with
        | (Err e, meta) => (Err (TSqlx e), (h, with_meta db meta))
        | (Ok report, meta) => (Ok next, (with_report h report, with_meta db meta))
        end
    end).

(** ** The producing side *)

Definition outbox_of (tb : Table) (db : TestDb Catalog) : Outbox :=
  default empty_outbox (td_outbox db !! tbl_name tb).
Definition set_outbox (tb : Table) (ob : Outbox) (db : TestDb Catalog) : TestDb Catalog :=
  {| td_meta := td_meta db; td_outbox := <[tbl_name tb := ob]> (td_outbox db);
     td_received := td_received db |}.

(** [Harness::outbox_table]. *)
Definition harness_outbox_table (P : Type) `{KafkaMessage P} (c : Conditions) : test Table :=
  cfg ← ensure_message P TOutbox c;
  lift (test_sqlx (for_message OutboxKind P cfg)).

(** [Harness::enqueue]: an error drops the transaction, the refusal's audit row
    included, and the sequence keeps its gap. *)
Definition harness_enqueue {P} `{KafkaMessage P} (c : Conditions) (evt : Envelope P)
  (trace : option TraceContext) : test unit :=
  cfg ← ensure_message P TOutbox c;
  on_deployment (fun h db =>
    match begin_error c, for_message OutboxKind P cfg with
    | Some e, _ => (Err (TPool e), (h, db))
    | None, Err e => (Err (TSqlx e), (h, db))
    | None, Ok tb =>
        let before := outbox_of tb db in
        match enqueue_inner cfg (clock_now c) (seen_rows c) evt trace before with
        | (Err e, ob) => (Err (TSqlx e), (h, set_outbox tb (rollback before ob) db))
        | (Ok _, ob) =>
            match commit_error c with
            | Some (e, landed) =>
                (Err (TPool e), (h, set_outbox tb (if landed then ob else rollback before ob) db))
            | None => (Ok tt, (h, set_outbox tb ob db))
            end
        end
    end).

(** What the publisher answers a send. The relay uses the acknowledgement only
    to tell success from failure, so the position in it is that of the first
    send of a cycle. *)
Definition harness_publish (p : HarnessPublisher) (row : ClaimedOutboxRow) (ob : Outbox)
  : result string PublishAck * Outbox :=
  match p with
  | Capturing p => (Ok (fst (capture row p)), ob)
  | Redpanda => (redpanda row, ob)
  end.
(** What the publisher has captured after the sends of a cycle. *)
Definition after_sends (sent : list ClaimedOutboxRow) (p : HarnessPublisher) : HarnessPublisher :=
  match p with
  | Capturing p => Capturing (fold_left (fun p row => snd (capture row p)) sent p)
  | Redpanda => Redpanda
  end.

(** [Harness::relay_once]. *)
Definition harness_relay_once (P : Type) `{KafkaMessage P} (c : Conditions) : test RelayStats :=
  cfg ← ensure_message P TOutbox c;
  tb ← lift (test_sqlx (for_message OutboxKind P cfg));
  on_deployment (fun h db =>
    let '(res, cycle) :=
      relay_once_inner (harness_publish (hn_publisher h)) (mark_error c) (clock_now c)
        (rc_relay (hn_cfg h)) (held c) (claim_uuid c) None (outbox_of tb db) in
    let h := with_publisher h (after_sends (cy_sent cycle) (hn_publisher h)) in
    (match res with Ok stats => Ok stats | Err e => Err (TWorker (WSqlx e)) end,
     (h, set_outbox tb (cy_table cycle) db))).

(** [Harness::outbox_row] and [assert_status]. *)
Definition harness_outbox_row (P : Type) `{KafkaMessage P} (c : Conditions) (mid : uuid) : test OutboxRow :=
  cfg ← ensure_message P TOutbox c;
  tb ← lift (test_sqlx (for_message OutboxKind P cfg));
  row ← (fun w => (match select_error c with
                   | Some e => Err (TSqlx (ESqlx e))
                   | None => test_sqlx (outbox_row mid (outbox_of tb w.2))
                   end, w));
  lift (ok_or (MissingRow mid) row).

Definition assert_status (P : Type) `{KafkaMessage P} (c : Conditions) (mid : uuid)
  (expected : OutboxStatus) : test unit :=
  row ← harness_outbox_row P c mid;
  lift (if bool_decide (orow_status row = expected) then Ok tt
        else Err (UnexpectedStatus mid expected (orow_status row))).

(** ** The consuming side *)

Definition received_of (tb : Table) (db : TestDb Catalog) : Received :=
  default [] (td_received db !! tbl_name tb).
Definition set_received (tb : Table) (t : Received) (db : TestDb Catalog) : TestDb Catalog :=
  {| td_meta := td_meta db; td_outbox := td_outbox db;
     td_received := <[tbl_name tb := t]> (td_received db) |}.

(** [Harness::received_table]. *)
Definition harness_received_table (P : Type) `{KafkaMessage P} (c : Conditions) : test Table :=
  cfg ← ensure_message P TReceivedAndCache c;
  lift (test_sqlx (for_message ReceivedKind P cfg)).

(** [Harness::insert_received]. *)
Definition harness_insert_received {P} `{KafkaMessage P} (c : Conditions) (evt : Envelope P)
  (partition offset : Z) (key : option string) (trace : option TraceContext) : test bool :=
  cfg ← ensure_message P TReceivedAndCache c;
  on_deployment (fun h db =>
    match begin_error c, for_message ReceivedKind P cfg with
    | Some e, _ => (Err (TPool e), (h, db))
    | None, Err e => (Err (TSqlx e), (h, db))
    | None, Ok tb =>
        match insert_received cfg (clock_now c) evt partition offset key trace (received_of tb db) with
        | (Err e, _) => (Err (TSqlx e), (h, db))
        | (Ok inserted, t) =>
            match commit_error c with
            | Some (e, landed) => (Err (TPool e), (h, if landed then set_received tb t db else db))
            | None => (Ok inserted, (h, set_received tb t db))
            end
        end
    end).

(** [Harness::received_row_by_idempotency_key]. *)
Definition harness_received_row (P : Type) `{KafkaMessage P} {A} `{IntoIdempotencyIdentity A}
  (c : Conditions) (key : A) : test ReceivedRow :=
  cfg ← ensure_message P TReceivedAndCache c;
  tb ← lift (test_sqlx (for_message ReceivedKind P cfg));
  identity ← lift (test_core (into_idempotency_identity key));
  row ← (fun w => (match select_error c with
                   | Some e => Err (TSqlx (ESqlx e))
                   | None => test_sqlx (received_row_by_idempotency_key (idem_key identity)
                                          (received_of tb w.2))
                   end, w));
  lift (ok_or (MissingReceivedRow
                 (match idem_source identity with Some source => show_json source | None => "<none>" end)
                 (to_hex (idem_key identity))) row).
End harness.

(** ** The versions of the two sides *)

Lemma elem_of_changesets t cfg cs :
  cs ∈ tables_changesets t cfg <->
  cs = InitSchema \/ exists idx d, messages cfg !! idx = Some d /\
    match t with
    | TOutbox => cs = CreateOutboxTable (Z.of_nat idx + 2) d
                 \/ cs = AddOutboxEnqueueOrder (20000 + Z.of_nat idx) d
    | TReceivedAndCache => cs = CreateReceivedTable (10000 + Z.of_nat idx * 2) d
                           \/ cs = CreateCacheTable (10000 + Z.of_nat idx * 2 + 1) d
    end.
Proof.
  unfold tables_changesets. rewrite elem_of_cons. apply or_iff_compat_l.
  assert (Hn : forall x, x ∈ imap (fun idx d => (Z.of_nat idx, d)) (messages cfg)
    <-> exists idx, messages cfg !! idx = Some x.2 /\ x.1 = Z.of_nat idx).
  { intros [z d]. rewrite elem_of_lookup_imap. simpl. split.
    - intros (i & y & [= -> ->] & Hy). eauto.
    - intros (i & Hy & ->). eauto. }
  destruct t.
  - rewrite elem_of_app. setoid_rewrite list_elem_of_In. rewrite in_flat_map, in_map_iff.
    setoid_rewrite <- list_elem_of_In. setoid_rewrite Hn. split.
    + intros [([z d] & (idx & Hd & Hz) & Hin)|([z d] & <- & idx & Hd & Hz)]; simpl in *; subst z.
      * apply list_elem_of_singleton in Hin as ->. eauto.
      * eauto.
    + intros (idx & d & Hd & [->| ->]); [left|right]; exists (Z.of_nat idx, d); simpl.
      * split; [eauto|]. by apply list_elem_of_singleton.
      * split; [done|eauto].
  - rewrite app_nil_r. setoid_rewrite list_elem_of_In. rewrite in_flat_map.
    setoid_rewrite <- list_elem_of_In. setoid_rewrite Hn. split.
    + intros ([z d] & (idx & Hd & Hz) & Hin). simpl in *. subst z. exists idx, d. split; [done|].
      set_solver.
    + intros (idx & d & Hd & Hcs). exists (Z.of_nat idx, d). simpl. split; [eauto|]. set_solver.
Qed.

(** The number of types a harness has versions for. *)
Definition MAX_TYPES : nat := 5000.

(** One version names one changeset, on either side. *)
Lemma versions_distinct cfg t1 t2 cs1 cs2 :
  (length (messages cfg) <= MAX_TYPES)%nat ->
  cs1 ∈ tables_changesets t1 cfg -> cs2 ∈ tables_changesets t2 cfg ->
  lib_version cs1 = lib_version cs2 -> cs1 = cs2.
Proof.
  unfold MAX_TYPES. intros Hlen H1 H2 Hv.
  assert (Hidx : forall idx d, messages cfg !! idx = Some d -> (idx < 5000)%nat).
  { intros idx d Hd. apply lookup_lt_Some in Hd. lia. }
  apply elem_of_changesets in H1, H2.
  destruct H1 as [->|(i & d & Hd & H1)], H2 as [->|(j & d' & Hd' & H2)]; [done| | |];
    repeat match goal with
    | H : messages cfg !! ?k = Some ?e |- _ => let Hk := fresh in
        pose proof (Hidx k e H) as Hk; revert H
    end; intros;
    destruct t1, t2;
    repeat match goal with H : _ \/ _ |- _ => destruct H as [->| ->] end; simpl in Hv; try lia;
    assert (i = j) as -> by lia; simplify_eq; done.
Qed.

(** Registering a type leaves the versions of the others where they were. *)
Lemma changesets_grow t cfg d cs :
  cs ∈ tables_changesets t cfg -> cs ∈ tables_changesets t (push_message cfg d).
Proof.
  rewrite !elem_of_changesets. intros [?|(i & d' & Hd & Hcs)]; [by left|right].
  exists i, d'. split; [|done]. simpl. by apply lookup_app_l_Some.
Qed.

(** The versions of one side come in order. *)
Lemma seqZ_sorted (n : nat) : forall m, StronglySorted Z.lt (seqZ m (Z.of_nat n)).
Proof.
  induction n as [|n IH]; intros m; [constructor|].
  rewrite Nat2Z.inj_succ, seqZ_cons by lia. rewrite Z.pred_succ. constructor; [apply IH|].
  apply List.Forall_forall. intros x Hx%list_elem_of_In%elem_of_seqZ. lia.
Qed.

Lemma sorted_app_lt (l1 l2 : list Z) :
  StronglySorted Z.lt l1 -> StronglySorted Z.lt l2 -> (forall x y, x ∈ l1 -> y ∈ l2 -> x < y) ->
  StronglySorted Z.lt (l1 ++ l2).
Proof.
  intros Hs1 Hs2 Hlt. induction Hs1 as [|a l1 Hs1 IH Ha]; simpl; [done|]. constructor.
  - apply IH. intros x y Hx. apply Hlt. by right.
  - apply Forall_app. split; [done|]. apply Forall_forall. intros y Hy. apply Hlt; [left|done].
Qed.

Lemma numbered_seq {A} (l : list A) : forall k : nat,
  imap (fun idx d => (Z.of_nat (k + idx), d)) l = zip (seqZ (Z.of_nat k) (Z.of_nat (length l))) l.
Proof.
  induction l as [|a l IH]; intros k; [done|]. rewrite imap_cons. simpl length.
  rewrite Nat2Z.inj_succ, seqZ_cons, Z.pred_succ by lia. simpl. f_equal; [by rewrite Nat.add_0_r|].
  rewrite <- Nat2Z.inj_succ, <- IH. apply imap_ext. intros i x _. simpl. by rewrite Nat.add_succ_r.
Qed.

Lemma side_versions t cfg :
  let n := Z.of_nat (length (messages cfg)) in
  map lib_version (tables_changesets t cfg)
  = 1 :: match t with
         | TOutbox => seqZ 2 n ++ seqZ 20000 n
         | TReceivedAndCache => seqZ 10000 (2 * n)
         end.
Proof.
  cbv zeta. unfold tables_changesets. cbn [map lib_version]. f_equal. rewrite map_app.
  rewrite (imap_ext _ (fun idx d => (Z.of_nat (0 + idx), d)) (messages cfg)) by done.
  rewrite numbered_seq. generalize (messages cfg) as l. intros l.
  assert (Hout : forall m, map lib_version (flat_map (fun '(idx, d) => [CreateOutboxTable (idx + 2) d])
      (zip (seqZ m (Z.of_nat (length l))) l)) = seqZ (m + 2) (Z.of_nat (length l))
    /\ map lib_version (map (fun '(idx, d) => AddOutboxEnqueueOrder (20000 + idx) d)
      (zip (seqZ m (Z.of_nat (length l))) l)) = seqZ (20000 + m) (Z.of_nat (length l))
    /\ map lib_version (flat_map (fun '(idx, d) =>
        [CreateReceivedTable (10000 + idx * 2) d; CreateCacheTable (10000 + idx * 2 + 1) d])
      (zip (seqZ m (Z.of_nat (length l))) l)) = seqZ (10000 + m * 2) (2 * Z.of_nat (length l))).
  { induction l as [|a l IH]; intros m; [done|]. simpl length. rewrite Nat2Z.inj_succ.
    rewrite (seqZ_cons m), (seqZ_cons (m + 2)), (seqZ_cons (20000 + m)), Z.pred_succ by lia.
    destruct (IH (Z.succ m)) as (E1 & E2 & E3). cbn [zip_with map flat_map app lib_version].
    rewrite E1, E2, E3. split_and!.
    - f_equal. f_equal. lia.
    - f_equal. f_equal. lia.
    - rewrite (seqZ_cons (10000 + m * 2)), (seqZ_cons (Z.succ (10000 + m * 2))) by lia.
      f_equal. f_equal. f_equal; lia. }
  destruct (Hout 0) as (E1 & E2 & E3). destruct t.
  - exact (f_equal2 app E1 E2).
  - exact (eq_trans (app_nil_r _) E3).
Qed.

Lemma side_in_order t cfg :
  (length (messages cfg) <= MAX_TYPES)%nat -> StronglySorted Z.lt (map lib_version (tables_changesets t cfg)).
Proof.
  unfold MAX_TYPES. intros Hlen. rewrite side_versions. cbv zeta.
  assert (Hpos : forall l : list Z, StronglySorted Z.lt l -> (forall x, x ∈ l -> 1 < x) ->
    StronglySorted Z.lt (1 :: l)).
  { intros l Hs Hx. constructor; [done|]. by apply Forall_forall. }
  destruct t.
  - apply Hpos.
    + apply sorted_app_lt; [apply seqZ_sorted..|]. intros x y ?%elem_of_seqZ ?%elem_of_seqZ. lia.
    + intros x [?%elem_of_seqZ|?%elem_of_seqZ]%elem_of_app; lia.
  - replace (2 * Z.of_nat (length (messages cfg))) with (Z.of_nat (2 * length (messages cfg))) by lia.
    apply Hpos; [apply seqZ_sorted|]. intros x ?%elem_of_seqZ. lia.
Qed.

(** The capturing publisher keeps every send, in order. *)
Lemma captured_all sent p :
  fold_left (fun p row => snd (capture row p)) sent p = p ++ map published_record sent.
Proof.
  revert p. induction sent as [|row sent IH]; intros p; simpl; [by rewrite app_nil_r|].
  rewrite IH. simpl. by rewrite <- app_assoc.
Qed.

(** ** What a test can rely on *)

(** The ways a changelog itself can be refused. *)
Definition changelog_refused (e : Error) : bool :=
  match e with
  | EChecksumMismatch _ _ _ | EDuplicateChangesetVersion _ | EDisorderedChangesetVersion _ _ => true
  | _ => false
  end.

Section reliable.
Context `{Sha256} {Catalog : Type} (exec : string -> Catalog -> result SqlxError Catalog).
Implicit Types (db : Migrations.Db Catalog).

(** Every applied version is the changeset the registered types give it. *)
Definition consistent (cfg : ResolvedConfig) db : Prop :=
  forall h v row, history db = Some h -> h !! v = Some row ->
    exists t cs, cs ∈ tables_changesets t cfg /\ lib_version cs = v
                 /\ h_checksum row = cs_checksum (D := Migrations.Db Catalog) (lib_changeset cs).

Lemma consistent_grows cfg cfg' db :
  (forall t cs, cs ∈ tables_changesets t cfg -> cs ∈ tables_changesets t cfg') ->
  consistent cfg db -> consistent cfg' db.
Proof. intros Hg Hc h v row Hh Hr. destruct (Hc h v row Hh Hr) as (t & cs & ? & ?). eauto. Qed.

Lemma build_not_refused cs cfg e : lib_build cs cfg = Err e -> changelog_refused e = false.
Proof.
  destruct cs; simpl; [done|..]; unfold table_new;
    destruct (identifier_new _); simpl; intros E; by simplify_eq.
Qed.

Lemma apply_not_refused cfg w ctx cs checksum db e :
  apply_changeset exec cfg w ctx (lib_changeset cs) checksum db = Err e -> changelog_refused e = false.
Proof.
  unfold apply_changeset. simpl. destruct (lib_build cs cfg) as [st|e'] eqn:E; simpl.
  2: { intros [= <-]. by eapply build_not_refused. }
  destruct (exec_all exec st (catalog db)) as [c|e'] eqn:Ex; simpl.
  2: { intros [= <-]. clear -Ex. revert Ex. generalize (catalog db). induction st as [|q st IH]; intros c; simpl; [done|].
       destruct (exec q c); [apply IH|]. by intros [= <-]. }
  unfold insert_history. destruct (insert_fault _ _); [by intros [= <-]|].
  simpl. destruct (history db) as [h|]; [|by intros [= <-]].
  destruct (h !! _); [by intros [= <-]|done].
Qed.

(** A turn of the runner over a changeset of the harness. *)
Lemma run_changeset_consistent cfg w ctx t cs db r db' :
  (length (messages cfg) <= MAX_TYPES)%nat -> cs ∈ tables_changesets t cfg -> consistent cfg db ->
  run_changeset exec cfg w ctx (lib_changeset cs) db = (r, db') ->
  consistent cfg db' /\ (forall e, r = Err e -> changelog_refused e = false).
Proof.
  intros Hlen Hcs Hc. unfold run_changeset, context_skip, fault.
  replace (matches ctx (cs_contexts (lib_changeset cs))) with true by done. simpl.
  destruct (begin_fault w _); [intros [= <- <-]; split; [done|by intros e [= <-]]|].
  unfold history_row. destruct (read_fault w _); [intros [= <- <-]; split; [done|by intros e [= <-]]|].
  destruct (history db) as [h|] eqn:Eh; [|intros [= <- <-]; split; [done|by intros e [= <-]]].
  destruct (h !! lib_version cs) as [row|] eqn:Er.
  - destruct (Hc h _ row Eh Er) as (t' & cs' & Hcs' & Hv & Hsum).
    rewrite (versions_distinct cfg t' t cs' cs Hlen Hcs' Hcs Hv) in Hsum.
    rewrite bool_decide_eq_false_2 by tauto.
    destruct (commit_fault w _) as [[]|]; intros [= <- <-]; (split; [done|by intros e [= <-]]).
  - destruct (apply_changeset _ _ _ _ _ _ _) as [db1|e] eqn:Ea.
    2: { intros [= <- <-]. split; [done|]. intros e' [= <-]. by eapply apply_not_refused. }
    assert (Hc1 : consistent cfg db1).
    { unfold apply_changeset in Ea. apply bind_Ok in Ea as (st & _ & Ea).
      apply bind_Ok in Ea as (c & _ & Ea). unfold insert_history in Ea. simpl in Ea.
      rewrite Eh, Er in Ea. destruct (insert_fault _ _); [done|]. injection Ea as <-.
      intros h' v row Hh' Hrow. simpl in Hh'. injection Hh' as <-.
      apply lookup_insert_Some in Hrow as [[<- <-]|[_ Hrow]]; [by exists t, cs|by eapply Hc]. }
    destruct (commit_fault w _) as [[e lost]|]; intros [= <- <-];
      (split; [by destruct lost || done|by intros e' [= <-]]).
Qed.

Lemma run_changesets_consistent cfg w ctx t cl : forall db r db',
  (length (messages cfg) <= MAX_TYPES)%nat -> (forall cs, cs ∈ cl -> cs ∈ tables_changesets t cfg) ->
  consistent cfg db ->
  run_changesets exec cfg w ctx (map lib_changeset cl) db = (r, db') ->
  consistent cfg db' /\ (forall e, r = Err e -> changelog_refused e = false).
Proof.
  induction cl as [|cs cl IH]; intros db r db' Hlen Hcl Hc; cbn [run_changesets map].
  { by intros [= <- <-]. }
  destruct (run_changeset exec cfg w ctx (lib_changeset cs) db) as [r1 db1] eqn:E1.
  destruct (run_changeset_consistent _ _ _ t cs _ _ _ Hlen (Hcl cs ltac:(left)) Hc E1) as [Hc1 He1].
  destruct r1 as [step|e]; [|intros [= <- <-]; split; [done|by intros e' [= <-]; apply He1]].
  destruct (run_changesets exec cfg w ctx (map lib_changeset cl) db1) as [r2 db2] eqn:E2.
  destruct (IH db1 r2 db2 Hlen ltac:(intros x ?; apply Hcl; by right) Hc1 E2) as [Hc2 He2].
  destruct r2 as [report|e]; intros [= <- <-]; (split; [done|]); [done|].
  intros e' [= <-]. by apply He2.
Qed.

(** The bootstrap creates an empty history and nothing else. *)
Lemma bootstrap_consistent cfg w db r db' :
  consistent cfg db -> bootstrap_history cfg w db = (r, db') ->
  consistent cfg db' /\ (forall e, r = Err e -> changelog_refused e = false).
Proof.
  intros Hc. unfold bootstrap_history, fault.
  destruct (bootstrap_fault w 0); [intros [= <- <-]; split; [done|by intros e [= <-]]|].
  assert (Hsame : forall b (x : option _), x = history db \/ x = Some (default ∅ (history db)) ->
    consistent cfg {| has_schema := true; history := x; has_ingest_failures := b; catalog := catalog db |}).
  { intros b x Hx h v row Hh Hr. simpl in Hh. subst x.
    destruct Hx as [Hx|[= Hx]]; [by eapply Hc|]. destruct (history db) as [h0|] eqn:E; simpl in Hx; subst h.
    - by eapply Hc.
    - by rewrite lookup_empty in Hr. }
  destruct (history_table_name cfg) as [name|e] eqn:En.
  2: { intros [= <- <-]. split; [apply Hsame; by left|]. intros e' [= <-]. revert En.
       unfold history_table_name. destruct (identifier_new _); simpl; intros En; by simplify_eq. }
  destruct (create_received_ingest_failures_table_sql cfg) as [sql|e] eqn:Es.
  2: { intros [= <- <-]. split; [apply Hsame; by left|]. intros e' [= <-]. revert Es.
       unfold create_received_ingest_failures_table_sql, received_ingest_failures_table_name.
       destruct (identifier_new _); simpl; intros Es; by simplify_eq. }
  destruct (bootstrap_fault w 1); [intros [= <- <-]; split; [apply Hsame; by left|by intros e [= <-]]|].
  destruct (bootstrap_fault w 2); intros [= <- <-]; (split; [apply Hsame; by right|by intros e [= <-]]).
Qed.

Lemma migrate_consistent max cfg w ctx t db r db' :
  (length (messages cfg) <= MAX_TYPES)%nat -> consistent cfg db ->
  migrate exec max cfg w ctx (map lib_changeset (tables_changesets t cfg)) db = (r, db') ->
  consistent cfg db' /\ (forall e, r = Err e -> changelog_refused e = false).
Proof.
  intros Hlen Hc. unfold migrate.
  assert (assert_changelog_order (D := Migrations.Db Catalog) (map lib_changeset (tables_changesets t cfg))
    = Ok tt) as ->.
  { unfold assert_changelog_order. rewrite map_map. apply assert_order_Ok. by apply side_in_order. }
  destruct (max <? 2); [intros [= <- <-]; split; [done|by intros e [= <-]]|]. unfold fault.
  destruct (lock_fault w); [intros [= <- <-]; split; [done|by intros e [= <-]]|].
  destruct (acquire_fault w); [intros [= <- <-]; split; [done|by intros e [= <-]]|].
  assert (Hrun : forall r1 db1, run_migrations exec cfg w ctx (map lib_changeset (tables_changesets t cfg)) db
    = (r1, db1) -> consistent cfg db1 /\ (forall e, r1 = Err e -> changelog_refused e = false)).
  { intros r1 db1. unfold run_migrations.
    destruct (bootstrap_history cfg w db) as [rb db0] eqn:Eb.
    destruct (bootstrap_consistent _ _ _ _ _ Hc Eb) as [Hc0 He0].
    destruct rb as [u|e]; [|intros [= <- <-]; split; [done|by intros e' [= <-]; apply He0]].
    intros Hr. by eapply (run_changesets_consistent cfg w ctx t (tables_changesets t cfg)). }
  destruct (run_migrations _ _ _ _ _ _) as [r1 db1]. destruct (Hrun r1 db1 eq_refl) as [Hc1 He1].
  intros [= <- <-]. split; [done|]. unfold release.
  destruct r1 as [a|e1]; [destruct (release_fault w); [by intros e [= <-]|done]|].
  intros e [= <-]. by apply He1.
Qed.

(** A harness never meets its own changelog. Starting from an empty database,
    whatever types a test registers, for sending or for receiving and in which
    order, and whatever fails on the way, every applied version keeps naming the
    changeset it was applied for: no call is refused for the order or the
    checksum of a changeset, and after a successful one every table of the type
    it named is migrated. Versions are allotted for five thousand types. *)
Theorem harness_registers (P : Type) `{KafkaMessage P} (t : Tables) (c : Conditions) (h : Harness)
  (db : TestDb Catalog) (Hfew : (length (messages (base (hn_cfg h))) < MAX_TYPES)%nat)
  (Hc : consistent (base (hn_cfg h)) (td_meta db)) :
  let '(r, (h', db')) := ensure_message exec P t c (h, db) in
  consistent (base (hn_cfg h')) (td_meta db')
  /\ (forall e, r = Err (TSqlx e) -> changelog_refused e = false)
  /\ (forall cfg, r = Ok cfg -> cfg = base (hn_cfg h')
       /\ forall cs, cs ∈ tables_changesets t cfg ->
            recorded (Catalog := Catalog) (td_meta db') (lib_changeset cs)).
Proof.
  unfold ensure_message, mbind, eff_bind, lift, on_deployment. unfold test_core.
  destruct (descriptor_of P) as [d|e]; [|done]. cbn [fst snd].
  destruct (try_with_message (base (hn_cfg h)) d) as [next|e] eqn:Et.
  2: { split_and!; [done| |done]. intros e' [= <-]. revert Et. unfold try_with_message.
       destruct (registered _ _); [|done]. case_bool_decide; [|done]. by intros [= <-]. }
  assert (Hn : (length (messages next) <= MAX_TYPES)%nat /\ consistent next (td_meta db)).
  { revert Et. unfold try_with_message. destruct (registered _ _).
    - case_bool_decide; [done|]. intros [= <-]. split; [lia|done].
    - intros [= <-]. split; [unfold push_message; simpl; rewrite length_app; simpl; lia|].
      eapply consistent_grows; [|done]. intros. by apply changesets_grow. }
  destruct Hn as [Hlen Hcn].
  destruct (migrate exec _ next _ _ _ _) as [r meta] eqn:Em.
  destruct (migrate_consistent _ _ _ _ t _ _ _ Hlen Hcn Em) as [Hc' He].
  destruct r as [report|e]; simpl; (split_and!; [done| |]).
  - done.
  - intros cfg [= <-]. split; [done|]. intros cs Hcs.
    apply migrate_Ok in Em as (_ & _ & db0 & _ & Hrun).
    apply run_changesets_records in Hrun as [Hall _]. apply Hall; [|done].
    apply list_elem_of_In, in_map. by apply list_elem_of_In.
  - intros e' [= <-]. by apply He.
  - done.
Qed.

(** What a test sees of a relay. A capturing harness keeps what it was asked
    to publish before and adds the records of the claimed batch: one for each
    row the statistics count, in enqueue order, with the key a real publisher
    would use. *)
Theorem harness_captures (c : Conditions) (p : CapturingPublisher) (cfg : RelayConfig) (ob : Outbox)
  (redpanda : ClaimedOutboxRow -> result string PublishAck) (stats : RelayStats) (cycle : Relay.Cycle)
  (Hinv : outbox_inv ob)
  (Hrun : relay_once_inner (harness_publish redpanda (Capturing p)) (mark_error c) (clock_now c) cfg
            (held c) (claim_uuid c) None ob = (Ok stats, cycle)) :
  exists batch, after_sends (cy_sent cycle) (Capturing p) = Capturing (p ++ map published_record batch)
  /\ fst (claim_batch (clock_now c) (held c) (worker_id cfg) (lease_for cfg) (batch_limit cfg)
            (claim_uuid c) ob) = Ok batch
  /\ length batch = rs_claimed stats
  /\ StronglySorted Z.lt (map row_order (claimed_rows batch)).
Proof.
  pose proof (relay_accounts (harness_publish redpanda (Capturing p)) (mark_error c) (clock_now c) cfg
    (held c) (claim_uuid c) None ob Hinv) as Hacc. rewrite Hrun in Hacc.
  destruct Hacc as (Hsorted & _ & _ & Hok). destruct (Hok stats eq_refl) as (Hb & Hn & _).
  exists (cy_sent cycle). split_and!; [|done|done|done]. unfold after_sends. by rewrite captured_all.
Qed.
End reliable.

(** ** The model evaluated *)

Module HSample.
#[local] Existing Instance sample_sha.

Definition conditions : Conditions :=
  {| pool_size := 10; weather := MSample.calm; begin_error := None; commit_error := None;
     select_error := None; mark_error := fun _ => None; clock_now := 1; held := Sample.none;
     seen_rows := Sample.all; claim_uuid := 5%N |}.
(** The pool times out when a transaction is opened. *)
Definition no_begin : Conditions :=
  {| pool_size := 10; weather := MSample.calm; begin_error := Some (SqlxOther "pool timed out");
     commit_error := None; select_error := None; mark_error := fun _ => None; clock_now := 1;
     held := Sample.none; seen_rows := Sample.all; claim_uuid := 5%N |}.
Definition nobody : ClaimedOutboxRow -> result string PublishAck := fun _ => Err "no broker".
Definition empty_db : TestDb (list string) :=
  {| td_meta := MSample.fresh; td_outbox := ∅; td_received := ∅ |}.
Definition connected : result TestError Harness * TestDb (list string) :=
  harness_connect MSample.record_sql "relay" "0123" None conditions empty_db.
Definition harness : Harness :=
  match connected.1 with
  | Ok h => h
  | Err _ => {| hn_cfg := resolved_new "relay" "kafkaman"; hn_report := []; hn_publisher := Redpanda |}
  end.

Abbreviation deployment := (Harness * TestDb (list string))%type.
Definition sent : result TestError unit * deployment :=
  harness_enqueue MSample.record_sql conditions (Sample.event 10 "o1" "v1") None (harness, connected.2).
Definition relayed : result TestError RelayStats * deployment :=
  harness_relay_once MSample.record_sql nobody Sample.order_placed conditions sent.2.
Definition got : result TestError bool * deployment :=
  harness_insert_received MSample.record_sql conditions (Sample.event 10 "o1" "v1") 0 0 (Some "o1") None
    relayed.2.

Definition versions (w : deployment) : list Z :=
  match history (td_meta w.2) with Some h => merge_sort Z.le (map fst (map_to_list h)) | None => [] end.

Example a_test :
  versions (harness, connected.2) = [1]
  /\ sent.1 = Ok tt /\ versions sent.2 = [1; 2; 20000]
  /\ match relayed.1 with Ok stats => rs_published stats | Err _ => 0%nat end = 1%nat
  /\ match published_on "orders" relayed.2.1 with
     | Returned rs => map pr_payload rs
     | Panicked _ => []
     end = ["v1"]
  /\ (assert_status MSample.record_sql Sample.order_placed conditions 10 Published relayed.2).1 = Ok tt
  /\ (assert_status MSample.record_sql Sample.order_placed conditions 10 Pending relayed.2).1
     = Err (UnexpectedStatus 10 Pending Published)
  /\ got.1 = Ok true /\ versions got.2 = [1; 2; 10000; 10001; 20000]
  /\ (harness_enqueue MSample.record_sql no_begin (Sample.event 11 "o1" "v2") None got.2).1
     = Err (TPool (SqlxOther "pool timed out")).
Proof. vm_compute. split_and!; reflexivity. Qed.
End HSample.

(** The changesets of both sides collide at the five thousand and first type:
    its received table would take the version of the first ordering changeset. *)
Example versions_collide (d0 d : MessageDescriptor) (cfg : ResolvedConfig) :
  messages cfg !! 0%nat = Some d0 -> messages cfg !! MAX_TYPES = Some d ->
  CreateReceivedTable 20000 d ∈ tables_changesets TReceivedAndCache cfg
  /\ AddOutboxEnqueueOrder 20000 d0 ∈ tables_changesets TOutbox cfg.
Proof.
  intros H0 Hd. split; apply elem_of_changesets; right.
  - exists MAX_TYPES, d. split; [done|]. left. f_equal.
  - exists 0%nat, d0. split; [done|]. by right.
Qed.
